(** * Filename reconciliation engine of [mirror]: duplicates and XMP sidecars

    A shallow embedding of [cleanFilename], [handleDuplicates] and
    [handleXMPRenaming] (the tool operations of the Go program), over an
    explicit model of the directory tree, with the properties of the
    reconciliation engine stated and settled against it. *)

From Stdlib Require Import ZArith Bool Ascii String List Lia DecimalString.
From Stdlib Require OrderedTypeEx.
From stdpp Require Import base tactics option list strings gmap.

Local Open Scope string_scope.
Local Open Scope Z_scope.

(** ** Strings: the pieces of [strings] and [path/filepath] the tool uses *)

Module Str.

(** ASCII decimal digit, the class [\d] of Go's regexp (RE2) syntax. *)
Definition is_digit (c : ascii) : bool :=
  (48 <=? nat_of_ascii c)%nat && (nat_of_ascii c <=? 57)%nat.

(** [strings.Contains(s, string(c))] for a one-character needle. *)
Fixpoint ContainsChar (s : string) (c : ascii) : bool :=
  match s with
  | EmptyString => false
  | String a t => Ascii.eqb a c || ContainsChar t c
  end.

(** [strings.HasSuffix]:
    [len(s) >= len(suffix) && s[len(s)-len(suffix):] == suffix]. *)
Definition HasSuffix (s suffix : string) : bool :=
  (String.length suffix <=? String.length s)%nat
  && String.eqb (substring (String.length s - String.length suffix)
                           (String.length suffix) s) suffix.

(** [strings.TrimSuffix]: [s] without the suffix when it has it. *)
Definition TrimSuffix (s suffix : string) : string :=
  if HasSuffix s suffix
  then substring 0 (String.length s - String.length suffix) s
  else s.

(** [filepath.Ext]: scanning from the end and stopping at a separator, the
    text from the last dot on; empty when there is no dot. *)
Fixpoint Ext (s : string) : string :=
  match s with
  | EmptyString => EmptyString
  | String c t =>
      match Ext t with
      | EmptyString =>
          if ContainsChar t "/" then EmptyString
          else if Ascii.eqb c "." then s else EmptyString
      | e => e
      end
  end.

End Str.

(** ** NameNormalizer: [cleanFilename]

    [regexp.MustCompile(` ?\(\d+\)`).ReplaceAllString(filename, "")].
    The pattern holds ASCII characters only, so matching bytes and matching
    runes agree.  At a given start the pattern has at most one match: the
    optional space is taken when present (without it the next character
    would have to be the parenthesis), and the digit run is followed by a
    closing parenthesis, which is not a digit. *)

Module Normalizer.
Import Str.

(** The rest of [s] after its leading run of digits. *)
Fixpoint skip_digits (s : string) : string :=
  match s with
  | String c t => if is_digit c then skip_digits t else s
  | EmptyString => s
  end.

(** [\(\d+\)] anchored at the head of [s]: what follows the match. *)
Definition match_group (s : string) : option string :=
  match s with
  | String a (String d t) =>
      if Ascii.eqb a "(" && is_digit d then
        match skip_digits t with
        | String b r => if Ascii.eqb b ")" then Some r else None
        | EmptyString => None
        end
      else None
  | _ => None
  end.

(** [ ?\(\d+\)] anchored at the head of [s]. *)
Definition match_marker (s : string) : option string :=
  match s with
  | String a t => if Ascii.eqb a " " then match_group t else match_group s
  | EmptyString => None
  end.

(** [ReplaceAllString] with the empty replacement: matches are searched
    left to right, each search resuming where the previous match ended;
    unmatched characters are copied.  [fuel] bounds the loop; one more than
    the length of the input is always enough. *)
Fixpoint replace_all (fuel : nat) (s : string) : string :=
  match fuel with
  | O => EmptyString
  | S fuel' =>
      match match_marker s with
      | Some r => replace_all fuel' r
      | None =>
          match s with
          | EmptyString => EmptyString
          | String c t => String c (replace_all fuel' t)
          end
      end
  end.

Definition cleanFilename (filename : string) : string :=
  replace_all (S (String.length filename)) filename.

End Normalizer.

(** ** Markers that sit inside a parenthesised group

    Removing a marker can bring the two halves of a further marker
    together, as in [((1)1)].  This happens only where a marker starts
    directly after an opening parenthesis and a (possibly empty) run of
    digits; [nested] finds such a place. *)

Module Nesting.
Import Str Normalizer.

(** Where a scan stands with respect to a group [\(\d+\)]: outside,
    just after the opening parenthesis, or after it and some digits. *)
Inductive scan := Outside | Opened | Digits.

Definition scan_step (q : scan) (c : ascii) : scan :=
  if Ascii.eqb c "(" then Opened
  else if is_digit c then
    match q with Outside => Outside | _ => Digits end
  else Outside.

Definition is_open (q : scan) : bool :=
  match q with Outside => false | _ => true end.

Definition starts_marker (s : string) : bool :=
  match match_marker s with Some _ => true | None => false end.

Fixpoint nested_from (q : scan) (s : string) : bool :=
  match s with
  | EmptyString => false
  | String c t =>
      (is_open q && starts_marker s) || nested_from (scan_step q c) t
  end.

Definition nested (s : string) : bool := nested_from Outside s.

(** A group is completed somewhere in [s], read from state [q]. *)
Fixpoint accepts (q : scan) (s : string) : bool :=
  match s with
  | EmptyString => false
  | String c t =>
      match q with Digits => Ascii.eqb c ")" | _ => false end
      || accepts (scan_step q c) t
  end.

(** The text [s] right after the scan reached [q] closes the open group. *)
Definition closes_digits (s : string) : bool :=
  match skip_digits s with
  | String b _ => Ascii.eqb b ")"
  | EmptyString => false
  end.

Definition closes (q : scan) (s : string) : bool :=
  match q with
  | Outside => false
  | Opened =>
      match s with
      | String d t => is_digit d && closes_digits t
      | EmptyString => false
      end
  | Digits => closes_digits s
  end.

End Nesting.

Import Str Normalizer Nesting.

(** ** The directory tree and the [os] calls

    A path is the list of its components below the root of the file system
    (a cleaned absolute path; relative arguments are read as resolved
    against the working directory, and symbolic links are not modelled).
    The tree is the listing of its entries in lexical order of their
    component lists, which is the order in which [filepath.WalkDir] visits
    them ([os.ReadDir] sorts each directory by name) and, restricted to one
    directory, the order of [os.ReadDir]. *)

Module FS.

Abbreviation path := (list string).

(** What the tool reads of an [fs.FileInfo]. *)
Record FileInfo := mkInfo { IsDir : bool; Size : Z }.

(** What the tool reads of an [fs.DirEntry]. *)
Record DirEntry := mkEntry { Name : string; EntryIsDir : bool }.

Abbreviation fsys := (list (path * FileInfo)).

Fixpoint path_eqb (p q : path) : bool :=
  match p, q with
  | [], [] => true
  | a :: p', b :: q' => String.eqb a b && path_eqb p' q'
  | _, _ => false
  end.

(** Lexical order on component lists; a proper prefix comes first. *)
Fixpoint path_ltb (p q : path) : bool :=
  match p, q with
  | [], [] => false
  | [], _ :: _ => true
  | _ :: _, [] => false
  | a :: p', b :: q' =>
      match String.compare a b with
      | Lt => true
      | Eq => path_ltb p' q'
      | Gt => false
      end
  end.

Fixpoint is_prefix (p q : path) : bool :=
  match p, q with
  | [], _ => true
  | a :: p', b :: q' => String.eqb a b && is_prefix p' q'
  | _ :: _, [] => false
  end.

(** [filepath.Dir] and [filepath.Base] of a cleaned path. *)
Definition Dir (p : path) : path := removelast p.
Definition Base (p : path) : string := List.last p "/".

(** [filepath.Join(dir, name)] for a [name] without separator: the result
    is cleaned, so an empty name or a dot is dropped and a double dot
    removes the last component. *)
Definition Join (dir : path) (name : string) : path :=
  if String.eqb name "" then dir
  else if String.eqb name "." then dir
  else if String.eqb name ".." then removelast dir
  else dir ++ [name].

(** [filepath.Rel(base, targ)] on component lists. *)
Fixpoint Rel (base targ : path) : path :=
  match base, targ with
  | b :: base', t :: targ' =>
      if String.eqb b t then Rel base' targ'
      else List.repeat ".." (List.length base) ++ targ
  | [], _ => targ
  | _ :: _, [] => List.repeat ".." (List.length base)
  end.

Definition is_child (dir p : path) : bool :=
  match p with
  | [] => false
  | _ :: _ => path_eqb (removelast p) dir
  end.

(** [os.Stat]: [None] is the error return. *)
Definition Stat (fs : fsys) (p : path) : option FileInfo :=
  snd <$> List.find (fun e => path_eqb (fst e) p) fs.

(** [os.ReadDir]: the entries of one directory, by name; no entry (and an
    ignored error) when the directory does not exist. *)
Definition ReadDir (fs : fsys) (dir : path) : list DirEntry :=
  List.map (fun e => mkEntry (Base (fst e)) (IsDir (snd e)))
           (List.filter (fun e => is_child dir (fst e)) fs).

(** [os.Remove]: fails on a missing path and on a directory that is not
    empty.  A system can refuse the call on other grounds (permissions, a
    file in use): the handlers under such refusals are those of
    [Refusing]. *)
Definition Remove (fs : fsys) (p : path) : option fsys :=
  match Stat fs p with
  | None => None
  | Some info =>
      if IsDir info && negb (Nat.eqb (List.length (ReadDir fs p)) 0) then None
      else Some (List.filter (fun e => negb (path_eqb (fst e) p)) fs)
  end.

Fixpoint insert_entry (e : path * FileInfo) (fs : fsys) : fsys :=
  match fs with
  | [] => [e]
  | e' :: fs' =>
      if path_ltb (fst e) (fst e') then e :: fs
      else if path_eqb (fst e) (fst e') then e :: fs'
      else e' :: insert_entry e fs'
  end.

(** [os.Rename] of a file: the source must exist, the parent of the
    destination must be a directory and the destination must not be one;
    an existing destination file is replaced.  Moving a directory is
    reported as an error here: the tool records only non-directory entries
    for renaming.  As for [Remove], the grounds on which a system refuses
    the call beyond these are left to [Refusing]. *)
Definition Rename (fs : fsys) (src dst : path) : option fsys :=
  match Stat fs src, Stat fs (Dir dst), Stat fs dst with
  | Some info, Some parent, target =>
      if IsDir info || negb (IsDir parent)
         || match target with Some t => IsDir t | None => false end
      then None
      else if path_eqb src dst then Some fs
      else Some (insert_entry (dst, info)
                   (List.filter (fun e => negb (path_eqb (fst e) src)) fs))
  | _, _, _ => None
  end.

(** [filepath.WalkDir(root, fn)]: the entries [fn] is called on, in order,
    with the [fs.DirEntry] handed to it.  Each directory is read when the
    walk enters it; the tool removes only the file it is visiting, whose
    directory has been read by then, so the visited entries are those of
    the tree at the start.  No read error is modelled: [fn] always receives
    a nil [err]. *)
Definition WalkDir (fs : fsys) (root : path) : list (path * DirEntry) :=
  List.map (fun e => (fst e, mkEntry (Base (fst e)) (IsDir (snd e))))
           (List.filter (fun e => is_prefix root (fst e)) fs).

(** Names a directory entry can have. *)
Definition valid_name (n : string) : bool :=
  negb (String.eqb n "") && negb (String.eqb n ".")
  && negb (String.eqb n "..") && negb (ContainsChar n "/").

Fixpoint sorted_paths (ps : list path) : bool :=
  match ps with
  | p :: ((q :: _) as ps') => path_ltb p q && sorted_paths ps'
  | _ => true
  end.

(** A listing that is the snapshot of a real tree: the root directory
    comes first, entries are in strict lexical order, names are valid and
    every other entry lies in a directory of the listing. *)
Definition wf_fs (fs : fsys) : bool :=
  match fs with
  | ([], info) :: _ => IsDir info
  | _ => false
  end
  && sorted_paths (List.map fst fs)
  && List.forallb (fun e => List.forallb valid_name (fst e)) fs
  && List.forallb (fun e =>
       match fst e with
       | [] => true
       | _ :: _ => match Stat fs (Dir (fst e)) with
                   | Some i => IsDir i
                   | None => false
                   end
       end) fs.

End FS.

Import FS.

(** ** Output and run state *)

Module Report.

(** The mutating calls a run issues, in order, failed ones included. *)
Inductive syscall :=
| SysRemove (p : path)
| SysRename (src dst : path).

(** One constructor for each [fmt.Printf] / [fmt.Fprintf(os.Stderr, ...)]
    of the two handlers, holding the arguments before formatting. *)
Inductive line :=
| LPair (dir originalPath duplicatePath : path) (size : Z)
| LRemoved (p : path)
| LErrRemoving (p : path)
| LOrphan (dir p : path)
| LDestOrphan (dir p : path)
| LSkip (dir p dest : path)
| LRename (dir p dest : path)
| LRenamed (src dst : path)
| LErrRenaming (src : path)
| LNoDuplicates
| LFoundPairs (n : Z)
| LRemovedAll
| LNoXMP
| LFoundXMP (n : Z)
| LRenamedAll
| LSkippedXMP (n : Z).

Definition show_Z (z : Z) : string := NilEmpty.string_of_int (Z.to_int z).

(** A path as the program was given it, and a result of [filepath.Rel]. *)
Definition show_path (p : path) : string := "/" +:+ String.concat "/" p.
Definition show_rel (dir p : path) : string :=
  match Rel dir p with
  | [] => "."
  | r => String.concat "/" r
  end.

(** The text of a line, without its newline; for the two error lines the
    text up to the system's error message. *)
Definition render (l : line) : string :=
  match l with
  | LPair dir o d n =>
      show_rel dir o +:+ " <-> " +:+ show_rel dir d
      +:+ " (Size: " +:+ show_Z n +:+ " bytes)"
  | LRemoved p => "  Removed: " +:+ show_path p
  | LErrRemoving p => "Error removing " +:+ show_path p +:+ ": "
  | LOrphan dir p =>
      "[REMOVE] " +:+ show_rel dir p +:+ " (orphaned XMP, no base file exists)"
  | LDestOrphan dir p =>
      "[REMOVE] " +:+ show_rel dir p +:+ " (orphaned XMP, base doesn't exist)"
  | LSkip dir p d =>
      "[SKIP] " +:+ show_rel dir p +:+ " (destination already exists: "
      +:+ show_rel dir d +:+ ")"
  | LRename dir p d => show_rel dir p +:+ " -> " +:+ show_rel dir d
  | LRenamed s d => "  Renamed: " +:+ show_path s +:+ " to " +:+ show_path d
  | LErrRenaming s => "Error renaming " +:+ show_path s +:+ ": "
  | LNoDuplicates => "No duplicate files found."
  | LFoundPairs n => "Found " +:+ show_Z n +:+ " duplicate pair(s)."
  | LRemovedAll => "Removed all duplicates."
  | LNoXMP => "No XMP files need renaming."
  | LFoundXMP n => "Found " +:+ show_Z n +:+ " XMP file(s) to rename."
  | LRenamedAll => "Renamed all XMP files to match their image files."
  | LSkippedXMP n =>
      "Skipped " +:+ show_Z n +:+ " XMP file(s) (destination already exists)."
  end.

(** The lines that announce a decision on an entry, as opposed to the
    outcome of executing it and to the summary. *)
Definition is_decision (l : line) : bool :=
  match l with
  | LPair _ _ _ _ | LOrphan _ _ | LDestOrphan _ _
  | LSkip _ _ _ | LRename _ _ _ => true
  | _ => false
  end.

(** The tree, the calls issued, what was printed, and the local variables
    of a handler that outlive one visit ([foundChanges], [skipped],
    [xmpFiles]; the counters stay below the number of entries, far from
    the range of [int]). *)
Record state := mkState {
  files : fsys;
  calls : list syscall;
  output : list line;
  foundChanges : Z;
  skipped : Z;
  xmpFiles : gmap path path
}.

Definition start (fs : fsys) : state := mkState fs [] [] 0 0 ∅.

Definition print (l : line) (st : state) : state :=
  mkState (files st) (calls st) (output st ++ [l])
          (foundChanges st) (skipped st) (xmpFiles st).

Definition incr_found (st : state) : state :=
  mkState (files st) (calls st) (output st)
          (foundChanges st + 1) (skipped st) (xmpFiles st).

Definition incr_skipped (st : state) : state :=
  mkState (files st) (calls st) (output st)
          (foundChanges st) (skipped st + 1) (xmpFiles st).

Definition record_rename (src dst : path) (st : state) : state :=
  mkState (files st) (calls st) (output st)
          (foundChanges st) (skipped st) (<[src := dst]> (xmpFiles st)).

(** [os.Remove(p)]: the call is logged; on success the tree changes and
    the result is [true] ([err == nil]). *)
Definition os_Remove (p : path) (st : state) : bool * state :=
  match Remove (files st) p with
  | Some fs' =>
      (true, mkState fs' (calls st ++ [SysRemove p]) (output st)
                     (foundChanges st) (skipped st) (xmpFiles st))
  | None =>
      (false, mkState (files st) (calls st ++ [SysRemove p]) (output st)
                      (foundChanges st) (skipped st) (xmpFiles st))
  end.

Definition os_Rename (src dst : path) (st : state) : bool * state :=
  match Rename (files st) src dst with
  | Some fs' =>
      (true, mkState fs' (calls st ++ [SysRename src dst]) (output st)
                     (foundChanges st) (skipped st) (xmpFiles st))
  | None =>
      (false, mkState (files st) (calls st ++ [SysRename src dst]) (output st)
                      (foundChanges st) (skipped st) (xmpFiles st))
  end.

Definition decisions (st : state) : list line :=
  List.filter is_decision (output st).

End Report.

Import Report.

(** ** DuplicatePairResolver: [handleDuplicates] *)

Module Duplicates.

(** What is done with a file found to be a duplicate. *)
Definition paired (dir : path) (apply : bool) (originalPath path : path)
    (size : Z) (st : state) : state :=
  let st := print (LPair dir originalPath path size) (incr_found st) in
  if apply then
    match os_Remove path st with
    | (false, st) => print (LErrRemoving path) st
    | (true, st) => print (LRemoved path) st
    end
  else st.

(** The callback handed to [filepath.WalkDir]. *)
Definition visit (dir : path) (apply : bool)
    (st : state) (e : path * DirEntry) : state :=
  let '(path, d) := e in
  if EntryIsDir d then st else
  let baseName := Name d in
  if HasSuffix baseName ".xmp" then st else
  if negb (ContainsChar baseName "(") then st else
  let originalName := cleanFilename baseName in
  if String.eqb originalName baseName then st else
  let originalPath := Join (Dir path) originalName in
  match Stat (files st) originalPath with
  | None => st
  | Some _ =>
      match Stat (files st) path, Stat (files st) originalPath with
      | Some info1, Some info2 =>
          if Size info1 =? Size info2
          then paired dir apply originalPath path (Size info1) st
          else st
      | _, _ => st
      end
  end.

Definition handleDuplicates (dir : path) (apply : bool) (fs : fsys) : state :=
  let st := List.fold_left (visit dir apply) (WalkDir fs dir) (start fs) in
  if foundChanges st =? 0 then print LNoDuplicates st
  else
    let st := print (LFoundPairs (foundChanges st)) st in
    if apply then print LRemovedAll st else st.

End Duplicates.

(** ** SidecarBinder: [handleXMPRenaming] *)

Module Sidecar.

(** ASCII letters folded to lower case: [strings.EqualFold] on names made
    of ASCII characters, used to run the handler on concrete trees. *)
Definition lower (c : ascii) : ascii :=
  let n := nat_of_ascii c in
  if (65 <=? n)%nat && (n <=? 90)%nat then ascii_of_nat (n + 32) else c.

Fixpoint lower_string (s : string) : string :=
  match s with
  | EmptyString => EmptyString
  | String c t => String (lower c) (lower_string t)
  end.

Definition EqualFoldASCII (s t : string) : bool :=
  String.eqb (lower_string s) (lower_string t).

Section Binder.

(** [strings.EqualFold], equality under Unicode simple case folding, is
    taken as given: nothing below depends on its table. *)
Variable EqualFold : string -> string -> bool.

(** The test the three loops over [entries] share: the entry is a file
    that is not a sidecar, has the extension the sidecar declares, and its
    cleaned stem is the sidecar's. *)
Definition base_match (imageExt cleanBaseOnly : string) (entry : DirEntry) : bool :=
  negb (EntryIsDir entry || HasSuffix (Name entry) ".xmp")
  && EqualFold (Ext (Name entry)) imageExt
  && EqualFold
       (cleanFilename (TrimSuffix (Name entry) (Ext (Name entry))))
       cleanBaseOnly.

Definition numbered (entry : DirEntry) : bool := ContainsChar (Name entry) "(".

(** First pass: [numberedImageExists] and [cleanImageExists]. *)
Definition numberedImageExists (imageExt cleanBaseOnly : string)
    (entries : list DirEntry) : bool :=
  List.existsb (fun e => base_match imageExt cleanBaseOnly e && numbered e) entries.

Definition cleanImageExists (imageExt cleanBaseOnly : string)
    (entries : list DirEntry) : bool :=
  List.existsb (fun e => base_match imageExt cleanBaseOnly e && negb (numbered e))
               entries.

(** Second and third pass: [foundImage], [None] for the empty string. *)
Definition findImage (dirPath : path) (imageExt cleanBaseOnly : string)
    (entries : list DirEntry) : option path :=
  match List.find (fun e => base_match imageExt cleanBaseOnly e && numbered e)
                  entries with
  | Some e => Some (Join dirPath (Name e))
  | None =>
      match List.find (fun e => base_match imageExt cleanBaseOnly e
                                && negb (numbered e)) entries with
      | Some e => Some (Join dirPath (Name e))
      | None => None
      end
  end.

(** Both places that report an orphaned sidecar. *)
Definition orphaned (dir : path) (apply : bool) (path : path) (st : state) : state :=
  let st := print (LOrphan dir path) (incr_found st) in
  if apply then
    match os_Remove path st with
    | (false, st) => print (LErrRemoving path) st
    | (true, st) => st
    end
  else st.

(** The code after the second look at [exactImagePath]: the sidecar is
    compared with the name it should have. *)
Definition bind (dir : path) (apply : bool) (path dirPath foundImage : path)
    (st : state) : state :=
  let correctXMPName := Base foundImage +:+ ".xmp" in
  let correctXMPPath := Join dirPath correctXMPName in
  if path_eqb path correctXMPPath then st else
  let entries := ReadDir (files st) dirPath in
  let existingFile :=
    match List.find (fun e => EqualFold (Name e) correctXMPName) entries with
    | Some e => Name e
    | None => ""
    end in
  if negb (String.eqb existingFile "") then
    if negb (String.eqb existingFile correctXMPName) then st
    else
      match Stat (files st) foundImage with
      | None =>
          if apply then
            match os_Remove correctXMPPath st with
            | (false, st) => print (LErrRemoving correctXMPPath) st
            | (true, st) => print (LDestOrphan dir correctXMPPath) st
            end
          else print (LDestOrphan dir correctXMPPath) (incr_found st)
      | Some _ => print (LSkip dir path correctXMPPath) (incr_skipped st)
      end
  else
    record_rename path correctXMPPath
      (print (LRename dir path correctXMPPath) (incr_found st)).

(** The callback handed to [filepath.WalkDir]. *)
Definition visit (dir : path) (apply : bool)
    (st : state) (e : path * DirEntry) : state :=
  let '(path, d) := e in
  if EntryIsDir d then st else
  let baseName := Name d in
  if negb (HasSuffix baseName ".xmp") then st else
  let dirPath := Dir path in
  let imageBase := TrimSuffix baseName ".xmp" in
  let cleanBase := cleanFilename imageBase in
  let imageExt := Ext imageBase in
  let cleanBaseOnly := TrimSuffix cleanBase (Ext cleanBase) in
  let exactImagePath := Join dirPath imageBase in
  match Stat (files st) exactImagePath with
  | Some _ => st
  | None =>
      let entries := ReadDir (files st) dirPath in
      if cleanImageExists imageExt cleanBaseOnly entries
         && numberedImageExists imageExt cleanBaseOnly entries then st
      else
        match findImage dirPath imageExt cleanBaseOnly entries with
        | None => orphaned dir apply path st
        | Some foundImage =>
            match Stat (files st) exactImagePath with
            | None => orphaned dir apply path st
            | Some _ => bind dir apply path dirPath foundImage st
            end
        end
  end.

(** The loop over [xmpFiles] after the walk; Go leaves the order of a map
    iteration open, the order of [map_to_list] stands for it. *)
Definition rename_one (st : state) (r : path * path) : state :=
  match os_Rename (fst r) (snd r) st with
  | (false, st) => print (LErrRenaming (fst r)) st
  | (true, st) => print (LRenamed (fst r) (snd r)) st
  end.

Definition handleXMPRenaming (dir : path) (apply : bool) (fs : fsys) : state :=
  let st := List.fold_left (visit dir apply) (WalkDir fs dir) (start fs) in
  let st :=
    if apply then List.fold_left rename_one (map_to_list (xmpFiles st)) st
    else st in
  if (foundChanges st =? 0) && (skipped st =? 0) then print LNoXMP st
  else
    let st :=
      if 0 <? foundChanges st then
        let st := print (LFoundXMP (foundChanges st)) st in
        if apply then print LRenamedAll st else st
      else st in
    if 0 <? skipped st then print (LSkippedXMP (skipped st)) st else st.

End Binder.

End Sidecar.

(** ** Directories used as examples *)

Module Examples.

Definition file (p : path) (size : Z) : path * FileInfo := (p, mkInfo false size).
Definition folder (p : path) : path * FileInfo := (p, mkInfo true 4096).

(** [photo.jpg] and [photo (1).jpg], 500 bytes each. *)
Definition photos : fsys :=
  [ folder []; file ["photo (1).jpg"] 500; file ["photo.jpg"] 500 ].

(** The same two names with sizes 100 and 101. *)
Definition photos_sizes : fsys :=
  [ folder []; file ["photo (1).jpg"] 101; file ["photo.jpg"] 100 ].

(** A file of 4096 bytes next to a directory with its cleaned name. *)
Definition beside_folder : fsys :=
  [ folder []; folder ["a"]; file ["a (1)"] 4096 ].

(** Three names in a chain: cleaning the last gives the second, cleaning
    the second gives the first. *)
Definition chain : fsys :=
  [ folder []; file ["a"] 5; file ["a (1)"] 5; file ["a(3) (1(2))"] 5 ].

(** A sidecar of a sidecar. *)
Definition double_sidecar : fsys :=
  [ folder []; file ["a.xmp"] 7; file ["a.xmp.xmp"] 9 ].

Definition already_correct : fsys :=
  [ folder []; file ["a (2).mp4"] 10; file ["a (2).mp4.xmp"] 3 ].

Definition ambiguous : fsys :=
  [ folder []; file ["a (1).mp4"] 10; file ["a (2).mp4.xmp"] 3;
    file ["a.mp4"] 10 ].

(** A sibling whose name has parentheses that are no marker. *)
Definition parenthesised : fsys :=
  [ folder []; file ["a(x) (1).mp4"] 10; file ["a(x) (2).mp4.xmp"] 3;
    file ["a(x).mp4"] 10 ].

(** A sidecar whose only candidate is a numbered variant. *)
Definition numbered_only : fsys :=
  [ folder []; file ["a (1).mp4"] 10; file ["a (2).mp4.xmp"] 3 ].

Definition orphan : fsys :=
  [ folder []; file ["b.png.xmp"] 3; file ["c.png"] 10 ].

(** Three names of which the second, cleaned once, gives the third, and
    the third, cleaned, gives the first. *)
Definition nested_marker : fsys :=
  [ folder []; file ["x"] 5; file ["x((1)1)"] 5; file ["x(1)"] 5 ].

(** An orphaned sidecar two levels below the root. *)
Definition orphan_below : fsys :=
  [ folder []; folder ["photos"]; folder ["photos"; "2019"];
    file ["photos"; "2019"; "b.png.xmp"] 3; file ["photos"; "2019"; "c.png"] 10 ].

Definition end_to_end : fsys :=
  [ folder []; file ["img (1).jpg"] 20; file ["img.jpg"] 20;
    file ["img.jpg.xmp"] 3; file ["orphan.xmp"] 3 ].

End Examples.

(** ** Vocabulary of the properties *)

Module Decisions.
Import Sidecar.

(** The walked entry is a file outside the sidecar class whose name holds
    a disambiguation marker. *)
Definition marked_file (e : path * DirEntry) : bool :=
  negb (EntryIsDir (snd e)) && negb (HasSuffix (Name (snd e)) ".xmp")
  && negb (String.eqb (cleanFilename (Name (snd e))) (Name (snd e))).

(** [originalPath] of a walked entry. *)
Definition original_of (e : path * DirEntry) : path :=
  Join (Dir (fst e)) (cleanFilename (Name (snd e))).

(** The walked entry is a sidecar. *)
Definition sidecar_file (e : path * DirEntry) : bool :=
  negb (EntryIsDir (snd e)) && HasSuffix (Name (snd e)) ".xmp".

(** [exactImagePath] of a walked entry. *)
Definition literal_base_of (e : path * DirEntry) : path :=
  Join (Dir (fst e)) (TrimSuffix (Name (snd e)) ".xmp").



(** The pairs announced by a run: original and duplicate. *)
Definition pairs (out : list line) : list (path * path) :=
  List.flat_map (fun l =>
    match l with
    | LPair _ o d _ => [(o, d)]
    | _ => []
    end) out.

(** The operations the sidecar handler may issue: on sidecars only. *)
Definition on_sidecars (c : syscall) : bool :=
  match c with
  | SysRemove p => HasSuffix (Base p) ".xmp"
  | SysRename s d => HasSuffix (Base s) ".xmp" && HasSuffix (Base d) ".xmp"
  end.

(** The operations the duplicate handler may issue: removals outside the
    sidecar class. *)
Definition off_sidecars (c : syscall) : bool :=
  match c with
  | SysRemove p => negb (HasSuffix (Base p) ".xmp")
  | SysRename _ _ => false
  end.

Definition is_rename (c : syscall) : bool :=
  match c with SysRename _ _ => true | SysRemove _ => false end.

(** The size printed when the visit of [e] in the tree [fs] announces a
    pair: [e] is a marked file, [Stat] succeeds on its original and on
    itself, and the two sizes agree. *)
Definition pair_size (fs : fsys) (e : path * DirEntry) : option Z :=
  if marked_file e then
    match Stat fs (original_of e), Stat fs (fst e) with
    | Some info2, Some info1 =>
        if Size info1 =? Size info2 then Some (Size info1) else None
    | _, _ => None
    end
  else None.

(** The entries of the sidecar's directory that pass the shared test. *)
Definition candidates (EqualFold : string -> string -> bool)
    (fs : fsys) (e : path * DirEntry) : list DirEntry :=
  let imageBase := TrimSuffix (Name (snd e)) ".xmp" in
  let cleanBase := cleanFilename imageBase in
  List.filter
    (base_match EqualFold (Ext imageBase) (TrimSuffix cleanBase (Ext cleanBase)))
    (ReadDir fs (Dir (fst e))).

(** The visit of [e] in the tree [fs] reports an orphan: [e] is a sidecar,
    [Stat] fails on its literal base, and its candidates are not of both
    kinds. *)
Definition is_orphan (EqualFold : string -> string -> bool)
    (fs : fsys) (e : path * DirEntry) : bool :=
  sidecar_file e
  && match Stat fs (literal_base_of e) with Some _ => false | None => true end
  && negb (List.existsb (fun c => negb (numbered c)) (candidates EqualFold fs e)
           && List.existsb numbered (candidates EqualFold fs e)).

(** What holds of a run of the duplicate handler at every point. *)
Definition dup_invariant (apply : bool) (fs : fsys) (st : state) : Prop :=
  calls st = (if apply
              then List.map (fun pr => SysRemove (snd pr)) (pairs (output st))
              else [])
  /\ (apply = false -> files st = fs)
  /\ List.Forall (fun pr =>
       fst pr <> snd pr
       /\ cleanFilename (Base (snd pr)) <> Base (snd pr)
       /\ HasSuffix (Base (snd pr)) ".xmp" = false
       /\ fst pr = Join (Dir (snd pr)) (cleanFilename (Base (snd pr))))
       (pairs (output st))
  /\ (forall q, cleanFilename (Base q) = Base q ->
                Stat (files st) q = Stat fs q).

(** The lines only the code after the second look at the literal base
    prints, and the lines of the renaming loop. *)
Definition is_bind_line (l : line) : bool :=
  match l with
  | LDestOrphan _ _ | LSkip _ _ _ | LRename _ _ _
  | LRenamed _ _ | LErrRenaming _ => true
  | _ => false
  end.

(** What holds of a run of the sidecar handler at every point. *)
Definition xmp_invariant (apply : bool) (fs : fsys) (st : state) : Prop :=
  xmpFiles st = ∅
  /\ skipped st = 0
  /\ (apply = false -> files st = fs /\ calls st = [])
  /\ List.Forall (fun c => exists p,
       c = SysRemove p /\ HasSuffix (Base p) ".xmp" = true) (calls st)
  /\ List.Forall (fun l => is_bind_line l = false) (output st)
  /\ (forall q, HasSuffix (Base q) ".xmp" = false ->
                Stat (files st) q = Stat fs q).

End Decisions.

(** ** Vocabulary of the further properties *)

Module Shapes.

(** Some suffix of the name starts with a group [\(\d+\)]: the name holds
    a parenthesised run of digits. *)
Fixpoint contains_group (s : string) : bool :=
  match match_group s with
  | Some _ => true
  | None =>
      match s with
      | EmptyString => false
      | String _ t => contains_group t
      end
  end.

(** Only decimal digits. *)
Fixpoint all_digits (s : string) : bool :=
  match s with
  | EmptyString => true
  | String c t => is_digit c && all_digits t
  end.

End Shapes.

Module Outcomes.

(** The lines that report a failed call. *)
Definition is_error_line (l : line) : bool :=
  match l with
  | LErrRemoving _ | LErrRenaming _ => true
  | _ => false
  end.

(** The sidecars reported orphaned by a run. *)
Definition orphans (out : list line) : list path :=
  List.flat_map (fun l =>
    match l with
    | LOrphan _ p => [p]
    | _ => []
    end) out.

(** A call of the handlers on the tree below [dir]: a removal of a path
    that has [dir] for prefix. *)
Definition removes_below (dir : path) (c : syscall) : bool :=
  match c with
  | SysRemove p => is_prefix dir p
  | SysRename _ _ => false
  end.

(** The lines of the two summaries. *)
Definition is_summary (l : line) : bool :=
  match l with
  | LNoDuplicates | LFoundPairs _ | LRemovedAll
  | LNoXMP | LFoundXMP _ | LRenamedAll | LSkippedXMP _ => true
  | _ => false
  end.

(** What a line of the duplicate handler may say when [count] pairs were
    announced. *)
Definition dup_line_ok (count : Z) (l : line) : Prop :=
  match l with
  | LFoundPairs n => n = count /\ 0 < count
  | LNoDuplicates => count = 0
  | LRemovedAll => 0 < count
  | LNoXMP | LFoundXMP _ | LRenamedAll | LSkippedXMP _ => False
  | _ => True
  end.

(** What a line of the sidecar handler may say when [count] orphans were
    reported. *)
Definition xmp_line_ok (count : Z) (l : line) : Prop :=
  match l with
  | LFoundXMP n => n = count /\ 0 < count
  | LNoXMP => count = 0
  | LRenamedAll => 0 < count
  | LNoDuplicates | LFoundPairs _ | LRemovedAll | LSkippedXMP _ => False
  | _ => True
  end.

End Outcomes.

(** ** Removals and renames the system refuses

    [os.Remove] and [os.Rename] can fail on a path that exists (a
    directory that may not be written, a file in use).  The two handlers
    are given here a second time, with the paths on which the system
    refuses the call as a predicate: a refused call is issued, changes
    nothing and returns an error; any other call does what it does in
    [Report].  With nothing refused the handlers are those of
    [Duplicates] and [Sidecar]. *)

Module Refusing.
Import Sidecar.

Section Handlers.

Variable refused : path -> bool.

Definition os_Remove (p : path) (st : state) : bool * state :=
  if refused p then
    (false, mkState (files st) (calls st ++ [SysRemove p]) (output st)
                    (foundChanges st) (skipped st) (xmpFiles st))
  else Report.os_Remove p st.

Definition os_Rename (src dst : path) (st : state) : bool * state :=
  if refused src then
    (false, mkState (files st) (calls st ++ [SysRename src dst]) (output st)
                    (foundChanges st) (skipped st) (xmpFiles st))
  else Report.os_Rename src dst st.

(** *** [handleDuplicates] *)

Definition paired (dir : path) (apply : bool) (originalPath path : path)
    (size : Z) (st : state) : state :=
  let st := print (LPair dir originalPath path size) (incr_found st) in
  if apply then
    match os_Remove path st with
    | (false, st) => print (LErrRemoving path) st
    | (true, st) => print (LRemoved path) st
    end
  else st.

Definition visitDuplicate (dir : path) (apply : bool)
    (st : state) (e : path * DirEntry) : state :=
  let '(path, d) := e in
  if EntryIsDir d then st else
  let baseName := Name d in
  if HasSuffix baseName ".xmp" then st else
  if negb (ContainsChar baseName "(") then st else
  let originalName := cleanFilename baseName in
  if String.eqb originalName baseName then st else
  let originalPath := Join (Dir path) originalName in
  match Stat (files st) originalPath with
  | None => st
  | Some _ =>
      match Stat (files st) path, Stat (files st) originalPath with
      | Some info1, Some info2 =>
          if Size info1 =? Size info2
          then paired dir apply originalPath path (Size info1) st
          else st
      | _, _ => st
      end
  end.

Definition handleDuplicates (dir : path) (apply : bool) (fs : fsys) : state :=
  let st := List.fold_left (visitDuplicate dir apply) (WalkDir fs dir) (start fs) in
  if foundChanges st =? 0 then print LNoDuplicates st
  else
    let st := print (LFoundPairs (foundChanges st)) st in
    if apply then print LRemovedAll st else st.

(** *** [handleXMPRenaming] *)

Variable EqualFold : string -> string -> bool.

Definition orphaned (dir : path) (apply : bool) (path : path) (st : state) : state :=
  let st := print (LOrphan dir path) (incr_found st) in
  if apply then
    match os_Remove path st with
    | (false, st) => print (LErrRemoving path) st
    | (true, st) => st
    end
  else st.

Definition bind (dir : path) (apply : bool) (path dirPath foundImage : path)
    (st : state) : state :=
  let correctXMPName := Base foundImage +:+ ".xmp" in
  let correctXMPPath := Join dirPath correctXMPName in
  if path_eqb path correctXMPPath then st else
  let entries := ReadDir (files st) dirPath in
  let existingFile :=
    match List.find (fun e => EqualFold (Name e) correctXMPName) entries with
    | Some e => Name e
    | None => ""
    end in
  if negb (String.eqb existingFile "") then
    if negb (String.eqb existingFile correctXMPName) then st
    else
      match Stat (files st) foundImage with
      | None =>
          if apply then
            match os_Remove correctXMPPath st with
            | (false, st) => print (LErrRemoving correctXMPPath) st
            | (true, st) => print (LDestOrphan dir correctXMPPath) st
            end
          else print (LDestOrphan dir correctXMPPath) (incr_found st)
      | Some _ => print (LSkip dir path correctXMPPath) (incr_skipped st)
      end
  else
    record_rename path correctXMPPath
      (print (LRename dir path correctXMPPath) (incr_found st)).

Definition visitSidecar (dir : path) (apply : bool)
    (st : state) (e : path * DirEntry) : state :=
  let '(path, d) := e in
  if EntryIsDir d then st else
  let baseName := Name d in
  if negb (HasSuffix baseName ".xmp") then st else
  let dirPath := Dir path in
  let imageBase := TrimSuffix baseName ".xmp" in
  let cleanBase := cleanFilename imageBase in
  let imageExt := Ext imageBase in
  let cleanBaseOnly := TrimSuffix cleanBase (Ext cleanBase) in
  let exactImagePath := Join dirPath imageBase in
  match Stat (files st) exactImagePath with
  | Some _ => st
  | None =>
      let entries := ReadDir (files st) dirPath in
      if cleanImageExists EqualFold imageExt cleanBaseOnly entries
         && numberedImageExists EqualFold imageExt cleanBaseOnly entries then st
      else
        match findImage EqualFold dirPath imageExt cleanBaseOnly entries with
        | None => orphaned dir apply path st
        | Some foundImage =>
            match Stat (files st) exactImagePath with
            | None => orphaned dir apply path st
            | Some _ => bind dir apply path dirPath foundImage st
            end
        end
  end.

Definition rename_one (st : state) (r : path * path) : state :=
  match os_Rename (fst r) (snd r) st with
  | (false, st) => print (LErrRenaming (fst r)) st
  | (true, st) => print (LRenamed (fst r) (snd r)) st
  end.

Definition handleXMPRenaming (dir : path) (apply : bool) (fs : fsys) : state :=
  let st := List.fold_left (visitSidecar dir apply) (WalkDir fs dir) (start fs) in
  let st :=
    if apply then List.fold_left rename_one (map_to_list (xmpFiles st)) st
    else st in
  if (foundChanges st =? 0) && (skipped st =? 0) then print LNoXMP st
  else
    let st :=
      if 0 <? foundChanges st then
        let st := print (LFoundXMP (foundChanges st)) st in
        if apply then print LRenamedAll st else st
      else st in
    if 0 <? skipped st then print (LSkippedXMP (skipped st)) st else st.

End Handlers.

(** Nothing is refused; the system refuses to remove one path. *)
Definition nothing : path -> bool := fun _ => false.

Definition only (p : path) : path -> bool := fun q => path_eqb q p.

(** What a run has to say of a path it announced for removal: the call
    was refused, the error is reported and the path is as it was at the
    start; or the path is gone. *)
Definition removal_told (refused : path -> bool) (fs : fsys) (st : state)
    (p : path) : Prop :=
  if refused p
  then In (LErrRemoving p) (output st) /\ Stat (files st) p = Stat fs p
  else Stat (files st) p = None.

(** The errors a run reports are refused removals. *)
Definition errors_are_refusals (refused : path -> bool) (st : state) : Prop :=
  forall l, In l (output st) -> Outcomes.is_error_line l = true ->
  exists p, l = LErrRemoving p /\ refused p = true.

End Refusing.

(** ** The progress line: [progressWriter.Write]

    Integers are [int64] (and [int], of the same width): results wrap
    around.  A run-time panic is the result [None].  Times are counted in
    nanoseconds since the Unix epoch. *)

Module Progress.

Definition wrap64 (z : Z) : Z := (z + 2 ^ 63) mod 2 ^ 64 - 2 ^ 63.

(** [a / b] on integers: the quotient is truncated towards zero, and a
    zero divisor panics. *)
Definition div64 (a b : Z) : option Z :=
  if b =? 0 then None else Some (wrap64 (Z.quot a b)).

(** [a % b]: the remainder has the sign of [a]. *)
Definition rem64 (a b : Z) : option Z :=
  if b =? 0 then None else Some (Z.rem a b).

Fixpoint repeat_string (s : string) (n : nat) : string :=
  match n with
  | O => ""
  | S n' => s +:+ repeat_string s n'
  end.

(** [strings.Repeat]: panics on a negative count and when the length of
    the result overflows. *)
Definition Repeat (s : string) (count : Z) : option string :=
  if (count <? 0) || (2 ^ 63 <=? Z.of_nat (String.length s) * count) then None
  else Some (repeat_string s (Z.to_nat count)).

(** [l[i]]: panics out of range. *)
Definition index (l : list string) (i : Z) : option string :=
  if i <? 0 then None else List.nth_error l (Z.to_nat i).

Definition Millisecond : Z := 1000000.

(** [t.Unix()]: whole seconds since the epoch. *)
Definition Unix (t : Z) : Z := t / 1000000000.

(** [t.Sub(u)]: the difference, or the largest (smallest) duration when it
    does not fit. *)
Definition Sub (t u : Z) : Z :=
  if 2 ^ 63 - 1 <? t - u then 2 ^ 63 - 1
  else if t - u <? - 2 ^ 63 then - 2 ^ 63
  else t - u.

(** The zero [time.Time], January 1 of year 1. *)
Definition zeroTime : Z := - 62135596800 * 1000000000.

Record progressWriter := mkWriter {
  fileName : string;
  total : Z;
  current : Z;
  lastUpdate : Z
}.

(** The arguments of the [fmt.Sprintf] of one progress line: the name, the
    percentage, the bar, and the byte count the speed is computed from. *)
Record progress := mkProgress {
  shownName : string;
  shownPct : Z;
  shownBar : string;
  shownBytes : Z
}.

Definition frames : list string :=
  ["▁"; "▂"; "▃"; "▄"; "▅"; "▆"; "▇"; "█"].

Definition animFrame (now : Z) : option string :=
  match rem64 (wrap64 (Unix now * 4)) (Z.of_nat (List.length frames)) with
  | Some i => index frames i
  | None => None
  end.

(** The bar of the current program. *)
Definition bar (pct now : Z) : option string :=
  let barWidth := 40 in
  match div64 (wrap64 (pct * barWidth)) 100 with
  | None => None
  | Some filledWidth =>
      let filledWidth := if barWidth <? filledWidth then barWidth else filledWidth in
      match animFrame now with
      | None => None
      | Some frame =>
          let emptyWidth := wrap64 (wrap64 (barWidth - filledWidth) - 1) in
          let emptyWidth := if emptyWidth <? 0 then 0 else emptyWidth in
          match Repeat "█" filledWidth, Repeat " " emptyWidth with
          | Some filled, Some empty =>
              Some ("[" +:+ filled +:+ frame +:+ empty +:+ "]")
          | _, _ => None
          end
      end
  end.

(** The bar of the earlier program ([main.go]): no bound is put on the two
    widths. *)
Definition bar_earlier (pct now : Z) : option string :=
  let barWidth := 40 in
  match div64 (wrap64 (pct * barWidth)) 100 with
  | None => None
  | Some filledWidth =>
      match animFrame now with
      | None => None
      | Some frame =>
          match Repeat "█" filledWidth,
                Repeat " " (wrap64 (wrap64 (barWidth - filledWidth) - 1)) with
          | Some filled, Some empty =>
              Some ("[" +:+ filled +:+ frame +:+ empty +:+ "]")
          | _, _ => None
          end
      end
  end.

(** [Write] of [n] bytes at the time [now], with the bar of either program:
    the writer and [overallProgress] afterwards, and what is printed. *)
Definition Write_with (bar : Z -> Z -> option string)
    (w : progressWriter) (overallProgress n now : Z)
    : option (progressWriter * Z * option progress) :=
  let w := mkWriter (fileName w) (total w) (wrap64 (current w + n)) (lastUpdate w) in
  let overallProgress := wrap64 (overallProgress + n) in
  if Sub now (lastUpdate w) <? 65 * Millisecond then Some (w, overallProgress, None)
  else
    let w := mkWriter (fileName w) (total w) (current w) now in
    match div64 (wrap64 (current w * 100)) (total w) with
    | None => None
    | Some pct =>
        let pct := if 100 <? pct then 100 else pct in
        match bar pct now with
        | None => None
        | Some b =>
            Some (w, overallProgress,
                  Some (mkProgress (fileName w) pct b (current w)))
        end
    end.

Definition Write := Write_with bar.
Definition Write_earlier := Write_with bar_earlier.

(** The writer [copyFile] starts with. *)
Definition fresh (name : string) (size : Z) : progressWriter :=
  mkWriter name size 0 zeroTime.

(** The number of characters of a text in UTF-8: the bytes that do not
    continue a character. *)
Definition continues (c : ascii) : bool :=
  (128 <=? nat_of_ascii c)%nat && (nat_of_ascii c <? 192)%nat.

Fixpoint RuneCount (s : string) : nat :=
  match s with
  | EmptyString => O
  | String c t => ((if continues c then 0 else 1) + RuneCount t)%nat
  end.

End Progress.

(** ** The mirror engine: [runCopyMoveOperation], [moveFile], [copyFile]

    The copy and move operations change the tree they walk, so the walk is
    modelled as it runs: each directory is read when it is entered, from
    the tree as it is then.  A walk may go on for ever (a target below the
    source receives directories the walk then enters); [fuel] bounds the
    depth of the recursion, and a walk that exhausts it is reported as
    such.  A symbolic link below the source is an entry that is no
    directory and that the predicate [symlink] marks, as the walk sees it
    ([d.Type()&os.ModeSymlink]): the walk does not enter it and the two
    passes leave it out, as the program does.  Links in the target tree,
    links for roots and permissions are not modelled: the calls fail for
    the reasons the tree shows (a missing path, a file where a directory
    is needed, a taken name), not for others.  The progress
    lines a copy writes block by block depend on the clock and are left
    out of the output; they are the subject of [Progress], and they do not
    panic for files the size of which, taken a hundred times, fits in 64
    bits. *)

Module Mirror.
Import Progress.

Inductive errno := ENOENT | ENOTDIR | EEXIST | EISDIR.

(** [os.IsNotExist]. *)
Definition IsNotExist (e : errno) : bool :=
  match e with ENOENT => true | _ => false end.

(** The resolution of a path, component by component: a missing component
    is [ENOENT], and a component below something that is not a directory
    is [ENOTDIR]. *)
Fixpoint resolve (fs : fsys) (seen : path) (rest : list string)
    : errno + FileInfo :=
  match Stat fs seen with
  | None => inl ENOENT
  | Some info =>
      match rest with
      | [] => inr info
      | name :: rest' =>
          if IsDir info then resolve fs (seen ++ [name]) rest'
          else inl ENOTDIR
      end
  end.

(** [os.Stat] (and [os.Lstat], [os.Open] followed by [Stat]) with its
    error. *)
Definition StatErr (fs : fsys) (p : path) : errno + FileInfo := resolve fs [] p.

(** [filepath.Join(dir, rel)] for a relative path of several components. *)
Definition JoinRel (dir rel : path) : path := List.fold_left Join rel dir.

(** The error of a failed [os.Rename].  Go looks at the destination before
    the call: when it is a directory the error is that of [Lstat] on the
    source, if that fails, and [EEXIST] otherwise.  The other errors are
    those of [rename(2)]. *)
Definition rename_errno (fs : fsys) (src dst : path) : errno :=
  let syscall :=
    match StatErr fs src with
    | inl e => e
    | inr _ =>
        match StatErr fs (Dir dst) with
        | inl e => e
        | inr _ => ENOTDIR
        end
    end in
  match StatErr fs dst with
  | inr target =>
      if IsDir target then
        match StatErr fs src with
        | inl e => e
        | inr _ => EEXIST
        end
      else syscall
  | inl _ => syscall
  end.

Section Calls.

(** The size [Stat] reports of a directory just made. *)
Variable dirSize : Z.

(** [os.Mkdir]. *)
Definition Mkdir (fs : fsys) (p : path) : errno + fsys :=
  match StatErr fs (Dir p) with
  | inl e => inl e
  | inr parent =>
      if negb (IsDir parent) then inl ENOTDIR
      else
        match Stat fs p with
        | Some _ => inl EEXIST
        | None => inr (insert_entry (p, mkInfo true dirSize) fs)
        end
  end.

(** [os.MkdirAll]: nothing to do for a directory; otherwise the parent is
    made first (when the path has one below the root), then the directory
    itself.  [n] counts the components left. *)
Fixpoint MkdirAll_from (n : nat) (fs : fsys) (p : path) : option errno * fsys :=
  match StatErr fs p with
  | inr dir => if IsDir dir then (None, fs) else (Some ENOTDIR, fs)
  | inl _ =>
      let '(err, fs1) :=
        match n with
        | S n' =>
            if (1 <? List.length p)%nat then MkdirAll_from n' fs (Dir p)
            else (None, fs)
        | O => (None, fs)
        end in
      match err with
      | Some e => (Some e, fs1)
      | None =>
          match Mkdir fs1 p with
          | inr fs2 => (None, fs2)
          | inl e =>
              match StatErr fs1 p with
              | inr dir => if IsDir dir then (None, fs1) else (Some e, fs1)
              | inl _ => (Some e, fs1)
              end
          end
      end
  end.

Definition MkdirAll (fs : fsys) (p : path) : option errno * fsys :=
  MkdirAll_from (List.length p) fs p.

(** [os.OpenFile(p, O_CREATE|O_WRONLY|O_EXCL, mode)]: a new, empty file;
    an error when the path exists. *)
Definition Create (fs : fsys) (p : path) : errno + fsys :=
  match StatErr fs (Dir p) with
  | inl e => inl e
  | inr parent =>
      if negb (IsDir parent) then inl ENOTDIR
      else
        match Stat fs p with
        | Some _ => inl EEXIST
        | None => inr (insert_entry (p, mkInfo false 0) fs)
        end
  end.

End Calls.

(** One constructor for each [fmt.Printf] / [fmt.Fprintf] of [main],
    [runToolOperation], [runCopyMoveOperation], [moveFile] and [copyFile],
    holding the arguments before formatting. *)
Inductive mline :=
| MUsage
| MUsageTools
| MBothTools
| MDirRequired
| MDirNotFound (dir : path)
| MBothModes
| MRootsRequired
| MNoSource (srcRoot : path)
| MNoTarget (dstRoot : path)
| MCalculating
| MTotalSize (overallSize : Z)
| MSkip (rel : path)
| MPlan (move : bool) (rel : path)
| MMoving (rel : path)
| MCopying (rel : path)
| MNewline
| MOverall (pct : Z)
| MError (e : errno)
| MComplete (copied : Z) (move : bool) (skipped : Z)
| MPreview (copied : Z) (move : bool).

(** A result of [filepath.Rel] as printed. *)
Definition show_relpath (rel : path) : string :=
  match rel with
  | [] => "."
  | _ => String.concat "/" rel
  end.

Definition operation (move : bool) : string := if move then "move" else "copy".

(** The text of a line without its final newline and without the name of
    the program; for [MTotalSize] and [MError] the text up to the number
    and to the system's message. *)
Definition render (l : mline) : string :=
  match l with
  | MUsage => "Usage: (--copy | --move) --source <source> --target <target> [--apply]"
  | MUsageTools => "   or: (--duplicates | --xmp) --target <directory> [--apply]"
  | MBothTools => "Error: cannot specify both --duplicates and --xmp"
  | MDirRequired => "Error: --dir flag is required"
  | MDirNotFound dir => "Error: Directory '" +:+ show_path dir +:+ "' not found"
  | MBothModes => "Error: cannot specify both --copy and --move"
  | MRootsRequired => "Error: --source and --target flags are required"
  | MNoSource p => "Source does not exist: " +:+ show_path p
  | MNoTarget p => "Target does not exist: " +:+ show_path p
  | MCalculating => "Calculating total size..."
  | MTotalSize _ => "Total size: "
  | MSkip rel => "[SKIP] " +:+ show_relpath rel
  | MPlan move rel =>
      "[" +:+ (if move then "MOVE" else "COPY") +:+ "] " +:+ show_relpath rel
  | MMoving rel => "[MOVE] " +:+ show_relpath rel
  | MCopying rel => "[COPY] " +:+ show_relpath rel
  | MNewline => ""
  | MOverall pct => "Overall: " +:+ show_Z pct +:+ "%"
  | MError _ => "Error: "
  | MComplete copied move skipped =>
      "Operation complete: " +:+ show_Z copied +:+ " files "
      +:+ operation move +:+ "d, " +:+ show_Z skipped +:+ " skipped"
  | MPreview copied move =>
      "Preview: " +:+ show_Z copied +:+ " files will be "
      +:+ operation move +:+ "d"
  end.

(** The tree, the two output streams and the global variables of the
    program ([skipped] and [copied] count entries and stay far from the
    range of [int]). *)
Record run := mkRun {
  tree : fsys;
  stdout : list mline;
  stderr : list mline;
  overallProgress : Z;
  overallSize : Z;
  skipped : Z;
  copied : Z
}.

Definition init (fs : fsys) : run := mkRun fs [] [] 0 0 0 0.

Definition set_tree (fs : fsys) (st : run) : run :=
  mkRun fs (stdout st) (stderr st) (overallProgress st) (overallSize st)
        (skipped st) (copied st).

Definition to_stdout (l : mline) (st : run) : run :=
  mkRun (tree st) (stdout st ++ [l]) (stderr st) (overallProgress st)
        (overallSize st) (skipped st) (copied st).

Definition to_stderr (l : mline) (st : run) : run :=
  mkRun (tree st) (stdout st) (stderr st ++ [l]) (overallProgress st)
        (overallSize st) (skipped st) (copied st).

Definition add_progress (n : Z) (st : run) : run :=
  mkRun (tree st) (stdout st) (stderr st) (wrap64 (overallProgress st + n))
        (overallSize st) (skipped st) (copied st).

Definition add_size (n : Z) (st : run) : run :=
  mkRun (tree st) (stdout st) (stderr st) (overallProgress st)
        (wrap64 (overallSize st + n)) (skipped st) (copied st).

Definition incr_skipped (st : run) : run :=
  mkRun (tree st) (stdout st) (stderr st) (overallProgress st)
        (overallSize st) (skipped st + 1) (copied st).

Definition incr_copied (st : run) : run :=
  mkRun (tree st) (stdout st) (stderr st) (overallProgress st)
        (overallSize st) (skipped st) (copied st + 1).

(** How a walk ends. *)
Inductive status := Ok | Failed (e : errno) | OutOfFuel.

(** The function handed to [filepath.WalkDir]: the path, the entry, the
    error of the walk if any; it returns its own error. *)
Abbreviation WalkDirFunc :=
  (path -> DirEntry -> option errno -> run -> option errno * run).

(** [walkDir] of [path/filepath]: the function is called on the entry; a
    directory is then read, and its entries are walked in turn.  When the
    directory cannot be read, the function is called again with the
    error.  The limit a system sets to the length of a path is not
    modelled: a walk that would end there with an error goes on until
    the fuel is exhausted. *)
Fixpoint walkDir (fuel : nat) (fn : WalkDirFunc) (p : path) (d : DirEntry)
    (st : run) : status * run :=
  match fuel with
  | O => (OutOfFuel, st)
  | S fuel' =>
      match fn p d None st with
      | (Some e, st1) => (Failed e, st1)
      | (None, st1) =>
          if negb (EntryIsDir d) then (Ok, st1)
          else
            let readable :=
              match StatErr (tree st1) p with
              | inl e => Some e
              | inr info => if IsDir info then None else Some ENOTDIR
              end in
            match readable with
            | Some e =>
                match fn p d (Some e) st1 with
                | (Some e', st2) => (Failed e', st2)
                | (None, st2) => (Ok, st2)
                end
            | None =>
                List.fold_left
                  (fun acc d1 =>
                     match acc with
                     | (Ok, st2) => walkDir fuel' fn (Join p (Name d1)) d1 st2
                     | _ => acc
                     end)
                  (ReadDir (tree st1) p) (Ok, st1)
            end
      end
  end.

(** [filepath.WalkDir]. *)
Definition WalkDir (fuel : nat) (fn : WalkDirFunc) (root : path) (st : run)
    : status * run :=
  match StatErr (tree st) root with
  | inl e =>
      match fn root (mkEntry (Base root) false) (Some e) st with
      | (Some e', st') => (Failed e', st')
      | (None, st') => (Ok, st')
      end
  | inr info => walkDir fuel fn root (mkEntry (Base root) (IsDir info)) st
  end.

Section Engine.

Variable dirSize : Z.

(** The entries that are symbolic links: [d.Type()&os.ModeSymlink != 0]
    for the entry the walk finds at the path. *)
Variable symlink : path -> bool.

(** The globals [moveFlag] and [applyFlag]. *)
Variables moveFlag applyFlag : bool.

(** The line [Overall: pct%] after a file. *)
Definition overall (st : run) : run :=
  if 0 <? overallSize st then
    let pct := wrap64 (Z.quot (wrap64 (overallProgress st * 100)) (overallSize st)) in
    to_stderr (MOverall (if 100 <? pct then 100 else pct)) st
  else st.

Definition moveFile (src dst relPath : path) (st : run) : option errno * run :=
  match MkdirAll dirSize (tree st) (Dir dst) with
  | (Some e, fs1) => (Some e, set_tree fs1 st)
  | (None, fs1) =>
      let st := set_tree fs1 st in
      match StatErr (tree st) src with
      | inl e => (Some e, st)
      | inr info =>
          let st := add_progress (Size info) (to_stderr (MMoving relPath) st) in
          match Rename (tree st) src dst with
          | None => (Some (rename_errno (tree st) src dst), st)
          | Some fs2 => (None, overall (set_tree fs2 st))
          end
      end
  end.

(** [io.Copy] writes the bytes of the source to the new file and, through
    the progress writer, adds their number to [overallProgress]; reading
    a directory fails. *)
Definition copyFile (src dst relPath : path) (st : run) : option errno * run :=
  match StatErr (tree st) src with
  | inl e => (Some e, st)
  | inr info =>
      match MkdirAll dirSize (tree st) (Dir dst) with
      | (Some e, fs1) => (Some e, set_tree fs1 st)
      | (None, fs1) =>
          match Create fs1 dst with
          | inl e => (Some e, set_tree fs1 st)
          | inr fs2 =>
              let st := to_stderr (MCopying relPath) (set_tree fs2 st) in
              let '(err, st) :=
                if IsDir info then (Some EISDIR, st)
                else
                  (None,
                   add_progress (Size info)
                     (set_tree (insert_entry (dst, mkInfo false (Size info))
                                             (tree st)) st)) in
              (err, overall (to_stderr MNewline st))
          end
      end
  end.

(** The function of the first pass. *)
Definition sizePass (path : path) (d : DirEntry) (err : option errno)
    (st : run) : option errno * run :=
  match err with
  | Some _ => (None, st)
  | None =>
      if EntryIsDir d then (None, st)
      else if symlink path then (None, st)
      else
        match StatErr (tree st) path with
        | inr info => (None, add_size (Size info) st)
        | inl _ => (None, st)
        end
  end.

(** The function of the second pass. *)
Definition mirrorPass (srcRoot dstRoot : path) (path : path) (d : DirEntry)
    (err : option errno) (st : run) : option errno * run :=
  match err with
  | Some e => (Some e, st)
  | None =>
      let rel := Rel srcRoot path in
      let dstPath := JoinRel dstRoot rel in
      match StatErr (tree st) dstPath with
      | inr _ =>
          if negb (EntryIsDir d)
          then (None, incr_skipped (to_stdout (MSkip rel) st))
          else (None, st)
      | inl e =>
          if negb (IsNotExist e) then (Some e, st)
          else if EntryIsDir d then
            if applyFlag then
              let '(err, fs1) := MkdirAll dirSize (tree st) dstPath in
              (err, set_tree fs1 st)
            else (None, st)
          else if symlink path then (None, st)
          else
            let st := incr_copied st in
            if applyFlag then
              if moveFlag then moveFile path dstPath rel st
              else copyFile path dstPath rel st
            else (None, to_stdout (MPlan moveFlag rel) st)
      end
  end.

End Engine.

(** The command line after [flag.Parse]; a path argument is [None] for the
    empty string. *)
Record flags := mkFlags {
  copyFlag : bool;
  moveFlag : bool;
  applyFlag : bool;
  sourceFlag : option path;
  targetFlag : option path;
  duplicatesFlag : bool;
  xmpFlag : bool
}.

(** How the program ends: it returns from [main], it calls [os.Exit(1)],
    or the walk was cut short by the fuel. *)
Inductive exit := Returned | Exit1 | Unfinished.

Definition runCopyMoveOperation (dirSize : Z) (symlink : path -> bool)
    (fuel : nat) (fl : flags) (fs : fsys) : exit * run :=
  let st := init fs in
  if negb (copyFlag fl) && negb (moveFlag fl) then (Exit1, to_stderr MUsage st)
  else if copyFlag fl && moveFlag fl then (Exit1, to_stderr MBothModes st)
  else
    match sourceFlag fl, targetFlag fl with
    | Some srcRoot, Some dstRoot =>
        match StatErr fs srcRoot with
        | inl _ => (Exit1, to_stderr (MNoSource srcRoot) st)
        | inr _ =>
            match StatErr fs dstRoot with
            | inl _ => (Exit1, to_stderr (MNoTarget dstRoot) st)
            | inr _ =>
                let st := to_stderr MCalculating st in
                match WalkDir fuel (sizePass symlink) srcRoot st with
                | (OutOfFuel, st) => (Unfinished, st)
                | (_, st) =>
                    let st := to_stderr (MTotalSize (overallSize st)) st in
                    match WalkDir fuel
                            (mirrorPass dirSize symlink (moveFlag fl)
                                        (applyFlag fl) srcRoot dstRoot)
                            srcRoot st with
                    | (OutOfFuel, st) => (Unfinished, st)
                    | (Failed e, st) => (Exit1, to_stderr (MError e) st)
                    | (Ok, st) =>
                        (Returned,
                         to_stdout
                           (if applyFlag fl
                            then MComplete (copied st) (moveFlag fl) (skipped st)
                            else MPreview (copied st) (moveFlag fl)) st)
                    end
                end
            end
        end
    | _, _ => (Exit1, to_stderr MRootsRequired st)
    end.

(** What a run of the program leaves: of a tool operation, what was
    written to the standard error before the handler and the state of the
    handler; of a copy or move operation, its state. *)
Inductive outcome :=
| ToolRun (code : exit) (errors : list mline) (st : state)
| MirrorRun (code : exit) (st : run).

Definition code_of (o : outcome) : exit :=
  match o with ToolRun c _ _ => c | MirrorRun c _ => c end.

Definition tree_of (o : outcome) : fsys :=
  match o with ToolRun _ _ st => files st | MirrorRun _ st => tree st end.

Section Main.

Variable EqualFold : string -> string -> bool.

Definition runToolOperation (duplicates xmp : bool) (dir : option path)
    (apply : bool) (fs : fsys) : outcome :=
  if duplicates && xmp then ToolRun Exit1 [MBothTools] (start fs)
  else
    match dir with
    | None => ToolRun Exit1 [MDirRequired] (start fs)
    | Some dir =>
        match StatErr fs dir with
        | inl _ => ToolRun Exit1 [MDirNotFound dir] (start fs)
        | inr _ =>
            if xmp
            then ToolRun Returned [] (Sidecar.handleXMPRenaming EqualFold dir apply fs)
            else ToolRun Returned [] (Duplicates.handleDuplicates dir apply fs)
        end
    end.

Definition main (dirSize : Z) (symlink : path -> bool) (fuel : nat)
    (fl : flags) (fs : fsys) : outcome :=
  if duplicatesFlag fl || xmpFlag fl then
    runToolOperation (duplicatesFlag fl) (xmpFlag fl) (targetFlag fl)
                     (applyFlag fl) fs
  else if copyFlag fl || moveFlag fl then
    let '(code, st) := runCopyMoveOperation dirSize symlink fuel fl fs in
    MirrorRun code st
  else
    MirrorRun Exit1 (to_stderr MUsageTools (to_stderr MUsage (init fs))).

End Main.

(** Every entry but the root lies in a directory of the tree. *)
Definition closed (fs : fsys) : Prop :=
  forall q i, Stat fs q = Some i -> q <> [] ->
  exists j, Stat fs (Dir q) = Some j /\ IsDir j = true.

(** Every entry has a path of valid names. *)
Definition names_ok (fs : fsys) : Prop :=
  forall q i, Stat fs q = Some i -> List.forallb valid_name q = true.

(** Every entry of the first tree is in the second, unchanged. *)
Definition extends (fs fs' : fsys) : Prop :=
  forall q i, Stat fs q = Some i -> Stat fs' q = Some i.

(** The second tree is the first with entries added at prefixes of [p]. *)
Definition grows (p : path) (fs fs' : fsys) : Prop :=
  extends fs fs'
  /\ (forall q i, Stat fs' q = Some i ->
        Stat fs q = Some i \/ (is_prefix q p = true /\ q <> []))
  /\ (closed fs -> closed fs').

(** What the engine relies on in a tree. *)
Definition good (fs : fsys) : Prop := closed fs /\ names_ok fs.

(** The paths a walk from [srcRoot] reaches. *)
Definition below (srcRoot p : path) : Prop :=
  is_prefix srcRoot p = true /\ List.forallb valid_name p = true.

(** Directories and entries outside the source tree are kept. *)
Definition keeps_outside (srcRoot : path) (fs fs' : fsys) : Prop :=
  forall q i, Stat fs q = Some i ->
    IsDir i = true \/ is_prefix srcRoot q = false ->
    Stat fs' q = Some i.

(** No entry below the source root is more than [depth] components
    long. *)
Definition bounded (srcRoot : path) (depth : nat) (fs : fsys) : Prop :=
  forall q i, Stat fs q = Some i -> is_prefix srcRoot q = true ->
  (List.length q <= depth)%nat.

(** The length of the longest path of a tree. *)
Definition depth_of (fs : fsys) : nat :=
  List.list_max (List.map (fun e => List.length (fst e)) fs).

(** The place of a source entry in the target. *)
Definition destination (srcRoot dstRoot q : path) : path :=
  JoinRel dstRoot (Rel srcRoot q).

(** Every file the source tree had in [fs] is in [fs'] at its place or at
    its destination, and nothing has appeared below the source. *)
Definition files_kept (srcRoot dstRoot : path) (fs fs' : fsys) : Prop :=
  (forall q i, is_prefix srcRoot q = true -> Stat fs' q = Some i ->
               Stat fs q = Some i)
  /\ (forall q i, Stat fs q = Some i -> IsDir i = false ->
                  is_prefix srcRoot q = true ->
                  Stat fs' q = Some i
                  \/ Stat fs' (destination srcRoot dstRoot q) = Some i).

(** From one point of a copy to a later one: the entries stay, and so do
    the lines printed. *)
Definition carries_on (st st' : run) : Prop :=
  extends (tree st) (tree st') /\ List.incl (stdout st) (stdout st').

(** The entry [j] at the destination of the source entry [i] of relative
    path [rel]: for a file, it was reported as skipped or it is a file of
    the same size. *)
Definition mirrored (out : list mline) (rel : path) (i j : FileInfo) : Prop :=
  IsDir i = false -> In (MSkip rel) out \/ j = mkInfo false (Size i).

(** The lines of a run by kind: a skipped file, a file listed by a
    preview, a file a copy or a move was started on. *)
Definition is_skip (l : mline) : bool :=
  match l with MSkip _ => true | _ => false end.

Definition is_plan (move : bool) (l : mline) : bool :=
  match l with MPlan m _ => Bool.eqb m move | _ => false end.

Definition is_start (move : bool) (l : mline) : bool :=
  match l with
  | MMoving _ => move
  | MCopying _ => negb move
  | _ => false
  end.

Definition count (f : mline -> bool) (out : list mline) : Z :=
  Z.of_nat (List.length (List.filter f out)).

(** The counters agree with what was printed. *)
Definition counted (move apply : bool) (st : run) : Prop :=
  List.forallb (fun l => is_skip l || (negb apply && is_plan move l)) (stdout st)
  = true
  /\ skipped st = count is_skip (stdout st)
  /\ copied st = (if apply then count (is_start move) (stderr st)
                  else count (is_plan move) (stdout st))
  /\ count (is_start (negb move)) (stderr st) = 0.

(** The walk of the entries of a directory, as [walkDir] does it. *)
Definition walkEntries (fuel : nat) (fn : WalkDirFunc) (p : path)
    (l : list DirEntry) (acc : status * run) : status * run :=
  List.fold_left
    (fun acc d1 =>
       match acc with
       | (Ok, st2) => walkDir fuel fn (Join p (Name d1)) d1 st2
       | _ => acc
       end) l acc.

(** From one point of a move to a later one: directories and what is
    outside the source stay, nothing appears below the source, the lines
    printed stay, and a source entry the destination of which is taken
    stays. *)
Definition moves_on (srcRoot dstRoot : path) (st st' : run) : Prop :=
  keeps_outside srcRoot (tree st) (tree st')
  /\ (forall q i, is_prefix srcRoot q = true ->
                  Stat (tree st') q = Some i -> Stat (tree st) q = Some i)
  /\ List.incl (stdout st) (stdout st')
  /\ (forall q i j, below srcRoot q -> Stat (tree st) q = Some i ->
                    Stat (tree st) (destination srcRoot dstRoot q) = Some j ->
                    Stat (tree st') q = Some i).

(** The entries below [c] stay. *)
Definition keeps_below (c : path) (st st' : run) : Prop :=
  forall q i, is_prefix c q = true -> Stat (tree st) q = Some i ->
              Stat (tree st') q = Some i.

(** Nothing below [c] is below [p]. *)
Definition apart (c p : path) : Prop :=
  forall q, is_prefix c q = true -> is_prefix p q = false.

(** The entry [j] at the destination of the source entry [i] at [q] after
    a move: a file has gone to its destination, or it was reported as
    skipped and is where it was. *)
Definition moved (out : list mline) (fs' : fsys) (rel q : path)
    (i j : FileInfo) : Prop :=
  IsDir i = false ->
  (Stat fs' q = None /\ j = i) \/ (In (MSkip rel) out /\ Stat fs' q = Some i).

(** Every entry below the source root that is a directory or is no
    symbolic link has an entry at its destination. *)
Definition settled (symlink : path -> bool) (srcRoot dstRoot : path)
    (fs : fsys) : Prop :=
  forall q i, is_prefix srcRoot q = true -> Stat fs q = Some i ->
  IsDir i = true \/ symlink q = false ->
  exists j, Stat fs (destination srcRoot dstRoot q) = Some j.

(** The relative paths of the files a run skipped, listed in a preview,
    started a copy or a move on. *)
Definition skips (out : list mline) : list path :=
  List.flat_map (fun l => match l with MSkip r => [r] | _ => [] end) out.

Definition plans (out : list mline) : list path :=
  List.flat_map (fun l => match l with MPlan _ r => [r] | _ => [] end) out.

Definition starts (err : list mline) : list path :=
  List.flat_map
    (fun l => match l with MCopying r | MMoving r => [r] | _ => [] end) err.

(** A preview and an applied run that have decided alike so far. *)
Definition same_log (sP sA : run) : Prop :=
  skips (stdout sA) = skips (stdout sP)
  /\ starts (stderr sA) = plans (stdout sP)
  /\ copied sA = copied sP
  /\ skipped sA = skipped sP.

(** The two trees list the same entries among the paths [keep]. *)
Definition untouched (keep : path -> bool) (fs fs' : fsys) : Prop :=
  List.filter (fun e => keep (fst e)) fs'
  = List.filter (fun e => keep (fst e)) fs.

(** The second tree differs from the first only below [p] and below
    [D]. *)
Definition frame (p D : path) (fs fs' : fsys) : Prop :=
  forall keep : path -> bool,
    (forall q, keep q = true -> is_prefix p q = false /\ is_prefix D q = false) ->
    untouched keep fs fs'.

(** The tree [T] of an applied run is ready for the visit of [p], whose
    destination is [D]: it is good, it agrees with the tree [fs0] of the
    preview below [p] and below [D], [os.Stat] answers alike on [D], and
    the directory of [D] exists. *)
Definition ready (fs0 : fsys) (p D : path) (T : fsys) : Prop :=
  good T
  /\ untouched (is_prefix p) fs0 T
  /\ StatErr T D = StatErr fs0 D
  /\ (forall q, is_prefix D q = true -> Stat T q = Stat fs0 q)
  /\ (exists jp, Stat T (Dir D) = Some jp).

(** [p] below the source root and [D], its destination, below the
    target root. *)
Definition paired (srcRoot dstRoot p D : path) : Prop :=
  exists r : path, p = (srcRoot ++ r)%list /\ D = (dstRoot ++ r)%list.

(** A walk of the preview and the same walk of the applied run have
    ended alike: with the same status, the tree of the preview as it was,
    the same decisions printed, and the tree of the applied run changed
    below [p] and [D] only. *)
Definition agree (fs0 : fsys) (p D : path) (T : fsys) (rP rA : status * run)
    : Prop :=
  fst rP = fst rA
  /\ tree (snd rP) = fs0
  /\ same_log (snd rP) (snd rA)
  /\ good (tree (snd rA))
  /\ frame p D T (tree (snd rA)).

(** The command line with [-apply] set or not. *)
Definition with_apply (b : bool) (fl : flags) : flags :=
  mkFlags (copyFlag fl) (moveFlag fl) b (sourceFlag fl) (targetFlag fl)
          (duplicatesFlag fl) (xmpFlag fl).

(** Trees used as examples. *)
Definition album : fsys :=
  [ Examples.folder []; Examples.folder ["dst"]; Examples.file ["dst"; "a.jpg"] 7;
    Examples.folder ["src"]; Examples.file ["src"; "a.jpg"] 5;
    Examples.folder ["src"; "sub"]; Examples.file ["src"; "sub"; "b.jpg"] 9 ].

(** No entry is a symbolic link; [src/a.jpg] is one. *)
Definition no_links : path -> bool := fun _ => false.

Definition a_link : path -> bool := fun p => path_eqb p ["src"; "a.jpg"].

Definition copying (apply : bool) : flags :=
  mkFlags true false apply (Some ["src"]) (Some ["dst"]) false false.

Definition moving (apply : bool) : flags :=
  mkFlags false true apply (Some ["src"]) (Some ["dst"]) false false.

End Mirror.

(** ** The earlier program ([main.go])

    Its [moveFile] is the one of the current program, but the line about
    the overall progress carries the bar of its progress writer, and
    nothing bounds the two widths of that bar. *)

Module Earlier.
Import Progress Mirror.

(** How a call ends: it returns its error, having printed last the line
    about the overall progress, if any, with its percentage and its bar;
    or it panics.  Either way the state reached is given. *)
Inductive ending :=
| Returns (err : option errno) (st : run) (overall : option (Z * string))
| Panics (st : run).

Definition moveFile (dirSize now : Z) (src dst relPath : path) (st : run)
    : ending :=
  match MkdirAll dirSize (tree st) (Dir dst) with
  | (Some e, fs1) => Returns (Some e) (set_tree fs1 st) None
  | (None, fs1) =>
      let st := set_tree fs1 st in
      match StatErr (tree st) src with
      | inl e => Returns (Some e) st None
      | inr info =>
          let st := add_progress (Size info) (to_stderr (MMoving relPath) st) in
          match Rename (tree st) src dst with
          | None => Returns (Some (rename_errno (tree st) src dst)) st None
          | Some fs2 =>
              let st := set_tree fs2 st in
              if 0 <? overallSize st then
                let pct :=
                  wrap64 (Z.quot (wrap64 (overallProgress st * 100))
                                 (overallSize st)) in
                let pct := if 100 <? pct then 100 else pct in
                match bar_earlier pct now with
                | Some b => Returns None st (Some (pct, b))
                | None => Panics st
                end
              else Returns None st None
          end
      end
  end.

End Earlier.

Import Duplicates Sidecar Examples Decisions.

Local Open Scope list_scope.

(** * Properties *)

(** ** The normalizer *)

Section NormalizerFacts.

Lemma digit_not_open c : is_digit c = true -> Ascii.eqb c "(" = false.
Proof.
  destruct c as [[] [] [] [] [] [] [] []]; vm_compute; congruence.
Qed.

Lemma digit_not_close c : is_digit c = true -> Ascii.eqb c ")" = false.
Proof.
  destruct c as [[] [] [] [] [] [] [] []]; vm_compute; congruence.
Qed.

Lemma skip_digits_length t : (String.length (skip_digits t) <= String.length t)%nat.
Proof.
  induction t as [|c t IH]; simpl; [lia|].
  destruct (is_digit c); simpl; lia.
Qed.

Lemma match_group_inv s r :
  match_group s = Some r ->
  exists d t, s = String "(" (String d t) /\ is_digit d = true
              /\ skip_digits t = String ")" r.
Proof.
  destruct s as [|a [|d t]]; simpl; try discriminate.
  destruct (Ascii.eqb_spec a "("); simpl; [subst|discriminate].
  destruct (is_digit d) eqn:Hd; [|discriminate].
  destruct (skip_digits t) as [|b r'] eqn:Hs; [discriminate|].
  destruct (Ascii.eqb_spec b ")"); [subst|discriminate].
  intros [= ->]. eauto.
Qed.

Lemma match_group_length s r :
  match_group s = Some r -> (String.length r < String.length s)%nat.
Proof.
  intros (d & t & -> & _ & Hs)%match_group_inv.
  pose proof (skip_digits_length t) as Hl. rewrite Hs in Hl.
  simpl in *. lia.
Qed.

Lemma match_marker_inv s r :
  match_marker s = Some r ->
  match_group s = Some r \/ exists t, s = String " " t /\ match_group t = Some r.
Proof.
  destruct s as [|a t]; [discriminate|]. unfold match_marker.
  destruct (Ascii.eqb_spec a " "); [subst; eauto|auto].
Qed.

Lemma match_marker_length s r :
  match_marker s = Some r -> (String.length r < String.length s)%nat.
Proof.
  intros [H|(t & -> & H)]%match_marker_inv;
    apply match_group_length in H; simpl; lia.
Qed.

(** The bound on the loop is never reached: any fuel above the length of
    the input gives the same result, and [cleanFilename] satisfies the
    equation of the scan. *)
Lemma replace_all_fuel n m s :
  (String.length s < n)%nat -> (String.length s < m)%nat ->
  replace_all n s = replace_all m s.
Proof.
  revert m s. induction n as [|n IH]; intros [|m] s Hn Hm; try lia.
  simpl. destruct (match_marker s) as [r|] eqn:Hr.
  - apply match_marker_length in Hr. apply IH; lia.
  - destruct s as [|c t]; [reflexivity|]. simpl in *. f_equal. apply IH; lia.
Qed.

Lemma cleanFilename_unfold s :
  cleanFilename s
  = match match_marker s with
    | Some r => cleanFilename r
    | None =>
        match s with
        | EmptyString => EmptyString
        | String c t => String c (cleanFilename t)
        end
    end.
Proof.
  unfold cleanFilename at 1. simpl.
  destruct (match_marker s) as [r|] eqn:Hr.
  - apply match_marker_length in Hr. apply replace_all_fuel; lia.
  - destruct s as [|c t]; reflexivity.
Qed.

(** A marker at the head of [s] is found by the scan, whatever its state. *)
Lemma closes_digits_accepts t : closes_digits t = true -> accepts Digits t = true.
Proof.
  unfold closes_digits. induction t as [|c t IH]; simpl; [discriminate|].
  destruct (is_digit c) eqn:Hc.
  - intros H. unfold scan_step. rewrite (digit_not_open _ Hc), Hc.
    rewrite IH by exact H. apply orb_true_r.
  - simpl. intros ->. reflexivity.
Qed.

Lemma match_group_accepts s r q : match_group s = Some r -> accepts q s = true.
Proof.
  intros (d & t & -> & Hd & Hs)%match_group_inv. simpl.
  assert (scan_step q "(" = Opened) as -> by reflexivity.
  assert (scan_step Opened d = Digits) as ->.
  { unfold scan_step. rewrite (digit_not_open _ Hd), Hd. reflexivity. }
  rewrite closes_digits_accepts; [by destruct q; rewrite !orb_true_r|].
  unfold closes_digits. rewrite Hs. reflexivity.
Qed.

Lemma match_marker_accepts s r q : match_marker s = Some r -> accepts q s = true.
Proof.
  intros [H|(t & -> & H)]%match_marker_inv.
  - eapply match_group_accepts, H.
  - simpl. rewrite (match_group_accepts _ _ _ H). apply orb_true_r.
Qed.

(** Text in which the scan completes no group is left as it is. *)
Lemma replace_all_fixed n s q :
  (String.length s < n)%nat -> accepts q s = false -> replace_all n s = s.
Proof.
  revert s q. induction n as [|n IH]; intros s q Hn Hacc; [lia|].
  simpl. destruct (match_marker s) as [r|] eqn:Hm.
  - rewrite (match_marker_accepts _ _ q Hm) in Hacc. discriminate.
  - destruct s as [|c t]; [reflexivity|].
    simpl in Hacc, Hn. apply orb_false_elim in Hacc as [_ Hacc].
    f_equal. apply (IH _ (scan_step q c)); [lia|exact Hacc].
Qed.

Lemma nested_from_Outside s q :
  nested_from q s = false -> nested_from Outside s = false.
Proof.
  revert q. induction s as [|c t IH]; intros q; [reflexivity|].
  simpl. intros [_ H]%orb_false_elim.
  unfold scan_step in *.
  destruct (Ascii.eqb c "("); [exact H|].
  destruct (is_digit c); [|exact H].
  destruct q; eauto.
Qed.

Lemma nested_from_tail q c t :
  nested_from q (String c t) = false -> nested_from Outside t = false.
Proof.
  simpl. intros [_ H]%orb_false_elim. eapply nested_from_Outside, H.
Qed.

Lemma nested_from_skip_digits t :
  nested_from Outside t = false -> nested_from Outside (skip_digits t) = false.
Proof.
  induction t as [|c t IH]; simpl; [reflexivity|].
  destruct (is_digit c); [|trivial].
  intros H. apply IH. eapply nested_from_tail with (q := Outside). exact H.
Qed.

Lemma nested_from_group s r :
  match_group s = Some r -> nested_from Outside s = false ->
  nested_from Outside r = false.
Proof.
  intros (d & t & -> & _ & Hs)%match_group_inv H.
  apply nested_from_tail, nested_from_tail, nested_from_skip_digits in H.
  rewrite Hs in H. eapply nested_from_tail, H.
Qed.

Lemma nested_from_marker s r :
  match_marker s = Some r -> nested_from Outside s = false ->
  nested_from Outside r = false.
Proof.
  intros [H|(t & -> & H)]%match_marker_inv Hn.
  - eapply nested_from_group; eauto.
  - eapply nested_from_group; [exact H|]. eapply nested_from_tail, Hn.
Qed.

Lemma closes_step q c t :
  match_marker (String c t) = None ->
  closes q (String c t) = false ->
  closes (scan_step q c) t = false.
Proof.
  intros Hm Hc. unfold scan_step.
  destruct (Ascii.eqb_spec c "(") as [->|Hne].
  - simpl in Hm. destruct t as [|d t]; [reflexivity|].
    simpl in *. destruct (is_digit d); [|reflexivity].
    simpl in *. unfold closes_digits.
    destruct (skip_digits t) as [|b r]; [reflexivity|].
    destruct (Ascii.eqb b ")"); [discriminate|reflexivity].
  - destruct (is_digit c) eqn:Hd; [|reflexivity].
    destruct q; simpl in *; [reflexivity| |].
    + rewrite Hd in Hc. exact Hc.
    + unfold closes_digits in *. simpl in Hc. rewrite Hd in Hc. exact Hc.
Qed.

(** In a name that is not [nested], what is left after one pass holds no
    group. *)
Lemma replace_all_no_group n s q :
  (String.length s < n)%nat ->
  closes q s = false -> nested_from q s = false ->
  accepts q (replace_all n s) = false.
Proof.
  revert s q. induction n as [|n IH]; intros s q Hn Hc Hnest; [lia|].
  simpl. destruct (match_marker s) as [r|] eqn:Hm.
  - assert (q = Outside) as ->.
    { destruct s as [|c t]; [discriminate|]. simpl in Hnest.
      unfold starts_marker in Hnest. rewrite Hm in Hnest.
      destruct q; simpl in Hnest; congruence. }
    apply IH.
    + apply match_marker_length in Hm. lia.
    + reflexivity.
    + eapply nested_from_marker; eauto.
  - destruct s as [|c t]; [reflexivity|].
    simpl. apply orb_false_intro.
    + destruct q; try reflexivity.
      destruct (Ascii.eqb_spec c ")") as [->|]; [|reflexivity].
      simpl in Hc. unfold closes_digits in Hc. simpl in Hc. discriminate.
    + apply IH.
      * simpl in Hn. lia.
      * apply closes_step; assumption.
      * simpl in Hnest. apply orb_false_elim in Hnest as [_ H]. exact H.
Qed.

Lemma cleanFilename_idempotent_unnested x :
  nested x = false -> cleanFilename (cleanFilename x) = cleanFilename x.
Proof.
  intros Hx. unfold cleanFilename at 1.
  apply (replace_all_fixed _ _ Outside); [lia|].
  apply replace_all_no_group; [lia|reflexivity|exact Hx].
Qed.

End NormalizerFacts.

(** ** The directory tree *)

Section TreeFacts.

Lemma path_eqb_spec p q : reflect (p = q) (path_eqb p q).
Proof.
  revert q. induction p as [|a p IH]; intros [|b q]; simpl;
    try (constructor; congruence).
  destruct (String.eqb_spec a b); simpl.
  - destruct (IH q); constructor; congruence.
  - constructor; congruence.
Qed.

Lemma path_eqb_refl p : path_eqb p p = true.
Proof. destruct (path_eqb_spec p p); congruence. Qed.

Lemma path_eqb_neq p q : p <> q -> path_eqb p q = false.
Proof. destruct (path_eqb_spec p q); congruence. Qed.

(** Removing entries by path leaves [Stat] of the kept paths alone. *)
Lemma Stat_filter_kept (keep : path -> bool) fs q :
  keep q = true ->
  Stat (List.filter (fun e => keep (fst e)) fs) q = Stat fs q.
Proof.
  intros Hq. unfold Stat. f_equal.
  induction fs as [|[p i] fs IH]; simpl; [reflexivity|].
  destruct (keep p) eqn:Hp; simpl.
  - destruct (path_eqb p q); [reflexivity|exact IH].
  - destruct (path_eqb_spec p q); [congruence|exact IH].
Qed.

Lemma Stat_filter_dropped (keep : path -> bool) fs q :
  keep q = false ->
  Stat (List.filter (fun e => keep (fst e)) fs) q = None.
Proof.
  intros Hq. unfold Stat.
  induction fs as [|[p i] fs IH]; simpl; [reflexivity|].
  destruct (keep p) eqn:Hp; simpl; [|exact IH].
  destruct (path_eqb_spec p q); [congruence|exact IH].
Qed.

Lemma Stat_In fs q i : Stat fs q = Some i -> In (q, i) fs.
Proof.
  unfold Stat. destruct (List.find _ fs) as [[p j]|] eqn:Hf; [|discriminate].
  apply List.find_some in Hf as [Hin Heq]. simpl in *.
  destruct (path_eqb_spec p q); [|discriminate]. intros [= <-]. congruence.
Qed.

Lemma Remove_inv fs p fs' :
  Remove fs p = Some fs' ->
  fs' = List.filter (fun e => negb (path_eqb (fst e) p)) fs.
Proof.
  unfold Remove. destruct (Stat fs p); [|discriminate].
  destruct (_ && _); congruence.
Qed.

(** A file that is there is removed. *)
Lemma Remove_file fs p i :
  Stat fs p = Some i -> IsDir i = false ->
  Remove fs p = Some (List.filter (fun e => negb (path_eqb (fst e) p)) fs).
Proof. unfold Remove. intros -> ->. reflexivity. Qed.

Lemma Stat_removed fs p :
  Stat (List.filter (fun e => negb (path_eqb (fst e) p)) fs) p = None.
Proof.
  apply (Stat_filter_dropped (fun q => negb (path_eqb q p))).
  rewrite path_eqb_refl. reflexivity.
Qed.

Lemma Stat_remove_other fs p q :
  q <> p ->
  Stat (List.filter (fun e => negb (path_eqb (fst e) p)) fs) q = Stat fs q.
Proof.
  intros Hne. apply (Stat_filter_kept (fun q => negb (path_eqb q p))).
  rewrite path_eqb_neq by exact Hne. reflexivity.
Qed.

Lemma filter_filter_paths (k1 k2 : path -> bool) (fs : fsys) :
  List.filter (fun e => k2 (fst e)) (List.filter (fun e => k1 (fst e)) fs)
  = List.filter (fun e => k1 (fst e) && k2 (fst e)) fs.
Proof.
  induction fs as [|e fs IH]; simpl; [reflexivity|].
  destruct (k1 (fst e)); simpl; [|exact IH].
  destruct (k2 (fst e)); simpl; congruence.
Qed.

(** The walk hands each entry its own base name, once. *)
Lemma WalkDir_In fs dir e :
  In e (WalkDir fs dir) ->
  Name (snd e) = Base (fst e)
  /\ exists i, In (fst e, i) fs /\ EntryIsDir (snd e) = IsDir i.
Proof.
  unfold WalkDir. intros ([p i] & <- & Hin)%List.in_map_iff.
  apply List.filter_In in Hin as [Hin _]. simpl. eauto.
Qed.

Lemma WalkDir_paths fs dir :
  List.map fst (WalkDir fs dir)
  = List.filter (is_prefix dir) (List.map fst fs).
Proof.
  unfold WalkDir. induction fs as [|[p i] fs IH]; simpl; [reflexivity|].
  destruct (is_prefix dir p); simpl; congruence.
Qed.

Lemma WalkDir_NoDup fs dir :
  NoDup (List.map fst fs) -> NoDup (List.map fst (WalkDir fs dir)).
Proof.
  rewrite WalkDir_paths. intros H.
  induction H as [|p ps Hp H IH]; simpl; [constructor|].
  destruct (is_prefix dir p); [|exact IH].
  constructor; [|exact IH].
  rewrite list_elem_of_In, List.filter_In, <- list_elem_of_In. tauto.
Qed.

(** [Join] with the name of an entry. *)
Lemma Join_valid dir n : valid_name n = true -> Join dir n = (dir ++ [n])%list.
Proof.
  unfold valid_name, Join. intros H.
  destruct (String.eqb n ""); [discriminate|].
  destruct (String.eqb n "."); [discriminate|].
  destruct (String.eqb n ".."); [discriminate|reflexivity].
Qed.

Lemma Dir_Base p : p <> [] -> (Dir p ++ [Base p])%list = p.
Proof. intros H. symmetry. apply List.app_removelast_last, H. Qed.

Lemma Dir_length p : p <> [] -> S (List.length (Dir p)) = List.length p.
Proof.
  intros H. rewrite <- (Dir_Base p H) at 2.
  rewrite List.length_app. simpl. lia.
Qed.

Lemma removelast_length_le (p : path) :
  (List.length (removelast p) <= List.length p)%nat.
Proof.
  destruct p as [|a p]; [simpl; lia|].
  pose proof (Dir_length (a :: p)). unfold Dir in *.
  assert (a :: p <> []) by discriminate. intuition lia.
Qed.

(** [Join] of the directory of a path with another name never gives the
    path back. *)
Lemma Join_Dir_other p n : p <> [] -> n <> Base p -> Join (Dir p) n <> p.
Proof.
  intros Hp Hn Heq. unfold Join in Heq.
  pose proof (Dir_length p Hp) as Hl.
  pose proof (removelast_length_le (Dir p)) as Hl'.
  repeat case_match; subst.
  - rewrite Heq in Hl. lia.
  - rewrite Heq in Hl. lia.
  - rewrite Heq in Hl'. lia.
  - rewrite <- (Dir_Base p Hp) in Heq at 2.
    apply List.app_inj_tail in Heq as [_ ?]. congruence.
Qed.

End TreeFacts.

(** ** One visit of each handler *)

Section VisitFacts.

Variable EqualFold : string -> string -> bool.

Lemma no_paren_accepts s :
  ContainsChar s "(" = false -> accepts Outside s = false.
Proof.
  induction s as [|c t IH]; simpl; [reflexivity|].
  intros [Hc Ht]%orb_false_elim. unfold scan_step. rewrite Hc.
  destruct (is_digit c); exact (IH Ht).
Qed.

(** A name without parenthesis is left as it is. *)
Lemma cleanFilename_no_paren s :
  ContainsChar s "(" = false -> cleanFilename s = s.
Proof.
  intros H. apply (replace_all_fixed _ _ Outside); [lia|].
  apply no_paren_accepts, H.
Qed.

Lemma os_Remove_state p st :
  calls (snd (os_Remove p st)) = calls st ++ [SysRemove p]
  /\ output (snd (os_Remove p st)) = output st
  /\ foundChanges (snd (os_Remove p st)) = foundChanges st
  /\ skipped (snd (os_Remove p st)) = skipped st
  /\ xmpFiles (snd (os_Remove p st)) = xmpFiles st
  /\ files (snd (os_Remove p st))
     = match Remove (files st) p with Some fs' => fs' | None => files st end.
Proof. unfold os_Remove. destruct (Remove (files st) p); simpl; auto 10. Qed.

Lemma decisions_print l st :
  decisions (print l st)
  = decisions st ++ (if is_decision l then [l] else []).
Proof.
  unfold decisions. simpl. rewrite List.filter_app. simpl.
  destruct (is_decision l); reflexivity.
Qed.

(** *** Duplicates *)

Lemma paired_state dir apply o p n st :
  let st' := Duplicates.paired dir apply o p n st in
  calls st' = calls st ++ (if apply then [SysRemove p] else [])
  /\ files st' = (if apply
                  then match Remove (files st) p with
                       | Some fs' => fs'
                       | None => files st
                       end
                  else files st)
  /\ decisions st' = decisions st ++ [LPair dir o p n]
  /\ pairs (output st') = pairs (output st) ++ [(o, p)]
  /\ foundChanges st' = foundChanges st + 1
  /\ skipped st' = skipped st
  /\ xmpFiles st' = xmpFiles st.
Proof.
  unfold Duplicates.paired, pairs, decisions. destruct apply.
  - unfold os_Remove. simpl.
    destruct (Remove (files st) p); simpl;
      rewrite ?List.filter_app, ?List.flat_map_app; simpl;
      rewrite ?List.app_nil_r, <- ?List.app_assoc; simpl; auto 10.
  - simpl. rewrite List.filter_app, List.flat_map_app, List.app_nil_r.
    simpl. auto 10.
Qed.

(** The visit announces a pair exactly when [pair_size] gives a size. *)
Lemma dup_visit_spec dir apply st e :
  Name (snd e) = Base (fst e) ->
  Duplicates.visit dir apply st e
  = match pair_size (files st) e with
    | Some n => Duplicates.paired dir apply (original_of e) (fst e) n st
    | None => st
    end.
Proof.
  destruct e as [p d]. simpl. intros Hname.
  unfold Duplicates.visit, pair_size, marked_file, original_of. simpl.
  destruct (EntryIsDir d); [reflexivity|].
  destruct (HasSuffix (Name d) ".xmp"); [reflexivity|]. simpl.
  destruct (ContainsChar (Name d) "(") eqn:Hc; simpl.
  - destruct (String.eqb (cleanFilename (Name d)) (Name d)); [reflexivity|].
    simpl. destruct (Stat (files st) (Join (Dir p) (cleanFilename (Name d))));
      [|reflexivity].
    destruct (Stat (files st) p); [|reflexivity].
    destruct (Size _ =? Size _); reflexivity.
  - rewrite (cleanFilename_no_paren _ Hc), String.eqb_refl. reflexivity.
Qed.

(** *** Sidecars *)

Lemma orphaned_state dir apply p st :
  let st' := orphaned dir apply p st in
  calls st' = calls st ++ (if apply then [SysRemove p] else [])
  /\ files st' = (if apply
                  then match Remove (files st) p with
                       | Some fs' => fs'
                       | None => files st
                       end
                  else files st)
  /\ decisions st' = decisions st ++ [LOrphan dir p]
  /\ foundChanges st' = foundChanges st + 1
  /\ skipped st' = skipped st
  /\ xmpFiles st' = xmpFiles st.
Proof.
  unfold orphaned, decisions. destruct apply.
  - unfold os_Remove. simpl.
    destruct (Remove (files st) p); simpl;
      rewrite ?List.filter_app; simpl;
      rewrite ?List.app_nil_r; simpl; auto 10.
  - simpl. rewrite List.filter_app, List.app_nil_r. simpl. auto 10.
Qed.

Lemma existsb_filter_and {A} (f g : A -> bool) l :
  List.existsb g (List.filter f l) = List.existsb (fun x => f x && g x) l.
Proof.
  induction l as [|x l IH]; simpl; [reflexivity|].
  destruct (f x); simpl; congruence.
Qed.

(** Whatever the candidates, a sidecar that passed the first look at its
    literal base and is not set aside as ambiguous is reported orphaned:
    the second look gives what the first gave. *)
Lemma xmp_visit_spec dir apply st e :
  Sidecar.visit EqualFold dir apply st e
  = if is_orphan EqualFold (files st) e
    then orphaned dir apply (fst e) st else st.
Proof.
  destruct e as [p d].
  unfold Sidecar.visit, is_orphan, sidecar_file, literal_base_of, candidates.
  simpl. rewrite !existsb_filter_and.
  unfold cleanImageExists, numberedImageExists.
  destruct (EntryIsDir d); [reflexivity|].
  destruct (HasSuffix (Name d) ".xmp"); [|reflexivity]. simpl.
  destruct (Stat (files st) _) eqn:Hstat; [reflexivity|]. simpl.
  destruct (List.existsb _ _ && List.existsb _ _); [reflexivity|]. simpl.
  destruct (findImage _ _ _ _ _); reflexivity.
Qed.

End VisitFacts.

(** ** Runs of the duplicate handler *)

Section DuplicateRuns.

Lemma fold_left_invariant {A} (f : state -> A -> state) (P : state -> Prop) l st :
  P st -> (forall s a, In a l -> P s -> P (f s a)) -> P (List.fold_left f l st).
Proof.
  revert st. induction l as [|a l IH]; simpl; intros st H0 Hstep; [exact H0|].
  apply IH; [apply Hstep; auto|]. intros s b Hb. apply Hstep. auto.
Qed.

Lemma dup_visit_cases dir apply st e :
  Name (snd e) = Base (fst e) ->
  Duplicates.visit dir apply st e = st
  \/ exists n,
       Duplicates.visit dir apply st e
       = Duplicates.paired dir apply (original_of e) (fst e) n st
       /\ marked_file e = true.
Proof.
  intros Hn. rewrite (dup_visit_spec dir apply st e Hn).
  unfold pair_size. destruct (marked_file e); [|auto].
  repeat case_match; eauto.
Qed.

(** A marked file is never its own original. *)
Lemma marked_file_original e :
  Name (snd e) = Base (fst e) -> marked_file e = true ->
  original_of e <> fst e.
Proof.
  intros Hn Hm. unfold marked_file in Hm.
  apply andb_true_iff in Hm as [_ Hm]. apply negb_true_iff in Hm.
  destruct (String.eqb_spec (cleanFilename (Name (snd e))) (Name (snd e)))
    as [|Hne]; [discriminate|].
  unfold original_of. destruct (fst e) as [|a p] eqn:Hp.
  - exfalso. apply Hne. rewrite Hn. reflexivity.
  - rewrite <- Hp. apply Join_Dir_other; congruence.
Qed.

Lemma marked_file_inv e :
  Name (snd e) = Base (fst e) -> marked_file e = true ->
  cleanFilename (Base (fst e)) <> Base (fst e)
  /\ HasSuffix (Base (fst e)) ".xmp" = false
  /\ EntryIsDir (snd e) = false.
Proof.
  unfold marked_file. intros <- [[Hd Hx]%andb_true_iff Hm]%andb_true_iff.
  apply negb_true_iff in Hd, Hx, Hm.
  destruct (String.eqb_spec (cleanFilename (Name (snd e))) (Name (snd e)));
    [discriminate|auto].
Qed.

Lemma dup_visit_invariant dir apply fs st e :
  Name (snd e) = Base (fst e) ->
  dup_invariant apply fs st ->
  dup_invariant apply fs (Duplicates.visit dir apply st e).
Proof.
  intros Hn Hinv.
  destruct (dup_visit_cases dir apply st e Hn) as [->|(n & -> & Hm)];
    [exact Hinv|].
  destruct Hinv as (Hcalls & Hfiles & Hpairs & Hkeep).
  destruct (paired_state dir apply (original_of e) (fst e) n st)
    as (Hc & Hf & _ & Hp & _).
  destruct (marked_file_inv e Hn Hm) as (Hmark & Hxmp & _).
  repeat split.
  - rewrite Hc, Hp, Hcalls. destruct apply; [|reflexivity].
    rewrite List.map_app. reflexivity.
  - intros ->. rewrite Hf. auto.
  - rewrite Hp. apply List.Forall_app. split; [exact Hpairs|].
    repeat constructor; simpl; auto.
    + apply marked_file_original; assumption.
    + unfold original_of. rewrite Hn. reflexivity.
  - intros q Hq. rewrite Hf. destruct apply; [|auto].
    destruct (Remove (files st) (fst e)) as [fs'|] eqn:Hr; [|auto].
    apply Remove_inv in Hr as ->. rewrite Stat_remove_other; [auto|].
    intros ->. contradiction.
Qed.

Lemma dup_invariant_print apply fs l st :
  pairs [l] = [] ->
  dup_invariant apply fs st -> dup_invariant apply fs (print l st).
Proof.
  intros Hl (Hcalls & Hfiles & Hpairs & Hkeep).
  assert (pairs (output (print l st)) = pairs (output st)) as Hp.
  { unfold pairs in *. simpl. rewrite List.flat_map_app. simpl in *.
    rewrite Hl. apply List.app_nil_r. }
  unfold dup_invariant. rewrite Hp. simpl. auto.
Qed.

Lemma handleDuplicates_invariant dir apply fs :
  dup_invariant apply fs (handleDuplicates dir apply fs).
Proof.
  unfold handleDuplicates.
  set (st := List.fold_left _ _ _).
  assert (dup_invariant apply fs st) as Hst.
  { apply fold_left_invariant.
    - unfold dup_invariant, start. simpl. destruct apply; auto.
    - intros s a Ha Hs. apply dup_visit_invariant; [|exact Hs].
      apply WalkDir_In in Ha. tauto. }
  destruct (foundChanges st =? 0);
    [apply dup_invariant_print; [reflexivity|exact Hst]|].
  destruct apply; repeat apply dup_invariant_print; auto.
Qed.

End DuplicateRuns.

(** ** Runs of the sidecar handler *)

Section SidecarRuns.

Variable EqualFold : string -> string -> bool.

Lemma sidecar_file_inv e :
  Name (snd e) = Base (fst e) -> sidecar_file e = true ->
  HasSuffix (Base (fst e)) ".xmp" = true /\ EntryIsDir (snd e) = false.
Proof.
  unfold sidecar_file. intros <- [Hd Hx]%andb_true_iff.
  apply negb_true_iff in Hd. auto.
Qed.

Lemma is_orphan_sidecar fs e :
  is_orphan EqualFold fs e = true -> sidecar_file e = true.
Proof.
  unfold is_orphan. intros [[H _]%andb_true_iff _]%andb_true_iff. exact H.
Qed.

Lemma orphaned_output dir apply p st :
  exists errs,
    output (orphaned dir apply p st) = output st ++ LOrphan dir p :: errs
    /\ List.Forall (fun l => l = LErrRemoving p) errs.
Proof.
  unfold orphaned. destruct apply; simpl.
  - unfold os_Remove. simpl. destruct (Remove (files st) p); simpl.
    + exists []. auto.
    + exists [LErrRemoving p]. rewrite <- List.app_assoc. simpl. auto.
  - exists []. auto.
Qed.

Lemma xmp_visit_invariant dir apply fs st e :
  Name (snd e) = Base (fst e) ->
  xmp_invariant apply fs st ->
  xmp_invariant apply fs (Sidecar.visit EqualFold dir apply st e).
Proof.
  intros Hn Hinv. rewrite xmp_visit_spec.
  destruct (is_orphan EqualFold (files st) e) eqn:Ho; [|exact Hinv].
  apply is_orphan_sidecar in Ho.
  destruct (sidecar_file_inv e Hn Ho) as [Hx _].
  destruct Hinv as (Hmap & Hskip & Hprev & Hcalls & Hout & Hkeep).
  destruct (orphaned_state dir apply (fst e) st)
    as (Hc & Hf & _ & _ & Hs & Hm).
  destruct (orphaned_output dir apply (fst e) st) as (errs & Ho' & Herrs).
  repeat split.
  - congruence.
  - congruence.
  - subst apply. rewrite Hf. tauto.
  - subst apply. rewrite Hc, List.app_nil_r. tauto.
  - rewrite Hc. apply List.Forall_app. split; [exact Hcalls|].
    destruct apply; repeat constructor. eauto.
  - rewrite Ho'. apply List.Forall_app. split; [exact Hout|].
    constructor; [reflexivity|].
    eapply List.Forall_impl; [|exact Herrs]. intros l ->. reflexivity.
  - intros q Hq. rewrite Hf. destruct apply; [|auto].
    destruct (Remove (files st) (fst e)) as [fs'|] eqn:Hr; [|auto].
    apply Remove_inv in Hr as ->. rewrite Stat_remove_other; [auto|].
    intros ->. congruence.
Qed.

Lemma xmp_invariant_print apply fs l st :
  is_bind_line l = false ->
  xmp_invariant apply fs st -> xmp_invariant apply fs (print l st).
Proof.
  intros Hl (Hmap & Hskip & Hprev & Hcalls & Hout & Hkeep).
  unfold xmp_invariant. simpl. repeat split; try tauto.
  apply List.Forall_app. auto.
Qed.

Lemma xmp_walk_invariant dir apply fs :
  xmp_invariant apply fs
    (List.fold_left (Sidecar.visit EqualFold dir apply) (WalkDir fs dir) (start fs)).
Proof.
  apply fold_left_invariant.
  - unfold xmp_invariant, start. simpl. auto 10.
  - intros s a Ha Hs. apply xmp_visit_invariant; [|exact Hs].
    apply WalkDir_In in Ha. tauto.
Qed.

Lemma handleXMPRenaming_invariant dir apply fs :
  xmp_invariant apply fs (handleXMPRenaming EqualFold dir apply fs).
Proof.
  unfold handleXMPRenaming.
  pose proof (xmp_walk_invariant dir apply fs) as Hst.
  set (st := List.fold_left _ (WalkDir fs dir) _) in *.
  assert (xmpFiles st = ∅) as Hmap by apply Hst.
  rewrite Hmap, map_to_list_empty. simpl.
  assert ((if apply then st else st) = st) as -> by (destruct apply; reflexivity).
  destruct (_ && _); [apply xmp_invariant_print; auto|].
  destruct (0 <? foundChanges st), apply; simpl;
    repeat case_match; repeat apply xmp_invariant_print; auto.
Qed.

End SidecarRuns.

(** ** Preview and apply side by side *)

Section PreviewApply.

Variable EqualFold : string -> string -> bool.


(** *** Duplicates *)






(** *** Sidecars *)




(** After the walk the map of pending renames is empty, so the handler
    only prints its summary. *)
Lemma handleXMPRenaming_walk dir apply fs :
  let st := List.fold_left (Sidecar.visit EqualFold dir apply)
                           (WalkDir fs dir) (start fs) in
  let run := handleXMPRenaming EqualFold dir apply fs in
  files run = files st /\ calls run = calls st
  /\ decisions run = decisions st
  /\ foundChanges run = foundChanges st /\ skipped run = skipped st.
Proof.
  intros st run. subst run. unfold handleXMPRenaming. fold st.
  assert (xmpFiles st = ∅) as Hmap by apply (xmp_walk_invariant EqualFold dir apply fs).
  rewrite Hmap, map_to_list_empty. simpl.
  assert ((if apply then st else st) = st) as -> by (destruct apply; reflexivity).
  destruct (_ && _); [rewrite decisions_print; simpl; rewrite List.app_nil_r; auto|].
  destruct (0 <? foundChanges st), apply; simpl; repeat case_match;
    rewrite ?decisions_print; simpl; rewrite ?List.app_nil_r; auto.
Qed.


End PreviewApply.

(** ** Further facts used by the claims *)

Section Helpers.

Variable EqualFold : string -> string -> bool.

Lemma append_cons c s t : String c s +:+ t = String c (s +:+ t).
Proof. reflexivity. Qed.

Lemma append_empty t : "" +:+ t = t.
Proof. reflexivity. Qed.

Lemma length_append s t :
  String.length (s +:+ t) = (String.length s + String.length t)%nat.
Proof.
  induction s as [|c s IH]; [reflexivity|].
  rewrite append_cons. simpl. congruence.
Qed.

Lemma substring_whole t : substring 0 (String.length t) t = t.
Proof. induction t as [|c t IH]; simpl; congruence. Qed.

Lemma substring_append s t :
  substring (String.length s) (String.length t) (s +:+ t) = t.
Proof.
  induction s as [|c s IH]; [apply substring_whole|].
  rewrite append_cons. exact IH.
Qed.

Lemma HasSuffix_append s t : HasSuffix (s +:+ t) t = true.
Proof.
  unfold HasSuffix. rewrite length_append.
  replace (String.length s + String.length t - String.length t)%nat
    with (String.length s) by lia.
  rewrite substring_append, String.eqb_refl.
  apply andb_true_iff. split; [apply Nat.leb_le; lia|reflexivity].
Qed.

(** The name the code computes for a sidecar ends in the sidecar suffix,
    and so does the path it is joined into. *)
Lemma correct_name_is_sidecar (dirPath foundImage : path) :
  HasSuffix (Base (Join dirPath (Base foundImage +:+ ".xmp"))) ".xmp" = true.
Proof.
  set (n := Base foundImage).
  assert (4 <= String.length (n +:+ ".xmp"))%nat as Hlen
    by (rewrite length_append; simpl; lia).
  unfold Join.
  destruct (String.eqb_spec (n +:+ ".xmp") "") as [E|_];
    [rewrite E in Hlen; simpl in Hlen; lia|].
  destruct (String.eqb_spec (n +:+ ".xmp") ".") as [E|_];
    [rewrite E in Hlen; simpl in Hlen; lia|].
  destruct (String.eqb_spec (n +:+ ".xmp") "..") as [E|_];
    [rewrite E in Hlen; simpl in Hlen; lia|].
  unfold Base. rewrite List.last_last. apply HasSuffix_append.
Qed.

Lemma find_In_Some {A} (f : A -> bool) l x :
  In x l -> f x = true -> exists y, List.find f l = Some y.
Proof.
  intros Hin Hf. destruct (List.find f l) as [y|] eqn:Hfind; [eauto|].
  rewrite (List.find_none _ _ Hfind x Hin) in Hf. discriminate.
Qed.

(** An entry listed in a directory answers to [Stat]. *)
Lemma ReadDir_Stat fs dirPath entry :
  In entry (ReadDir fs dirPath) -> valid_name (Name entry) = true ->
  exists info, Stat fs (Join dirPath (Name entry)) = Some info.
Proof.
  unfold ReadDir. intros ([q i] & <- & Hin)%List.in_map_iff Hvalid.
  apply List.filter_In in Hin as [Hin Hchild]. simpl in *.
  rewrite Join_valid by exact Hvalid.
  unfold is_child in Hchild. destruct q as [|a q]; [discriminate|].
  destruct (path_eqb_spec (removelast (a :: q)) dirPath) as [<-|]; [|discriminate].
  fold (Dir (a :: q)). rewrite Dir_Base by discriminate.
  unfold Stat.
  destruct (find_In_Some (fun e => path_eqb (fst e) (a :: q)) fs (a :: q, i) Hin)
    as [y ->]; [apply path_eqb_refl|]. simpl. eauto.
Qed.

(** A candidate found, one is chosen. *)
Lemma findImage_candidates dirPath imageExt cleanBaseOnly entries :
  List.filter (base_match EqualFold imageExt cleanBaseOnly) entries <> [] ->
  exists img,
    findImage EqualFold dirPath imageExt cleanBaseOnly entries = Some img.
Proof.
  intros Hne. unfold findImage.
  destruct (List.find _ entries) as [y|] eqn:H1; [eauto|].
  destruct (List.find (fun e => _ && negb _) entries) as [y|] eqn:H2; [eauto|].
  exfalso. apply Hne.
  induction entries as [|x l IH]; [reflexivity|].
  simpl in *. destruct (base_match EqualFold imageExt cleanBaseOnly x) eqn:Hx.
  - simpl in *. destruct (numbered x); simpl in *; discriminate.
  - simpl in *. auto.
Qed.

(** The visits of other entries leave a path and the calls on it alone. *)
Lemma xmp_fold_frame dir apply l st p :
  ~ In p (List.map fst l) ->
  let st' := List.fold_left (Sidecar.visit EqualFold dir apply) l st in
  Stat (files st') p = Stat (files st) p
  /\ List.Forall (fun c => In c (calls st)
                           \/ exists q, c = SysRemove q /\ q <> p) (calls st').
Proof.
  intros Hp. apply fold_left_invariant.
  - split; [reflexivity|]. apply List.Forall_forall. auto.
  - intros s a Ha [Hstat Hcalls]. rewrite xmp_visit_spec.
    destruct (is_orphan EqualFold (files s) a); [|auto].
    destruct (orphaned_state dir apply (fst a) s) as (Hc & Hf & _).
    assert (fst a <> p) as Hne.
    { intros <-. apply Hp. apply List.in_map. exact Ha. }
    split.
    + rewrite Hf. destruct apply; [|exact Hstat].
      destruct (Remove (files s) (fst a)) as [fs'|] eqn:Hr; [|exact Hstat].
      apply Remove_inv in Hr as ->. rewrite Stat_remove_other; auto.
    + rewrite Hc. apply List.Forall_app. split; [exact Hcalls|].
      destruct apply; constructor; [right; eauto|constructor].
Qed.

End Helpers.

(** * The claims *)

(** C1.  In preview mode (no [--apply]) neither handler mutates the
    directory: for every tree, the duplicate resolver and the sidecar
    binder leave the tree as it was and issue no [os.Remove] and no
    [os.Rename]; such calls are issued only when [apply] is true. *)
Theorem preview_never_mutates (EqualFold : string -> string -> bool)
    (dir : path) (fs : fsys) :
  files (handleDuplicates dir false fs) = fs
  /\ calls (handleDuplicates dir false fs) = []
  /\ files (handleXMPRenaming EqualFold dir false fs) = fs
  /\ calls (handleXMPRenaming EqualFold dir false fs) = [].
Proof.
  destruct (handleDuplicates_invariant dir false fs) as (Hc & Hf & _).
  destruct (handleXMPRenaming_invariant EqualFold dir false fs)
    as (_ & _ & Hx & _).
  destruct (Hx eq_refl). auto.
Qed.

(** C2.  A sidecar that passes the first look at its literal base (no
    file of that name) and reaches the choice of a candidate with
    candidates at hand is reported orphaned all the same: a candidate is
    chosen, the second look at the literal base fails as the first did, the
    removal line is printed and, in apply mode, the sidecar is deleted.
    The code after the second look never runs: no run records a rename,
    counts a skip, prints one of its lines or issues a rename. *)
Theorem recheck_forces_orphan (EqualFold : string -> string -> bool)
    (dir : path) (apply : bool) (st : state) (p : path) (d : DirEntry) :
  sidecar_file (p, d) = true ->
  Stat (files st) (literal_base_of (p, d)) = None ->
  candidates EqualFold (files st) (p, d) <> [] ->
  List.existsb (fun c => negb (numbered c)) (candidates EqualFold (files st) (p, d))
  && List.existsb numbered (candidates EqualFold (files st) (p, d)) = false ->
  let imageBase := TrimSuffix (Name d) ".xmp" in
  let cleanBase := cleanFilename imageBase in
  let st' := Sidecar.visit EqualFold dir apply st (p, d) in
  (exists foundImage,
     findImage EqualFold (Dir p) (Ext imageBase)
       (TrimSuffix cleanBase (Ext cleanBase)) (ReadDir (files st) (Dir p))
     = Some foundImage)
  /\ st' = orphaned dir apply p st
  /\ decisions st' = decisions st ++ [LOrphan dir p]
  /\ calls st' = calls st ++ (if apply then [SysRemove p] else [])
  /\ xmpFiles st' = xmpFiles st
  /\ skipped st' = skipped st
  /\ (forall info, apply = true -> Stat (files st) p = Some info ->
                   IsDir info = false -> Stat (files st') p = None)
  /\ (forall fs,
        xmpFiles (handleXMPRenaming EqualFold dir apply fs) = ∅
        /\ skipped (handleXMPRenaming EqualFold dir apply fs) = 0
        /\ List.Forall (fun l => is_bind_line l = false)
             (output (handleXMPRenaming EqualFold dir apply fs))
        /\ List.Forall (fun c => is_rename c = false)
             (calls (handleXMPRenaming EqualFold dir apply fs))).
Proof.
  intros Hside Hstat Hcand Hamb imageBase cleanBase st'.
  assert (st' = orphaned dir apply p st) as Hst'.
  { subst st'. rewrite xmp_visit_spec. unfold is_orphan.
    rewrite Hside, Hstat, Hamb. reflexivity. }
  destruct (orphaned_state dir apply p st) as (Hc & Hf & Hd & _ & Hs & Hm).
  split; [apply findImage_candidates; exact Hcand|].
  rewrite Hst'. repeat split; auto.
  - intros info -> Hp Hfile. rewrite Hf, (Remove_file _ _ _ Hp Hfile).
    apply Stat_removed.
  - apply (handleXMPRenaming_invariant EqualFold dir apply fs).
  - apply (handleXMPRenaming_invariant EqualFold dir apply fs).
  - apply (handleXMPRenaming_invariant EqualFold dir apply fs).
  - destruct (handleXMPRenaming_invariant EqualFold dir apply fs)
      as (_ & _ & _ & Hcalls & _).
    eapply List.Forall_impl; [|exact Hcalls].
    intros c (q & -> & _). reflexivity.
Qed.

Lemma recheck_forces_orphan_witness :
  Sidecar.visit EqualFoldASCII [] true (start numbered_only)
    (["a (2).mp4.xmp"], mkEntry "a (2).mp4.xmp" false)
  = orphaned [] true ["a (2).mp4.xmp"] (start numbered_only)
  /\ Stat (files (Sidecar.visit EqualFoldASCII [] true (start numbered_only)
                    (["a (2).mp4.xmp"], mkEntry "a (2).mp4.xmp" false)))
          ["a (2).mp4.xmp"] = None.
Proof.
  destruct (recheck_forces_orphan EqualFoldASCII [] true (start numbered_only)
              ["a (2).mp4.xmp"] (mkEntry "a (2).mp4.xmp" false))
    as (_ & Heq & _ & _ & _ & _ & Hgone & _).
  - reflexivity.
  - reflexivity.
  - vm_compute. discriminate.
  - reflexivity.
  - split; [exact Heq|].
    apply (Hgone (mkInfo false 3)); reflexivity.
Defined.

(** What the resolver does on a marked file: a pair is announced exactly
    when [Stat] succeeds on the original path and on the file and gives
    equal sizes; nothing tells a directory from a file. *)
Lemma pair_announced_iff (dir : path) (apply : bool) (st : state)
    (e : path * DirEntry) :
  Name (snd e) = Base (fst e) -> marked_file e = true ->
  (exists info1 info2,
     Stat (files st) (fst e) = Some info1
     /\ Stat (files st) (original_of e) = Some info2
     /\ Size info1 = Size info2)
  <-> decisions (Duplicates.visit dir apply st e)
      = decisions st
        ++ [LPair dir (original_of e) (fst e)
                  (match Stat (files st) (fst e) with
                   | Some info1 => Size info1
                   | None => 0
                   end)].
Proof.
  intros Hn Hm. rewrite dup_visit_spec by exact Hn.
  unfold pair_size. rewrite Hm.
  destruct (Stat (files st) (original_of e)) as [i2|];
    destruct (Stat (files st) (fst e)) as [i1|].
  - destruct (Z.eqb_spec (Size i1) (Size i2)) as [Heq|Hne].
    + destruct (paired_state dir apply (original_of e) (fst e) (Size i1) st)
        as (_ & _ & -> & _). split; eauto.
    + split.
      * intros (j1 & j2 & [= <-] & [= <-] & ?). contradiction.
      * intros H. apply (f_equal (@List.length line)) in H.
        rewrite List.length_app in H. simpl in H. lia.
  - split; [intros (? & ? & ? & _); discriminate|].
    intros H. apply (f_equal (@List.length line)) in H.
    rewrite List.length_app in H. simpl in H. lia.
  - split; [intros (? & ? & _ & ? & _); discriminate|].
    intros H. apply (f_equal (@List.length line)) in H.
    rewrite List.length_app in H. simpl in H. lia.
  - split; [intros (? & ? & ? & _); discriminate|].
    intros H. apply (f_equal (@List.length line)) in H.
    rewrite List.length_app in H. simpl in H. lia.
Qed.

(** C3.  A pair is to be announced only when the sibling with the cleaned
    name is a regular file of the same size.  The resolver does not look
    at the kind of the sibling: next to a directory [a] whose [Stat] size
    is 4096, the file [a (1)] of 4096 bytes is announced as a duplicate of
    the directory and, in apply mode, removed. *)
Theorem directory_taken_for_original :
  wf_fs beside_folder = true
  /\ marked_file (["a (1)"], mkEntry "a (1)" false) = true
  /\ original_of (["a (1)"], mkEntry "a (1)" false) = ["a"]
  /\ Stat beside_folder ["a"] = Some (mkInfo true 4096)
  /\ decisions (handleDuplicates [] false beside_folder)
     = [LPair [] ["a"] ["a (1)"] 4096]
  /\ List.map render (decisions (handleDuplicates [] false beside_folder))
     = ["a <-> a (1) (Size: 4096 bytes)"]
  /\ calls (handleDuplicates [] true beside_folder) = [SysRemove ["a (1)"]]
  /\ files (handleDuplicates [] true beside_folder) = [folder []; folder ["a"]].
Proof. repeat split; vm_compute; reflexivity. Qed.

(** A run of the resolver touches the duplicates it announces and
    nothing else, and an original whose name is free of markers was in the
    tree the run started from. *)
Lemma dup_run_touched dir apply fs :
  let run := handleDuplicates dir apply fs in
  (forall q, ~ In q (List.map snd (pairs (output run))) ->
             Stat (files run) q = Stat fs q)
  /\ List.Forall (fun pr =>
       cleanFilename (Base (fst pr)) = Base (fst pr) ->
       exists info, Stat fs (fst pr) = Some info)
       (pairs (output run)).
Proof.
  set (P := fun st : state =>
    dup_invariant apply fs st
    /\ (forall q, ~ In q (List.map snd (pairs (output st))) ->
                  Stat (files st) q = Stat fs q)
    /\ List.Forall (fun pr =>
         cleanFilename (Base (fst pr)) = Base (fst pr) ->
         exists info, Stat fs (fst pr) = Some info)
         (pairs (output st))).
  assert (forall l st, pairs [l] = [] -> P st -> P (print l st)) as Hprint.
  { intros l st Hl (Hinv & Htouch & Hthere).
    assert (pairs (output (print l st)) = pairs (output st)) as Hp.
    { unfold pairs in *. simpl. rewrite List.flat_map_app. simpl in *.
      rewrite Hl. apply List.app_nil_r. }
    split; [apply dup_invariant_print; assumption|].
    rewrite Hp. split; assumption. }
  assert (P (handleDuplicates dir apply fs)) as (_ & H1 & H2); [|split; assumption].
  unfold handleDuplicates.
  set (st := List.fold_left _ _ _).
  assert (P st) as Hst.
  { apply fold_left_invariant.
    - split; [unfold dup_invariant, start; simpl; destruct apply; auto|].
      split; [reflexivity|constructor].
    - intros s e He (Hinv & Htouch & Hthere).
      assert (Name (snd e) = Base (fst e)) as Hn
        by (apply WalkDir_In in He; tauto).
      split; [apply dup_visit_invariant; assumption|].
      rewrite (dup_visit_spec dir apply s e Hn).
      destruct (pair_size (files s) e) as [n|] eqn:Hsize; [|split; assumption].
      destruct (paired_state dir apply (original_of e) (fst e) n s)
        as (_ & Hf & _ & Hp & _).
      rewrite Hp, Hf. split.
      + intros q Hq. rewrite List.map_app, List.in_app_iff in Hq. simpl in Hq.
        assert (Stat (files s) q = Stat fs q) as <- by (apply Htouch; tauto).
        destruct apply; [|reflexivity].
        destruct (Remove (files s) (fst e)) as [fs'|] eqn:Hr; [|reflexivity].
        apply Remove_inv in Hr as ->. apply Stat_remove_other.
        intros ->. tauto.
      + apply List.Forall_app. split; [exact Hthere|].
        constructor; [|constructor]. simpl. intros Hclean.
        unfold pair_size in Hsize.
        destruct (marked_file e); [|discriminate].
        destruct (Stat (files s) (original_of e)) as [info2|] eqn:Ho;
          [|discriminate].
        exists info2. rewrite <- Ho. symmetry.
        destruct Hinv as (_ & _ & _ & Hkeep). apply Hkeep, Hclean. }
  destruct (foundChanges st =? 0); [apply Hprint; [reflexivity|exact Hst]|].
  destruct apply; repeat apply Hprint; auto.
Qed.

(** C4, as stated: the original of a pair is not always kept.  The
    original is the file with the cleaned name, and cleaning is not
    idempotent: [x((1)1)] cleans to [x(1)], which cleans to [x].  With the
    three files of one size, apply announces [x((1)1)] as a duplicate of
    [x(1)] and removes it, then announces [x(1)] as a duplicate of [x] and
    removes it: the original of the first pair is deleted in the same
    run. *)
Lemma original_deleted_as_duplicate :
  wf_fs nested_marker = true
  /\ cleanFilename "x((1)1)" = "x(1)"
  /\ cleanFilename "x(1)" = "x"
  /\ pairs (output (handleDuplicates [] true nested_marker))
     = [(["x(1)"], ["x((1)1)"]); (["x"], ["x(1)"])]
  /\ calls (handleDuplicates [] true nested_marker)
     = [SysRemove ["x((1)1)"]; SysRemove ["x(1)"]]
  /\ Stat nested_marker ["x(1)"] = Some (mkInfo false 5)
  /\ Stat (files (handleDuplicates [] true nested_marker)) ["x(1)"] = None
  /\ files (handleDuplicates [] true nested_marker) = [folder []; file ["x"] 5]
  /\ ~ (forall dir fs pr,
          In pr (pairs (output (handleDuplicates dir true fs))) ->
          Stat (files (handleDuplicates dir true fs)) (fst pr) = Stat fs (fst pr)).
Proof.
  split; [vm_compute; reflexivity|].
  split; [vm_compute; reflexivity|].
  split; [vm_compute; reflexivity|].
  split; [vm_compute; reflexivity|].
  split; [vm_compute; reflexivity|].
  split; [vm_compute; reflexivity|].
  split; [vm_compute; reflexivity|].
  split; [vm_compute; reflexivity|].
  intros H. specialize (H [] nested_marker (["x(1)"], ["x((1)1)"])).
  assert (Stat (files (handleDuplicates [] true nested_marker)) ["x(1)"]
          = Stat nested_marker ["x(1)"]) as Hf
    by (apply H; vm_compute; auto).
  vm_compute in Hf. discriminate.
Qed.

(** C4, amended.  In apply mode the resolver issues one removal for each
    pair it announces, on the duplicate of the pair, and no other path of
    the tree is touched; the duplicate carries a marker and is never the
    original it is paired with.  No file whose name is free of markers is
    deleted: the original of a pair, when its own name carries no marker,
    was in the tree at the start and is in it at the end, unchanged.  On
    [photo.jpg] and [photo (1).jpg] of 500 bytes each, apply removes
    [photo (1).jpg] alone; preview removes nothing and prints one pairing
    line. *)
Theorem only_the_duplicate_is_deleted (dir : path) (fs : fsys) :
  let run := handleDuplicates dir true fs in
  calls run = List.map (fun pr => SysRemove (snd pr)) (pairs (output run))
  /\ (forall q, ~ In q (List.map snd (pairs (output run))) ->
                Stat (files run) q = Stat fs q)
  /\ List.Forall (fun pr =>
       fst pr <> snd pr
       /\ cleanFilename (Base (snd pr)) <> Base (snd pr)
       /\ fst pr = Join (Dir (snd pr)) (cleanFilename (Base (snd pr)))
       /\ (cleanFilename (Base (fst pr)) = Base (fst pr) ->
           exists info, Stat fs (fst pr) = Some info
                        /\ Stat (files run) (fst pr) = Some info))
       (pairs (output run))
  /\ (forall q, cleanFilename (Base q) = Base q -> Stat (files run) q = Stat fs q)
  /\ files (handleDuplicates [] true photos) = [folder []; file ["photo.jpg"] 500]
  /\ calls (handleDuplicates [] true photos) = [SysRemove ["photo (1).jpg"]]
  /\ files (handleDuplicates [] false photos) = photos
  /\ calls (handleDuplicates [] false photos) = []
  /\ List.map render (decisions (handleDuplicates [] false photos))
     = ["photo.jpg <-> photo (1).jpg (Size: 500 bytes)"].
Proof.
  intros run.
  destruct (handleDuplicates_invariant dir true fs) as (Hc & _ & Hp & Hk).
  destruct (dup_run_touched dir true fs) as [Htouch Hthere].
  split; [exact Hc|]. split; [exact Htouch|]. split.
  - rewrite List.Forall_forall in Hp, Hthere. apply List.Forall_forall.
    intros pr Hpr. destruct (Hp pr Hpr) as (H1 & H2 & _ & H3).
    split; [exact H1|]. split; [exact H2|]. split; [exact H3|].
    intros Hclean. destruct (Hthere pr Hpr Hclean) as [info Hinfo].
    exists info. split; [exact Hinfo|].
    fold run in Hk. rewrite (Hk _ Hclean). exact Hinfo.
  - split; [exact Hk|]. repeat split; vm_compute; reflexivity.
Qed.

(** C5, as stated: [cleanFilename] is not idempotent on every name.  One
    pass over [((1)1)] removes the inner marker and leaves [(1)], which a
    second pass removes. *)
Lemma cleanFilename_not_idempotent :
  cleanFilename "((1)1)" = "(1)"
  /\ cleanFilename (cleanFilename "((1)1)") = ""
  /\ ~ (forall x, cleanFilename (cleanFilename x) = cleanFilename x).
Proof.
  repeat split; try reflexivity.
  intros H. specialize (H "((1)1)"). vm_compute in H. discriminate.
Qed.

(** C5, amended.  [cleanFilename] is idempotent on every name in which no
    marker starts directly after an opening parenthesis followed only by
    digits, and [cleanFilename "a (1) (2).jpg" = "a.jpg"]. *)
Theorem cleanFilename_idempotent (x : string) :
  nested x = false ->
  cleanFilename (cleanFilename x) = cleanFilename x
  /\ cleanFilename "a (1) (2).jpg" = "a.jpg".
Proof.
  intros Hx. split; [apply cleanFilename_idempotent_unnested, Hx|reflexivity].
Qed.

Lemma cleanFilename_idempotent_witness :
  nested "f(x) (1) (2).jpg" = false
  /\ cleanFilename (cleanFilename "f(x) (1) (2).jpg") = cleanFilename "f(x) (1) (2).jpg".
Proof.
  split; [reflexivity|].
  apply (cleanFilename_idempotent "f(x) (1) (2).jpg"). reflexivity.
Defined.

(** What the binder does when the candidates are of both kinds, a name
    with an opening parenthesis counting as numbered: nothing. *)
Lemma ambiguous_left_alone (EqualFold : string -> string -> bool)
    (dir : path) (apply : bool) (st : state) (e : path * DirEntry)
    (bare marked : DirEntry) :
  In bare (candidates EqualFold (files st) e) -> numbered bare = false ->
  In marked (candidates EqualFold (files st) e) -> numbered marked = true ->
  Sidecar.visit EqualFold dir apply st e = st.
Proof.
  intros Hb Hnb Hm Hnm. rewrite xmp_visit_spec. unfold is_orphan.
  assert (List.existsb (fun c => negb (numbered c))
            (candidates EqualFold (files st) e) = true) as ->.
  { apply List.existsb_exists. exists bare. rewrite Hnb. auto. }
  assert (List.existsb numbered (candidates EqualFold (files st) e) = true) as ->.
  { apply List.existsb_exists. eauto. }
  simpl. rewrite andb_false_r. reflexivity.
Qed.

(** C7.  With a bare and a marked variant of the stem both present the
    sidecar is to be left alone.  The binder takes every name with an
    opening parenthesis for a numbered variant: next to [a(x).mp4], which
    holds no marker, and [a(x) (1).mp4], the sidecar [a(x) (2).mp4.xmp] is
    not set aside as ambiguous but reported orphaned and, in apply mode,
    removed. *)
Theorem parenthesised_name_not_ambiguous :
  let e := (["a(x) (2).mp4.xmp"], mkEntry "a(x) (2).mp4.xmp" false) in
  wf_fs parenthesised = true
  /\ Stat parenthesised (literal_base_of e) = None
  /\ List.map Name (candidates EqualFoldASCII parenthesised e)
     = ["a(x) (1).mp4"; "a(x).mp4"]
  /\ cleanFilename "a(x).mp4" = "a(x).mp4"
  /\ cleanFilename "a(x) (1).mp4" = "a(x).mp4"
  /\ List.map numbered (candidates EqualFoldASCII parenthesised e) = [true; true]
  /\ decisions (handleXMPRenaming EqualFoldASCII [] false parenthesised)
     = [LOrphan [] ["a(x) (2).mp4.xmp"]]
  /\ calls (handleXMPRenaming EqualFoldASCII [] true parenthesised)
     = [SysRemove ["a(x) (2).mp4.xmp"]]
  /\ Stat (files (handleXMPRenaming EqualFoldASCII [] true parenthesised))
          ["a(x) (2).mp4.xmp"] = None.
Proof. repeat split; vm_compute; reflexivity. Qed.




(** The tree seen at a visit is the starting tree in preview mode, and in
    apply mode it is the starting tree on every path whose name does not
    end in [.xmp]. *)
Lemma literal_base_kept (EqualFold : string -> string -> bool)
    (dir : path) (apply : bool) (fs : fsys)
    (l1 l2 : list (path * DirEntry)) (q : path) :
  WalkDir fs dir = l1 ++ l2 ->
  apply = false \/ HasSuffix (Base q) ".xmp" = false ->
  Stat (files (List.fold_left (Sidecar.visit EqualFold dir apply) l1 (start fs))) q
  = Stat fs q.
Proof.
  intros Hwalk Hq.
  assert (xmp_invariant apply fs
            (List.fold_left (Sidecar.visit EqualFold dir apply) l1 (start fs)))
    as (_ & _ & Hprev & _ & _ & Hkeep).
  { apply fold_left_invariant.
    - unfold xmp_invariant, start. simpl. auto 10.
    - intros s a Ha Hs. apply xmp_visit_invariant; [|exact Hs].
      assert (In a (WalkDir fs dir)) as Ha'
        by (rewrite Hwalk; apply List.in_or_app; auto).
      apply WalkDir_In in Ha'. tauto. }
  destruct Hq as [->|Hq]; [|auto].
  destruct (Hprev eq_refl) as [-> _]. reflexivity.
Qed.

(** C8, as stated: a sidecar whose literal base is in the directory may
    be deleted all the same.  The literal base of [a.xmp.xmp] is [a.xmp],
    a sidecar itself.  In apply mode [a.xmp], which has no base, is
    removed first; when [a.xmp.xmp] is visited its literal base is gone,
    and it is removed as an orphan. *)
Lemma literal_base_removed_first :
  wf_fs double_sidecar = true
  /\ sidecar_file (["a.xmp.xmp"], mkEntry "a.xmp.xmp" false) = true
  /\ literal_base_of (["a.xmp.xmp"], mkEntry "a.xmp.xmp" false) = ["a.xmp"]
  /\ Stat double_sidecar ["a.xmp"] = Some (mkInfo false 7)
  /\ calls (handleXMPRenaming EqualFoldASCII [] true double_sidecar)
     = [SysRemove ["a.xmp"]; SysRemove ["a.xmp.xmp"]]
  /\ Stat double_sidecar ["a.xmp.xmp"] = Some (mkInfo false 9)
  /\ Stat (files (handleXMPRenaming EqualFoldASCII [] true double_sidecar))
          ["a.xmp.xmp"] = None
  /\ ~ (forall fs e info,
          In e (WalkDir fs []) -> sidecar_file e = true ->
          Stat fs (literal_base_of e) = Some info ->
          Stat (files (handleXMPRenaming EqualFoldASCII [] true fs)) (fst e)
          = Stat fs (fst e)).
Proof.
  split; [vm_compute; reflexivity|].
  split; [vm_compute; reflexivity|].
  split; [vm_compute; reflexivity|].
  split; [vm_compute; reflexivity|].
  split; [vm_compute; reflexivity|].
  split; [vm_compute; reflexivity|].
  split; [vm_compute; reflexivity|].
  intros H.
  specialize (H double_sidecar (["a.xmp.xmp"], mkEntry "a.xmp.xmp" false)
                (mkInfo false 7)).
  assert (Stat (files (handleXMPRenaming EqualFoldASCII [] true double_sidecar))
               ["a.xmp.xmp"] = Stat double_sidecar ["a.xmp.xmp"]) as Hf.
  { apply H; [vm_compute; auto|reflexivity|reflexivity]. }
  vm_compute in Hf. discriminate.
Qed.

(** C8, amended.  A sidecar for which the directory given holds a file
    with exactly its literal base name, that name not ending in [.xmp]
    itself when changes are applied, is left as it is before any candidate
    is looked for, and nothing in the run touches it: when it is visited
    its literal base is still there, it is in the final tree as it was and
    no call is issued on it.  For [a (2).mp4] and [a (2).mp4.xmp] neither
    mode changes anything. *)
Theorem already_correct_untouched (EqualFold : string -> string -> bool)
    (dir : path) (apply : bool) (fs : fsys)
    (l1 l2 : list (path * DirEntry)) (p : path) (d : DirEntry)
    (info : FileInfo) :
  NoDup (List.map fst fs) ->
  WalkDir fs dir = l1 ++ (p, d) :: l2 ->
  sidecar_file (p, d) = true ->
  let literalBaseName := TrimSuffix (Name d) ".xmp" in
  valid_name literalBaseName = true ->
  Stat fs (Dir p ++ [literalBaseName]) = Some info ->
  apply = false \/ HasSuffix literalBaseName ".xmp" = false ->
  let st := List.fold_left (Sidecar.visit EqualFold dir apply) l1 (start fs) in
  Stat (files st) (Dir p ++ [literalBaseName]) = Some info
  /\ Sidecar.visit EqualFold dir apply st (p, d) = st
  /\ Stat (files (handleXMPRenaming EqualFold dir apply fs)) p = Stat fs p
  /\ List.Forall (fun c => c <> SysRemove p /\ is_rename c = false)
       (calls (handleXMPRenaming EqualFold dir apply fs))
  /\ files (handleXMPRenaming EqualFoldASCII [] true already_correct)
     = already_correct
  /\ calls (handleXMPRenaming EqualFoldASCII [] true already_correct) = []
  /\ files (handleXMPRenaming EqualFoldASCII [] false already_correct)
     = already_correct
  /\ calls (handleXMPRenaming EqualFoldASCII [] false already_correct) = [].
Proof.
  intros Hnd Hwalk Hside literalBaseName Hvalid Hbase Hkind st.
  assert (Stat (files st) (Dir p ++ [literalBaseName]) = Some info) as Hsib.
  { rewrite <- Hbase.
    apply (literal_base_kept EqualFold dir apply fs l1 ((p, d) :: l2));
      [exact Hwalk|].
    destruct Hkind as [Hk|Hk]; [left; exact Hk|right].
    unfold Base. rewrite List.last_last. exact Hk. }
  split; [exact Hsib|].
  assert (Sidecar.visit EqualFold dir apply st (p, d) = st) as Hvisit.
  { rewrite xmp_visit_spec. unfold is_orphan, literal_base_of. simpl.
    fold literalBaseName. rewrite (Join_valid _ _ Hvalid), Hsib, andb_false_r.
    reflexivity. }
  split; [exact Hvisit|].
  destruct (handleXMPRenaming_walk EqualFold dir apply fs) as (-> & -> & _).
  apply (WalkDir_NoDup fs dir) in Hnd. rewrite Hwalk in Hnd.
  rewrite List.map_app in Hnd. simpl in Hnd.
  apply NoDup_app in Hnd as (_ & Hl1 & Hl2).
  apply NoDup_cons in Hl2 as [Hl2 _].
  assert (~ In p (List.map fst l1)) as Hp1.
  { intros H. apply list_elem_of_In in H. apply (Hl1 _ H). left. }
  assert (~ In p (List.map fst l2)) as Hp2.
  { intros H. apply list_elem_of_In in H. contradiction. }
  rewrite Hwalk, List.fold_left_app. cbn [List.fold_left]. fold st.
  rewrite Hvisit.
  destruct (xmp_fold_frame EqualFold dir apply l1 (start fs) p Hp1) as [Hs1 Hc1].
  destruct (xmp_fold_frame EqualFold dir apply l2 st p Hp2) as [Hs2 Hc2].
  fold st in Hs1, Hc1. simpl in Hs1, Hc1, Hs2, Hc2.
  split; [congruence|]. split.
  - rewrite List.Forall_forall in Hc1, Hc2. apply List.Forall_forall.
    intros c Hc. destruct (Hc2 c Hc) as [Hc'|(q & -> & Hq)].
    + destruct (Hc1 c Hc') as [[]|(q & -> & Hq)].
      split; [congruence|reflexivity].
    + split; [congruence|reflexivity].
  - repeat split; vm_compute; reflexivity.
Qed.

Lemma already_correct_untouched_witness :
  Stat already_correct ["a (2).mp4"] = Some (mkInfo false 10)
  /\ Stat (files (handleXMPRenaming EqualFoldASCII [] true already_correct))
          ["a (2).mp4.xmp"] = Some (mkInfo false 3)
  /\ List.Forall (fun c => c <> SysRemove ["a (2).mp4.xmp"] /\ is_rename c = false)
       (calls (handleXMPRenaming EqualFoldASCII [] true already_correct)).
Proof.
  destruct (already_correct_untouched EqualFoldASCII [] true already_correct
              [([], mkEntry "/" true); (["a (2).mp4"], mkEntry "a (2).mp4" false)]
              [] ["a (2).mp4.xmp"] (mkEntry "a (2).mp4.xmp" false)
              (mkInfo false 10))
    as (_ & _ & Hs & Hc & _).
  - apply (bool_decide_unpack _). vm_compute. exact I.
  - reflexivity.
  - reflexivity.
  - reflexivity.
  - reflexivity.
  - right. reflexivity.
  - split; [reflexivity|]. split; [rewrite Hs; reflexivity|exact Hc].
Defined.

(** [filepath.Rel] of a path below the base. *)
Lemma Rel_app (dir rel : path) : Rel dir (dir ++ rel) = rel.
Proof.
  induction dir as [|a dir IH]; simpl; [destruct rel; reflexivity|].
  rewrite String.eqb_refl. exact IH.
Qed.

(** C9.  A sidecar whose literal base is missing and whose directory
    holds no candidate (no file of the declared extension whose cleaned
    stem folds to the sidecar's) is reported orphaned.  For the sidecar at
    the relative path [rel] below the root the run was given, the one line
    printed is [[REMOVE] rel (orphaned XMP, no base file exists)], with
    the components of [rel], and not those of the root, joined by
    slashes; the entry is counted and, in apply mode, [os.Remove] is
    called on the sidecar: a sidecar that is there is then gone, and a
    call that fails is reported on the next line.  Below [photos], the
    orphan [photos/2019/b.png.xmp] is reported as [2019/b.png.xmp]. *)
Theorem orphan_reported (EqualFold : string -> string -> bool)
    (dir rel : path) (apply : bool) (st : state) (d : DirEntry) :
  rel <> [] ->
  let p := dir ++ rel in
  sidecar_file (p, d) = true ->
  Stat (files st) (literal_base_of (p, d)) = None ->
  candidates EqualFold (files st) (p, d) = [] ->
  let st' := Sidecar.visit EqualFold dir apply st (p, d) in
  decisions st' = decisions st ++ [LOrphan dir p]
  /\ List.map render (decisions st')
     = List.map render (decisions st)
       ++ ["[REMOVE] " +:+ String.concat "/" rel
           +:+ " (orphaned XMP, no base file exists)"]
  /\ foundChanges st' = foundChanges st + 1
  /\ calls st' = calls st ++ (if apply then [SysRemove p] else [])
  /\ (apply = false ->
      files st' = files st /\ output st' = output st ++ [LOrphan dir p])
  /\ (forall info, apply = true -> Stat (files st) p = Some info ->
                   IsDir info = false ->
                   Stat (files st') p = None
                   /\ output st' = output st ++ [LOrphan dir p])
  /\ (apply = true -> Remove (files st) p = None ->
      files st' = files st
      /\ output st' = output st ++ [LOrphan dir p; LErrRemoving p])
  /\ List.map render
       (decisions (handleXMPRenaming EqualFoldASCII ["photos"] false orphan_below))
     = ["[REMOVE] 2019/b.png.xmp (orphaned XMP, no base file exists)"]
  /\ calls (handleXMPRenaming EqualFoldASCII ["photos"] true orphan_below)
     = [SysRemove ["photos"; "2019"; "b.png.xmp"]].
Proof.
  intros Hrel p Hside Hstat Hcand st'.
  assert (st' = orphaned dir apply p st) as ->.
  { subst st'. rewrite xmp_visit_spec. unfold is_orphan.
    rewrite Hside, Hstat, Hcand. reflexivity. }
  destruct (orphaned_state dir apply p st) as (Hc & Hf & Hd & Hn & _).
  split; [exact Hd|]. split.
  { rewrite Hd, List.map_app. f_equal. cbn [List.map render].
    unfold show_rel. subst p. rewrite Rel_app.
    destruct rel; [contradiction|reflexivity]. }
  split; [exact Hn|]. split; [exact Hc|]. split.
  - intros ->. split; [exact Hf|reflexivity].
  - split.
    + intros info -> Hp Hfile. split.
      * rewrite Hf, (Remove_file _ _ _ Hp Hfile). apply Stat_removed.
      * unfold orphaned, os_Remove. simpl.
        rewrite (Remove_file _ _ _ Hp Hfile). reflexivity.
    + split.
      * intros -> Hfail. unfold orphaned, os_Remove. simpl. rewrite Hfail.
        simpl. rewrite <- List.app_assoc. auto.
      * split; vm_compute; reflexivity.
Qed.

Lemma orphan_reported_witness :
  List.map render
    (decisions (Sidecar.visit EqualFoldASCII ["photos"] true (start orphan_below)
                  (["photos"; "2019"; "b.png.xmp"], mkEntry "b.png.xmp" false)))
  = ["[REMOVE] 2019/b.png.xmp (orphaned XMP, no base file exists)"]
  /\ Stat (files (Sidecar.visit EqualFoldASCII ["photos"] true (start orphan_below)
                    (["photos"; "2019"; "b.png.xmp"], mkEntry "b.png.xmp" false)))
          ["photos"; "2019"; "b.png.xmp"] = None.
Proof.
  destruct (orphan_reported EqualFoldASCII ["photos"] ["2019"; "b.png.xmp"] true
              (start orphan_below) (mkEntry "b.png.xmp" false))
    as (_ & Hr & _ & _ & _ & Hgone & _).
  - discriminate.
  - reflexivity.
  - reflexivity.
  - reflexivity.
  - split; [exact Hr|].
    apply (Hgone (mkInfo false 3)); reflexivity.
Defined.

(** C10.  Each handler keeps to its own class of files: every call of the
    sidecar handler is on names ending in [.xmp] (the name it computes as
    the target of a rename ends in [.xmp] too), and the duplicate handler
    only removes, and only names that do not end in [.xmp]. *)
Theorem mutations_stay_in_class (EqualFold : string -> string -> bool)
    (dir : path) (apply : bool) (fs : fsys) :
  List.Forall (fun c => on_sidecars c = true)
    (calls (handleXMPRenaming EqualFold dir apply fs))
  /\ List.Forall (fun c => off_sidecars c = true)
       (calls (handleDuplicates dir apply fs))
  /\ (forall dirPath foundImage : path,
        HasSuffix (Base (Join dirPath (Base foundImage +:+ ".xmp"))) ".xmp"
        = true).
Proof.
  split; [|split].
  - destruct (handleXMPRenaming_invariant EqualFold dir apply fs)
      as (_ & _ & _ & Hcalls & _).
    eapply List.Forall_impl; [|exact Hcalls].
    intros c (q & -> & Hq). exact Hq.
  - destruct (handleDuplicates_invariant dir apply fs) as (Hc & _ & Hp & _).
    rewrite Hc. destruct apply; [|constructor].
    apply List.Forall_map. eapply List.Forall_impl; [|exact Hp].
    intros pr (_ & _ & Hx & _). simpl. rewrite Hx. reflexivity.
  - apply correct_name_is_sidecar.
Qed.

(** ** The remaining examples of the specification *)

(** Sizes 100 and 101: no pairing, nothing removed. *)
Example sizes_differ_no_pair :
  decisions (handleDuplicates [] true photos_sizes) = []
  /\ calls (handleDuplicates [] true photos_sizes) = []
  /\ output (handleDuplicates [] true photos_sizes) = [LNoDuplicates].
Proof. repeat split; vm_compute; reflexivity. Qed.

(** [a.mp4] and [a (1).mp4] both present: the sidecar [a (2).mp4.xmp] is
    left alone in both modes. *)
Example ambiguous_example :
  output (handleXMPRenaming EqualFoldASCII [] true ambiguous) = [LNoXMP]
  /\ calls (handleXMPRenaming EqualFoldASCII [] true ambiguous) = []
  /\ files (handleXMPRenaming EqualFoldASCII [] true ambiguous) = ambiguous
  /\ output (handleXMPRenaming EqualFoldASCII [] false ambiguous) = [LNoXMP].
Proof. repeat split; vm_compute; reflexivity. Qed.

(** [img.jpg], [img (1).jpg] of the same size, [img.jpg.xmp] and
    [orphan.xmp]: the duplicate handler removes [img (1).jpg], the sidecar
    handler removes [orphan.xmp] and leaves [img.jpg.xmp]. *)
Example end_to_end_example :
  wf_fs end_to_end = true
  /\ calls (handleDuplicates [] true end_to_end) = [SysRemove ["img (1).jpg"]]
  /\ List.map render (output (handleDuplicates [] true end_to_end))
     = ["img.jpg <-> img (1).jpg (Size: 20 bytes)";
        "  Removed: /img (1).jpg";
        "Found 1 duplicate pair(s)."; "Removed all duplicates."]
  /\ calls (handleXMPRenaming EqualFoldASCII [] true end_to_end)
     = [SysRemove ["orphan.xmp"]]
  /\ Stat (files (handleXMPRenaming EqualFoldASCII [] true end_to_end))
          ["img.jpg.xmp"] = Some (mkInfo false 3)
  /\ List.map render (output (handleXMPRenaming EqualFoldASCII [] true end_to_end))
     = ["[REMOVE] orphan.xmp (orphaned XMP, no base file exists)";
        "Found 1 XMP file(s) to rename.";
        "Renamed all XMP files to match their image files."].
Proof. repeat split; vm_compute; reflexivity. Qed.

(** * Further properties of the code *)

Import Shapes.

(** ** [cleanFilename] *)

Section NormalizerMore.

Lemma match_marker_group s r :
  match_marker s = Some r -> contains_group s = true.
Proof.
  intros [H|(t & -> & H)]%match_marker_inv.
  - destruct s; [discriminate|]. cbn [contains_group]. rewrite H. reflexivity.
  - cbn [contains_group]. destruct (match_group (String " " t)); [reflexivity|].
    destruct t as [|a t]; [discriminate|].
    cbn [contains_group]. rewrite H. reflexivity.
Qed.

Lemma contains_group_tail c t :
  match_marker (String c t) = None -> contains_group (String c t) = true ->
  contains_group t = true.
Proof.
  intros Hm H. cbn [contains_group] in H.
  destruct (match_group (String c t)) as [r|] eqn:Hg; [|exact H].
  exfalso. unfold match_marker in Hm.
  destruct (Ascii.eqb_spec c " ") as [->|_]; [|congruence].
  apply match_group_inv in Hg as (d & t' & [= ] & _).
Qed.

Lemma replace_all_length n s :
  (String.length (replace_all n s) <= String.length s)%nat.
Proof.
  revert s. induction n as [|n IH]; intros s; simpl; [lia|].
  destruct (match_marker s) as [r|] eqn:Hr.
  - apply match_marker_length in Hr. specialize (IH r). lia.
  - destruct s as [|c t]; simpl; [lia|]. specialize (IH t). lia.
Qed.

Lemma replace_all_shorter n s :
  (String.length s < n)%nat -> contains_group s = true ->
  (String.length (replace_all n s) < String.length s)%nat.
Proof.
  revert s. induction n as [|n IH]; intros s Hn Hg; [lia|].
  simpl. destruct (match_marker s) as [r|] eqn:Hr.
  - apply match_marker_length in Hr.
    pose proof (replace_all_length n r). lia.
  - destruct s as [|c t]; [discriminate|].
    simpl in Hn. simpl String.length.
    apply (contains_group_tail _ _ Hr) in Hg.
    specialize (IH t ltac:(lia) Hg). lia.
Qed.

Lemma replace_all_no_group_fixed n s :
  (String.length s < n)%nat -> contains_group s = false -> replace_all n s = s.
Proof.
  revert s. induction n as [|n IH]; intros s Hn Hg; [lia|].
  simpl. destruct (match_marker s) as [r|] eqn:Hr.
  - apply match_marker_group in Hr. congruence.
  - destruct s as [|c t]; [reflexivity|]. f_equal. apply IH.
    + simpl in Hn. lia.
    + cbn [contains_group] in Hg.
      destruct (match_group (String c t)); [discriminate|exact Hg].
Qed.

(** X1.  [cleanFilename] returns a name unchanged exactly when the name
    holds no parenthesised run of digits; it never lengthens a name, and
    shortens it exactly when it holds such a run. *)
Theorem cleanFilename_fixed_points (x : string) :
  (cleanFilename x = x <-> contains_group x = false)
  /\ (String.length (cleanFilename x) <= String.length x)%nat
  /\ contains_group x
     = (String.length (cleanFilename x) <? String.length x)%nat.
Proof.
  assert (contains_group x = true ->
          (String.length (cleanFilename x) < String.length x)%nat) as Hs
    by (intros H; apply replace_all_shorter; [lia|exact H]).
  assert (contains_group x = false -> cleanFilename x = x) as Hf
    by (intros H; apply replace_all_no_group_fixed; [lia|exact H]).
  split; [|split].
  - split; [|exact Hf]. intros Heq.
    destruct (contains_group x); [|reflexivity].
    specialize (Hs eq_refl). rewrite Heq in Hs. lia.
  - apply replace_all_length.
  - destruct (contains_group x).
    + symmetry. apply Nat.ltb_lt. auto.
    + rewrite Hf by reflexivity. symmetry. apply Nat.ltb_irrefl.
Qed.

Lemma skip_digits_sublist t :
  sublist (list_ascii_of_string (skip_digits t)) (list_ascii_of_string t).
Proof.
  induction t as [|c t IH]; simpl; [constructor|].
  destruct (is_digit c); [apply sublist_cons, IH|reflexivity].
Qed.

Lemma match_group_sublist s r :
  match_group s = Some r ->
  sublist (list_ascii_of_string r) (list_ascii_of_string s).
Proof.
  intros (d & t & -> & _ & Hs)%match_group_inv. simpl.
  do 2 apply sublist_cons.
  pose proof (skip_digits_sublist t) as H. rewrite Hs in H. simpl in H.
  etrans; [|exact H]. apply sublist_cons. reflexivity.
Qed.

Lemma match_marker_sublist s r :
  match_marker s = Some r ->
  sublist (list_ascii_of_string r) (list_ascii_of_string s).
Proof.
  intros [H|(t & -> & H)]%match_marker_inv.
  - apply match_group_sublist, H.
  - simpl. apply sublist_cons, match_group_sublist, H.
Qed.

Lemma replace_all_sublist n s :
  sublist (list_ascii_of_string (replace_all n s)) (list_ascii_of_string s).
Proof.
  revert s. induction n as [|n IH]; intros s; simpl; [apply sublist_nil_l|].
  destruct (match_marker s) as [r|] eqn:Hr.
  - etrans; [apply IH|]. apply match_marker_sublist, Hr.
  - destruct s as [|c t]; simpl; [constructor|]. apply sublist_skip, IH.
Qed.

(** X2.  [cleanFilename] only deletes characters: what it returns is the
    name with some characters left out, none added, none moved. *)
Theorem cleanFilename_subsequence (x : string) :
  sublist (list_ascii_of_string (cleanFilename x)) (list_ascii_of_string x).
Proof. apply replace_all_sublist. Qed.

Lemma skip_digits_run ds rest :
  all_digits ds = true ->
  skip_digits (ds +:+ String ")" rest) = String ")" rest.
Proof.
  induction ds as [|c ds IH]; [reflexivity|].
  simpl. intros [Hc Hds]%andb_true_iff.
  rewrite Hc. exact (IH Hds).
Qed.

Lemma match_group_head a t r : match_group (String a t) = Some r -> a = "("%char.
Proof. intros (d & t' & [= -> _] & _)%match_group_inv. reflexivity. Qed.

Lemma cleanFilename_plain_prefix stem rest :
  ContainsChar stem "(" = false ->
  cleanFilename (stem +:+ String " " rest) = stem +:+ cleanFilename (String " " rest).
Proof.
  induction stem as [|c stem IH]; [reflexivity|].
  simpl. intros [Hc Hstem]%orb_false_elim.
  rewrite !append_cons, cleanFilename_unfold.
  assert (match_marker (String c (stem +:+ String " " rest)) = None) as ->.
  { unfold match_marker.
    destruct (Ascii.eqb c " ").
    - destruct stem as [|a stem'].
      + rewrite append_empty.
        destruct (match_group (String " " rest)) as [r|] eqn:Hg; [|reflexivity].
        apply match_group_head in Hg. discriminate.
      + rewrite append_cons.
        destruct (match_group (String a _)) as [r|] eqn:Hg; [|reflexivity].
        apply match_group_head in Hg. subst a. simpl in Hstem. discriminate.
    - destruct (match_group (String c _)) as [r|] eqn:Hg; [|reflexivity].
      apply match_group_head in Hg. subst c. discriminate. }
  rewrite (IH Hstem). reflexivity.
Qed.

(** X3.  Adding a marker and cleaning gives the name back: for a stem
    without opening parenthesis and a non-empty run of digits [ds],
    [cleanFilename (stem ++ " (" ++ ds ++ ")" ++ ext)] is [stem] followed
    by the cleaned [ext], hence [stem ++ ext] when [ext] holds no group. *)
Theorem marker_round_trip (stem ds ext : string) :
  ContainsChar stem "(" = false ->
  ds <> "" ->
  all_digits ds = true ->
  cleanFilename (stem +:+ " (" +:+ ds +:+ ")" +:+ ext)
  = stem +:+ cleanFilename ext
  /\ (contains_group ext = false ->
      cleanFilename (stem +:+ " (" +:+ ds +:+ ")" +:+ ext) = stem +:+ ext).
Proof.
  intros Hstem Hne Hds.
  assert (cleanFilename (stem +:+ " (" +:+ ds +:+ ")" +:+ ext)
          = stem +:+ cleanFilename ext) as Heq.
  { change (" (" +:+ ds +:+ ")" +:+ ext)
      with (String " " (String "(" (ds +:+ String ")" ext))).
    rewrite (cleanFilename_plain_prefix _ _ Hstem). f_equal.
    rewrite cleanFilename_unfold.
    destruct ds as [|d ds]; [congruence|].
    simpl in Hds. apply andb_true_iff in Hds as [Hd Hds].
    rewrite append_cons. unfold match_marker, match_group. simpl.
    rewrite Hd, (skip_digits_run _ _ Hds). reflexivity. }
  split; [exact Heq|].
  intros Hext. rewrite Heq. f_equal.
  apply replace_all_no_group_fixed; [lia|exact Hext].
Qed.

Lemma marker_round_trip_witness :
  cleanFilename ("photo" +:+ " (" +:+ "12" +:+ ")" +:+ ".jpg") = "photo.jpg".
Proof.
  destruct (marker_round_trip "photo" "12" ".jpg") as [_ H].
  - reflexivity.
  - discriminate.
  - reflexivity.
  - apply H. reflexivity.
Defined.

End NormalizerMore.

Import Outcomes.

(** ** Runs of the handlers: what is left alone, what is removed *)

Section HandlersMore.

Variable EqualFold : string -> string -> bool.

Lemma filter_is_sublist {A} (f : A -> bool) (l : list A) :
  sublist (List.filter f l) l.
Proof.
  induction l as [|x l IH]; simpl; [constructor|].
  destruct (f x); [apply sublist_skip|apply sublist_cons]; exact IH.
Qed.

Lemma sublist_In {A} (l k : list A) x : sublist l k -> In x l -> In x k.
Proof.
  intros Hs Hx. apply list_elem_of_In. apply list_elem_of_In in Hx.
  eapply elem_of_sublist; eauto.
Qed.

Lemma Stat_after_remove fs p q :
  Stat (List.filter (fun e => negb (path_eqb (fst e) p)) fs) q
  = if path_eqb q p then None else Stat fs q.
Proof.
  destruct (path_eqb_spec q p) as [->|Hne].
  - apply Stat_removed.
  - apply Stat_remove_other, Hne.
Qed.

Lemma WalkDir_prefix fs dir e : In e (WalkDir fs dir) -> is_prefix dir (fst e) = true.
Proof.
  unfold WalkDir. intros ([p i] & <- & Hin)%List.in_map_iff.
  apply List.filter_In in Hin as [_ H]. exact H.
Qed.


Lemma NoDup_fst_In (fs : fsys) p i j :
  NoDup (List.map fst fs) -> In (p, i) fs -> In (p, j) fs -> i = j.
Proof.
  induction fs as [|[q k] fs IH]; simpl; [tauto|].
  intros [Hq Hnd]%NoDup_cons Hi Hj.
  assert (forall x, In (q, x) fs -> False) as Hfresh.
  { intros x Hx. apply Hq. apply list_elem_of_In.
    apply (List.in_map fst) in Hx. exact Hx. }
  destruct Hi as [Hi|Hi], Hj as [Hj|Hj].
  - congruence.
  - injection Hi as -> _. exfalso. eauto.
  - injection Hj as -> _. exfalso. eauto.
  - auto.
Qed.

(** A walked entry that is not a directory and is still in the tree, the
    tree being a part of the starting one, is removed by [os.Remove]. *)
Lemma Remove_walked fs fs' dir e info :
  NoDup (List.map fst fs) -> sublist fs' fs ->
  In e (WalkDir fs dir) -> EntryIsDir (snd e) = false ->
  Stat fs' (fst e) = Some info ->
  Remove fs' (fst e)
  = Some (List.filter (fun x => negb (path_eqb (fst x) (fst e))) fs').
Proof.
  intros Hnd Hsub He Hd Hstat. apply (Remove_file _ _ info); [exact Hstat|].
  apply WalkDir_In in He as (_ & i & Hi & Hdi).
  apply Stat_In in Hstat. apply (sublist_In _ _ _ Hsub) in Hstat.
  rewrite (NoDup_fst_In fs _ _ _ Hnd Hstat Hi). congruence.
Qed.

Lemma pair_size_inv fs e n :
  pair_size fs e = Some n ->
  marked_file e = true /\ exists info, Stat fs (fst e) = Some info.
Proof.
  unfold pair_size. destruct (marked_file e); [|discriminate].
  destruct (Stat fs (original_of e)); [|discriminate].
  destruct (Stat fs (fst e)); [eauto|discriminate].
Qed.

Lemma pair_size_gone fs e : Stat fs (fst e) = None -> pair_size fs e = None.
Proof.
  intros H. unfold pair_size. rewrite H.
  destruct (marked_file e), (Stat fs (original_of e)); reflexivity.
Qed.

(** Removals cannot make a pair appear. *)
Lemma pair_size_removals fs fs' e :
  (forall q, Stat fs' q = None \/ Stat fs' q = Stat fs q) ->
  pair_size fs e = None -> pair_size fs' e = None.
Proof.
  intros H. unfold pair_size. destruct (marked_file e); [|reflexivity].
  destruct (H (original_of e)) as [->| ->]; [reflexivity|].
  destruct (H (fst e)) as [->| ->]; [|auto].
  destruct (Stat fs (original_of e)); reflexivity.
Qed.

Lemma refusing_dup_visit_spec (refused : path -> bool) dir apply st e :
  Name (snd e) = Base (fst e) ->
  Refusing.visitDuplicate refused dir apply st e
  = match pair_size (files st) e with
    | Some n => Refusing.paired refused dir apply (original_of e) (fst e) n st
    | None => st
    end.
Proof.
  destruct e as [p d]. simpl. intros Hname.
  unfold Refusing.visitDuplicate, pair_size, marked_file, original_of. simpl.
  destruct (EntryIsDir d); [reflexivity|].
  destruct (HasSuffix (Name d) ".xmp"); [reflexivity|]. simpl.
  destruct (ContainsChar (Name d) "(") eqn:Hc; simpl.
  - destruct (String.eqb (cleanFilename (Name d)) (Name d)); [reflexivity|].
    simpl. destruct (Stat (files st) (Join (Dir p) (cleanFilename (Name d))));
      [|reflexivity].
    destruct (Stat (files st) p); [|reflexivity].
    destruct (Size _ =? Size _); reflexivity.
  - rewrite (cleanFilename_no_paren _ Hc), String.eqb_refl. reflexivity.
Qed.

(** A refused removal is reported and changes nothing. *)
Lemma refusing_paired_refused (refused : path -> bool) dir o p n st :
  refused p = true ->
  files (Refusing.paired refused dir true o p n st) = files st
  /\ output (Refusing.paired refused dir true o p n st)
     = output st ++ [LPair dir o p n; LErrRemoving p].
Proof.
  intros Hr. unfold Refusing.paired, Refusing.os_Remove. simpl. rewrite Hr.
  simpl. rewrite <- List.app_assoc. auto.
Qed.

Lemma refusing_paired_removed (refused : path -> bool) dir o p n st fs' :
  refused p = false -> Remove (files st) p = Some fs' ->
  files (Refusing.paired refused dir true o p n st) = fs'
  /\ output (Refusing.paired refused dir true o p n st)
     = output st ++ [LPair dir o p n; LRemoved p].
Proof.
  intros Hr Hrm. unfold Refusing.paired, Refusing.os_Remove, os_Remove. simpl.
  rewrite Hr. simpl. rewrite Hrm. simpl. rewrite <- List.app_assoc. auto.
Qed.

Lemma marked_file_not_dir e : marked_file e = true -> EntryIsDir (snd e) = false.
Proof.
  unfold marked_file. intros [[H _]%andb_true_iff _]%andb_true_iff.
  apply negb_true_iff, H.
Qed.

(** An apply run of the duplicate handler on a tree without repeated
    paths, whatever the system refuses: a removal fails only where it is
    refused and is then reported, what is removed stays away, what is
    refused stays, and every walked entry ends without a pair to announce
    unless its removal was refused. *)
Lemma refusing_dup_run (refused : path -> bool) dir fs :
  NoDup (List.map fst fs) ->
  forall l st,
    incl l (WalkDir fs dir) ->
    sublist (files st) fs ->
    let st' := List.fold_left (Refusing.visitDuplicate refused dir true) l st in
    sublist (files st') fs
    /\ (forall q, Stat (files st') q = None
                  \/ Stat (files st') q = Stat (files st) q)
    /\ (forall q, refused q = true -> Stat (files st') q = Stat (files st) q)
    /\ exists ext,
         output st' = output st ++ ext
         /\ List.Forall (fun pr => if refused (snd pr)
                                   then In (LErrRemoving (snd pr)) ext
                                   else Stat (files st') (snd pr) = None)
              (pairs ext)
         /\ (forall x, In x ext -> is_error_line x = true ->
             exists p, x = LErrRemoving p /\ refused p = true)
         /\ (forall e, In e l -> pair_size (files st') e = None
                                 \/ In (LErrRemoving (fst e)) ext).
Proof.
  intros Hnd. induction l as [|e l IH]; intros st Hincl Hsub.
  { simpl. split; [exact Hsub|]. split; [auto|]. split; [auto|].
    exists []. rewrite List.app_nil_r. split; [reflexivity|].
    split; [constructor|]. split; [intros x []|intros e []]. }
  cbn [List.fold_left].
  assert (In e (WalkDir fs dir)) as He by (apply Hincl; left; reflexivity).
  assert (Name (snd e) = Base (fst e)) as Hn by (apply WalkDir_In in He; tauto).
  assert (incl l (WalkDir fs dir)) as Hincl'
    by (intros x Hx; apply Hincl; right; exact Hx).
  rewrite (refusing_dup_visit_spec refused dir true st e Hn).
  destruct (pair_size (files st) e) as [n|] eqn:Hps.
  - destruct (pair_size_inv _ _ _ Hps) as (Hm & info & Hstat).
    destruct (refused (fst e)) eqn:Hre.
    + destruct (refusing_paired_refused refused dir (original_of e) (fst e) n st Hre)
        as [Hf Ho].
      set (st1 := Refusing.paired refused dir true (original_of e) (fst e) n st) in *.
      destruct (IH st1 Hincl') as (H1 & H2 & H3 & ext & Hext & H4 & H5 & H6);
        [rewrite Hf; exact Hsub|].
      split; [exact H1|]. split; [rewrite <- Hf; exact H2|].
      split; [rewrite <- Hf; exact H3|].
      exists ([LPair dir (original_of e) (fst e) n; LErrRemoving (fst e)] ++ ext).
      split; [rewrite Hext, Ho, <- List.app_assoc; reflexivity|]. split; [|split].
      * unfold pairs. rewrite List.flat_map_app. apply List.Forall_app. split.
        -- constructor; [|constructor]. cbn [snd]. rewrite Hre.
           right. left. reflexivity.
        -- eapply List.Forall_impl; [|exact H4]. intros pr Hin.
           cbv beta in *. destruct (refused (snd pr)); [|exact Hin].
           right. right. exact Hin.
      * intros x [<-|[<-|Hx]] Herr; [discriminate|eauto|eauto].
      * intros x [<-|Hx]; [right; right; left; reflexivity|].
        destruct (H6 x Hx) as [H|H]; [left; exact H|right; right; right; exact H].
    + pose proof (Remove_walked fs (files st) dir e info Hnd Hsub He
                    (marked_file_not_dir e Hm) Hstat) as Hr.
      destruct (refusing_paired_removed refused dir (original_of e) (fst e) n st _ Hre Hr)
        as [Hf Ho].
      set (st1 := Refusing.paired refused dir true (original_of e) (fst e) n st) in *.
      assert (forall q, Stat (files st1) q = None
                        \/ Stat (files st1) q = Stat (files st) q) as Hmono.
      { intros q. rewrite Hf, Stat_after_remove.
        destruct (path_eqb q (fst e)); auto. }
      destruct (IH st1 Hincl') as (H1 & H2 & H3 & ext & Hext & H4 & H5 & H6);
        [rewrite Hf; etrans; [apply filter_is_sublist|exact Hsub]|].
      assert (Stat (files (List.fold_left (Refusing.visitDuplicate refused dir true)
                             l st1)) (fst e) = None) as Hgone.
      { destruct (H2 (fst e)) as [H|H]; [exact H|].
        rewrite H, Hf. apply Stat_removed. }
      split; [exact H1|]. split; [|split].
      * intros q. destruct (H2 q) as [H|H]; [auto|].
        destruct (Hmono q) as [H'|H']; [left|right]; congruence.
      * intros q Hq. rewrite (H3 q Hq), Hf, Stat_after_remove.
        destruct (path_eqb_spec q (fst e)) as [->|_]; [congruence|reflexivity].
      * exists ([LPair dir (original_of e) (fst e) n; LRemoved (fst e)] ++ ext).
        split; [rewrite Hext, Ho, <- List.app_assoc; reflexivity|]. split; [|split].
        -- unfold pairs. rewrite List.flat_map_app. apply List.Forall_app. split.
           ++ constructor; [|constructor]. cbn [snd]. rewrite Hre. exact Hgone.
           ++ eapply List.Forall_impl; [|exact H4]. intros pr Hin.
              cbv beta in *. destruct (refused (snd pr)); [|exact Hin].
              right. right. exact Hin.
        -- intros x [<-|[<-|Hx]] Herr; [discriminate|discriminate|eauto].
        -- intros x [<-|Hx]; [left; apply pair_size_gone, Hgone|].
           destruct (H6 x Hx) as [H|H]; [left; exact H|right; right; right; exact H].
  - destruct (IH st Hincl' Hsub) as (H1 & H2 & H3 & ext & Hext & H4 & H5 & H6).
    split; [exact H1|]. split; [exact H2|]. split; [exact H3|].
    exists ext. split; [exact Hext|]. split; [exact H4|]. split; [exact H5|].
    intros x [<-|Hx]; [|auto]. left.
    eapply pair_size_removals; [exact H2|exact Hps].
Qed.

Lemma handleDuplicates_walk dir apply fs :
  let st := List.fold_left (Duplicates.visit dir apply) (WalkDir fs dir) (start fs) in
  files (handleDuplicates dir apply fs) = files st
  /\ calls (handleDuplicates dir apply fs) = calls st
  /\ pairs (output (handleDuplicates dir apply fs)) = pairs (output st)
  /\ (List.Forall (fun l => is_error_line l = false) (output st) ->
      List.Forall (fun l => is_error_line l = false)
        (output (handleDuplicates dir apply fs))).
Proof.
  intros st. unfold handleDuplicates. fold st.
  destruct (foundChanges st =? 0), apply; simpl;
    unfold pairs; rewrite ?List.flat_map_app; simpl;
    rewrite ?List.app_nil_r; repeat split; auto;
    intros H; repeat (apply List.Forall_app; split); auto.
Qed.

(** The summary of the duplicate handler adds lines that are neither
    pairs nor errors, and leaves the tree as the walk left it. *)
Lemma refusing_handleDuplicates_walk (refused : path -> bool) dir apply fs :
  let st := List.fold_left (Refusing.visitDuplicate refused dir apply)
                           (WalkDir fs dir) (start fs) in
  files (Refusing.handleDuplicates refused dir apply fs) = files st
  /\ exists summary,
       output (Refusing.handleDuplicates refused dir apply fs)
       = output st ++ summary
       /\ pairs summary = []
       /\ List.Forall (fun l => is_error_line l = false) summary.
Proof.
  intros st. unfold Refusing.handleDuplicates. fold st.
  destruct (foundChanges st =? 0), apply; cbn [files output print];
    (split; [reflexivity|]); rewrite <- ?List.app_assoc;
    eexists; (split; [reflexivity|]); split; try reflexivity;
    repeat constructor.
Qed.

(** X4.  On a tree without repeated paths, an apply run of the duplicate
    handler carries out every removal it announces unless the system
    refuses it: whatever the system refuses, after the run the duplicate
    of each announced pair is gone, or its removal was refused, the error
    is reported and the duplicate is as it was; the run reports no other
    error, the tree is otherwise a part of what it was, and with nothing
    refused the run is that of [Duplicates.handleDuplicates]. *)
Theorem announced_duplicates_are_removed (refused : path -> bool) (dir : path)
    (fs : fsys) :
  NoDup (List.map fst fs) ->
  let run := Refusing.handleDuplicates refused dir true fs in
  List.Forall (fun pr => Refusing.removal_told refused fs run (snd pr))
    (pairs (output run))
  /\ Refusing.errors_are_refusals refused run
  /\ sublist (files run) fs
  /\ Refusing.handleDuplicates Refusing.nothing dir true fs
     = handleDuplicates dir true fs.
Proof.
  intros Hnd run. subst run.
  destruct (refusing_handleDuplicates_walk refused dir true fs)
    as (Hfiles & summary & Hout & Hpairs & Hsum).
  destruct (refusing_dup_run refused dir fs Hnd (WalkDir fs dir) (start fs)
              (incl_refl _) (reflexivity _))
    as (H1 & _ & H3 & ext & Hext & H4 & H5 & _).
  cbn [output start List.app] in Hext.
  unfold Refusing.removal_told, Refusing.errors_are_refusals.
  rewrite Hfiles, Hout, Hext. split; [|split; [|split]].
  - unfold pairs in *. rewrite List.flat_map_app, Hpairs, List.app_nil_r.
    eapply List.Forall_impl; [|exact H4]. intros pr Hin. cbv beta in *.
    destruct (refused (snd pr)) eqn:Hre; [|exact Hin].
    split; [apply List.in_or_app; left; exact Hin|apply H3, Hre].
  - intros l [Hl|Hl]%List.in_app_or Herr; [eauto|].
    rewrite List.Forall_forall in Hsum. rewrite (Hsum l Hl) in Herr. discriminate.
  - exact H1.
  - reflexivity.
Qed.

Lemma announced_duplicates_are_removed_witness :
  Refusing.removal_told (Refusing.only ["a (1)"]) chain
    (Refusing.handleDuplicates (Refusing.only ["a (1)"]) [] true chain)
    ["a (1)"]
  /\ Refusing.removal_told (Refusing.only ["a (1)"]) chain
       (Refusing.handleDuplicates (Refusing.only ["a (1)"]) [] true chain)
       ["a(3) (1(2))"].
Proof.
  destruct (announced_duplicates_are_removed (Refusing.only ["a (1)"]) [] chain)
    as (H & _).
  - apply (bool_decide_unpack _). vm_compute. exact I.
  - rewrite List.Forall_forall in H. split.
    + apply (H (["a"], ["a (1)"])). vm_compute. auto.
    + apply (H (["a (1)"], ["a(3) (1(2))"])). vm_compute. auto.
Defined.







(** X8.  Neither handler creates, renames or alters anything: in either
    mode the final listing is the starting one with some entries left out,
    and every call issued is an [os.Remove] of a path below the root the
    handler was given. *)
Theorem handlers_only_remove_below_root (dir : path) (apply : bool) (fs : fsys) :
  sublist (files (handleDuplicates dir apply fs)) fs
  /\ List.Forall (fun c => removes_below dir c = true)
       (calls (handleDuplicates dir apply fs))
  /\ sublist (files (handleXMPRenaming EqualFold dir apply fs)) fs
  /\ List.Forall (fun c => removes_below dir c = true)
       (calls (handleXMPRenaming EqualFold dir apply fs)).
Proof.
  destruct (handleDuplicates_walk dir apply fs) as (-> & -> & _).
  destruct (handleXMPRenaming_walk EqualFold dir apply fs) as (-> & -> & _).
  set (P := fun s : state =>
              sublist (files s) fs
              /\ List.Forall (fun c => removes_below dir c = true) (calls s)).
  assert (forall e s p, In e (WalkDir fs dir) -> p = fst e -> P s ->
            forall s',
              calls s' = calls s ++ (if apply then [SysRemove p] else []) ->
              files s' = (if apply
                          then match Remove (files s) p with
                               | Some fs' => fs'
                               | None => files s
                               end
                          else files s) ->
              P s') as Hstep.
  { intros e s p He -> [Hsub Hcalls] s' Hc Hf. split.
    - rewrite Hf. destruct apply; [|exact Hsub].
      destruct (Remove (files s) (fst e)) as [fs'|] eqn:Hr; [|exact Hsub].
      apply Remove_inv in Hr as ->.
      etrans; [apply filter_is_sublist|exact Hsub].
    - rewrite Hc. apply List.Forall_app. split; [exact Hcalls|].
      destruct apply; constructor; [|constructor].
      simpl. apply (WalkDir_prefix fs), He. }
  assert (P (start fs)) as H0 by (split; [reflexivity|constructor]).
  assert (P (List.fold_left (Duplicates.visit dir apply) (WalkDir fs dir) (start fs)))
    as [H1 H2].
  { apply fold_left_invariant; [exact H0|]. intros s e He Hs.
    assert (Name (snd e) = Base (fst e)) as Hn by (apply WalkDir_In in He; tauto).
    destruct (dup_visit_cases dir apply s e Hn) as [->|(n & -> & _)]; [exact Hs|].
    destruct (paired_state dir apply (original_of e) (fst e) n s)
      as (Hc & Hf & _).
    eapply Hstep; eauto. }
  assert (P (List.fold_left (Sidecar.visit EqualFold dir apply) (WalkDir fs dir)
               (start fs))) as [H3 H4].
  { apply fold_left_invariant; [exact H0|]. intros s e He Hs.
    rewrite xmp_visit_spec. destruct (is_orphan EqualFold (files s) e); [|exact Hs].
    destruct (orphaned_state dir apply (fst e) s) as (Hc & Hf & _).
    eapply Hstep; eauto. }
  auto.
Qed.

Lemma In_Stat (fs : fsys) p i :
  NoDup (List.map fst fs) -> In (p, i) fs -> Stat fs p = Some i.
Proof.
  intros Hnd Hin. unfold Stat.
  destruct (find_In_Some (fun e => path_eqb (fst e) p) fs (p, i) Hin
              (path_eqb_refl p)) as [[q j] Hfind].
  rewrite Hfind. simpl.
  apply List.find_some in Hfind as [Hj Hq]. simpl in Hq.
  destruct (path_eqb_spec q p) as [->|]; [|discriminate].
  f_equal. eapply NoDup_fst_In; eauto.
Qed.

Lemma refusing_xmp_visit_spec (refused : path -> bool) dir apply st e :
  Refusing.visitSidecar refused EqualFold dir apply st e
  = if is_orphan EqualFold (files st) e
    then Refusing.orphaned refused dir apply (fst e) st else st.
Proof.
  destruct e as [p d].
  unfold Refusing.visitSidecar, is_orphan, sidecar_file, literal_base_of,
    candidates.
  simpl. rewrite !existsb_filter_and.
  unfold cleanImageExists, numberedImageExists.
  destruct (EntryIsDir d); [reflexivity|].
  destruct (HasSuffix (Name d) ".xmp"); [|reflexivity]. simpl.
  destruct (Stat (files st) _) eqn:Hstat; [reflexivity|]. simpl.
  destruct (List.existsb _ _ && List.existsb _ _); [reflexivity|]. simpl.
  destruct (findImage _ _ _ _ _); reflexivity.
Qed.

Lemma refusing_orphaned_refused (refused : path -> bool) dir p st :
  refused p = true ->
  files (Refusing.orphaned refused dir true p st) = files st
  /\ xmpFiles (Refusing.orphaned refused dir true p st) = xmpFiles st
  /\ output (Refusing.orphaned refused dir true p st)
     = output st ++ [LOrphan dir p; LErrRemoving p].
Proof.
  intros Hr. unfold Refusing.orphaned, Refusing.os_Remove. simpl. rewrite Hr.
  simpl. rewrite <- List.app_assoc. auto.
Qed.

Lemma refusing_orphaned_removed (refused : path -> bool) dir p st fs' :
  refused p = false -> Remove (files st) p = Some fs' ->
  files (Refusing.orphaned refused dir true p st) = fs'
  /\ xmpFiles (Refusing.orphaned refused dir true p st) = xmpFiles st
  /\ output (Refusing.orphaned refused dir true p st)
     = output st ++ [LOrphan dir p].
Proof.
  intros Hr Hrm. unfold Refusing.orphaned, Refusing.os_Remove, os_Remove. simpl.
  rewrite Hr. simpl. rewrite Hrm. simpl. auto.
Qed.

(** An apply run of the sidecar handler on a tree without repeated paths,
    whatever the system refuses: a removal fails only where it is refused
    and is then reported, what is removed stays away, what is refused
    stays, and no rename is recorded. *)
Lemma refusing_xmp_run (refused : path -> bool) dir fs :
  NoDup (List.map fst fs) ->
  forall l st,
    incl l (WalkDir fs dir) ->
    NoDup (List.map fst l) ->
    sublist (files st) fs ->
    (forall x, In x l -> Stat (files st) (fst x) = Stat fs (fst x)) ->
    let st' := List.fold_left (Refusing.visitSidecar refused EqualFold dir true)
                              l st in
    sublist (files st') fs
    /\ xmpFiles st' = xmpFiles st
    /\ (forall q, Stat (files st') q = None
                  \/ Stat (files st') q = Stat (files st) q)
    /\ (forall q, refused q = true -> Stat (files st') q = Stat (files st) q)
    /\ exists ext,
         output st' = output st ++ ext
         /\ List.Forall (fun p => if refused p
                                  then In (LErrRemoving p) ext
                                  else Stat (files st') p = None)
              (orphans ext)
         /\ (forall x, In x ext -> is_error_line x = true ->
             exists p, x = LErrRemoving p /\ refused p = true).
Proof.
  intros Hnd. induction l as [|e l IH]; intros st Hincl Hndl Hsub Hkeep.
  { simpl. split; [exact Hsub|]. split; [reflexivity|]. split; [auto|].
    split; [auto|]. exists []. rewrite List.app_nil_r. split; [reflexivity|].
    split; [constructor|intros x []]. }
  cbn [List.fold_left].
  change (NoDup (fst e :: List.map fst l)) in Hndl.
  apply NoDup_cons in Hndl as [Hfresh Hndl]. rewrite list_elem_of_In in Hfresh.
  assert (In e (WalkDir fs dir)) as He by (apply Hincl; left; reflexivity).
  assert (incl l (WalkDir fs dir)) as Hincl'
    by (intros x Hx; apply Hincl; right; exact Hx).
  rewrite refusing_xmp_visit_spec.
  destruct (is_orphan EqualFold (files st) e) eqn:Ho.
  - apply is_orphan_sidecar in Ho.
    assert (EntryIsDir (snd e) = false) as Hd.
    { unfold sidecar_file in Ho. apply andb_true_iff in Ho as [H _].
      apply negb_true_iff, H. }
    destruct (WalkDir_In _ _ _ He) as (_ & i & Hi & _).
    assert (Stat (files st) (fst e) = Some i) as Hstat.
    { rewrite Hkeep by (left; reflexivity). apply In_Stat; assumption. }
    destruct (refused (fst e)) eqn:Hre.
    + destruct (refusing_orphaned_refused refused dir (fst e) st Hre)
        as (Hf & Hx & Hout).
      set (st1 := Refusing.orphaned refused dir true (fst e) st) in *.
      destruct (IH st1 Hincl' Hndl) as (H1 & H2 & H3 & H4 & ext & Hext & H5 & H6).
      { rewrite Hf. exact Hsub. }
      { intros x Hin. rewrite Hf. apply Hkeep. right. exact Hin. }
      split; [exact H1|]. split; [congruence|].
      split; [rewrite <- Hf; exact H3|]. split; [rewrite <- Hf; exact H4|].
      exists ([LOrphan dir (fst e); LErrRemoving (fst e)] ++ ext).
      split; [rewrite Hext, Hout, <- List.app_assoc; reflexivity|]. split.
      * unfold orphans. rewrite List.flat_map_app. apply List.Forall_app. split.
        -- constructor; [|constructor]. rewrite Hre. right. left. reflexivity.
        -- eapply List.Forall_impl; [|exact H5]. intros p Hin. cbv beta in *.
           destruct (refused p); [|exact Hin]. right. right. exact Hin.
      * intros x [<-|[<-|Hin]] Herr; [discriminate|eauto|eauto].
    + pose proof (Remove_walked fs (files st) dir e i Hnd Hsub He Hd Hstat) as Hr.
      destruct (refusing_orphaned_removed refused dir (fst e) st _ Hre Hr)
        as (Hf & Hx & Hout).
      set (st1 := Refusing.orphaned refused dir true (fst e) st) in *.
      assert (forall q, Stat (files st1) q = None
                        \/ Stat (files st1) q = Stat (files st) q) as Hmono.
      { intros q. rewrite Hf, Stat_after_remove.
        destruct (path_eqb q (fst e)); auto. }
      destruct (IH st1 Hincl' Hndl) as (H1 & H2 & H3 & H4 & ext & Hext & H5 & H6).
      { rewrite Hf. etrans; [apply filter_is_sublist|exact Hsub]. }
      { intros x Hin. rewrite Hf, Stat_after_remove.
        destruct (path_eqb_spec (fst x) (fst e)) as [Heq|_].
        - exfalso. apply Hfresh. rewrite <- Heq. apply List.in_map, Hin.
        - apply Hkeep. right. exact Hin. }
      assert (Stat (files (List.fold_left
                (Refusing.visitSidecar refused EqualFold dir true) l st1))
                (fst e) = None) as Hgone.
      { destruct (H3 (fst e)) as [H|H]; [exact H|].
        rewrite H, Hf. apply Stat_removed. }
      split; [exact H1|]. split; [congruence|]. split; [|split].
      * intros q. destruct (H3 q) as [H|H]; [auto|].
        destruct (Hmono q) as [H'|H']; [left|right]; congruence.
      * intros q Hq. rewrite (H4 q Hq), Hf, Stat_after_remove.
        destruct (path_eqb_spec q (fst e)) as [->|_]; [congruence|reflexivity].
      * exists ([LOrphan dir (fst e)] ++ ext).
        split; [rewrite Hext, Hout, <- List.app_assoc; reflexivity|]. split.
        -- unfold orphans. rewrite List.flat_map_app. apply List.Forall_app. split.
           ++ constructor; [|constructor]. rewrite Hre. exact Hgone.
           ++ eapply List.Forall_impl; [|exact H5]. intros p Hin. cbv beta in *.
              destruct (refused p); [|exact Hin]. right. exact Hin.
        -- intros x [<-|Hin] Herr; [discriminate|eauto].
  - apply IH; auto. intros x Hx. apply Hkeep. right. exact Hx.
Qed.

(** X9.  On a tree without repeated paths, an apply run of the sidecar
    handler carries out every removal it announces unless the system
    refuses it: whatever the system refuses, after the run every sidecar
    reported orphaned is gone, or its removal was refused, the error is
    reported and the sidecar is as it was; the run reports no other
    error, and with nothing refused it is that of
    [Sidecar.handleXMPRenaming]. *)
Theorem announced_orphans_are_removed (refused : path -> bool) (dir : path)
    (fs : fsys) :
  NoDup (List.map fst fs) ->
  let run := Refusing.handleXMPRenaming refused EqualFold dir true fs in
  List.Forall (Refusing.removal_told refused fs run) (orphans (output run))
  /\ Refusing.errors_are_refusals refused run
  /\ Refusing.handleXMPRenaming Refusing.nothing EqualFold dir true fs
     = handleXMPRenaming EqualFold dir true fs.
Proof.
  intros Hnd run. subst run.
  destruct (refusing_xmp_run refused dir fs Hnd (WalkDir fs dir) (start fs)
              (incl_refl _) (WalkDir_NoDup fs dir Hnd) (reflexivity _)
              (fun _ _ => eq_refl))
    as (_ & Hmap & _ & Hkept & ext & Hext & Horph & Herr).
  cbn [output start List.app xmpFiles files] in Hext, Hmap, Hkept.
  assert (exists summary,
            files (Refusing.handleXMPRenaming refused EqualFold dir true fs)
            = files (List.fold_left
                       (Refusing.visitSidecar refused EqualFold dir true)
                       (WalkDir fs dir) (start fs))
            /\ output (Refusing.handleXMPRenaming refused EqualFold dir true fs)
               = ext ++ summary
            /\ orphans summary = []
            /\ List.Forall (fun l => is_error_line l = false) summary)
    as (summary & Hfiles & Hout & Hnone & Hsum).
  { unfold Refusing.handleXMPRenaming.
    set (st := List.fold_left _ (WalkDir fs dir) _) in *.
    rewrite Hmap, map_to_list_empty. cbn [List.fold_left].
    destruct (_ && _); [|destruct (0 <? foundChanges st)];
      repeat case_match; cbn [output print files]; rewrite Hext;
      rewrite <- ?List.app_assoc;
      eexists; (split; [reflexivity|]);
      (split; [try reflexivity; symmetry; apply List.app_nil_r|]);
      split; try reflexivity; repeat constructor. }
  unfold Refusing.removal_told, Refusing.errors_are_refusals.
  rewrite Hfiles, Hout. split; [|split].
  - unfold orphans in *. rewrite List.flat_map_app, Hnone, List.app_nil_r.
    eapply List.Forall_impl; [|exact Horph]. intros p Hin. cbv beta in *.
    destruct (refused p) eqn:Hre; [|exact Hin].
    split; [apply List.in_or_app; left; exact Hin|apply Hkept, Hre].
  - intros l [Hl|Hl]%List.in_app_or Hl'; [eauto|].
    rewrite List.Forall_forall in Hsum. rewrite (Hsum l Hl) in Hl'. discriminate.
  - reflexivity.
Qed.

Lemma pairs_length_app out1 out2 :
  List.length (pairs (out1 ++ out2))
  = (List.length (pairs out1) + List.length (pairs out2))%nat.
Proof. unfold pairs. rewrite List.flat_map_app. apply List.length_app. Qed.

Lemma orphans_length_app out1 out2 :
  List.length (orphans (out1 ++ out2))
  = (List.length (orphans out1) + List.length (orphans out2))%nat.
Proof. unfold orphans. rewrite List.flat_map_app. apply List.length_app. Qed.

Lemma dup_walk_counts dir apply fs :
  let st := List.fold_left (Duplicates.visit dir apply) (WalkDir fs dir) (start fs) in
  foundChanges st = Z.of_nat (List.length (pairs (output st)))
  /\ List.Forall (fun l => is_summary l = false) (output st).
Proof.
  apply fold_left_invariant; [split; [reflexivity|constructor]|].
  intros s e He [Hcount Hsum].
  assert (Name (snd e) = Base (fst e)) as Hn by (apply WalkDir_In in He; tauto).
  destruct (dup_visit_cases dir apply s e Hn) as [->|(n & -> & _)]; [auto|].
  destruct (paired_state dir apply (original_of e) (fst e) n s)
    as (_ & _ & _ & Hp & Hf & _).
  split.
  - rewrite Hf, Hp, List.length_app, Hcount. simpl. lia.
  - unfold Duplicates.paired, os_Remove. destruct apply; simpl.
    + destruct (Remove (files s) (fst e)); simpl;
        repeat (apply List.Forall_app; split); auto; repeat constructor.
    + apply List.Forall_app. split; [exact Hsum|]. repeat constructor.
Qed.

Lemma xmp_walk_counts dir apply fs :
  let st := List.fold_left (Sidecar.visit EqualFold dir apply) (WalkDir fs dir)
                           (start fs) in
  foundChanges st = Z.of_nat (List.length (orphans (output st)))
  /\ List.Forall (fun l => is_summary l = false) (output st).
Proof.
  apply fold_left_invariant; [split; [reflexivity|constructor]|].
  intros s e He [Hcount Hsum]. rewrite xmp_visit_spec.
  destruct (is_orphan EqualFold (files s) e); [|auto].
  destruct (orphaned_state dir apply (fst e) s) as (_ & _ & _ & Hf & _).
  destruct (orphaned_output dir apply (fst e) s) as (errs & Ho & Herrs).
  split.
  - rewrite Hf, Ho, orphans_length_app, Hcount. simpl.
    assert (orphans errs = []) as ->.
    { clear Ho. induction Herrs as [|x l -> _ IH]; [reflexivity|exact IH]. }
    simpl. lia.
  - rewrite Ho. apply List.Forall_app. split; [exact Hsum|].
    constructor; [reflexivity|].
    eapply List.Forall_impl; [|exact Herrs]. intros l ->. reflexivity.
Qed.

Lemma summary_free_ok (ok : line -> Prop) out :
  (forall l, is_summary l = false -> ok l) ->
  List.Forall (fun l => is_summary l = false) out -> List.Forall ok out.
Proof. intros H. apply List.Forall_impl. exact H. Qed.

(** X10.  The summaries tell the truth about the run: the count the
    duplicate handler prints is the number of pairs it announced, the
    count the sidecar handler prints is the number of sidecars it reported
    orphaned, "nothing found" is printed exactly when that number is zero,
    and the line about skipped sidecars is never printed. *)
Theorem summaries_count_the_run (dir : path) (apply : bool) (fs : fsys) :
  let dups := handleDuplicates dir apply fs in
  let xmps := handleXMPRenaming EqualFold dir apply fs in
  foundChanges dups = Z.of_nat (List.length (pairs (output dups)))
  /\ List.Forall (dup_line_ok (foundChanges dups)) (output dups)
  /\ List.existsb is_summary (output dups) = true
  /\ foundChanges xmps = Z.of_nat (List.length (orphans (output xmps)))
  /\ List.Forall (xmp_line_ok (foundChanges xmps)) (output xmps)
  /\ List.existsb is_summary (output xmps) = true.
Proof.
  intros dups xmps.
  assert (forall c l, is_summary l = false -> dup_line_ok c l) as Hd
    by (intros c []; simpl; congruence || auto).
  assert (forall c l, is_summary l = false -> xmp_line_ok c l) as Hx
    by (intros c []; simpl; congruence || auto).
  split; [|split; [|split; [|split; [|split]]]].
  - subst dups. unfold handleDuplicates.
    destruct (dup_walk_counts dir apply fs) as [Hc _].
    set (st := List.fold_left _ _ _) in *.
    destruct (foundChanges st =? 0), apply; simpl;
      rewrite ?pairs_length_app; simpl; lia.
  - subst dups. unfold handleDuplicates.
    destruct (dup_walk_counts dir apply fs) as [Hc Hs].
    set (st := List.fold_left _ _ _) in *.
    apply (summary_free_ok _ _ (Hd (foundChanges st))) in Hs.
    destruct (Z.eqb_spec (foundChanges st) 0) as [H0|H0], apply; simpl;
      repeat (apply List.Forall_app; split); auto;
      repeat constructor; simpl; lia.
  - subst dups. unfold handleDuplicates.
    set (st := List.fold_left _ _ _).
    destruct (foundChanges st =? 0), apply; simpl;
      rewrite ?List.existsb_app; simpl; rewrite ?orb_true_r; reflexivity.
  - subst xmps.
    destruct (handleXMPRenaming_walk EqualFold dir apply fs) as (_ & _ & _ & -> & _).
    destruct (xmp_walk_counts dir apply fs) as [Hc _]. rewrite Hc.
    unfold handleXMPRenaming. set (st := List.fold_left _ (WalkDir fs dir) _).
    assert (xmpFiles st = ∅) as Hmap
      by apply (xmp_walk_invariant EqualFold dir apply fs).
    rewrite Hmap, map_to_list_empty. cbn [List.fold_left].
    assert ((if apply then st else st) = st) as -> by (destruct apply; reflexivity).
    destruct (_ && _); [|destruct (0 <? foundChanges st), apply];
      simpl; repeat case_match; simpl;
      rewrite ?orphans_length_app; simpl; f_equal; lia.
  - subst xmps.
    destruct (handleXMPRenaming_walk EqualFold dir apply fs) as (_ & _ & _ & -> & _).
    destruct (xmp_walk_counts dir apply fs) as [Hc Hs].
    destruct (xmp_walk_invariant EqualFold dir apply fs) as (Hmap & Hskip & _).
    unfold handleXMPRenaming. set (st := List.fold_left _ (WalkDir fs dir) _) in *.
    apply (summary_free_ok _ _ (Hx (foundChanges st))) in Hs.
    rewrite Hmap, map_to_list_empty. cbn [List.fold_left].
    assert ((if apply then st else st) = st) as -> by (destruct apply; reflexivity).
    rewrite Hskip.
    destruct (Z.eqb_spec (foundChanges st) 0) as [H0|H0]; simpl.
    + apply List.Forall_app. split; [exact Hs|]. repeat constructor. exact H0.
    + destruct (Z.ltb_spec 0 (foundChanges st)) as [Hpos|Hneg].
      * destruct apply; simpl; rewrite Hskip; simpl;
          repeat (apply List.Forall_app; split); auto;
          repeat constructor; simpl; lia.
      * simpl. rewrite Hskip. simpl.
        pose proof (Zle_0_nat (List.length (orphans (output st)))). lia.
  - subst xmps. unfold handleXMPRenaming.
    destruct (xmp_walk_invariant EqualFold dir apply fs) as (Hmap & Hskip & _).
    destruct (xmp_walk_counts dir apply fs) as [Hc _].
    set (st := List.fold_left _ (WalkDir fs dir) _) in *.
    rewrite Hmap, map_to_list_empty. cbn [List.fold_left].
    assert ((if apply then st else st) = st) as -> by (destruct apply; reflexivity).
    rewrite Hskip.
    destruct (Z.eqb_spec (foundChanges st) 0) as [H0|H0]; simpl.
    + rewrite List.existsb_app. simpl. apply orb_true_r.
    + destruct (Z.ltb_spec 0 (foundChanges st)) as [Hpos|Hneg].
      * destruct apply; simpl; rewrite Hskip; simpl;
          rewrite ?List.existsb_app; simpl; rewrite ?orb_true_r; reflexivity.
      * pose proof (Zle_0_nat (List.length (orphans (output st)))). lia.
Qed.

End HandlersMore.



Lemma announced_orphans_are_removed_witness :
  Refusing.removal_told (Refusing.only ["b.png.xmp"]) end_to_end
    (Refusing.handleXMPRenaming (Refusing.only ["b.png.xmp"]) EqualFoldASCII
       [] true end_to_end)
    ["orphan.xmp"]
  /\ Refusing.removal_told (Refusing.only ["b.png.xmp"]) orphan
       (Refusing.handleXMPRenaming (Refusing.only ["b.png.xmp"]) EqualFoldASCII
          [] true orphan)
       ["b.png.xmp"].
Proof.
  split.
  - destruct (announced_orphans_are_removed EqualFoldASCII
                (Refusing.only ["b.png.xmp"]) [] end_to_end) as (H & _).
    + apply (bool_decide_unpack _). vm_compute. exact I.
    + rewrite List.Forall_forall in H. apply H. vm_compute. auto.
  - destruct (announced_orphans_are_removed EqualFoldASCII
                (Refusing.only ["b.png.xmp"]) [] orphan) as (H & _).
    + apply (bool_decide_unpack _). vm_compute. exact I.
    + rewrite List.Forall_forall in H. apply H. vm_compute. auto.
Defined.

(** ** The progress line *)

Import Progress.

Section ProgressFacts.

Lemma wrap64_small z : - 2 ^ 63 <= z < 2 ^ 63 -> wrap64 z = z.
Proof. intros H. unfold wrap64. rewrite Z.mod_small; lia. Qed.

Lemma div64_nonneg a b :
  0 <= a < 2 ^ 63 -> 0 < b ->
  div64 (wrap64 a) b = Some (a / b) /\ 0 <= a / b <= a.
Proof.
  intros Ha Hb. unfold div64.
  destruct (Z.eqb_spec b 0) as [->|_]; [lia|].
  rewrite (wrap64_small a) by lia.
  rewrite Z.quot_div_nonneg by lia.
  assert (0 <= a / b <= a) as Hq.
  { split; [apply Z.div_pos; lia|]. apply Z.div_le_upper_bound; nia. }
  rewrite wrap64_small by lia. auto.
Qed.

Lemma animFrame_two now :
  0 <= now < 2 ^ 63 -> animFrame now = Some "▁" \/ animFrame now = Some "▅".
Proof.
  intros Hnow. unfold animFrame, rem64, Unix.
  change (Z.of_nat (List.length frames)) with 8. cbn [Z.eqb].
  assert (0 <= now / 1000000000 < 2 ^ 60) as Hu.
  { split; [apply Z.div_pos; lia|].
    apply Z.div_lt_upper_bound; [lia|]. change (2 ^ 63) with 9223372036854775808 in Hnow.
    change (2 ^ 60) with 1152921504606846976. lia. }
  rewrite wrap64_small
    by (change (2 ^ 60) with 1152921504606846976 in Hu;
        change (2 ^ 63) with 9223372036854775808; lia).
  rewrite Z.rem_mod_nonneg by lia.
  replace (now / 1000000000 * 4) with (4 * (now / 1000000000)) by lia.
  change 8 with (4 * 2). rewrite Z.mul_mod_distr_l by lia.
  pose proof (Z.mod_pos_bound (now / 1000000000) 2 ltac:(lia)) as Hm.
  assert ((now / 1000000000) mod 2 = 0 \/ (now / 1000000000) mod 2 = 1)
    as [-> | ->] by lia; [left|right]; reflexivity.
Qed.

Lemma Repeat_small s k :
  0 <= k <= 40 -> (String.length s <= 3)%nat ->
  Repeat s k = Some (repeat_string s (Z.to_nat k)).
Proof.
  intros Hk Hs. unfold Repeat.
  destruct (Z.ltb_spec k 0); [lia|].
  destruct (Z.leb_spec (2 ^ 63) (Z.of_nat (String.length s) * k)) as [Hbig|_];
    [|reflexivity].
  change (2 ^ 63) with 9223372036854775808 in Hbig. nia.
Qed.

Lemma Repeat_negative s k : k < 0 -> Repeat s k = None.
Proof. intros Hk. unfold Repeat. destruct (Z.ltb_spec k 0); [reflexivity|lia]. Qed.

Lemma RuneCount_append s t :
  RuneCount (s +:+ t) = (RuneCount s + RuneCount t)%nat.
Proof.
  induction s as [|c s IH]; [reflexivity|].
  rewrite append_cons. cbn [RuneCount]. rewrite IH. lia.
Qed.

Lemma RuneCount_repeat s n :
  RuneCount (repeat_string s n) = (n * RuneCount s)%nat.
Proof.
  induction n as [|n IH]; [reflexivity|].
  cbn [repeat_string]. rewrite RuneCount_append, IH. lia.
Qed.

(** The width [int(pct * 40 / 100)] for a percentage in range. *)
Lemma filled_width pct :
  0 <= pct <= 100 ->
  div64 (wrap64 (pct * 40)) 100 = Some (pct * 40 / 100)
  /\ 0 <= pct * 40 / 100 <= 40
  /\ (pct * 40 / 100 = 40 <-> pct = 100).
Proof.
  intros Hp.
  destruct (div64_nonneg (pct * 40) 100) as [-> _];
    [change (2 ^ 63) with 9223372036854775808; lia|lia|].
  split; [reflexivity|].
  assert (pct * 40 / 100 <= 40) by (apply Z.div_le_upper_bound; lia).
  assert (0 <= pct * 40 / 100) by (apply Z.div_pos; lia).
  split; [lia|]. split.
  - intros H40. destruct (Z.eq_dec pct 100) as [|Hne]; [assumption|].
    assert (pct * 40 / 100 < 40) by (apply Z.div_lt_upper_bound; lia). lia.
  - intros ->. reflexivity.
Qed.

(** The percentage of a copy in progress. *)
Lemma shown_percentage c t :
  0 < t -> 0 <= c -> c * 100 < 2 ^ 63 ->
  div64 (wrap64 (c * 100)) t = Some (c * 100 / t)
  /\ 0 <= c * 100 / t
  /\ (100 <= c * 100 / t <-> t <= c).
Proof.
  intros Ht Hc Hbig.
  destruct (div64_nonneg (c * 100) t) as [-> [Hq _]]; [lia|lia|].
  split; [reflexivity|]. split; [exact Hq|]. split.
  - intros H100. destruct (Z.le_gt_cases t c) as [|Hlt]; [assumption|].
    assert (c * 100 / t < 100) by (apply Z.div_lt_upper_bound; lia). lia.
  - intros Hle. apply Z.div_le_lower_bound; lia.
Qed.

(** X11.  While a file is copied (the size is positive, the bytes written
    so far are not negative and their hundredfold fits in 64 bits, the
    clock is past 1970), writing the progress line never panics.  The
    writer counts the bytes; when the line is printed, it shows the
    hundredfold of the bytes over the size, cut at 100, and a bar of that
    many filled cells out of forty, one animation frame and the blank
    rest.  Of the eight animation frames only the first and the fifth are
    ever shown, and the bar, brackets included, is 42 characters wide
    except at 100 percent, where it is 43. *)
Theorem progress_line_shape (w : progressWriter) (overallProgress n now : Z) :
  0 < total w -> 0 <= current w + n -> (current w + n) * 100 < 2 ^ 63 ->
  0 <= now < 2 ^ 63 ->
  exists shown,
    Write w overallProgress n now
    = Some (mkWriter (fileName w) (total w) (current w + n)
                     (if Sub now (lastUpdate w) <? 65 * Millisecond
                      then lastUpdate w else now),
            wrap64 (overallProgress + n), shown)
    /\ match shown with
       | None => Sub now (lastUpdate w) < 65 * Millisecond
       | Some p =>
           65 * Millisecond <= Sub now (lastUpdate w)
           /\ shownName p = fileName w
           /\ shownBytes p = current w + n
           /\ shownPct p = Z.min 100 ((current w + n) * 100 / total w)
           /\ (exists frame,
                 (frame = "▁" \/ frame = "▅")
                 /\ shownBar p
                    = "[" +:+ repeat_string "█" (Z.to_nat (shownPct p * 40 / 100))
                      +:+ frame
                      +:+ repeat_string " " (39 - Z.to_nat (shownPct p * 40 / 100))
                      +:+ "]")
           /\ RuneCount (shownBar p) = if shownPct p =? 100 then 43%nat else 42%nat
       end.
Proof.
  intros Ht Hc Hbig Hnow.
  unfold Write, Write_with. cbn [lastUpdate current total fileName].
  rewrite (wrap64_small (current w + n))
    by (change (2 ^ 63) with 9223372036854775808 in *; lia).
  destruct (Z.ltb_spec (Sub now (lastUpdate w)) (65 * Millisecond)) as [Hth|Hth].
  { exists None. split; [reflexivity|exact Hth]. }
  destruct (shown_percentage (current w + n) (total w) Ht Hc Hbig)
    as (-> & Hpos & H100).
  set (q := (current w + n) * 100 / total w) in *.
  set (pct := if 100 <? q then 100 else q).
  assert (pct = Z.min 100 q /\ 0 <= pct <= 100) as [Hpct Hrange]
    by (subst pct; destruct (Z.ltb_spec 100 q); lia).
  destruct (filled_width pct Hrange) as (Hfw & Hk & Hk40).
  unfold bar. rewrite Hfw.
  set (k := pct * 40 / 100) in *.
  destruct (Z.ltb_spec 40 k) as [|_]; [lia|].
  assert (exists frame, (frame = "▁" \/ frame = "▅") /\ animFrame now = Some frame)
    as (frame & Hframe & ->)
    by (destruct (animFrame_two now Hnow) as [H|H]; eauto).
  rewrite (wrap64_small (40 - k)), (wrap64_small (40 - k - 1))
    by (change (2 ^ 63) with 9223372036854775808; lia).
  set (e := if 40 - k - 1 <? 0 then 0 else 40 - k - 1).
  assert (0 <= e <= 40 /\ Z.to_nat e = (39 - Z.to_nat k)%nat) as [He Hen]
    by (subst e; destruct (Z.ltb_spec (40 - k - 1) 0); lia).
  rewrite (Repeat_small "█" k Hk) by (simpl; lia).
  rewrite (Repeat_small " " e He) by (simpl; lia).
  eexists. split; [reflexivity|]. cbn [shownName shownBytes shownPct shownBar].
  split; [exact Hth|]. split; [reflexivity|]. split; [reflexivity|].
  split; [exact Hpct|]. rewrite Hen. split; [exists frame; auto|].
  rewrite !RuneCount_append, !RuneCount_repeat.
  assert (RuneCount frame = 1%nat) as -> by (destruct Hframe as [-> | ->]; reflexivity).
  change (RuneCount "[") with 1%nat. change (RuneCount "]") with 1%nat.
  change (RuneCount "█") with 1%nat. change (RuneCount " ") with 1%nat.
  destruct (Z.eqb_spec pct 100) as [H|H]; lia.
Qed.

Lemma progress_line_shape_witness :
  exists shown,
    Write (fresh "a.jpg" 1000) 0 500 1700000000000000000
    = Some (mkWriter "a.jpg" 1000 500 1700000000000000000, wrap64 500, shown)
    /\ exists p, shown = Some p /\ shownPct p = 50
                 /\ RuneCount (shownBar p) = 42%nat.
Proof.
  destruct (progress_line_shape (fresh "a.jpg" 1000) 0 500 1700000000000000000)
    as (shown & Hw & Hs);
    [reflexivity|simpl; lia|simpl; lia|split; [lia|reflexivity]|].
  exists shown. split; [exact Hw|].
  destruct shown as [p|]; [|vm_compute in Hs; discriminate].
  exists p. destruct Hs as (_ & _ & _ & Hp & _ & Hr).
  split; [reflexivity|]. rewrite Hp in Hr. split; [exact Hp|exact Hr].
Defined.

(** X12.  The progress line of the earlier program ([main.go]) panics when
    the copy of the file is complete: under the same conditions, and when
    the line is due (65 ms have passed since the last one, which is always
    so for the first block of a file), [Write] panics exactly when the
    bytes written have reached the size of the file.  The blank part of
    the bar is then asked to repeat a space -1 times. *)
Theorem earlier_progress_line_panics_when_done
    (w : progressWriter) (overallProgress n now : Z) :
  0 < total w -> 0 <= current w + n -> (current w + n) * 100 < 2 ^ 63 ->
  0 <= now < 2 ^ 63 ->
  65 * Millisecond <= Sub now (lastUpdate w) ->
  Write_earlier w overallProgress n now = None <-> total w <= current w + n.
Proof.
  intros Ht Hc Hbig Hnow Hth.
  unfold Write_earlier, Write_with. cbn [lastUpdate current total fileName].
  rewrite (wrap64_small (current w + n))
    by (change (2 ^ 63) with 9223372036854775808 in *; lia).
  destruct (Z.ltb_spec (Sub now (lastUpdate w)) (65 * Millisecond)) as [|_]; [lia|].
  destruct (shown_percentage (current w + n) (total w) Ht Hc Hbig)
    as (-> & Hpos & H100).
  set (q := (current w + n) * 100 / total w) in *.
  set (pct := if 100 <? q then 100 else q).
  assert (0 <= pct <= 100 /\ (pct = 100 <-> 100 <= q)) as [Hrange Hfull]
    by (subst pct; destruct (Z.ltb_spec 100 q); lia).
  destruct (filled_width pct Hrange) as (Hfw & Hk & Hk40).
  unfold bar_earlier. rewrite Hfw.
  set (k := pct * 40 / 100) in *.
  assert (exists frame, animFrame now = Some frame) as (frame & ->)
    by (destruct (animFrame_two now Hnow) as [H|H]; eauto).
  rewrite (wrap64_small (40 - k)), (wrap64_small (40 - k - 1))
    by (change (2 ^ 63) with 9223372036854775808; lia).
  rewrite (Repeat_small "█" k Hk) by (simpl; lia).
  destruct (Z.eq_dec k 40) as [Hk'|Hk'].
  - rewrite Repeat_negative by lia. split; [|reflexivity].
    intros _. apply H100, Hfull, Hk40, Hk'.
  - rewrite (Repeat_small " " (40 - k - 1)) by (simpl; lia).
    split; [discriminate|]. intros Hle. exfalso. apply Hk'.
    apply Hk40, Hfull, H100, Hle.
Qed.

Lemma earlier_progress_line_panics_when_done_witness :
  Write_earlier (fresh "a.jpg" 1000) 0 1000 1700000000000000000 = None.
Proof.
  apply (earlier_progress_line_panics_when_done
           (fresh "a.jpg" 1000) 0 1000 1700000000000000000);
    try (simpl; lia); try (vm_compute; intuition congruence).
Defined.

End ProgressFacts.

(** ** The mirror engine *)

Import Mirror.

Section TreeCalls.

Variable dirSize : Z.

Lemma Stat_insert_same e fs : Stat (insert_entry e fs) (fst e) = Some (snd e).
Proof.
  induction fs as [|a fs IH]; unfold Stat in *; simpl.
  - rewrite path_eqb_refl. reflexivity.
  - destruct (path_ltb (fst e) (fst a)); simpl.
    + rewrite path_eqb_refl. reflexivity.
    + destruct (path_eqb_spec (fst e) (fst a)) as [Heq|Hne]; simpl.
      * rewrite path_eqb_refl. reflexivity.
      * rewrite path_eqb_neq by congruence. exact IH.
Qed.

Lemma Stat_insert_other e fs q :
  q <> fst e -> Stat (insert_entry e fs) q = Stat fs q.
Proof.
  intros Hq. induction fs as [|a fs IH]; unfold Stat in *; simpl.
  - rewrite path_eqb_neq by congruence. reflexivity.
  - destruct (path_ltb (fst e) (fst a)); simpl.
    + rewrite (path_eqb_neq (fst e) q) by congruence. reflexivity.
    + destruct (path_eqb_spec (fst e) (fst a)) as [Heq|Hne]; simpl.
      * rewrite (path_eqb_neq (fst e) q) by congruence.
        rewrite (path_eqb_neq (fst a) q) by congruence. reflexivity.
      * destruct (path_eqb (fst a) q); [reflexivity|exact IH].
Qed.

Lemma resolve_Some fs seen rest i :
  resolve fs seen rest = inr i -> Stat fs (seen ++ rest) = Some i.
Proof.
  revert seen. induction rest as [|n rest IH]; intros seen; simpl.
  - rewrite List.app_nil_r. destruct (Stat fs seen); congruence.
  - destruct (Stat fs seen) as [info|]; [|discriminate].
    destruct (IsDir info); [|discriminate].
    intros H%IH. rewrite <- List.app_assoc in H. exact H.
Qed.

Lemma StatErr_Some fs p i : StatErr fs p = inr i -> Stat fs p = Some i.
Proof. apply resolve_Some. Qed.

(** In a closed tree the ancestors of an entry are directories. *)
Lemma closed_ancestor fs a b i :
  closed fs -> Stat fs (a ++ b) = Some i ->
  exists j, Stat fs a = Some j /\ (b <> [] -> IsDir j = true).
Proof.
  intros Hc. revert i. induction b as [|x b IH] using List.rev_ind; intros i H.
  - rewrite List.app_nil_r in H. exists i. split; [exact H|congruence].
  - rewrite List.app_assoc in H.
    destruct (Hc _ _ H) as (j & Hj & Hdir); [destruct (a ++ b); discriminate|].
    unfold Dir in Hj. rewrite List.removelast_last in Hj.
    destruct b as [|y b].
    + rewrite List.app_nil_r in Hj. exists j. auto.
    + destruct (IH _ Hj) as (k & Hk & Hkd). exists k. split; [exact Hk|].
      intros _. apply Hkd. discriminate.
Qed.

Lemma closed_resolve fs seen rest i :
  closed fs -> Stat fs (seen ++ rest) = Some i -> resolve fs seen rest = inr i.
Proof.
  intros Hc. revert seen. induction rest as [|n rest IH]; intros seen H; simpl.
  - rewrite List.app_nil_r in H. rewrite H. reflexivity.
  - destruct (closed_ancestor fs seen (n :: rest) i Hc H) as (j & -> & Hj).
    rewrite Hj by discriminate. apply IH.
    rewrite <- List.app_assoc. exact H.
Qed.

Lemma closed_StatErr fs p i :
  closed fs -> Stat fs p = Some i -> StatErr fs p = inr i.
Proof. intros Hc H. apply closed_resolve; assumption. Qed.

Lemma closed_StatErr_None fs p e :
  closed fs -> StatErr fs p = inl e -> Stat fs p = None.
Proof.
  intros Hc He. destruct (Stat fs p) as [i|] eqn:Hs; [|reflexivity].
  rewrite (closed_StatErr fs p i Hc Hs) in He. discriminate.
Qed.

Lemma wf_closed fs : wf_fs fs = true -> closed fs.
Proof.
  unfold wf_fs. intros H. repeat (apply andb_prop in H as [H ?]).
  intros q i Hq Hne. apply Stat_In in Hq.
  match goal with Hall : List.forallb _ fs = true |- _ =>
    pose proof (proj1 (List.forallb_forall _ _) Hall _ Hq) as Hp end.
  simpl in Hp. destruct q as [|a q]; [congruence|].
  destruct (Stat fs (Dir (a :: q))) as [j|]; [eauto|discriminate].
Qed.

Lemma wf_names_ok fs : wf_fs fs = true -> names_ok fs.
Proof.
  unfold wf_fs. intros H. repeat (apply andb_prop in H as [H ?]).
  intros q i Hq. apply Stat_In in Hq.
  match goal with Hall : List.forallb (fun e => List.forallb _ _) fs = true |- _ =>
    exact (proj1 (List.forallb_forall _ _) Hall _ Hq) end.
Qed.

Lemma extends_refl fs : extends fs fs.
Proof. intros q i H. exact H. Qed.

Lemma extends_trans fs1 fs2 fs3 :
  extends fs1 fs2 -> extends fs2 fs3 -> extends fs1 fs3.
Proof. intros H12 H23 q i H. auto. Qed.

Lemma extends_insert fs p i :
  Stat fs p = None -> extends fs (insert_entry (p, i) fs).
Proof.
  intros Hp q j Hq. rewrite Stat_insert_other; [exact Hq|].
  simpl. congruence.
Qed.

Lemma is_prefix_refl p : is_prefix p p = true.
Proof. induction p as [|a p IH]; simpl; [reflexivity|]. rewrite String.eqb_refl. exact IH. Qed.

Lemma is_prefix_app p q : is_prefix p q = true <-> exists r, q = p ++ r.
Proof.
  revert q. induction p as [|a p IH]; intros q; simpl.
  - split; [eauto|reflexivity].
  - destruct q as [|b q]; [split; [discriminate|intros [r [=]]]|].
    destruct (String.eqb_spec a b) as [->|Hne]; simpl.
    + rewrite IH. split; intros [r Hr]; exists r; congruence.
    + split; [discriminate|]. intros [r [= ]]. congruence.
Qed.

Lemma is_prefix_trans p q r :
  is_prefix p q = true -> is_prefix q r = true -> is_prefix p r = true.
Proof.
  rewrite !is_prefix_app. intros [a ->] [b ->]. exists (a ++ b).
  rewrite List.app_assoc. reflexivity.
Qed.

Lemma is_prefix_length p q : is_prefix p q = true -> (List.length p <= List.length q)%nat.
Proof. rewrite is_prefix_app. intros [r ->]. rewrite List.length_app. lia. Qed.

Lemma Dir_prefix p : is_prefix (Dir p) p = true.
Proof.
  destruct (decide (p = [])) as [->|Hne]; [reflexivity|].
  apply is_prefix_app. exists [Base p]. symmetry. apply Dir_Base, Hne.
Qed.

Lemma not_prefix_of_Dir p : p <> [] -> is_prefix p (Dir p) = false.
Proof.
  intros Hne. destruct (is_prefix p (Dir p)) eqn:H; [|reflexivity].
  apply is_prefix_length in H. pose proof (Dir_length p Hne). lia.
Qed.

Lemma valid_prefix p q :
  is_prefix p q = true -> List.forallb valid_name q = true ->
  List.forallb valid_name p = true.
Proof.
  rewrite is_prefix_app. intros [r ->]. rewrite List.forallb_app.
  intros [H _]%andb_prop. exact H.
Qed.

Lemma grows_refl p fs : grows p fs fs.
Proof. split; [apply extends_refl|]. split; auto. Qed.

Lemma grows_trans p fs1 fs2 fs3 :
  grows p fs1 fs2 -> grows p fs2 fs3 -> grows p fs1 fs3.
Proof.
  intros (He1 & Hn1 & Hc1) (He2 & Hn2 & Hc2).
  split; [eapply extends_trans; eassumption|]. split; [|auto].
  intros q i H3. destruct (Hn2 _ _ H3) as [H2|H2]; [|auto].
  apply Hn1, H2.
Qed.

Lemma grows_weaken p p' fs fs' :
  is_prefix p p' = true -> grows p fs fs' -> grows p' fs fs'.
Proof.
  intros Hp (He & Hn & Hc). split; [exact He|]. split; [|exact Hc].
  intros q i H. destruct (Hn _ _ H) as [|[Hq Hne]]; [auto|right].
  split; [|exact Hne]. eapply is_prefix_trans; eassumption.
Qed.

Lemma grows_names_ok p fs fs' :
  grows p fs fs' -> List.forallb valid_name p = true ->
  names_ok fs -> names_ok fs'.
Proof.
  intros (_ & Hn & _) Hp Hok q i H.
  destruct (Hn _ _ H) as [H0|[Hq _]]; [eapply Hok, H0|].
  eapply valid_prefix; eassumption.
Qed.

(** A new entry in a directory of the tree. *)
Lemma grows_insert fs p i parent :
  Stat fs p = None -> Stat fs (Dir p) = Some parent -> IsDir parent = true ->
  grows p fs (insert_entry (p, i) fs).
Proof.
  intros Hp Hparent Hdir.
  assert (p <> []) as Hne by (intros ->; simpl in Hparent; congruence).
  split; [apply extends_insert, Hp|]. split.
  - intros q j H. destruct (decide (q = p)) as [->|Hq].
    + right. split; [apply is_prefix_refl|exact Hne].
    + left. rewrite Stat_insert_other in H by (simpl; congruence). exact H.
  - intros Hc q j H Hq.
    destruct (decide (q = p)) as [->|Hqp].
    + exists parent. split; [|exact Hdir].
      apply extends_insert; assumption.
    + rewrite Stat_insert_other in H by (simpl; congruence).
      destruct (Hc _ _ H Hq) as (k & Hk & Hkd). exists k. split; [|exact Hkd].
      apply extends_insert; assumption.
Qed.

Lemma Mkdir_grows fs p fs' :
  Mkdir dirSize fs p = inr fs' ->
  grows p fs fs' /\ exists j, Stat fs' p = Some j /\ IsDir j = true.
Proof.
  unfold Mkdir. destruct (StatErr fs (Dir p)) as [e|parent] eqn:Hparent; [discriminate|].
  destruct (IsDir parent) eqn:Hdir; simpl; [|discriminate].
  destruct (Stat fs p) eqn:Hp; [discriminate|]. intros [= <-].
  apply StatErr_Some in Hparent. split.
  - eapply grows_insert; eassumption.
  - eexists. split; [apply (Stat_insert_same (p, _))|reflexivity].
Qed.

Lemma MkdirAll_from_grows n fs p err fs' :
  MkdirAll_from dirSize n fs p = (err, fs') ->
  grows p fs fs'
  /\ (err = None -> exists j, Stat fs' p = Some j /\ IsDir j = true).
Proof.
  revert fs p err fs'. induction n as [|n IH]; intros fs p err fs';
    cbn [MkdirAll_from].
  - destruct (StatErr fs p) as [e|dir] eqn:Hs.
    + destruct (Mkdir dirSize fs p) as [e'|fs2] eqn:Hm.
      * intros [= <- <-]. split; [apply grows_refl|discriminate].
      * intros [= <- <-]. apply Mkdir_grows in Hm as [Hg Hj]. auto.
    + apply StatErr_Some in Hs.
      destruct (IsDir dir) eqn:Hd; intros [= <- <-];
        (split; [apply grows_refl|]); [eauto|discriminate].
  - destruct (StatErr fs p) as [e|dir] eqn:Hs.
    + assert (exists err1 fs1,
                (if (1 <? List.length p)%nat
                 then MkdirAll_from dirSize n fs (Dir p) else (None, fs))
                = (err1, fs1) /\ grows p fs fs1) as (err1 & fs1 & -> & Hg1).
      { destruct (1 <? List.length p)%nat.
        - destruct (MkdirAll_from dirSize n fs (Dir p)) as [err1 fs1] eqn:Hrec.
          exists err1, fs1. split; [reflexivity|].
          apply IH in Hrec as [Hg _].
          eapply grows_weaken; [apply Dir_prefix|exact Hg].
        - exists None, fs. split; [reflexivity|apply grows_refl]. }
      destruct err1 as [e1|].
      * intros [= <- <-]. split; [exact Hg1|discriminate].
      * destruct (Mkdir dirSize fs1 p) as [e'|fs2] eqn:Hm.
        -- destruct (StatErr fs1 p) as [e2|dir] eqn:Hs1.
           ++ intros [= <- <-]. split; [exact Hg1|discriminate].
           ++ apply StatErr_Some in Hs1.
              destruct (IsDir dir) eqn:Hd; intros [= <- <-];
                (split; [exact Hg1|]); [eauto|discriminate].
        -- intros [= <- <-]. apply Mkdir_grows in Hm as [Hg Hj].
           split; [eapply grows_trans; eassumption|auto].
    + apply StatErr_Some in Hs.
      destruct (IsDir dir) eqn:Hd; intros [= <- <-];
        (split; [apply grows_refl|]); [eauto|discriminate].
Qed.

Lemma MkdirAll_grows fs p err fs' :
  MkdirAll dirSize fs p = (err, fs') ->
  grows p fs fs'
  /\ (err = None -> exists j, Stat fs' p = Some j /\ IsDir j = true).
Proof. apply MkdirAll_from_grows. Qed.

(** A file made by [Create] and filled with [size] bytes. *)
Lemma Create_grows fs p fs' size :
  Create fs p = inr fs' ->
  Stat fs p = None
  /\ grows p fs (insert_entry (p, mkInfo false size) fs')
  /\ grows p fs fs'.
Proof.
  unfold Create. destruct (StatErr fs (Dir p)) as [e|parent] eqn:Hparent; [discriminate|].
  destruct (IsDir parent) eqn:Hdir; simpl; [|discriminate].
  destruct (Stat fs p) eqn:Hp; [discriminate|]. intros [= <-].
  apply StatErr_Some in Hparent. split; [reflexivity|].
  split; [|eapply grows_insert; eassumption].
  pose proof (grows_insert fs p (mkInfo false size) parent Hp Hparent Hdir)
    as (He & Hn & Hc).
  assert (forall q, Stat (insert_entry (p, mkInfo false size)
                            (insert_entry (p, mkInfo false 0) fs)) q
                    = Stat (insert_entry (p, mkInfo false size) fs) q) as Hsame.
  { intros q. destruct (decide (q = p)) as [->|Hq].
    - rewrite (Stat_insert_same (p, _)), (Stat_insert_same (p, _)). reflexivity.
    - rewrite !Stat_insert_other by (simpl; congruence). reflexivity. }
  split; [|split].
  - intros q i H. rewrite Hsame. apply He, H.
  - intros q i H. rewrite Hsame in H. apply Hn, H.
  - intros Hcl q i H Hq. rewrite Hsame in H.
    destruct (Hc Hcl q i H Hq) as (j & Hj & Hjd). exists j.
    rewrite Hsame. auto.
Qed.

(** What a successful [os.Rename] of a file does. *)
Lemma Rename_inv fs src dst fs' :
  Rename fs src dst = Some fs' ->
  exists info parent,
    Stat fs src = Some info /\ IsDir info = false
    /\ Stat fs (Dir dst) = Some parent /\ IsDir parent = true
    /\ ((src = dst /\ fs' = fs)
        \/ (src <> dst
            /\ Stat fs' src = None
            /\ Stat fs' dst = Some info
            /\ forall q, q <> src -> q <> dst -> Stat fs' q = Stat fs q)).
Proof.
  unfold Rename. intros H.
  destruct (Stat fs src) as [info|] eqn:Hsrc; [|discriminate].
  destruct (Stat fs (Dir dst)) as [parent|] eqn:Hparent; [|discriminate].
  destruct (IsDir info) eqn:Hi; simpl in H; [discriminate|].
  destruct (IsDir parent) eqn:Hp; simpl in H; [|discriminate].
  destruct (match Stat fs dst with Some t => IsDir t | None => false end);
    [discriminate|].
  exists info, parent.
  split; [reflexivity|]. split; [exact Hi|]. split; [reflexivity|].
  split; [exact Hp|].
  destruct (path_eqb_spec src dst) as [->|Hne]; injection H as <-; [left; auto|right].
  split; [exact Hne|]. split; [|split].
  - rewrite Stat_insert_other by (simpl; congruence).
    apply (Stat_filter_dropped (fun q => negb (path_eqb q src))).
    rewrite path_eqb_refl. reflexivity.
  - apply (Stat_insert_same (dst, info)).
  - intros q Hq1 Hq2. rewrite Stat_insert_other by (simpl; congruence).
    apply (Stat_filter_kept (fun q => negb (path_eqb q src))).
    rewrite path_eqb_neq by congruence. reflexivity.
Qed.

End TreeCalls.

(** ** A well-formed tree lists each path once, and the calls keep it so *)

Section TreeEntries.

Variable dirSize : Z.

Lemma compare_refl (a : string) : String.compare a a = Eq.
Proof. apply OrderedTypeEx.String_as_OT.cmp_eq. reflexivity. Qed.

Lemma compare_Lt_trans (a b c : string) :
  String.compare a b = Lt -> String.compare b c = Lt -> String.compare a c = Lt.
Proof.
  intros H1 H2.
  apply OrderedTypeEx.String_as_OT.cmp_lt in H1, H2.
  apply OrderedTypeEx.String_as_OT.cmp_lt.
  eapply OrderedTypeEx.String_as_OT.lt_trans; eassumption.
Qed.

Lemma path_ltb_irrefl p : path_ltb p p = false.
Proof.
  induction p as [|a p IH]; [reflexivity|]. simpl. rewrite compare_refl. exact IH.
Qed.

Lemma path_ltb_trans p q r :
  path_ltb p q = true -> path_ltb q r = true -> path_ltb p r = true.
Proof.
  revert q r. induction p as [|a p IH]; intros [|b q] [|c r]; simpl;
    try discriminate; try reflexivity.
  destruct (String.compare a b) eqn:Hab; [| |discriminate];
    destruct (String.compare b c) eqn:Hbc; try discriminate.
  - apply String.compare_eq_iff in Hab, Hbc. subst. rewrite compare_refl.
    apply IH.
  - apply String.compare_eq_iff in Hab. subst. rewrite Hbc. reflexivity.
  - apply String.compare_eq_iff in Hbc. subst. rewrite Hab. reflexivity.
  - rewrite (compare_Lt_trans _ _ _ Hab Hbc). reflexivity.
Qed.

Lemma sorted_paths_cons p l :
  sorted_paths (p :: l) = true ->
  (forall q, In q l -> path_ltb p q = true) /\ sorted_paths l = true.
Proof.
  revert p. induction l as [|q l IH]; intros p H; [split; [intros q []|reflexivity]|].
  cbn [sorted_paths] in H. apply andb_prop in H as [Hpq Hl].
  split; [|exact Hl]. intros x [<-|Hx]; [exact Hpq|].
  eapply path_ltb_trans; [exact Hpq|]. apply (proj1 (IH q Hl)), Hx.
Qed.

Lemma sorted_paths_NoDup l : sorted_paths l = true -> NoDup l.
Proof.
  induction l as [|p l IH]; intros H; [constructor|].
  destruct (sorted_paths_cons p l H) as [Hlt Hl].
  constructor; [|apply IH, Hl].
  rewrite list_elem_of_In. intros Hin.
  pose proof (Hlt p Hin) as Hf. rewrite path_ltb_irrefl in Hf. discriminate.
Qed.

(** A well-formed tree lists each path once. *)
Lemma wf_NoDup fs : wf_fs fs = true -> NoDup (List.map fst fs).
Proof.
  unfold wf_fs. intros H.
  apply andb_prop in H as [H _]. apply andb_prop in H as [H _].
  apply andb_prop in H as [_ H]. apply sorted_paths_NoDup, H.
Qed.

Lemma Stat_None_fresh (fs : fsys) p : Stat fs p = None -> ~ In p (List.map fst fs).
Proof.
  unfold Stat. intros H Hin.
  apply List.in_map_iff in Hin as ([q i] & Heq & Hin). simpl in Heq. subst q.
  destruct (find_In_Some (fun e => path_eqb (fst e) p) fs (p, i) Hin
              (path_eqb_refl p)) as [y Hy].
  rewrite Hy in H. discriminate.
Qed.

Lemma insert_entry_paths e (fs : fsys) x :
  In x (List.map fst (insert_entry e fs)) -> x = fst e \/ In x (List.map fst fs).
Proof.
  induction fs as [|a fs IH]; simpl; [intuition congruence|].
  destruct (path_ltb (fst e) (fst a)); simpl; [intuition congruence|].
  destruct (path_eqb (fst e) (fst a)); simpl; intuition congruence.
Qed.

Lemma insert_entry_NoDup e (fs : fsys) :
  ~ In (fst e) (List.map fst fs) -> NoDup (List.map fst fs) ->
  NoDup (List.map fst (insert_entry e fs)).
Proof.
  induction fs as [|a fs IH]; simpl; intros Hfresh Hnd.
  - constructor; [rewrite list_elem_of_In; tauto|constructor].
  - destruct (path_ltb (fst e) (fst a)); simpl.
    + constructor; [rewrite list_elem_of_In; exact Hfresh|exact Hnd].
    + destruct (path_eqb_spec (fst e) (fst a)) as [Heq|Hne];
        [exfalso; apply Hfresh; left; congruence|]. simpl.
      apply NoDup_cons in Hnd as [Ha Hnd]. constructor; [|apply IH; tauto].
      rewrite list_elem_of_In in *. intros [H|H]%insert_entry_paths; [congruence|tauto].
Qed.

(** Filling a file just made is one insertion. *)
Lemma insert_entry_twice p a b (fs : fsys) :
  insert_entry (p, b) (insert_entry (p, a) fs) = insert_entry (p, b) fs.
Proof.
  induction fs as [|e fs IH]; cbn [insert_entry fst].
  - rewrite path_ltb_irrefl, path_eqb_refl. reflexivity.
  - destruct (path_ltb p (fst e)) eqn:Hlt; cbn [insert_entry fst].
    + rewrite path_ltb_irrefl, path_eqb_refl. reflexivity.
    + destruct (path_eqb p (fst e)) eqn:Heq; cbn [insert_entry fst].
      * rewrite path_ltb_irrefl, path_eqb_refl. reflexivity.
      * rewrite Hlt, Heq, IH. reflexivity.
Qed.

Lemma filter_paths_NoDup (f : path -> bool) (fs : fsys) :
  NoDup (List.map fst fs) ->
  NoDup (List.map fst (List.filter (fun e => f (fst e)) fs)).
Proof.
  induction fs as [|a fs IH]; simpl; [auto|].
  intros [Ha Hnd]%NoDup_cons. destruct (f (fst a)); simpl; [|auto].
  constructor; [|auto].
  rewrite list_elem_of_In in *. intros Hin. apply Ha.
  apply List.in_map_iff in Hin as (x & Hx & Hin).
  apply List.filter_In in Hin as [Hin _].
  apply List.in_map_iff. eauto.
Qed.

Lemma Mkdir_NoDup fs p fs' :
  Mkdir dirSize fs p = inr fs' ->
  NoDup (List.map fst fs) -> NoDup (List.map fst fs').
Proof.
  unfold Mkdir. destruct (StatErr fs (Dir p)) as [e|parent]; [discriminate|].
  destruct (negb (IsDir parent)); [discriminate|].
  destruct (Stat fs p) eqn:Hp; [discriminate|]. intros [= <-] Hnd.
  apply insert_entry_NoDup; [apply Stat_None_fresh, Hp|exact Hnd].
Qed.

Lemma MkdirAll_from_NoDup n fs p err fs' :
  MkdirAll_from dirSize n fs p = (err, fs') ->
  NoDup (List.map fst fs) -> NoDup (List.map fst fs').
Proof.
  revert fs p err fs'.
  induction n as [|n IH]; intros fs p err fs'; cbn [MkdirAll_from].
  - destruct (StatErr fs p) as [e|dir];
      [|destruct (IsDir dir); intros [= <- <-]; auto].
    destruct (Mkdir dirSize fs p) as [e'|fs2] eqn:Hm; intros [= <- <-];
      [auto|apply (Mkdir_NoDup _ _ _ Hm)].
  - destruct (StatErr fs p) as [e|dir];
      [|destruct (IsDir dir); intros [= <- <-]; auto].
    destruct (1 <? List.length p)%nat.
    + destruct (MkdirAll_from dirSize n fs (Dir p)) as [[e1|] fs1] eqn:Hrec.
      * intros [= <- <-]. apply (IH _ _ _ _ Hrec).
      * intros H Hnd. pose proof (IH _ _ _ _ Hrec Hnd) as Hnd1.
        destruct (Mkdir dirSize fs1 p) as [e'|fs2] eqn:Hm.
        -- destruct (StatErr fs1 p) as [e2|dir]; [|destruct (IsDir dir)];
             injection H as <- <-; exact Hnd1.
        -- injection H as <- <-. apply (Mkdir_NoDup _ _ _ Hm Hnd1).
    + destruct (Mkdir dirSize fs p) as [e'|fs2] eqn:Hm; repeat case_match;
        intros [= <- <-]; auto; apply (Mkdir_NoDup _ _ _ Hm).
Qed.

Lemma MkdirAll_NoDup fs p err fs' :
  MkdirAll dirSize fs p = (err, fs') ->
  NoDup (List.map fst fs) -> NoDup (List.map fst fs').
Proof. apply MkdirAll_from_NoDup. Qed.

End TreeEntries.

(** Walks: what every call of the function keeps, the walk keeps. *)

Section Walks.

Variable fn : WalkDirFunc.
Variable Inv : run -> Prop.
Variable Q : path -> Prop.
Variable R : run -> run -> Prop.

Hypothesis R_refl : forall st, R st st.
Hypothesis R_trans : forall a b c, R a b -> R b c -> R a c.
Hypothesis step : forall p d err st,
  Q p -> Inv st -> Inv (snd (fn p d err st)) /\ R st (snd (fn p d err st)).
Hypothesis child : forall p st d1,
  Q p -> Inv st -> In d1 (ReadDir (tree st) p) -> Q (Join p (Name d1)).

Lemma walk_entries_invariant fuel p l st0 acc :
  (forall p d st, Q p -> Inv st ->
     Inv (snd (walkDir fuel fn p d st)) /\ R st (snd (walkDir fuel fn p d st))) ->
  (forall d1, In d1 l -> Q (Join p (Name d1))) ->
  Inv (snd acc) -> R st0 (snd acc) ->
  Inv (snd (List.fold_left
              (fun acc d1 =>
                 match acc with
                 | (Ok, st2) => walkDir fuel fn (Join p (Name d1)) d1 st2
                 | _ => acc
                 end) l acc))
  /\ R st0 (snd (List.fold_left
              (fun acc d1 =>
                 match acc with
                 | (Ok, st2) => walkDir fuel fn (Join p (Name d1)) d1 st2
                 | _ => acc
                 end) l acc)).
Proof.
  intros IH. revert acc. induction l as [|d1 l IHl]; intros acc Hq Hinv HR;
    cbn [List.fold_left]; [auto|].
  apply IHl; [intros d2 Hd2; apply Hq; right; exact Hd2| |].
  - destruct acc as [[| |] st2]; [|exact Hinv|exact Hinv].
    apply IH; [apply Hq; left; reflexivity|exact Hinv].
  - destruct acc as [[| |] st2]; [|exact HR|exact HR].
    eapply R_trans; [exact HR|].
    apply IH; [apply Hq; left; reflexivity|exact Hinv].
Qed.

Lemma walkDir_invariant fuel p d st :
  Q p -> Inv st ->
  Inv (snd (walkDir fuel fn p d st)) /\ R st (snd (walkDir fuel fn p d st)).
Proof.
  revert p d st. induction fuel as [|fuel IH]; intros p d st Hq Hinv;
    cbn [walkDir]; [auto|].
  destruct (step p d None st Hq Hinv) as [Hinv1 HR1].
  destruct (fn p d None st) as [[e|] st1]; [auto|]. cbn [snd] in *.
  destruct (negb (EntryIsDir d)); [auto|].
  match goal with |- context [match ?x with Some _ => _ | None => _ end] =>
    destruct x as [e|] end.
  - destruct (step p d (Some e) st1 Hq Hinv1) as [Hinv2 HR2].
    destruct (fn p d (Some e) st1) as [[e'|] st2]; cbn [snd] in *; eauto.
  - apply walk_entries_invariant; auto.
    intros d1 Hd1. eapply child; eassumption.
Qed.

Lemma WalkDir_invariant fuel root st :
  Q root -> Inv st ->
  Inv (snd (WalkDir fuel fn root st)) /\ R st (snd (WalkDir fuel fn root st)).
Proof.
  intros Hq Hinv. unfold WalkDir.
  destruct (StatErr (tree st) root) as [e|info].
  - destruct (step root (mkEntry (Base root) false) (Some e) st Hq Hinv).
    destruct (fn root _ (Some e) st) as [[e'|] st']; auto.
  - apply walkDir_invariant; assumption.
Qed.

(** A walk in a tree of bounded depth ends. *)

Variable depth : nat.

Hypothesis child_depth : forall p st d1,
  Q p -> Inv st -> In d1 (ReadDir (tree st) p) ->
  (List.length (Join p (Name d1)) <= depth)%nat
  /\ List.length (Join p (Name d1)) = S (List.length p).

Lemma walk_entries_terminate fuel p l acc :
  (forall d1 st, In d1 l -> Inv st ->
     fst (walkDir fuel fn (Join p (Name d1)) d1 st) <> OutOfFuel) ->
  (forall d1, In d1 l -> Q (Join p (Name d1))) ->
  Inv (snd acc) -> fst acc <> OutOfFuel ->
  fst (List.fold_left
         (fun acc d1 =>
            match acc with
            | (Ok, st2) => walkDir fuel fn (Join p (Name d1)) d1 st2
            | _ => acc
            end) l acc) <> OutOfFuel.
Proof.
  revert acc. induction l as [|d1 l IHl]; intros acc Hend Hq Hinv Hacc;
    cbn [List.fold_left]; [exact Hacc|].
  apply IHl.
  - intros d2 st Hd2. apply Hend. right. exact Hd2.
  - intros d2 Hd2. apply Hq. right. exact Hd2.
  - destruct acc as [[| |] st2]; [|exact Hinv|exact Hinv].
    apply walkDir_invariant; [apply Hq; left; reflexivity|exact Hinv].
  - destruct acc as [[| |] st2]; [|exact Hacc|exact Hacc].
    apply Hend; [left; reflexivity|exact Hinv].
Qed.

Lemma walkDir_terminates fuel p d st :
  Q p -> Inv st -> (List.length p <= depth)%nat ->
  (depth - List.length p < fuel)%nat ->
  fst (walkDir fuel fn p d st) <> OutOfFuel.
Proof.
  revert p d st. induction fuel as [|fuel IH]; intros p d st Hq Hinv Hlen Hfuel;
    [lia|]. cbn [walkDir].
  destruct (step p d None st Hq Hinv) as [Hinv1 _].
  destruct (fn p d None st) as [[e|] st1]; [discriminate|]. cbn [snd] in *.
  destruct (negb (EntryIsDir d)); [discriminate|].
  match goal with |- context [match ?x with Some _ => _ | None => _ end] =>
    destruct x as [e|] end.
  - destruct (fn p d (Some e) st1) as [[e'|] st2]; discriminate.
  - apply walk_entries_terminate; [| |exact Hinv1|discriminate].
    + intros d1 st2 Hd1 Hinv2.
      destruct (child_depth p st1 d1 Hq Hinv1 Hd1) as [Hle Heq].
      apply IH; [exact (child p st1 d1 Hq Hinv1 Hd1)|exact Hinv2|exact Hle|lia].
    + intros d1 Hd1. eapply child; eassumption.
Qed.

Lemma WalkDir_terminates fuel root st :
  Q root -> Inv st -> (List.length root <= depth)%nat -> (depth < fuel)%nat ->
  fst (WalkDir fuel fn root st) <> OutOfFuel.
Proof.
  intros Hq Hinv Hlen Hfuel. unfold WalkDir.
  destruct (StatErr (tree st) root) as [e|info].
  - destruct (fn root _ (Some e) st) as [[e'|] st']; discriminate.
  - apply walkDir_terminates; auto. lia.
Qed.

End Walks.

(** Walks that end well: what every call that returns no error keeps, a
    walk that ends well keeps. *)

Section WalksOk.

Variable fn : WalkDirFunc.
Variable Inv : run -> Prop.

Hypothesis step_ok : forall p d err st st',
  Inv st -> fn p d err st = (None, st') -> Inv st'.

Lemma walk_entries_ok fuel p l acc st' :
  (forall p d st st', Inv st -> walkDir fuel fn p d st = (Ok, st') -> Inv st') ->
  (fst acc = Ok -> Inv (snd acc)) ->
  List.fold_left
    (fun acc d1 =>
       match acc with
       | (Ok, st2) => walkDir fuel fn (Join p (Name d1)) d1 st2
       | _ => acc
       end) l acc = (Ok, st') ->
  Inv st'.
Proof.
  intros IH. revert acc. induction l as [|d1 l IHl]; intros acc Hacc;
    cbn [List.fold_left].
  - intros ->. apply Hacc. reflexivity.
  - apply IHl. destruct acc as [[| |] st2]; cbn [fst snd] in *; auto.
    destruct (walkDir fuel fn (Join p (Name d1)) d1 st2) as [s st3] eqn:Hw.
    cbn [fst snd]. intros ->. eapply IH; [|exact Hw]. auto.
Qed.

Lemma walkDir_ok fuel p d st st' :
  Inv st -> walkDir fuel fn p d st = (Ok, st') -> Inv st'.
Proof.
  revert p d st st'. induction fuel as [|fuel IH]; intros p d st st' Hinv;
    cbn [walkDir]; [discriminate|].
  destruct (fn p d None st) as [[e|] st1] eqn:Hfn; [discriminate|].
  pose proof (step_ok _ _ _ _ _ Hinv Hfn) as Hinv1.
  destruct (negb (EntryIsDir d)); [intros [= <-]; exact Hinv1|].
  match goal with |- context [match ?x with Some _ => _ | None => _ end] =>
    destruct x as [e|] end.
  - destruct (fn p d (Some e) st1) as [[e'|] st2] eqn:Hfn2; [discriminate|].
    intros [= <-]. eapply step_ok; eassumption.
  - apply walk_entries_ok; auto.
Qed.

Lemma WalkDir_ok fuel root st st' :
  Inv st -> WalkDir fuel fn root st = (Ok, st') -> Inv st'.
Proof.
  intros Hinv. unfold WalkDir.
  destruct (StatErr (tree st) root) as [e|info].
  - destruct (fn root _ (Some e) st) as [[e'|] st1] eqn:Hfn; [discriminate|].
    intros [= <-]. eapply step_ok; eassumption.
  - apply walkDir_ok, Hinv.
Qed.

End WalksOk.

(** What holds of every path walked together with its entry. *)

Section WalksEntry.

Variable fn : WalkDirFunc.
Variable Inv : run -> Prop.
Variable Q : path -> DirEntry -> Prop.

Hypothesis step : forall p d err st, Q p d -> Inv st -> Inv (snd (fn p d err st)).
Hypothesis child : forall p d st d1,
  Q p d -> Inv st -> In d1 (ReadDir (tree st) p) -> Q (Join p (Name d1)) d1.

Lemma walkDir_entry_invariant fuel p d st :
  Q p d -> Inv st -> Inv (snd (walkDir fuel fn p d st)).
Proof.
  revert p d st. induction fuel as [|fuel IH]; intros p d st Hq Hinv;
    cbn [walkDir]; [exact Hinv|].
  pose proof (step p d None st Hq Hinv) as Hinv1.
  destruct (fn p d None st) as [[e|] st1]; [exact Hinv1|]. cbn [snd] in Hinv1.
  destruct (negb (EntryIsDir d)); [exact Hinv1|].
  match goal with |- context [match ?x with Some _ => _ | None => _ end] =>
    destruct x as [e|] end.
  - pose proof (step p d (Some e) st1 Hq Hinv1) as Hinv2.
    destruct (fn p d (Some e) st1) as [[e'|] st2]; exact Hinv2.
  - assert (forall l acc,
              (forall d1, In d1 l -> Q (Join p (Name d1)) d1) -> Inv (snd acc) ->
              Inv (snd (List.fold_left
                          (fun acc d1 =>
                             match acc with
                             | (Ok, st2) => walkDir fuel fn (Join p (Name d1)) d1 st2
                             | _ => acc
                             end) l acc))) as Hfold.
    { induction l as [|d1 l IHl]; intros acc Hl Hacc; cbn [List.fold_left];
        [exact Hacc|].
      apply IHl; [intros d2 Hd2; apply Hl; right; exact Hd2|].
      destruct acc as [[| |] st2]; [|exact Hacc|exact Hacc].
      apply IH; [apply Hl; left; reflexivity|exact Hacc]. }
    apply Hfold; [|exact Hinv1].
    intros d1 Hd1. apply (child p d st1 d1 Hq Hinv1 Hd1).
Qed.

End WalksEntry.

(** The walk of the entries of a directory, cut at one of them. *)

Section WalkEntries.

Variable fn : WalkDirFunc.

Lemma walkDir_entries fuel p d st st1 info :
  fn p d None st = (None, st1) -> EntryIsDir d = true ->
  StatErr (tree st1) p = inr info -> IsDir info = true ->
  walkDir (S fuel) fn p d st
  = walkEntries fuel fn p (ReadDir (tree st1) p) (Ok, st1).
Proof.
  intros Hfn Hd Hstat Hdir. cbn [walkDir]. rewrite Hfn, Hd, Hstat, Hdir.
  reflexivity.
Qed.

Lemma walkEntries_stuck fuel p l acc :
  fst acc <> Ok -> walkEntries fuel fn p l acc = acc.
Proof.
  unfold walkEntries. revert acc. induction l as [|d l IH]; intros acc Hacc;
    [reflexivity|]. cbn [List.fold_left].
  destruct acc as [[| |] st]; [exfalso; apply Hacc; reflexivity| |];
    apply IH; discriminate.
Qed.

Lemma walkEntries_split fuel p l1 d1 l2 sa st' :
  walkEntries fuel fn p (l1 ++ d1 :: l2) (Ok, sa) = (Ok, st') ->
  exists st2 st3,
    walkEntries fuel fn p l1 (Ok, sa) = (Ok, st2)
    /\ walkDir fuel fn (Join p (Name d1)) d1 st2 = (Ok, st3)
    /\ walkEntries fuel fn p l2 (Ok, st3) = (Ok, st').
Proof.
  unfold walkEntries. rewrite List.fold_left_app.
  fold (walkEntries fuel fn p l1 (Ok, sa)).
  destruct (walkEntries fuel fn p l1 (Ok, sa)) as [s st2].
  cbn [List.fold_left].
  destruct s as [|e|].
  - destruct (walkDir fuel fn (Join p (Name d1)) d1 st2) as [s3 st3] eqn:Hw.
    destruct s3 as [|e|]; [intros H; exists st2, st3; auto| |].
    + fold (walkEntries fuel fn p l2 (Failed e, st3)).
      rewrite walkEntries_stuck by discriminate. discriminate.
    + fold (walkEntries fuel fn p l2 (OutOfFuel, st3)).
      rewrite walkEntries_stuck by discriminate. discriminate.
  - fold (walkEntries fuel fn p l2 (Failed e, st2)).
    rewrite walkEntries_stuck by discriminate. discriminate.
  - fold (walkEntries fuel fn p l2 (OutOfFuel, st2)).
    rewrite walkEntries_stuck by discriminate. discriminate.
Qed.

End WalkEntries.

(** The case of an entry that is a symbolic link, where the goal asks. *)
Ltac link_case t :=
  try match goal with |- context [t] => destruct t eqn:?Hlink end.

Section EngineSteps.

Variable dirSize : Z.
Variable symlink : path -> bool.

Lemma sizePass_tree p d err st : tree (snd ((sizePass symlink) p d err st)) = tree st.
Proof. unfold sizePass. repeat case_match; reflexivity. Qed.

Lemma overall_tree st : tree (overall st) = tree st.
Proof. unfold overall. case_match; reflexivity. Qed.

Lemma mirrorPass_preview move srcRoot dstRoot p d err st :
  tree (snd (mirrorPass dirSize symlink move false srcRoot dstRoot p d err st)) = tree st.
Proof. unfold mirrorPass. repeat case_match; reflexivity. Qed.

Lemma copyFile_grows src dst rel st err st' :
  copyFile dirSize src dst rel st = (err, st') ->
  grows dst (tree st) (tree st').
Proof.
  unfold copyFile.
  destruct (StatErr (tree st) src) as [e|info];
    [intros [= <- <-]; apply grows_refl|].
  destruct (MkdirAll dirSize (tree st) (Dir dst)) as [[e|] fs1] eqn:Hmk;
    apply MkdirAll_grows in Hmk as [Hg _];
    apply (grows_weaken _ dst) in Hg; try apply Dir_prefix.
  - intros [= <- <-]. exact Hg.
  - destruct (Create fs1 dst) as [e|fs2] eqn:Hc; [intros [= <- <-]; exact Hg|].
    apply (Create_grows fs1 dst fs2 (Size info)) in Hc as (_ & Hfull & Hempty).
    destruct (IsDir info); intros [= <- <-]; rewrite overall_tree; cbn [tree to_stderr set_tree add_progress];
      eapply grows_trans; eassumption.
Qed.

Lemma mirrorPass_copy_grows apply srcRoot dstRoot p d err st :
  grows (JoinRel dstRoot (Rel srcRoot p)) (tree st)
        (tree (snd (mirrorPass dirSize symlink false apply srcRoot dstRoot p d err st))).
Proof.
  unfold mirrorPass. destruct err as [e|]; [apply grows_refl|].
  destruct (StatErr (tree st) _) as [e|info];
    [|destruct (negb (EntryIsDir d)); apply grows_refl].
  destruct (negb (IsNotExist e)); [apply grows_refl|].
  destruct (EntryIsDir d).
  - destruct apply; [|apply grows_refl].
    destruct (MkdirAll dirSize (tree st) _) as [err fs1] eqn:Hmk.
    apply MkdirAll_grows in Hmk as [Hg _]. exact Hg.
  - destruct (symlink p); [apply grows_refl|].
    destruct apply; [|apply grows_refl].
    destruct (copyFile dirSize p _ _ (incr_copied st)) as [err st'] eqn:Hc.
    apply copyFile_grows in Hc. exact Hc.
Qed.

Lemma Rel_below srcRoot r : Rel srcRoot (srcRoot ++ r) = r.
Proof.
  induction srcRoot as [|a s IH]; simpl; [destruct r; reflexivity|].
  rewrite String.eqb_refl. exact IH.
Qed.

Lemma JoinRel_valid dstRoot r :
  List.forallb valid_name r = true -> JoinRel dstRoot r = dstRoot ++ r.
Proof.
  unfold JoinRel. revert dstRoot. induction r as [|n r IH]; intros dstRoot; simpl.
  - rewrite List.app_nil_r. reflexivity.
  - intros [Hn Hr]%andb_prop. rewrite Join_valid by exact Hn.
    rewrite IH by exact Hr. rewrite <- List.app_assoc. reflexivity.
Qed.

(** The destination of a path below the source. *)
Lemma destination_below srcRoot dstRoot p :
  below srcRoot p -> List.forallb valid_name dstRoot = true ->
  exists r, p = srcRoot ++ r
            /\ JoinRel dstRoot (Rel srcRoot p) = dstRoot ++ r
            /\ List.forallb valid_name (dstRoot ++ r) = true.
Proof.
  intros [[r ->]%is_prefix_app Hvalid] Hd. exists r.
  rewrite List.forallb_app in Hvalid. apply andb_prop in Hvalid as [_ Hr].
  rewrite Rel_below, JoinRel_valid by exact Hr.
  rewrite List.forallb_app, Hd, Hr. auto.
Qed.

Lemma In_Stat_some (fs : fsys) q i : In (q, i) fs -> exists j, Stat fs q = Some j.
Proof.
  intros Hin.
  destruct (find_In_Some (fun e => path_eqb (fst e) q) fs (q, i) Hin
              (path_eqb_refl q)) as [y Hy].
  exists (snd y). unfold Stat. rewrite Hy. reflexivity.
Qed.

Lemma ReadDir_child fs p d1 :
  In d1 (ReadDir fs p) ->
  exists q i, In (q, i) fs /\ q <> [] /\ Dir q = p
              /\ Name d1 = Base q /\ EntryIsDir d1 = IsDir i.
Proof.
  unfold ReadDir. intros ([q i] & <- & Hin)%List.in_map_iff.
  apply List.filter_In in Hin as [Hin Hchild]. cbn [fst snd] in *.
  exists q, i. unfold is_child in Hchild.
  destruct q as [|a q]; [discriminate|].
  destruct (path_eqb_spec (removelast (a :: q)) p) as [<-|]; [|discriminate].
  repeat split; auto; discriminate.
Qed.

Lemma valid_Base q :
  q <> [] -> List.forallb valid_name q = true -> valid_name (Base q) = true.
Proof.
  intros Hq Hv. rewrite <- (Dir_Base q Hq) in Hv.
  rewrite List.forallb_app in Hv. apply andb_prop in Hv as [_ Hv].
  simpl in Hv. rewrite andb_true_r in Hv. exact Hv.
Qed.

(** The entries read in a directory below the source are below it. *)
Lemma below_child srcRoot p fs d1 :
  below srcRoot p -> names_ok fs -> In d1 (ReadDir fs p) ->
  below srcRoot (Join p (Name d1))
  /\ exists i, In (Join p (Name d1), i) fs /\ EntryIsDir d1 = IsDir i
                /\ Dir (Join p (Name d1)) = p /\ Join p (Name d1) <> [].
Proof.
  intros [Hp Hv] Hok (q & i & Hin & Hq & <- & -> & Hd)%ReadDir_child.
  destruct (In_Stat_some fs q i Hin) as [j Hj].
  pose proof (Hok _ _ Hj) as Hvq.
  rewrite (Join_valid _ _ (valid_Base q Hq Hvq)), (Dir_Base q Hq).
  split; [split; [|exact Hvq]|eauto 6].
  eapply is_prefix_trans; [exact Hp|apply Dir_prefix].
Qed.

Lemma good_grows p fs fs' :
  grows p fs fs' -> List.forallb valid_name p = true -> good fs -> good fs'.
Proof.
  intros Hg Hp [Hc Hn]. split; [apply Hg, Hc|].
  eapply grows_names_ok; eassumption.
Qed.

Lemma grows_keeps_outside srcRoot p fs fs' :
  grows p fs fs' -> keeps_outside srcRoot fs fs'.
Proof. intros (He & _) q i H _. apply He, H. Qed.

Lemma keeps_outside_refl srcRoot fs : keeps_outside srcRoot fs fs.
Proof. intros q i H _. exact H. Qed.

Lemma keeps_outside_trans srcRoot fs1 fs2 fs3 :
  keeps_outside srcRoot fs1 fs2 -> keeps_outside srcRoot fs2 fs3 ->
  keeps_outside srcRoot fs1 fs3.
Proof. intros H12 H23 q i H Hq. apply H23; [apply H12|]; assumption. Qed.

(** What [moveFile] does to the tree when the destination is free: the
    directories of the destination are made, and when no error is returned
    the file has gone from its place to the destination. *)
Lemma moveFile_spec src dst rel st err st' :
  moveFile dirSize src dst rel st = (err, st') ->
  Stat (tree st) dst = None ->
  exists fs1,
    grows (Dir dst) (tree st) fs1
    /\ Stat fs1 dst = None
    /\ ((err <> None /\ tree st' = fs1)
        \/ (err = None /\ src <> dst
            /\ exists info parent,
                 Stat fs1 src = Some info /\ IsDir info = false
                 /\ Stat fs1 (Dir dst) = Some parent /\ IsDir parent = true
                 /\ Stat (tree st') src = None
                 /\ Stat (tree st') dst = Some info
                 /\ forall q, q <> src -> q <> dst ->
                              Stat (tree st') q = Stat fs1 q)).
Proof.
  unfold moveFile. intros H Hfree.
  destruct (MkdirAll dirSize (tree st) (Dir dst)) as [err1 fs1] eqn:Hmk.
  apply MkdirAll_grows in Hmk as [Hg _].
  assert (Stat fs1 dst = None) as Hfree1.
  { destruct (Stat fs1 dst) as [i|] eqn:Hs; [|reflexivity].
    destruct Hg as (_ & Hn & _). destruct (Hn _ _ Hs) as [H0|[Hpre Hne]].
    - congruence.
    - rewrite not_prefix_of_Dir in Hpre by exact Hne. discriminate. }
  exists fs1. split; [exact Hg|]. split; [exact Hfree1|].
  destruct err1 as [e|]; [injection H as <- <-; left; split; [discriminate|reflexivity]|].
  cbn [tree set_tree] in H.
  destruct (StatErr fs1 src) as [e|info];
    [injection H as <- <-; left; split; [discriminate|reflexivity]|].
  cbn [tree set_tree add_progress to_stderr] in H.
  destruct (Rename fs1 src dst) as [fs2|] eqn:Hr;
    [|injection H as <- <-; left; split; [discriminate|reflexivity]].
  injection H as <- <-. right. split; [reflexivity|].
  rewrite overall_tree. cbn [tree set_tree].
  apply Rename_inv in Hr
    as (info' & parent & Hsrc & Hfile & Hparent & Hdir & [[-> _]|(Hne & Hs & Hd & Ho)]);
    [congruence|].
  split; [exact Hne|]. exists info', parent. auto 10.
Qed.

(** The tree stays good through a call of the function of the second
    pass, and what is outside the source tree is kept. *)
Lemma mirrorPass_good move apply srcRoot dstRoot p d err st :
  List.forallb valid_name dstRoot = true ->
  below srcRoot p -> good (tree st) ->
  good (tree (snd (mirrorPass dirSize symlink move apply srcRoot dstRoot p d err st)))
  /\ keeps_outside srcRoot (tree st)
       (tree (snd (mirrorPass dirSize symlink move apply srcRoot dstRoot p d err st))).
Proof.
  intros Hdst Hp Hgood.
  destruct (destination_below srcRoot dstRoot p Hp Hdst) as (r & Hpr & Hjoin & Hvalid).
  assert (forall fs', grows (dstRoot ++ r) (tree st) fs' ->
            good fs' /\ keeps_outside srcRoot (tree st) fs') as Hgrows.
  { intros fs' Hg. split; [eapply good_grows; eassumption|].
    eapply grows_keeps_outside, Hg. }
  destruct move.
  - unfold mirrorPass. rewrite Hjoin.
    destruct err as [e|]; [split; [exact Hgood|apply keeps_outside_refl]|].
    destruct (StatErr (tree st) (dstRoot ++ r)) as [e|info] eqn:Hstat;
      [|destruct (negb (EntryIsDir d)); split; solve [exact Hgood|apply keeps_outside_refl]].
    destruct (negb (IsNotExist e)); [split; [exact Hgood|apply keeps_outside_refl]|].
    destruct (EntryIsDir d), apply; link_case (symlink p);
      try (split; [exact Hgood|apply keeps_outside_refl]).
    + destruct (MkdirAll dirSize (tree st) _) as [err fs1] eqn:Hmk.
      apply MkdirAll_grows in Hmk as [Hg _]. apply Hgrows, Hg.
    + destruct (moveFile dirSize p _ _ (incr_copied st)) as [err st'] eqn:Hm.
      cbn [snd].
      apply moveFile_spec in Hm
        as (fs1 & Hg & Hfree1 & [[_ ->]|(_ & Hne & info & parent & Hsrc & Hfile
                                          & Hparent & Hdir & Hgone & Hthere & Hrest)]);
        [| |apply (closed_StatErr_None _ _ e); [apply Hgood|exact Hstat]].
      * apply Hgrows. eapply grows_weaken; [apply Dir_prefix|exact Hg].
      * cbn [tree incr_copied] in *.
        destruct (Hgrows fs1) as [[Hc1 Hn1] Hk1];
          [eapply grows_weaken; [apply Dir_prefix|exact Hg]|].
        split; [split|].
        -- intros q i Hq Hqne.
           destruct (decide (q = dstRoot ++ r)) as [->|Hqd].
           ++ exists parent. split; [|exact Hdir]. rewrite Hrest; [exact Hparent| |].
              ** intros Heq. rewrite Heq in Hparent. congruence.
              ** intros Heq. rewrite Heq in Hparent. congruence.
           ++ assert (q <> p) as Hqp by (intros ->; congruence).
              rewrite Hrest in Hq by assumption.
              destruct (Hc1 _ _ Hq Hqne) as (j & Hj & Hjd).
              exists j. split; [|exact Hjd]. rewrite Hrest; [exact Hj| |].
              ** intros Heq. rewrite Heq in Hj. congruence.
              ** intros Heq. rewrite Heq in Hj. congruence.
        -- intros q i Hq.
           destruct (decide (q = dstRoot ++ r)) as [->|Hqd]; [exact Hvalid|].
           assert (q <> p) as Hqp by (intros ->; congruence).
           rewrite Hrest in Hq by assumption. eapply Hn1, Hq.
        -- eapply keeps_outside_trans; [exact Hk1|].
           intros q i Hq Hout.
           assert (q <> p) as Hqp.
           { intros ->. destruct Hout as [Hout|Hout]; [congruence|].
             destruct Hp as [Hp _]. congruence. }
           assert (q <> dstRoot ++ r) as Hqd by (intros ->; congruence).
           rewrite Hrest by assumption. exact Hq.
  - pose proof (mirrorPass_copy_grows apply srcRoot dstRoot p d err st) as Hg.
    rewrite Hjoin in Hg. apply Hgrows, Hg.
Qed.

Lemma is_prefix_short (a b r : path) :
  is_prefix a (b ++ r) = true -> (List.length a <= List.length b)%nat ->
  is_prefix a b = true.
Proof.
  revert b. induction a as [|x a IH]; intros b; [reflexivity|].
  destruct b as [|y b]; simpl; [lia|].
  destruct (String.eqb x y); simpl; [|discriminate].
  intros H Hl. apply IH; [exact H|lia].
Qed.

(** An entry made at a prefix of the destination of [srcRoot ++ r] is, when
    the target is not below the source, not longer than [srcRoot ++ r] if it
    is below the source. *)
Lemma made_below_source srcRoot dstRoot r q :
  is_prefix srcRoot dstRoot = false ->
  is_prefix q (dstRoot ++ r) = true -> is_prefix srcRoot q = true ->
  (List.length q <= List.length (srcRoot ++ r))%nat.
Proof.
  intros Hout Hq Hs.
  pose proof (is_prefix_length _ _ Hq) as Hl.
  rewrite List.length_app in *.
  destruct (Nat.le_gt_cases (List.length dstRoot) (List.length srcRoot)); [lia|].
  exfalso. rewrite (is_prefix_short srcRoot dstRoot r) in Hout; [discriminate| |lia].
  eapply is_prefix_trans; eassumption.
Qed.

(** Where the entries of the tree come from after a call of the function
    of the second pass. *)
Lemma mirrorPass_origin move apply srcRoot dstRoot p d err st q i :
  good (tree st) ->
  Stat (tree (snd (mirrorPass dirSize symlink move apply srcRoot dstRoot p d err st))) q
  = Some i ->
  (exists j, Stat (tree st) q = Some j)
  \/ (apply = true /\ q <> []
      /\ is_prefix q (JoinRel dstRoot (Rel srcRoot p)) = true).
Proof.
  intros Hgood. destruct apply; [|rewrite mirrorPass_preview; eauto].
  destruct move.
  - unfold mirrorPass.
    destruct err as [e|]; [eauto|].
    destruct (StatErr (tree st) _) as [e|info] eqn:Hstat;
      [|destruct (negb (EntryIsDir d)); eauto].
    destruct (negb (IsNotExist e)); [eauto|].
    destruct (EntryIsDir d).
    + destruct (MkdirAll dirSize (tree st) _) as [err fs1] eqn:Hmk.
      apply MkdirAll_grows in Hmk as [(_ & Hn & _) _]. cbn [snd tree set_tree].
      intros H. destruct (Hn _ _ H) as [|[? ?]]; eauto.
    + destruct (symlink p); [cbn [snd]; eauto|].
      destruct (moveFile dirSize p _ _ (incr_copied st)) as [err st'] eqn:Hm.
      cbn [snd].
      apply moveFile_spec in Hm
        as (fs1 & (_ & Hn & _) & Hfree1
            & [[_ ->]|(_ & Hne & info & parent & Hsrc & Hfile
                       & Hparent & Hdir & Hgone & Hthere & Hrest)]);
        [| |apply (closed_StatErr_None _ _ e); [apply Hgood|exact Hstat]];
        cbn [tree incr_copied] in *.
      * intros H. destruct (Hn _ _ H) as [|[Hq ?]]; [eauto|right].
        repeat split; auto. eapply is_prefix_trans; [exact Hq|apply Dir_prefix].
      * intros H.
        destruct (decide (q = JoinRel dstRoot (Rel srcRoot p))) as [->|Hqd].
        -- right. repeat split; [|apply is_prefix_refl].
           intros Heq. rewrite Heq in Hparent. simpl in Hparent.
           rewrite Heq in Hfree1. congruence.
        -- assert (q <> p) as Hqp by (intros ->; congruence).
           rewrite Hrest in H by assumption.
           destruct (Hn _ _ H) as [|[Hq ?]]; [eauto|right].
           repeat split; auto. eapply is_prefix_trans; [exact Hq|apply Dir_prefix].
  - pose proof (mirrorPass_copy_grows true srcRoot dstRoot p d err st)
      as (_ & Hn & _).
    intros H. destruct (Hn _ _ H) as [|[? ?]]; eauto.
Qed.

Lemma In_depth_of (fs : fsys) q i :
  Stat fs q = Some i -> (List.length q <= depth_of fs)%nat.
Proof.
  intros H%Stat_In. unfold depth_of.
  pose proof (proj1 (List.list_max_le
                       (List.map (fun e => List.length (fst e)) fs) _)
                    (Nat.le_refl _)) as Hall.
  rewrite List.Forall_forall in Hall. apply Hall.
  apply List.in_map_iff. exists (q, i). auto.
Qed.

Lemma is_prefix_comparable (a b l : path) :
  is_prefix a l = true -> is_prefix b l = true ->
  is_prefix a b = true \/ is_prefix b a = true.
Proof.
  revert b l. induction a as [|x a IH]; intros b l; [auto|].
  destruct b as [|y b]; [auto|]. destruct l as [|z l]; [discriminate|]. simpl.
  destruct (String.eqb_spec x z) as [->|]; [|discriminate].
  destruct (String.eqb_spec y z) as [->|]; [|discriminate].
  rewrite String.eqb_refl. simpl. apply IH.
Qed.

(** With roots that do not contain each other, no prefix of a destination
    lies below the source. *)
Lemma made_outside srcRoot dstRoot r c :
  is_prefix srcRoot dstRoot = false -> is_prefix dstRoot srcRoot = false ->
  is_prefix c (dstRoot ++ r) = true -> is_prefix srcRoot c = false.
Proof.
  intros H1 H2 Hc. destruct (is_prefix srcRoot c) eqn:Hs; [|reflexivity].
  exfalso.
  assert (is_prefix dstRoot (dstRoot ++ r) = true) as Hd
    by (apply is_prefix_app; eauto).
  destruct (is_prefix_comparable srcRoot dstRoot (dstRoot ++ r)); try congruence.
  eapply is_prefix_trans; eassumption.
Qed.

(** What a call of the function of the second pass does to the tree: it
    adds entries on the way to the destination, and a move then takes the
    file from its place to the destination, which was free. *)
Lemma mirrorPass_change move apply srcRoot dstRoot r d err st :
  List.forallb valid_name dstRoot = true ->
  below srcRoot (srcRoot ++ r) -> good (tree st) ->
  let st' := snd (mirrorPass dirSize symlink move apply srcRoot dstRoot (srcRoot ++ r)
                             d err st) in
  grows (dstRoot ++ r) (tree st) (tree st')
  \/ exists fs1 info,
       grows (dstRoot ++ r) (tree st) fs1
       /\ Stat fs1 (dstRoot ++ r) = None
       /\ Stat fs1 (srcRoot ++ r) = Some info /\ IsDir info = false
       /\ Stat (tree st') (srcRoot ++ r) = None
       /\ Stat (tree st') (dstRoot ++ r) = Some info
       /\ forall q, q <> srcRoot ++ r -> q <> dstRoot ++ r ->
                    Stat (tree st') q = Stat fs1 q.
Proof.
  intros Hdst Hp Hgood st'. subst st'.
  destruct (destination_below srcRoot dstRoot _ Hp Hdst) as (r' & Hpr & Hjoin & Hvalid).
  apply List.app_inv_head in Hpr as <-.
  destruct move;
    [|left; rewrite <- Hjoin; apply mirrorPass_copy_grows].
  unfold mirrorPass. rewrite Hjoin.
  destruct err as [e|]; [left; apply grows_refl|].
  destruct (StatErr (tree st) (dstRoot ++ r)) as [e|info] eqn:Hstat;
    [|destruct (negb (EntryIsDir d)); left; apply grows_refl].
  destruct (negb (IsNotExist e)); [left; apply grows_refl|].
  destruct (EntryIsDir d), apply; link_case (symlink (srcRoot ++ r));
    try (left; apply grows_refl).
  - destruct (MkdirAll dirSize (tree st) _) as [err fs1] eqn:Hmk.
    apply MkdirAll_grows in Hmk as [Hg _]. left. exact Hg.
  - destruct (moveFile dirSize _ _ _ (incr_copied st)) as [err st'] eqn:Hm.
    cbn [snd].
    apply moveFile_spec in Hm
      as (fs1 & Hg & Hfree1 & [[_ ->]|(_ & Hne & info & parent & Hsrc & Hfile
                                        & Hparent & Hdir & Hgone & Hthere & Hrest)]);
      [| |apply (closed_StatErr_None _ _ e); [apply Hgood|exact Hstat]];
      cbn [tree incr_copied] in *;
      apply (grows_weaken _ (dstRoot ++ r)) in Hg; try apply Dir_prefix.
    + left. exact Hg.
    + right. exists fs1, info. auto 10.
Qed.

(** With roots that do not contain each other, a call keeps the files of
    the source tree at their place or at their destination. *)
Lemma mirrorPass_files_kept move apply srcRoot dstRoot p d err fs st :
  is_prefix srcRoot dstRoot = false -> is_prefix dstRoot srcRoot = false ->
  List.forallb valid_name dstRoot = true -> names_ok fs ->
  below srcRoot p -> good (tree st) ->
  files_kept srcRoot dstRoot fs (tree st) ->
  files_kept srcRoot dstRoot fs
    (tree (snd (mirrorPass dirSize symlink move apply srcRoot dstRoot p d err st))).
Proof.
  intros Hsd Hds Hdst Hnames Hp Hgood [Hshrink Hkept].
  destruct (destination_below srcRoot dstRoot p Hp Hdst) as (r & -> & Hjoin & Hvalid).
  assert (forall fs', grows (dstRoot ++ r) (tree st) fs' ->
            files_kept srcRoot dstRoot fs fs') as Hgrows.
  { intros fs' (He & Hn & _). split.
    - intros q i Hq Hs. destruct (Hn _ _ Hs) as [H0|[Hpre _]]; [auto|].
      rewrite (made_outside srcRoot dstRoot r q) in Hq by assumption. discriminate.
    - intros q i Hq Hfile Hbelow.
      destruct (Hkept q i Hq Hfile Hbelow) as [H|H]; [left|right]; apply He, H. }
  destruct (mirrorPass_change move apply srcRoot dstRoot r d err st Hdst Hp Hgood)
    as [Hg|(fs1 & info & Hg & Hfree & Hsrc & Hfile & Hgone & Hthere & Hrest)];
    [apply Hgrows, Hg|].
  destruct (Hgrows fs1 Hg) as [Hshrink1 Hkept1].
  assert (is_prefix srcRoot (dstRoot ++ r) = false) as Hout
    by (apply (made_outside srcRoot dstRoot r); auto using is_prefix_refl).
  assert (is_prefix srcRoot (srcRoot ++ r) = true) as Hin by apply Hp.
  split.
  - intros q i Hq Hs.
    assert (q <> dstRoot ++ r) as Hqd by (intros ->; congruence).
    assert (q <> srcRoot ++ r) as Hqp by (intros ->; congruence).
    rewrite Hrest in Hs by assumption. auto.
  - intros q i Hq Hqfile Hbelow.
    destruct (decide (q = srcRoot ++ r)) as [->|Hqp].
    + right. unfold destination. rewrite Hjoin.
      rewrite (Hshrink1 _ _ Hin Hsrc) in Hq. congruence.
    + assert (q <> dstRoot ++ r) as Hqd by (intros ->; congruence).
      destruct (destination_below srcRoot dstRoot q) as (rq & -> & Hjq & _);
        [split; [exact Hbelow|eapply Hnames, Hq]|exact Hdst|].
      destruct (Hkept1 _ _ Hq Hqfile Hbelow) as [H|H]; [left|right].
      * rewrite Hrest by assumption. exact H.
      * unfold destination in *. rewrite Hjq in *.
        rewrite Hrest; [exact H| |congruence].
        intros Heq. rewrite <- Heq in Hin.
        rewrite (made_outside srcRoot dstRoot rq (dstRoot ++ rq)) in Hin
          by auto using is_prefix_refl.
        discriminate.
Qed.

Lemma carries_on_refl st : carries_on st st.
Proof. split; [apply extends_refl|apply List.incl_refl]. Qed.

Lemma carries_on_trans a b c : carries_on a b -> carries_on b c -> carries_on a c.
Proof.
  intros [He1 Hi1] [He2 Hi2].
  split; [eapply extends_trans|eapply List.incl_tran]; eassumption.
Qed.

Lemma overall_stdout st : stdout (overall st) = stdout st.
Proof. unfold overall. case_match; reflexivity. Qed.

(** What a successful [copyFile] leaves. *)
Lemma copyFile_done src dst rel st st' :
  copyFile dirSize src dst rel st = (None, st') ->
  stdout st' = stdout st
  /\ exists info, Stat (tree st) src = Some info /\ IsDir info = false
                  /\ Stat (tree st') dst = Some (mkInfo false (Size info)).
Proof.
  unfold copyFile.
  destruct (StatErr (tree st) src) as [e|info] eqn:Hsrc; [discriminate|].
  destruct (MkdirAll dirSize (tree st) (Dir dst)) as [[e|] fs1]; [discriminate|].
  destruct (Create fs1 dst) as [e|fs2]; [discriminate|].
  destruct (IsDir info) eqn:Hfile; [discriminate|]. intros [= <-].
  rewrite overall_stdout, overall_tree. split; [reflexivity|].
  exists info. apply StatErr_Some in Hsrc. repeat split; auto.
  apply (Stat_insert_same (dst, _)).
Qed.

Lemma copyFile_stdout src dst rel st :
  stdout (snd (copyFile dirSize src dst rel st)) = stdout st.
Proof.
  unfold copyFile.
  destruct (StatErr (tree st) src) as [e|info]; [reflexivity|].
  destruct (MkdirAll dirSize (tree st) (Dir dst)) as [[e|] fs1]; [reflexivity|].
  destruct (Create fs1 dst) as [e|fs2]; [reflexivity|].
  destruct (IsDir info); cbn [snd]; rewrite overall_stdout; reflexivity.
Qed.

(** A call of the function of the second pass in a copy that is applied:
    the entries and the lines stay; when it returns no error, the
    destination exists, and the destination of a file is the copy just
    made unless it was there and reported. *)
Lemma mirrorPass_copy_step srcRoot dstRoot p d err st :
  carries_on st (snd (mirrorPass dirSize symlink false true srcRoot dstRoot p d err st)).
Proof.
  split; [apply (mirrorPass_copy_grows true srcRoot dstRoot p d err st)|].
  unfold mirrorPass. destruct err as [e|]; [apply List.incl_refl|].
  destruct (StatErr (tree st) _) as [e|info].
  - destruct (negb (IsNotExist e)); [apply List.incl_refl|].
    destruct (EntryIsDir d).
    + destruct (MkdirAll dirSize (tree st) _). apply List.incl_refl.
    + destruct (symlink p); [apply List.incl_refl|].
      rewrite copyFile_stdout. apply List.incl_refl.
  - destruct (negb (EntryIsDir d)); [|apply List.incl_refl].
    cbn [snd stdout incr_skipped to_stdout]. apply List.incl_appl, List.incl_refl.
Qed.

Lemma mirrorPass_copy_done srcRoot dstRoot p d st st1 :
  EntryIsDir d = true \/ symlink p = false ->
  mirrorPass dirSize symlink false true srcRoot dstRoot p d None st = (None, st1) ->
  exists j, Stat (tree st1) (destination srcRoot dstRoot p) = Some j
            /\ (EntryIsDir d = false ->
                In (MSkip (Rel srcRoot p)) (stdout st1)
                \/ exists info, Stat (tree st) p = Some info
                                /\ IsDir info = false
                                /\ j = mkInfo false (Size info)).
Proof.
  intros Hkind. unfold mirrorPass, destination.
  destruct (StatErr (tree st) _) as [e|info] eqn:Hstat.
  - destruct (negb (IsNotExist e)); [discriminate|].
    destruct (EntryIsDir d).
    + destruct (MkdirAll dirSize (tree st) _) as [err fs1] eqn:Hmk.
      intros [= -> <-]. apply MkdirAll_grows in Hmk as [_ Hj].
      destruct (Hj eq_refl) as (j & Hj' & _). exists j. split; [exact Hj'|discriminate].
    + destruct Hkind as [Hkind|Hkind]; [discriminate|]. rewrite Hkind.
      intros (_ & info & Hsrc & Hfile & Hthere)%copyFile_done.
      eexists. split; [exact Hthere|]. intros _. right. exists info. auto.
  - apply StatErr_Some in Hstat.
    destruct (EntryIsDir d); cbn [negb]; intros [= <-]; exists info;
      (split; [exact Hstat|]); [discriminate|].
    intros _. left. cbn [stdout incr_skipped to_stdout].
    apply List.in_or_app. right. left. reflexivity.
Qed.

Lemma count_app f out1 out2 : count f (out1 ++ out2) = count f out1 + count f out2.
Proof. unfold count. rewrite List.filter_app, List.length_app. lia. Qed.

Lemma counted_stderr move apply st l :
  is_start true l = false -> is_start false l = false ->
  counted move apply st -> counted move apply (to_stderr l st).
Proof.
  intros H1 H2 (Hout & Hs & Hc & Hn). unfold counted.
  cbn [stdout stderr skipped copied to_stderr]. rewrite !count_app.
  assert (forall m, count (is_start m) [l] = 0) as Hl
    by (intros []; unfold count; simpl; rewrite ?H1, ?H2; reflexivity).
  rewrite !Hl. repeat split; auto; destruct apply; lia.
Qed.

Lemma counted_overall move apply st :
  counted move apply st -> counted move apply (overall st).
Proof.
  intros H. unfold overall. destruct (0 <? overallSize st); [|exact H].
  apply counted_stderr; auto.
Qed.

(** A file is started on: the counter and the line together. *)
Lemma counted_start move st l :
  is_start move l = true -> is_start (negb move) l = false ->
  counted move true st ->
  counted move true (to_stderr l (incr_copied st)).
Proof.
  intros H1 H2 (Hout & Hs & Hc & Hn). unfold counted.
  cbn [stdout stderr skipped copied to_stderr incr_copied]. rewrite !count_app.
  assert (count (is_start move) [l] = 1) as ->
    by (unfold count; simpl; rewrite H1; reflexivity).
  assert (count (is_start (negb move)) [l] = 0) as ->
    by (unfold count; simpl; rewrite H2; reflexivity).
  repeat split; auto; lia.
Qed.

(** A call of the function of the second pass that returns no error keeps
    the counters in agreement with the output. *)
Lemma mirrorPass_counted move apply srcRoot dstRoot p d err st st' :
  counted move apply st ->
  mirrorPass dirSize symlink move apply srcRoot dstRoot p d err st = (None, st') ->
  counted move apply st'.
Proof.
  intros Hcount. unfold mirrorPass. destruct err as [e|]; [discriminate|].
  destruct (StatErr (tree st) _) as [e|info].
  - destruct (negb (IsNotExist e)); [discriminate|].
    destruct (EntryIsDir d).
    + destruct apply; [|intros [= <-]; exact Hcount].
      destruct (MkdirAll dirSize (tree st) _) as [err fs1].
      intros [= -> <-]. exact Hcount.
    + destruct (symlink p); [intros [= <-]; exact Hcount|].
      destruct apply.
      * destruct move.
        -- unfold moveFile. cbn [tree incr_copied].
           destruct (MkdirAll dirSize (tree st) _) as [[e1|] fs1]; [discriminate|].
           cbn [tree set_tree].
           destruct (StatErr fs1 p) as [e1|info]; [discriminate|].
           cbn [tree set_tree add_progress to_stderr].
           destruct (Rename fs1 p _) as [fs2|]; [|discriminate].
           intros [= <-]. apply counted_overall.
           exact (counted_start true st (MMoving (Rel srcRoot p)) eq_refl eq_refl Hcount).
        -- unfold copyFile. cbn [tree incr_copied].
           destruct (StatErr (tree st) p) as [e1|info]; [discriminate|].
           destruct (MkdirAll dirSize (tree st) _) as [[e1|] fs1]; [discriminate|].
           destruct (Create fs1 _) as [e1|fs2]; [discriminate|].
           destruct (IsDir info); [discriminate|].
           intros [= <-]. apply counted_overall, counted_stderr; auto.
           exact (counted_start false st (MCopying (Rel srcRoot p)) eq_refl eq_refl Hcount).
      * intros [= <-]. destruct Hcount as (Hout & Hs & Hc & Hn). unfold counted.
        cbn [stdout stderr skipped copied to_stdout incr_copied].
        rewrite List.forallb_app, !count_app, Hout.
        assert (count is_skip [MPlan move (Rel srcRoot p)] = 0) as -> by reflexivity.
        assert (count (is_plan move) [MPlan move (Rel srcRoot p)] = 1) as ->
          by (unfold count; simpl; rewrite Bool.eqb_reflx; reflexivity).
        simpl. rewrite Bool.eqb_reflx. repeat split; auto; lia.
  - destruct (negb (EntryIsDir d)); intros [= <-]; [|exact Hcount].
    destruct Hcount as (Hout & Hs & Hc & Hn). unfold counted.
    cbn [stdout stderr skipped copied to_stdout incr_skipped].
    rewrite List.forallb_app, !count_app, Hout.
    assert (count is_skip [MSkip (Rel srcRoot p)] = 1) as -> by reflexivity.
    assert (count (is_plan move) [MSkip (Rel srcRoot p)] = 0) as -> by reflexivity.
    simpl. repeat split; auto; destruct apply; lia.
Qed.

(** The first entry of a name in a directory is the one [Stat] finds. *)
Lemma ReadDir_first fs p x ic :
  Stat fs (p ++ [x]) = Some ic ->
  exists l1 l2,
    ReadDir fs p = l1 ++ mkEntry x (IsDir ic) :: l2
    /\ forall d', In d' l1 -> Name d' <> x.
Proof.
  unfold Stat, ReadDir.
  induction fs as [|[q i] fs IH]; cbn [List.find List.filter fst snd]; [discriminate|].
  destruct (path_eqb_spec q (p ++ [x])) as [->|Hne].
  - intros [= <-]. exists [], (List.map (fun e => mkEntry (Base (fst e)) (IsDir (snd e)))
                               (List.filter (fun e => is_child p (fst e)) fs)).
    split; [|intros d' []].
    assert (is_child p (p ++ [x]) = true) as ->.
    { unfold is_child. destruct (p ++ [x]) eqn:Hpx; [destruct p; discriminate|].
      rewrite <- Hpx, List.removelast_last. apply path_eqb_refl. }
    cbn [List.map List.app fst snd]. unfold Base. rewrite List.last_last. reflexivity.
  - intros H. destruct (IH H) as (l1 & l2 & Heq & Hl1).
    destruct (is_child p q) eqn:Hchild.
    + exists (mkEntry (Base q) (IsDir i) :: l1), l2. cbn [List.map fst snd].
      rewrite Heq. split; [reflexivity|].
      intros d' [<-|Hd']; [|apply Hl1, Hd']. cbn [Name]. intros Hx. apply Hne.
      unfold is_child in Hchild. destruct q as [|a q]; [discriminate|].
      destruct (path_eqb_spec (removelast (a :: q)) p) as [<-|]; [|discriminate].
      rewrite <- Hx. symmetry. apply Dir_Base. discriminate.
    + exists l1, l2. auto.
Qed.

Lemma apart_siblings p x y : x <> y -> apart (p ++ [x]) (p ++ [y]).
Proof.
  intros Hxy q [r ->]%is_prefix_app.
  destruct (is_prefix (p ++ [y]) ((p ++ [x]) ++ r)) eqn:H; [|reflexivity].
  apply is_prefix_app in H as [r' H]. rewrite <- !List.app_assoc in H.
  apply List.app_inv_head in H. injection H as H _. congruence.
Qed.

Lemma apart_child c p n : apart c p -> apart c (p ++ [n]).
Proof.
  intros H q Hq. specialize (H q Hq).
  destruct (is_prefix (p ++ [n]) q) eqn:Hp; [|reflexivity].
  rewrite (is_prefix_trans p (p ++ [n]) q) in H; [discriminate| |exact Hp].
  apply is_prefix_app. eauto.
Qed.

Lemma moveFile_stdout src dst rel st :
  stdout (snd (moveFile dirSize src dst rel st)) = stdout st.
Proof.
  unfold moveFile.
  destruct (MkdirAll dirSize (tree st) (Dir dst)) as [[e|] fs1]; [reflexivity|].
  cbn [tree set_tree].
  destruct (StatErr fs1 src) as [e|info]; [reflexivity|].
  cbn [tree set_tree add_progress to_stderr].
  destruct (Rename fs1 src dst); cbn [snd]; rewrite ?overall_stdout; reflexivity.
Qed.

Lemma mirrorPass_stdout move apply srcRoot dstRoot p d err st :
  List.incl (stdout st)
            (stdout (snd (mirrorPass dirSize symlink move apply srcRoot dstRoot p d err st))).
Proof.
  unfold mirrorPass. destruct err as [e|]; [apply List.incl_refl|].
  destruct (StatErr (tree st) _) as [e|info].
  - destruct (negb (IsNotExist e)); [apply List.incl_refl|].
    destruct (EntryIsDir d).
    + destruct apply; [|apply List.incl_refl].
      destruct (MkdirAll dirSize (tree st) _). apply List.incl_refl.
    + destruct (symlink p); [apply List.incl_refl|].
      destruct apply; [destruct move|].
      * rewrite moveFile_stdout. apply List.incl_refl.
      * rewrite copyFile_stdout. apply List.incl_refl.
      * cbn [snd stdout to_stdout incr_copied]. apply List.incl_appl, List.incl_refl.
  - destruct (negb (EntryIsDir d)); [|apply List.incl_refl].
    cbn [snd stdout incr_skipped to_stdout]. apply List.incl_appl, List.incl_refl.
Qed.

Lemma moves_on_refl srcRoot dstRoot st : moves_on srcRoot dstRoot st st.
Proof.
  split; [apply keeps_outside_refl|]. split; [auto|].
  split; [apply List.incl_refl|auto].
Qed.

Lemma moves_on_trans srcRoot dstRoot a b c :
  is_prefix srcRoot dstRoot = false -> is_prefix dstRoot srcRoot = false ->
  List.forallb valid_name dstRoot = true ->
  moves_on srcRoot dstRoot a b -> moves_on srcRoot dstRoot b c ->
  moves_on srcRoot dstRoot a c.
Proof.
  intros Hsd Hds Hvd (Hk1 & Hs1 & Hi1 & Hp1) (Hk2 & Hs2 & Hi2 & Hp2).
  split; [eapply keeps_outside_trans; eassumption|]. split; [auto|].
  split; [eapply List.incl_tran; eassumption|].
  intros q i j Hq Hi Hj. apply (Hp2 q i j Hq); [eapply Hp1; eassumption|].
  apply Hk1; [exact Hj|right].
  destruct (destination_below srcRoot dstRoot q Hq Hvd) as (r & _ & Hjoin & _).
  unfold destination. rewrite Hjoin.
  apply (made_outside srcRoot dstRoot r); auto using is_prefix_refl.
Qed.

(** A call of the function of the second pass, with roots that do not
    contain each other. *)
Lemma mirrorPass_moves_on move apply srcRoot dstRoot p d err st :
  is_prefix srcRoot dstRoot = false -> is_prefix dstRoot srcRoot = false ->
  List.forallb valid_name dstRoot = true ->
  below srcRoot p -> good (tree st) ->
  moves_on srcRoot dstRoot st
    (snd (mirrorPass dirSize symlink move apply srcRoot dstRoot p d err st)).
Proof.
  intros Hsd Hds Hvd Hp Hgood.
  destruct (mirrorPass_good move apply srcRoot dstRoot p d err st Hvd Hp Hgood)
    as [_ Hkeeps].
  split; [exact Hkeeps|].
  split; [|split; [apply mirrorPass_stdout|]];
    destruct (destination_below srcRoot dstRoot p Hp Hvd) as (r & -> & Hjoin & Hvalid);
    assert (is_prefix srcRoot (dstRoot ++ r) = false) as Hout
      by (apply (made_outside srcRoot dstRoot r); auto using is_prefix_refl);
    destruct (mirrorPass_change move apply srcRoot dstRoot r d err st Hvd Hp Hgood)
      as [(He & Hn & _)|(fs1 & info & (He & Hn & _) & Hfree & Hsrc & Hfile
                         & Hgone & Hthere & Hrest)].
  - intros q i Hq Hs. destruct (Hn _ _ Hs) as [H0|[Hpre _]]; [exact H0|].
    rewrite (made_outside srcRoot dstRoot r q) in Hq by assumption. discriminate.
  - intros q i Hq Hs.
    assert (q <> dstRoot ++ r) as Hqd by (intros ->; congruence).
    assert (q <> srcRoot ++ r) as Hqp by (intros ->; congruence).
    rewrite Hrest in Hs by assumption.
    destruct (Hn _ _ Hs) as [H0|[Hpre _]]; [exact H0|].
    rewrite (made_outside srcRoot dstRoot r q) in Hq by assumption. discriminate.
  - intros q i j _ Hi _. apply He, Hi.
  - intros q i j [Hq Hvq] Hi Hj.
    assert (q <> dstRoot ++ r) as Hqd by (intros ->; congruence).
    assert (q <> srcRoot ++ r) as Hqp.
    { intros ->. unfold destination in Hj. rewrite Hjoin in Hj.
      apply He in Hj. congruence. }
    rewrite Hrest by assumption. apply He, Hi.
Qed.

(** A call at a path keeps what is below a path apart from it. *)
Lemma mirrorPass_keeps_below c move apply srcRoot dstRoot p d err st :
  List.forallb valid_name dstRoot = true ->
  below srcRoot p -> apart c p -> good (tree st) ->
  keeps_below c st
    (snd (mirrorPass dirSize symlink move apply srcRoot dstRoot p d err st)).
Proof.
  intros Hvd Hp Hapart Hgood.
  destruct (destination_below srcRoot dstRoot p Hp Hvd) as (r & -> & Hjoin & Hvalid).
  destruct (mirrorPass_change move apply srcRoot dstRoot r d err st Hvd Hp Hgood)
    as [(He & _)|(fs1 & info & (He & _) & Hfree & Hsrc & Hfile
                  & Hgone & Hthere & Hrest)];
    intros q i Hq Hi; [apply He, Hi|].
  assert (q <> srcRoot ++ r) as Hqp.
  { intros ->. pose proof (Hapart _ Hq) as Hf.
    rewrite is_prefix_refl in Hf. discriminate. }
  assert (q <> dstRoot ++ r) as Hqd by (intros ->; apply He in Hi; congruence).
  rewrite Hrest by assumption. apply He, Hi.
Qed.

(** What a call of the function of the second pass that returns no error
    leaves, in a move that is applied. *)
Lemma mirrorPass_move_done srcRoot dstRoot p d st st1 ip :
  EntryIsDir d = true \/ symlink p = false ->
  good (tree st) -> Stat (tree st) p = Some ip ->
  mirrorPass dirSize symlink true true srcRoot dstRoot p d None st = (None, st1) ->
  exists j, Stat (tree st1) (destination srcRoot dstRoot p) = Some j
            /\ (EntryIsDir d = true -> extends (tree st) (tree st1))
            /\ (EntryIsDir d = false ->
                (In (MSkip (Rel srcRoot p)) (stdout st1) /\ tree st1 = tree st)
                \/ (Stat (tree st1) p = None /\ j = ip)).
Proof.
  intros Hkind Hgood Hip. unfold mirrorPass, destination.
  destruct (StatErr (tree st) _) as [e|info] eqn:Hstat.
  - destruct (negb (IsNotExist e)); [discriminate|].
    destruct (EntryIsDir d).
    + destruct (MkdirAll dirSize (tree st) _) as [err fs1] eqn:Hmk.
      intros [= -> <-]. apply MkdirAll_grows in Hmk as [(He & _) Hj].
      destruct (Hj eq_refl) as (j & Hj' & _). exists j.
      split; [exact Hj'|]. split; [intros _; exact He|discriminate].
    + destruct Hkind as [Hkind|Hkind]; [discriminate|]. rewrite Hkind.
      intros Hm. pose proof Hm as Hm'.
      apply moveFile_spec in Hm
        as (fs1 & (He & _) & Hfree1
            & [[Herr _]|(_ & Hne & info & parent & Hsrc & Hfile
                         & Hparent & Hdir & Hgone & Hthere & Hrest)]);
        [congruence| |apply (closed_StatErr_None _ _ e); [apply Hgood|exact Hstat]].
      exists info. split; [exact Hthere|]. split; [discriminate|].
      intros _. right. split; [exact Hgone|].
      cbn [tree incr_copied] in He. apply He in Hip. congruence.
  - apply StatErr_Some in Hstat.
    destruct (EntryIsDir d); cbn [negb]; intros [= <-]; exists info;
      (split; [exact Hstat|]); (split; [intros _; apply extends_refl|]);
      [discriminate|].
    intros _. left. split; [|reflexivity]. cbn [stdout incr_skipped to_stdout].
    apply List.in_or_app. right. left. reflexivity.
Qed.

Lemma sizePass_good srcRoot p d err st :
  good (tree st) ->
  good (tree (snd ((sizePass symlink) p d err st)))
  /\ keeps_outside srcRoot (tree st) (tree (snd ((sizePass symlink) p d err st))).
Proof.
  intros Hg. rewrite sizePass_tree. split; [exact Hg|apply keeps_outside_refl].
Qed.

(** The calls of the second pass keep each path listed once. *)
Lemma copyFile_NoDup src dst rel st :
  NoDup (List.map fst (tree st)) ->
  NoDup (List.map fst (tree (snd (copyFile dirSize src dst rel st)))).
Proof.
  intros Hnd. unfold copyFile.
  destruct (StatErr (tree st) src) as [e|info]; [exact Hnd|].
  destruct (MkdirAll dirSize (tree st) (Dir dst)) as [[e|] fs1] eqn:Hmk;
    pose proof (MkdirAll_NoDup dirSize _ _ _ _ Hmk Hnd) as Hnd1; [exact Hnd1|].
  unfold Create.
  destruct (StatErr fs1 (Dir dst)) as [e|parent]; [exact Hnd1|].
  destruct (negb (IsDir parent)); [exact Hnd1|].
  destruct (Stat fs1 dst) eqn:Hfree; [exact Hnd1|].
  apply Stat_None_fresh in Hfree.
  destruct (IsDir info); cbn [snd]; rewrite overall_tree;
    cbn [tree to_stderr set_tree add_progress]; rewrite ?insert_entry_twice;
    apply insert_entry_NoDup; assumption.
Qed.

Lemma moveFile_NoDup src dst rel st :
  Stat (tree st) dst = None ->
  NoDup (List.map fst (tree st)) ->
  NoDup (List.map fst (tree (snd (moveFile dirSize src dst rel st)))).
Proof.
  intros Hfree Hnd. unfold moveFile.
  destruct (MkdirAll dirSize (tree st) (Dir dst)) as [err1 fs1] eqn:Hmk.
  pose proof (MkdirAll_NoDup dirSize _ _ _ _ Hmk Hnd) as Hnd1.
  apply MkdirAll_grows in Hmk as [Hg _].
  assert (Stat fs1 dst = None) as Hfree1.
  { destruct (Stat fs1 dst) as [i|] eqn:Hs; [|reflexivity].
    destruct Hg as (_ & Hn & _). destruct (Hn _ _ Hs) as [H0|[Hpre Hne]];
      [congruence|].
    rewrite (not_prefix_of_Dir dst Hne) in Hpre. discriminate. }
  destruct err1 as [e|]; [exact Hnd1|]. cbn [tree set_tree].
  destruct (StatErr fs1 src) as [e|info]; [exact Hnd1|].
  cbn [tree set_tree add_progress to_stderr].
  unfold Rename. rewrite Hfree1.
  destruct (Stat fs1 src) as [i|]; [|exact Hnd1].
  destruct (Stat fs1 (Dir dst)) as [parent|]; [|exact Hnd1].
  destruct (IsDir i || negb (IsDir parent) || false); [exact Hnd1|].
  destruct (path_eqb src dst); cbn [snd]; rewrite overall_tree; cbn [tree set_tree];
    [exact Hnd1|].
  apply insert_entry_NoDup; [|apply (filter_paths_NoDup (fun p => negb (path_eqb p src))), Hnd1].
  cbn [fst]. intros Hin. apply (Stat_None_fresh _ _ Hfree1).
  apply List.in_map_iff in Hin as (x & Hx & Hin).
  apply List.filter_In in Hin as [Hin _]. apply List.in_map_iff. eauto.
Qed.

Lemma mirrorPass_NoDup move apply srcRoot dstRoot p d err st :
  good (tree st) -> NoDup (List.map fst (tree st)) ->
  NoDup (List.map fst
           (tree (snd (mirrorPass dirSize symlink move apply srcRoot dstRoot p d err st)))).
Proof.
  intros Hgood Hnd. unfold mirrorPass. destruct err as [e|]; [exact Hnd|].
  destruct (StatErr (tree st) _) as [e|info] eqn:Hstat;
    [|destruct (negb (EntryIsDir d)); exact Hnd].
  destruct (negb (IsNotExist e)); [exact Hnd|].
  destruct (EntryIsDir d).
  - destruct apply; [|exact Hnd].
    destruct (MkdirAll dirSize (tree st) _) as [err fs1] eqn:Hmk.
    apply (MkdirAll_NoDup dirSize _ _ _ _ Hmk Hnd).
  - destruct (symlink p); [exact Hnd|].
    destruct apply; [|exact Hnd].
    destruct move.
    + apply moveFile_NoDup; [|exact Hnd].
      apply (closed_StatErr_None _ _ e); [apply Hgood|exact Hstat].
    + apply copyFile_NoDup. exact Hnd.
Qed.

End EngineSteps.

Section EngineRuns.

Variable EqualFold : string -> string -> bool.
Variable dirSize : Z.
Variable symlink : path -> bool.

(** The run of a copy or move operation, whatever its flags: the tree
    after it is related to the tree before it as its two walks relate
    them. *)
Lemma runCopyMoveOperation_invariant (R : fsys -> fsys -> Prop) fuel fl fs :
  R fs fs ->
  (forall srcRoot dstRoot st,
     sourceFlag fl = Some srcRoot -> targetFlag fl = Some dstRoot ->
     (exists i, Stat fs srcRoot = Some i) -> (exists i, Stat fs dstRoot = Some i) ->
     tree st = fs ->
     R fs (tree (snd (WalkDir fuel
                        (mirrorPass dirSize symlink (moveFlag fl) (applyFlag fl)
                                    srcRoot dstRoot) srcRoot st)))) ->
  R fs (tree (snd (runCopyMoveOperation dirSize symlink fuel fl fs))).
Proof.
  intros Hrefl Hwalk. unfold runCopyMoveOperation.
  destruct (negb (copyFlag fl) && negb (moveFlag fl)); [exact Hrefl|].
  destruct (copyFlag fl && moveFlag fl); [exact Hrefl|].
  destruct (sourceFlag fl) as [srcRoot|]; [|exact Hrefl].
  destruct (targetFlag fl) as [dstRoot|]; [|exact Hrefl].
  destruct (StatErr fs srcRoot) as [e|i1] eqn:Hsrc; [exact Hrefl|].
  destruct (StatErr fs dstRoot) as [e|i2] eqn:Hdst; [exact Hrefl|].
  apply StatErr_Some in Hsrc, Hdst.
  destruct (WalkDir_invariant (sizePass symlink) (fun _ => True) (fun _ => True)
              (fun a b => tree b = tree a)
              ltac:(reflexivity) ltac:(intros a b c; congruence)
              ltac:(intros; split; [exact I|apply sizePass_tree])
              ltac:(auto) fuel srcRoot (to_stderr MCalculating (init fs)) I I)
    as [_ Hsize].
  destruct (WalkDir fuel (sizePass symlink) srcRoot _) as [s1 st1]. cbn [snd] in Hsize.
  assert (tree (to_stderr (MTotalSize (overallSize st1)) st1) = fs) as Htree
    by exact Hsize.
  specialize (Hwalk srcRoot dstRoot _ eq_refl eq_refl
                (ex_intro _ _ Hsrc) (ex_intro _ _ Hdst) Htree).
  destruct s1; [| |exact (eq_ind_r (fun t => R fs t) Hrefl Hsize)];
    destruct (WalkDir fuel (mirrorPass _ _ _ _ _ _) srcRoot _) as [[| |] st2];
    exact Hwalk.
Qed.

(** X13.  Without [--apply] no run of the program changes the tree: a tool
    operation or a copy or move operation, with whatever other flags, on
    whatever tree, and however far the walk gets. *)
Theorem without_apply_nothing_changes (fuel : nat) (fl : flags) (fs : fsys) :
  applyFlag fl = false ->
  tree_of (main EqualFold dirSize symlink fuel fl fs) = fs.
Proof.
  intros Hpreview. unfold main.
  destruct (duplicatesFlag fl || xmpFlag fl).
  - unfold runToolOperation. rewrite Hpreview.
    destruct (duplicatesFlag fl && xmpFlag fl); [reflexivity|].
    destruct (targetFlag fl) as [dir|]; [|reflexivity].
    destruct (StatErr fs dir); [reflexivity|].
    destruct (xmpFlag fl); cbn [tree_of].
    + destruct (handleXMPRenaming_invariant EqualFold dir false fs)
        as (_ & _ & Hx & _).
      apply Hx. reflexivity.
    + destruct (handleDuplicates_invariant dir false fs) as (_ & Hf & _).
      apply Hf. reflexivity.
  - destruct (copyFlag fl || moveFlag fl); [|reflexivity].
    pose proof (runCopyMoveOperation_invariant (fun a b => b = a) fuel fl fs
                  eq_refl) as Hrun.
    destruct (runCopyMoveOperation dirSize symlink fuel fl fs) as [code st].
    cbn [tree_of]. apply Hrun. clear Hrun.
    intros srcRoot dstRoot st0 _ _ _ _ Htree. rewrite Hpreview, <- Htree.
    apply (WalkDir_invariant _ (fun _ => True) (fun _ => True)
             (fun a b => tree b = tree a)); auto.
    + intros a b c. congruence.
    + intros. split; [exact I|apply mirrorPass_preview].
Qed.



(** X16.  The run of a copy or move operation ends, unless it applies
    changes with a target that lies below the source: in a well-formed
    tree, in preview mode or when the source root is no prefix of the
    target root, fuel beyond the length of the longest path of the tree
    is enough for both walks. *)
Theorem mirror_run_ends (fuel : nat) (fl : flags) (fs : fsys) :
  wf_fs fs = true ->
  applyFlag fl = false
  \/ (forall srcRoot dstRoot,
        sourceFlag fl = Some srcRoot -> targetFlag fl = Some dstRoot ->
        is_prefix srcRoot dstRoot = false) ->
  (depth_of fs < fuel)%nat ->
  fst (runCopyMoveOperation dirSize symlink fuel fl fs) <> Unfinished.
Proof.
  intros Hwf Hsafe Hfuel. unfold runCopyMoveOperation.
  destruct (negb (copyFlag fl) && negb (moveFlag fl)); [discriminate|].
  destruct (copyFlag fl && moveFlag fl); [discriminate|].
  destruct (sourceFlag fl) as [srcRoot|]; [|discriminate].
  destruct (targetFlag fl) as [dstRoot|]; [|discriminate].
  destruct (StatErr fs srcRoot) as [e|i1] eqn:Hsrc; [discriminate|].
  destruct (StatErr fs dstRoot) as [e|i2] eqn:Hdst; [discriminate|].
  apply StatErr_Some in Hsrc, Hdst.
  assert (good fs) as Hgood by (split; [apply wf_closed|apply wf_names_ok]; exact Hwf).
  assert (applyFlag fl = false \/ is_prefix srcRoot dstRoot = false) as Hsafe'
    by (destruct Hsafe as [|H]; [left|right; apply H]; auto).
  clear Hsafe.
  set (Inv := fun st : run =>
                good (tree st) /\ bounded srcRoot (depth_of fs) (tree st)).
  set (Q := fun p : path =>
              below srcRoot p /\ (List.length p <= depth_of fs)%nat).
  assert (forall p st d1, Q p -> Inv st -> In d1 (ReadDir (tree st) p) ->
            Q (Join p (Name d1))
            /\ List.length (Join p (Name d1)) = S (List.length p)) as Hchild.
  { intros p st d1 [Hp Hl] [[_ Hn] Hb] Hd1.
    destruct (below_child srcRoot p (tree st) d1 Hp Hn Hd1)
      as (Hbelow & i & Hin & _ & Hdir & Hne).
    destruct (In_Stat_some _ _ _ Hin) as [j Hj].
    split; [split; [exact Hbelow|]|].
    - eapply Hb; [exact Hj|apply Hbelow].
    - rewrite <- Hdir at 2. symmetry. apply Dir_length, Hne. }
  assert (Q srcRoot) as Hroot.
  { split; [split; [apply is_prefix_refl|eapply Hgood, Hsrc]|].
    eapply In_depth_of, Hsrc. }
  assert (Inv (to_stderr MCalculating (init fs))) as Hinit.
  { split; [exact Hgood|]. intros q i Hq _. eapply In_depth_of, Hq. }
  assert (forall p d err st, Q p -> Inv st ->
            Inv (snd ((sizePass symlink) p d err st)) /\ True) as Hstep1
    by (intros p d err st _ Hst; unfold Inv; rewrite sizePass_tree; auto).
  pose proof (WalkDir_terminates (sizePass symlink) Inv Q (fun _ _ => True)
                (fun _ => I) (fun _ _ _ _ _ => I) Hstep1
                ltac:(intros; eapply Hchild; eassumption)
                (depth_of fs)
                ltac:(intros p st d1 Hp Hst Hd1;
                      destruct (Hchild p st d1 Hp Hst Hd1) as [[_ ?] ?]; auto)
                fuel srcRoot _ Hroot Hinit ltac:(apply Hroot) Hfuel) as Hend1.
  destruct (WalkDir_invariant (sizePass symlink) Inv Q (fun _ _ => True)
              (fun _ => I) (fun _ _ _ _ _ => I) Hstep1
              ltac:(intros; eapply Hchild; eassumption)
              fuel srcRoot _ Hroot Hinit) as [Hinv1 _].
  destruct (WalkDir fuel (sizePass symlink) srcRoot _) as [s1 st1].
  cbn [fst snd] in Hend1, Hinv1.
  assert (forall p d err st, Q p -> Inv st ->
            Inv (snd (mirrorPass dirSize symlink (moveFlag fl) (applyFlag fl)
                                 srcRoot dstRoot p d err st)) /\ True) as Hstep2.
  { intros p d err st [Hp Hl] [Hg Hb]. split; [|exact I]. split.
    - apply mirrorPass_good; [eapply Hgood, Hdst|exact Hp|exact Hg].
    - intros q i Hq Hs.
      destruct (mirrorPass_origin _ _ _ _ _ _ _ _ _ _ _ _ Hg Hq)
        as [[j Hj]|(Happly & Hne & Hpre)]; [eapply Hb; eassumption|].
      destruct Hsafe' as [Hprev|Hout]; [congruence|].
      destruct (destination_below srcRoot dstRoot p Hp) as (r & -> & Hjoin & _);
        [eapply Hgood, Hdst|].
      rewrite Hjoin in Hpre.
      pose proof (made_below_source srcRoot dstRoot r q Hout Hpre Hs). lia. }
  assert (Inv (to_stderr (MTotalSize (overallSize st1)) st1)) as Hinv1' by exact Hinv1.
  pose proof (WalkDir_terminates _ Inv Q (fun _ _ => True)
                (fun _ => I) (fun _ _ _ _ _ => I) Hstep2
                ltac:(intros; eapply Hchild; eassumption)
                (depth_of fs)
                ltac:(intros p st d1 Hp Hst Hd1;
                      destruct (Hchild p st d1 Hp Hst Hd1) as [[_ ?] ?]; auto)
                fuel srcRoot _ Hroot Hinv1' ltac:(apply Hroot) Hfuel) as Hend2.
  destruct s1; [| |congruence];
    destruct (WalkDir fuel (mirrorPass _ _ _ _ _ _) srcRoot _) as [[| |] st2];
    cbn [fst] in *; congruence.
Qed.

(** X17.  No file is lost, however the run ends: in a well-formed tree
    and with roots that do not contain each other, every file the source
    tree held before a copy or move operation is afterwards at its place
    or at its destination (the same path relative to the target root),
    with the same size. *)
Theorem no_file_is_lost (fuel : nat) (fl : flags) (fs : fsys)
    (srcRoot dstRoot q : path) (i : FileInfo) :
  wf_fs fs = true ->
  sourceFlag fl = Some srcRoot -> targetFlag fl = Some dstRoot ->
  is_prefix srcRoot dstRoot = false -> is_prefix dstRoot srcRoot = false ->
  Stat fs q = Some i -> IsDir i = false -> is_prefix srcRoot q = true ->
  let fs' := tree (snd (runCopyMoveOperation dirSize symlink fuel fl fs)) in
  Stat fs' q = Some i \/ Stat fs' (destination srcRoot dstRoot q) = Some i.
Proof.
  intros Hwf Hsrc Hdst Hsd Hds Hq Hfile Hbelow fs'. subst fs'.
  assert (good fs) as Hgood by (split; [apply wf_closed|apply wf_names_ok]; exact Hwf).
  cut (files_kept srcRoot dstRoot fs
         (tree (snd (runCopyMoveOperation dirSize symlink fuel fl fs)))).
  { intros [_ Hkept]. apply Hkept; assumption. }
  apply (runCopyMoveOperation_invariant (files_kept srcRoot dstRoot));
    [split; auto|].
  intros srcRoot' dstRoot' st0 Hsrc' Hdst' [i1 Hi1] [i2 Hi2] Htree.
  assert (srcRoot' = srcRoot) as -> by congruence.
  assert (dstRoot' = dstRoot) as -> by congruence.
  assert (List.forallb valid_name dstRoot = true) as Hvd by (eapply Hgood, Hi2).
  apply (WalkDir_invariant _
           (fun st => good (tree st) /\ files_kept srcRoot dstRoot fs (tree st))
           (below srcRoot) (fun _ _ => True)); auto.
  - intros p d err st Hp [Hg Hk]. split; [split|exact I].
    + apply mirrorPass_good; assumption.
    + apply mirrorPass_files_kept; try assumption. apply Hgood.
  - intros p st d1 Hp [[_ Hn] _] Hd1.
    apply (below_child srcRoot p (tree st) d1 Hp Hn Hd1).
  - split; [apply is_prefix_refl|]. eapply Hgood, Hi1.
  - rewrite Htree. split; [exact Hgood|]. split; auto.
Qed.

(** A copy that is applied, seen from inside the walk. *)

Lemma copy_walk_carries_on srcRoot dstRoot fuel p d st :
  List.forallb valid_name dstRoot = true ->
  below srcRoot p -> good (tree st) ->
  good (tree (snd (walkDir fuel (mirrorPass dirSize symlink false true srcRoot dstRoot)
                           p d st)))
  /\ carries_on st (snd (walkDir fuel (mirrorPass dirSize symlink false true srcRoot dstRoot)
                                 p d st)).
Proof.
  intros Hvd. apply (walkDir_invariant _ (fun st => good (tree st)) (below srcRoot)).
  - apply carries_on_refl.
  - apply carries_on_trans.
  - intros p' d' err st' Hp' Hg. split; [|apply mirrorPass_copy_step].
    apply mirrorPass_good; assumption.
  - intros p' st' d1 Hp' [_ Hn] Hd1.
    apply (below_child srcRoot p' (tree st') d1 Hp' Hn Hd1).
Qed.

(** The walk of the entries of a directory that ends well has walked each
    of them, and each walk ended well. *)
Lemma copy_entries_walked srcRoot dstRoot fuel p l d1 st1 sa st' :
  List.forallb valid_name dstRoot = true ->
  (forall d, In d l -> below srcRoot (Join p (Name d))) ->
  In d1 l ->
  good (tree sa) -> carries_on st1 sa ->
  List.fold_left
    (fun acc d =>
       match acc with
       | (Ok, st2) =>
           walkDir fuel (mirrorPass dirSize symlink false true srcRoot dstRoot)
                   (Join p (Name d)) d st2
       | _ => acc
       end) l (Ok, sa) = (Ok, st') ->
  exists st2 st3,
    good (tree st2) /\ carries_on st1 st2
    /\ walkDir fuel (mirrorPass dirSize symlink false true srcRoot dstRoot)
               (Join p (Name d1)) d1 st2 = (Ok, st3)
    /\ carries_on st3 st'.
Proof.
  intros Hvd. revert sa. induction l as [|d l IHl]; intros sa Hbelow Hin Hg Hc;
    [destruct Hin|]. cbn [List.fold_left].
  destruct (copy_walk_carries_on srcRoot dstRoot fuel (Join p (Name d)) d sa Hvd)
    as [Hg' Hc']; [apply Hbelow; left; reflexivity|exact Hg|].
  destruct (walkDir fuel _ (Join p (Name d)) d sa) as [s sb] eqn:Hw.
  cbn [snd] in Hg', Hc'.
  assert (forall (acc : status * run), fst acc <> Ok ->
            fst (List.fold_left
                   (fun acc d =>
                      match acc with
                      | (Ok, st2) =>
                          walkDir fuel (mirrorPass dirSize symlink false true srcRoot dstRoot)
                                  (Join p (Name d)) d st2
                      | _ => acc
                      end) l acc) <> Ok) as Hstuck.
  { clear. induction l as [|d l IHl]; intros acc Hacc; [exact Hacc|].
    cbn [List.fold_left]. apply IHl. destruct acc as [[| |] st2]; auto. }
  intros Hfold.
  destruct s as [|e|];
    [|exfalso; apply (Hstuck (Failed e, sb)); [discriminate|rewrite Hfold; reflexivity]
     |exfalso; apply (Hstuck (OutOfFuel, sb)); [discriminate|rewrite Hfold; reflexivity]].
  destruct Hin as [->|Hin].
  - exists sa, sb. split; [exact Hg|]. split; [exact Hc|]. split; [exact Hw|].
    pose proof (walk_entries_invariant
                  (mirrorPass dirSize symlink false true srcRoot dstRoot)
                  (fun st => good (tree st)) (below srcRoot) carries_on
                  carries_on_trans fuel p l sb (Ok, sb)) as Hrest.
    rewrite Hfold in Hrest. apply Hrest; [| |exact Hg'|apply carries_on_refl].
    + intros p' d' st0 Hp' Hg0. apply copy_walk_carries_on; assumption.
    + intros d2 Hd2. apply Hbelow. right. exact Hd2.
  - apply (IHl sb); auto.
    + intros d2 Hd2. apply Hbelow. right. exact Hd2.
    + eapply carries_on_trans; eassumption.
Qed.

Lemma copy_walk_covers srcRoot dstRoot fuel p d st st' ip :
  List.forallb valid_name dstRoot = true ->
  below srcRoot p -> good (tree st) ->
  Stat (tree st) p = Some ip -> EntryIsDir d = IsDir ip ->
  walkDir fuel (mirrorPass dirSize symlink false true srcRoot dstRoot) p d st = (Ok, st') ->
  forall q i, is_prefix p q = true -> Stat (tree st) q = Some i ->
  IsDir i = true \/ symlink q = false ->
  exists j, Stat (tree st') (destination srcRoot dstRoot q) = Some j
            /\ mirrored (stdout st') (Rel srcRoot q) i j.
Proof.
  intros Hvd. revert p d st st' ip.
  induction fuel as [|fuel IH]; intros p d st st' ip Hp Hg Hip Hd; [discriminate|].
  cbn [walkDir].
  destruct (mirrorPass_good dirSize symlink false true srcRoot dstRoot p d None st Hvd Hp Hg)
    as [Hg1 _].
  pose proof (mirrorPass_copy_step dirSize symlink srcRoot dstRoot p d None st) as Hc1.
  destruct (mirrorPass dirSize symlink false true srcRoot dstRoot p d None st)
    as [[e|] st1] eqn:Hfn; [discriminate|]. cbn [snd] in Hg1, Hc1.
  rewrite Hd.
  destruct (IsDir ip) eqn:Hkind; cbn [negb].
  - apply mirrorPass_copy_done in Hfn as (jp & Hjp & Hfile); [|left; exact Hd].
    pose proof (proj1 Hc1 _ _ Hip) as Hip1.
    rewrite (closed_StatErr _ _ _ (proj1 Hg1) Hip1), Hkind.
    intros Hfold q i Hq Hi Hlink.
    destruct (proj1 (is_prefix_app p q) Hq) as [b ->].
    destruct b as [|x b].
    + rewrite List.app_nil_r in *.
      pose proof (walk_entries_invariant
                    (mirrorPass dirSize symlink false true srcRoot dstRoot)
                    (fun st => good (tree st)) (below srcRoot) carries_on
                    carries_on_trans fuel p (ReadDir (tree st1) p) st1 (Ok, st1))
        as Hrest.
      rewrite Hfold in Hrest. destruct Hrest as [_ [He _]].
      * intros p' d' st0 Hp' Hg0. apply copy_walk_carries_on; assumption.
      * intros d1 Hd1. apply (below_child srcRoot p (tree st1) d1 Hp (proj2 Hg1) Hd1).
      * exact Hg1.
      * apply carries_on_refl.
      * exists jp. split; [apply He, Hjp|]. intros Hf. congruence.
    + pose proof (proj1 Hc1 _ _ Hi) as Hi1.
      replace (p ++ x :: b) with ((p ++ [x]) ++ b) in *
        by (rewrite <- List.app_assoc; reflexivity).
      destruct (closed_ancestor _ (p ++ [x]) b i (proj1 Hg1) Hi1) as (ic & Hic & _).
      pose proof (proj2 Hg1 _ _ Hic) as Hvc.
      assert (valid_name x = true) as Hx.
      { rewrite List.forallb_app in Hvc. apply andb_prop in Hvc as [_ Hvc].
        simpl in Hvc. rewrite andb_true_r in Hvc. exact Hvc. }
      set (d1 := mkEntry x (IsDir ic)).
      assert (In d1 (ReadDir (tree st1) p)) as Hd1.
      { unfold ReadDir. apply List.in_map_iff. exists (p ++ [x], ic).
        cbn [fst snd]. unfold Base. rewrite List.last_last. split; [reflexivity|].
        apply List.filter_In. split; [apply Stat_In, Hic|].
        cbn [fst]. unfold is_child. destruct (p ++ [x]) eqn:Hpx;
          [destruct p; discriminate|].
        rewrite <- Hpx, List.removelast_last. apply path_eqb_refl. }
      destruct (copy_entries_walked srcRoot dstRoot fuel p (ReadDir (tree st1) p)
                  d1 st1 st1 st' Hvd) as (st2 & st3 & Hg2 & Hc2 & Hw & Hc3); auto.
      * intros d' Hd'. apply (below_child srcRoot p (tree st1) d' Hp (proj2 Hg1) Hd').
      * apply carries_on_refl.
      * cbn [Name d1] in Hw. rewrite (Join_valid _ _ Hx) in Hw.
        destruct (IH (p ++ [x]) d1 st2 st3 ic) with (q := (p ++ [x]) ++ b) (i := i)
          as (j & Hj & Hm); auto.
        -- split; [|exact Hvc].
           eapply is_prefix_trans; [apply Hp|]. apply is_prefix_app. eauto.
        -- apply Hc2, Hic.
        -- apply is_prefix_app. eauto.
        -- apply Hc2, Hi1.
        -- exists j. split; [apply Hc3, Hj|].
           intros Hf. destruct (Hm Hf) as [Hs|Hs]; [left; apply Hc3, Hs|right; exact Hs].
  - intros [= <-] q i Hq Hi Hlink.
    destruct (proj1 (is_prefix_app p q) Hq) as [b ->].
    destruct b as [|x b].
    + rewrite List.app_nil_r in *.
      assert (i = ip) as -> by congruence.
      apply mirrorPass_copy_done in Hfn as (jp & Hjp & Hfile);
        [|destruct Hlink as [Hlink|Hlink]; [congruence|right; exact Hlink]].
      exists jp. split; [exact Hjp|].
      intros Hf.
      destruct (Hfile Hd) as [Hs|(info & Hinfo & _ & ->)]; [left; exact Hs|right].
      congruence.
    + exfalso.
      destruct (closed_ancestor _ p (x :: b) i (proj1 Hg) Hi) as (k & Hk & Hkd).
      rewrite Hip in Hk. injection Hk as <-.
      rewrite Hkd in Hkind by discriminate. discriminate.
Qed.

(** X18.  A copy that is applied and returns has mirrored the source: in a
    well-formed tree, every entry below the source root that is a
    directory or is no symbolic link has then an entry at its destination,
    the same path relative to the target root; and for a file of the
    source, that entry is a file of the same size unless the file was
    reported as skipped. *)
Theorem copy_mirrors_the_source (fuel : nat) (fl : flags) (fs : fsys)
    (srcRoot dstRoot q : path) (i : FileInfo) :
  wf_fs fs = true ->
  copyFlag fl = true -> moveFlag fl = false -> applyFlag fl = true ->
  sourceFlag fl = Some srcRoot -> targetFlag fl = Some dstRoot ->
  fst (runCopyMoveOperation dirSize symlink fuel fl fs) = Returned ->
  Stat fs q = Some i -> is_prefix srcRoot q = true ->
  IsDir i = true \/ symlink q = false ->
  let st' := snd (runCopyMoveOperation dirSize symlink fuel fl fs) in
  exists j, Stat (tree st') (destination srcRoot dstRoot q) = Some j
            /\ (IsDir i = false ->
                In (MSkip (Rel srcRoot q)) (stdout st')
                \/ j = mkInfo false (Size i)).
Proof.
  intros Hwf Hcopy Hmove Happly Hsrc Hdst. unfold runCopyMoveOperation.
  rewrite Hcopy, Hmove, Happly, Hsrc, Hdst. cbn [negb andb].
  assert (good fs) as Hgood by (split; [apply wf_closed|apply wf_names_ok]; exact Hwf).
  destruct (StatErr fs srcRoot) as [e|i1] eqn:Hs1; [discriminate|].
  destruct (StatErr fs dstRoot) as [e|i2] eqn:Hs2; [discriminate|].
  pose proof (StatErr_Some _ _ _ Hs1) as Hi1.
  pose proof (StatErr_Some _ _ _ Hs2) as Hi2.
  destruct (WalkDir_invariant (sizePass symlink) (fun _ => True) (fun _ => True)
              (fun a b => tree b = tree a /\ stdout b = stdout a)
              ltac:(split; reflexivity)
              ltac:(intros a b c [? ?] [? ?]; split; congruence)
              ltac:(intros p d err st _ _; split; [exact I|];
                    unfold sizePass; repeat case_match; split; reflexivity)
              ltac:(auto) fuel srcRoot (to_stderr MCalculating (init fs)) I I)
    as [_ [Htree Hout]].
  destruct (WalkDir fuel (sizePass symlink) srcRoot _) as [s1 st1].
  cbn [snd tree stdout to_stderr init] in Htree, Hout.
  set (st0 := to_stderr (MTotalSize (overallSize st1)) st1).
  assert (tree st0 = fs) as Htree0 by exact Htree.
  assert (forall s st', WalkDir fuel (mirrorPass dirSize symlink false true srcRoot dstRoot)
                                srcRoot st0 = (s, st') ->
            s = Ok -> Stat fs q = Some i -> is_prefix srcRoot q = true ->
            IsDir i = true \/ symlink q = false ->
            exists j, Stat (tree st') (destination srcRoot dstRoot q) = Some j
                      /\ mirrored (stdout st') (Rel srcRoot q) i j) as Hwalk.
  { intros s st' Hw -> Hq Hbelow Hlink. unfold WalkDir in Hw.
    rewrite Htree0, Hs1 in Hw.
    eapply (copy_walk_covers srcRoot dstRoot fuel srcRoot _ st0 st' i1);
      try eassumption; try (rewrite Htree0; assumption).
    - eapply Hgood, Hi2.
    - split; [apply is_prefix_refl|eapply Hgood, Hi1].
    - reflexivity. }
  destruct (WalkDir fuel (mirrorPass dirSize symlink false true srcRoot dstRoot) srcRoot st0)
    as [s2 st2] eqn:Hw2.
  specialize (Hwalk s2 st2 eq_refl).
  destruct s1; [| |discriminate]; destruct s2; try discriminate;
    intros _ Hq Hbelow Hlink; cbn [snd tree stdout to_stdout];
    destruct (Hwalk eq_refl Hq Hbelow Hlink) as (j & Hj & Hm);
    exists j; (split; [exact Hj|]); intros Hf;
    (destruct (Hm Hf) as [Hs|Hs]; [left; apply List.in_or_app; left; exact Hs
                                  |right; exact Hs]).
Qed.

(** X19.  The summary of a copy or move operation agrees with the run:
    when the operation returns, the summary is the last line of the
    standard output, the lines before it are the [SKIP] lines and, in a
    preview, the lines of the files listed; the number of skipped files it
    gives is the number of [SKIP] lines, and the number of files copied or
    moved is the number of files listed (in a preview) or of files a copy
    or move was started on and completed without error (when applied). *)
Theorem mirror_summary_counts (fuel : nat) (fl : flags) (fs : fsys) :
  fst (runCopyMoveOperation dirSize symlink fuel fl fs) = Returned ->
  let st := snd (runCopyMoveOperation dirSize symlink fuel fl fs) in
  exists body,
    stdout st
    = body ++ [if applyFlag fl
               then MComplete (copied st) (moveFlag fl) (skipped st)
               else MPreview (copied st) (moveFlag fl)]
    /\ List.forallb (fun l => is_skip l
                              || (negb (applyFlag fl) && is_plan (moveFlag fl) l))
                    body = true
    /\ skipped st = count is_skip body
    /\ copied st = (if applyFlag fl
                    then count (is_start (moveFlag fl)) (stderr st)
                    else count (is_plan (moveFlag fl)) body).
Proof.
  unfold runCopyMoveOperation.
  destruct (negb (copyFlag fl) && negb (moveFlag fl)); [discriminate|].
  destruct (copyFlag fl && moveFlag fl); [discriminate|].
  destruct (sourceFlag fl) as [srcRoot|]; [|discriminate].
  destruct (targetFlag fl) as [dstRoot|]; [|discriminate].
  destruct (StatErr fs srcRoot) as [e|i1]; [discriminate|].
  destruct (StatErr fs dstRoot) as [e|i2]; [discriminate|].
  assert (counted (moveFlag fl) (applyFlag fl) (to_stderr MCalculating (init fs)))
    as Hinit.
  { apply counted_stderr; auto. unfold counted. cbn. destruct (applyFlag fl); auto. }
  destruct (WalkDir_invariant (sizePass symlink) (counted (moveFlag fl) (applyFlag fl))
              (fun _ => True) (fun _ _ => True) (fun _ => I) (fun _ _ _ _ _ => I)
              ltac:(intros p d err st _ Hst; split; [|exact I];
                    unfold sizePass; repeat case_match; exact Hst)
              ltac:(auto) fuel srcRoot _ I Hinit) as [Hsize _].
  destruct (WalkDir fuel (sizePass symlink) srcRoot _) as [s1 st1]. cbn [snd] in Hsize.
  apply (counted_stderr _ _ _ (MTotalSize (overallSize st1)) eq_refl eq_refl)
    in Hsize.
  pose proof (fun st0 =>
                WalkDir_ok (mirrorPass dirSize symlink (moveFlag fl) (applyFlag fl)
                                       srcRoot dstRoot)
                  (counted (moveFlag fl) (applyFlag fl))
                  ltac:(intros p d err st st' Hst Hfn;
                        eapply mirrorPass_counted; eassumption)
                  fuel srcRoot st0) as Hwalk.
  destruct s1; [| |discriminate];
    destruct (WalkDir fuel (mirrorPass _ _ _ _ _ _) srcRoot _) as [[| |] st2] eqn:Hw2;
    try discriminate; intros _;
    destruct (Hwalk _ st2 Hsize Hw2) as (Hout & Hs & Hc & _);
    cbn [snd stdout stderr copied skipped to_stdout];
    exists (stdout st2); auto.
Qed.

(** A move that is applied, with roots that do not contain each other,
    seen from inside the walk. *)

Section MoveWalk.

Variables srcRoot dstRoot : path.
Hypothesis Hsd : is_prefix srcRoot dstRoot = false.
Hypothesis Hds : is_prefix dstRoot srcRoot = false.
Hypothesis Hvd : List.forallb valid_name dstRoot = true.

Lemma walk_moves_on move apply fuel p d st :
  below srcRoot p -> good (tree st) ->
  good (tree (snd (walkDir fuel (mirrorPass dirSize symlink move apply srcRoot dstRoot)
                           p d st)))
  /\ moves_on srcRoot dstRoot st
       (snd (walkDir fuel (mirrorPass dirSize symlink move apply srcRoot dstRoot) p d st)).
Proof.
  apply (walkDir_invariant _ (fun st => good (tree st)) (below srcRoot)).
  - apply moves_on_refl.
  - intros a b c. apply moves_on_trans; assumption.
  - intros p' d' err st' Hp' Hg. split; [|apply mirrorPass_moves_on; assumption].
    apply mirrorPass_good; assumption.
  - intros p' st' d1 Hp' [_ Hn] Hd1.
    apply (below_child srcRoot p' (tree st') d1 Hp' Hn Hd1).
Qed.

Lemma move_entries_moves_on fuel p l sa :
  (forall d, In d l -> below srcRoot (Join p (Name d))) ->
  good (tree sa) ->
  good (tree (snd (walkEntries fuel (mirrorPass dirSize symlink true true srcRoot dstRoot)
                               p l (Ok, sa))))
  /\ moves_on srcRoot dstRoot sa
       (snd (walkEntries fuel (mirrorPass dirSize symlink true true srcRoot dstRoot)
                         p l (Ok, sa))).
Proof.
  intros Hbelow Hg.
  apply (walk_entries_invariant _ (fun st => good (tree st)) (below srcRoot)
           (moves_on srcRoot dstRoot)); auto.
  - intros a b c. apply moves_on_trans; assumption.
  - intros p' d' st' Hp' Hg'. apply walk_moves_on; assumption.
  - apply moves_on_refl.
Qed.

Lemma move_walk_keeps_below c fuel p d st :
  below srcRoot p -> apart c p -> good (tree st) ->
  keeps_below c st
    (snd (walkDir fuel (mirrorPass dirSize symlink true true srcRoot dstRoot) p d st)).
Proof.
  intros Hp Ha Hg.
  apply (walkDir_invariant _ (fun st => good (tree st))
           (fun p => below srcRoot p /\ apart c p) (keeps_below c)); auto.
  - intros a q i _ H. exact H.
  - intros a b c' Hab Hbc q i Hq Hi. apply Hbc, Hab; assumption.
  - intros p' d' err st' [Hp' Ha'] Hg'.
    split; [apply mirrorPass_good|apply mirrorPass_keeps_below]; assumption.
  - intros p' st' d1 [Hp' Ha'] [_ Hn] Hd1.
    destruct (below_child srcRoot p' (tree st') d1 Hp' Hn Hd1)
      as (Hb & i & _ & _ & Hdir & Hne).
    split; [exact Hb|].
    rewrite <- (Dir_Base _ Hne), Hdir. apply apart_child, Ha'.
Qed.

Lemma move_entries_keep_below c fuel p l sa :
  (forall d, In d l -> below srcRoot (Join p (Name d)) /\ apart c (Join p (Name d))) ->
  good (tree sa) ->
  keeps_below c sa
    (snd (walkEntries fuel (mirrorPass dirSize symlink true true srcRoot dstRoot)
                      p l (Ok, sa))).
Proof.
  intros Hl Hg.
  apply (walk_entries_invariant _ (fun st => good (tree st))
           (fun p => below srcRoot p /\ apart c p) (keeps_below c)); auto.
  - intros a b c' Hab Hbc q i Hq Hi. apply Hbc, Hab; assumption.
  - intros p' d' st' [Hp' Ha'] Hg'.
    split; [apply walk_moves_on|apply move_walk_keeps_below]; assumption.
  - intros a q i H. exact H.
Qed.

Lemma move_walk_covers fuel p d st st' ip :
  below srcRoot p -> good (tree st) ->
  Stat (tree st) p = Some ip -> EntryIsDir d = IsDir ip ->
  walkDir fuel (mirrorPass dirSize symlink true true srcRoot dstRoot) p d st = (Ok, st') ->
  forall q i, is_prefix p q = true -> Stat (tree st) q = Some i ->
  IsDir i = true \/ symlink q = false ->
  exists j, Stat (tree st') (destination srcRoot dstRoot q) = Some j
            /\ moved (stdout st') (tree st') (Rel srcRoot q) q i j.
Proof.
  revert p d st st' ip.
  induction fuel as [|fuel IH]; intros p d st st' ip Hp Hg Hip Hd; [discriminate|].
  intros Hwalk q i Hq Hi Hlink.
  destruct (mirrorPass_good dirSize symlink true true srcRoot dstRoot p d None st Hvd Hp Hg)
    as [Hg1 Hk1].
  destruct (mirrorPass dirSize symlink true true srcRoot dstRoot p d None st)
    as [[e|] st1] eqn:Hfn; [cbn [walkDir] in Hwalk; rewrite Hfn in Hwalk; discriminate|].
  cbn [snd] in Hg1, Hk1.
  destruct (proj1 (is_prefix_app p q) Hq) as [b ->].
  destruct (IsDir ip) eqn:Hkind.
  - destruct (mirrorPass_move_done dirSize symlink srcRoot dstRoot p d st st1 ip
                (or_introl Hd) Hg Hip Hfn) as (jp & Hjp & Hdirs & Hfile).
    pose proof (Hk1 _ _ Hip (or_introl Hkind)) as Hip1.
    rewrite (walkDir_entries _ fuel p d st st1 ip Hfn Hd
               (closed_StatErr _ _ _ (proj1 Hg1) Hip1) Hkind) in Hwalk.
    assert (forall d', In d' (ReadDir (tree st1) p) ->
              below srcRoot (Join p (Name d'))) as Hchildren
      by (intros d' Hd'; apply (below_child srcRoot p (tree st1) d' Hp (proj2 Hg1) Hd')).
    destruct b as [|x b].
    + rewrite List.app_nil_r in *.
      destruct (move_entries_moves_on fuel p _ st1 Hchildren Hg1) as [_ (Hk & _)].
      rewrite Hwalk in Hk. cbn [snd] in Hk.
      exists jp. split; [|intros Hf; congruence].
      apply Hk; [exact Hjp|right].
      destruct (destination_below srcRoot dstRoot p Hp Hvd) as (r & _ & Hjoin & _).
      unfold destination. rewrite Hjoin.
      apply (made_outside srcRoot dstRoot r); auto using is_prefix_refl.
    + pose proof (Hdirs Hd _ _ Hi) as Hi1.
      replace (p ++ x :: b) with ((p ++ [x]) ++ b) in *
        by (rewrite <- List.app_assoc; reflexivity).
      destruct (closed_ancestor _ (p ++ [x]) b i (proj1 Hg1) Hi1) as (ic & Hic & _).
      pose proof (proj2 Hg1 _ _ Hic) as Hvc.
      assert (valid_name x = true) as Hx.
      { rewrite List.forallb_app in Hvc. apply andb_prop in Hvc as [_ Hvc].
        simpl in Hvc. rewrite andb_true_r in Hvc. exact Hvc. }
      destruct (ReadDir_first _ _ _ _ Hic) as (l1 & l2 & Hl & Hl1).
      rewrite Hl in Hwalk, Hchildren.
      apply walkEntries_split in Hwalk as (st2 & st3 & Hw1 & Hw & Hw2).
      cbn [Name] in Hw. rewrite (Join_valid _ _ Hx) in Hw.
      assert (below srcRoot (p ++ [x])) as Hc.
      { split; [|exact Hvc].
        eapply is_prefix_trans; [apply Hp|]. apply is_prefix_app. eauto. }
      destruct (move_entries_moves_on fuel p l1 st1) as [Hg2 _]; [|exact Hg1|].
      { intros d' Hd'. apply Hchildren, List.in_or_app. left. exact Hd'. }
      pose proof (move_entries_keep_below (p ++ [x]) fuel p l1 st1) as Hkeep.
      rewrite Hw1 in Hg2, Hkeep. cbn [snd] in Hg2, Hkeep.
      assert (keeps_below (p ++ [x]) st1 st2) as Hkeep2.
      { apply Hkeep; [|exact Hg1]. intros d' Hd'.
        assert (In d' (l1 ++ mkEntry x (IsDir ic) :: l2)) as Hin
          by (apply List.in_or_app; left; exact Hd').
        split; [apply Hchildren, Hin|].
        rewrite <- Hl in Hin.
        destruct (below_child srcRoot p (tree st1) d' Hp (proj2 Hg1) Hin)
          as (_ & i' & _ & _ & Hdir & Hne).
        rewrite <- (Dir_Base _ Hne), Hdir.
        apply apart_siblings. intros Heq. apply (Hl1 d' Hd').
        assert (Join p (Name d') = p ++ [x]) as Hj
          by (rewrite <- (Dir_Base _ Hne), Hdir, <- Heq; reflexivity).
        unfold Join in Hj. repeat case_match.
        - apply (f_equal (@List.length _)) in Hj. rewrite List.length_app in Hj.
          simpl in Hj. lia.
        - apply (f_equal (@List.length _)) in Hj. rewrite List.length_app in Hj.
          simpl in Hj. lia.
        - apply (f_equal (@List.length _)) in Hj. rewrite List.length_app in Hj.
          pose proof (removelast_length_le p). simpl in Hj. lia.
        - apply List.app_inv_head in Hj. congruence. }
      destruct (IH (p ++ [x]) (mkEntry x (IsDir ic)) st2 st3 ic Hc Hg2)
        with (q := (p ++ [x]) ++ b) (i := i) as (j & Hj & Hm); auto.
      * apply Hkeep2; [apply is_prefix_refl|exact Hic].
      * apply is_prefix_app. eauto.
      * apply Hkeep2; [apply is_prefix_app; eauto|exact Hi1].
      * destruct (walk_moves_on true true fuel (p ++ [x]) (mkEntry x (IsDir ic)) st2 Hc Hg2)
          as [Hg3 _]. rewrite Hw in Hg3. cbn [snd] in Hg3.
        destruct (move_entries_moves_on fuel p l2 st3) as [_ (Hk & Hs & Hin & Hpr)];
          [|exact Hg3|].
        { intros d' Hd'. apply Hchildren, List.in_or_app. right. right. exact Hd'. }
        rewrite Hw2 in Hk, Hs, Hin, Hpr. cbn [snd] in Hk, Hs, Hin, Hpr.
        assert (below srcRoot ((p ++ [x]) ++ b)) as Hqb.
        { split; [|eapply Hg, Hi].
          eapply is_prefix_trans; [apply Hp|exact Hq]. }
        assert (Stat (tree st') (destination srcRoot dstRoot ((p ++ [x]) ++ b))
                = Some j) as Hj'.
        { apply Hk; [exact Hj|right].
          destruct (destination_below srcRoot dstRoot _ Hqb Hvd) as (r & _ & Hjoin & _).
          unfold destination. rewrite Hjoin.
          apply (made_outside srcRoot dstRoot r); auto using is_prefix_refl. }
        exists j. split; [exact Hj'|].
        intros Hf. destruct (Hm Hf) as [[Hgone ->]|[Hskip Hstay]].
        -- left. split; [|reflexivity].
           destruct (Stat (tree st') ((p ++ [x]) ++ b)) as [k|] eqn:Hk'; [|reflexivity].
           apply Hs in Hk'; [congruence|apply Hqb].
        -- right. split; [apply Hin, Hskip|].
           eapply Hpr; eassumption.
  - cbn [walkDir] in Hwalk. rewrite Hfn, Hd in Hwalk. cbn [negb] in Hwalk.
    injection Hwalk as <-.
    destruct b as [|x b].
    + rewrite List.app_nil_r in *.
      assert (i = ip) as -> by congruence.
      destruct (mirrorPass_move_done dirSize symlink srcRoot dstRoot p d st st1 ip)
        as (jp & Hjp & Hdirs & Hfile); auto;
        [destruct Hlink as [Hlink|Hlink]; [congruence|right; exact Hlink]|].
      exists jp. split; [exact Hjp|].
      intros Hf.
      destruct (Hfile Hd) as [[Hs Ht]|[Hgone ->]].
      * right. split; [exact Hs|]. rewrite Ht. exact Hip.
      * left. auto.
    + exfalso.
      destruct (closed_ancestor _ p (x :: b) i (proj1 Hg) Hi) as (k & Hk & Hkd).
      rewrite Hip in Hk. injection Hk as <-.
      rewrite Hkd in Hkind by discriminate. discriminate.
Qed.

End MoveWalk.

(** X20.  A move that is applied and returns has moved or skipped every
    file of the source that is no symbolic link: in a well-formed tree
    with roots that do not contain each other, every entry below the
    source root that is a directory or is no symbolic link has then an
    entry at its destination; such a file has either gone from its place
    to its destination, with the same size, or it was reported as skipped
    and is where it was. *)
Theorem move_mirrors_the_source (fuel : nat) (fl : flags) (fs : fsys)
    (srcRoot dstRoot q : path) (i : FileInfo) :
  wf_fs fs = true ->
  copyFlag fl = false -> moveFlag fl = true -> applyFlag fl = true ->
  sourceFlag fl = Some srcRoot -> targetFlag fl = Some dstRoot ->
  is_prefix srcRoot dstRoot = false -> is_prefix dstRoot srcRoot = false ->
  fst (runCopyMoveOperation dirSize symlink fuel fl fs) = Returned ->
  Stat fs q = Some i -> is_prefix srcRoot q = true ->
  IsDir i = true \/ symlink q = false ->
  let st' := snd (runCopyMoveOperation dirSize symlink fuel fl fs) in
  exists j, Stat (tree st') (destination srcRoot dstRoot q) = Some j
            /\ (IsDir i = false ->
                (Stat (tree st') q = None /\ j = i)
                \/ (In (MSkip (Rel srcRoot q)) (stdout st')
                    /\ Stat (tree st') q = Some i)).
Proof.
  intros Hwf Hcopy Hmove Happly Hsrc Hdst Hsd Hds. unfold runCopyMoveOperation.
  rewrite Hcopy, Hmove, Happly, Hsrc, Hdst. cbn [negb andb].
  assert (good fs) as Hgood by (split; [apply wf_closed|apply wf_names_ok]; exact Hwf).
  destruct (StatErr fs srcRoot) as [e|i1] eqn:Hs1; [discriminate|].
  destruct (StatErr fs dstRoot) as [e|i2] eqn:Hs2; [discriminate|].
  pose proof (StatErr_Some _ _ _ Hs1) as Hi1.
  pose proof (StatErr_Some _ _ _ Hs2) as Hi2.
  destruct (WalkDir_invariant (sizePass symlink) (fun _ => True) (fun _ => True)
              (fun a b => tree b = tree a /\ stdout b = stdout a)
              ltac:(split; reflexivity)
              ltac:(intros a b c [? ?] [? ?]; split; congruence)
              ltac:(intros p d err st _ _; split; [exact I|];
                    unfold sizePass; repeat case_match; split; reflexivity)
              ltac:(auto) fuel srcRoot (to_stderr MCalculating (init fs)) I I)
    as [_ [Htree Hout]].
  destruct (WalkDir fuel (sizePass symlink) srcRoot _) as [s1 st1].
  cbn [snd tree stdout to_stderr init] in Htree, Hout.
  set (st0 := to_stderr (MTotalSize (overallSize st1)) st1).
  assert (tree st0 = fs) as Htree0 by exact Htree.
  assert (forall s st', WalkDir fuel (mirrorPass dirSize symlink true true srcRoot dstRoot)
                                srcRoot st0 = (s, st') ->
            s = Ok -> Stat fs q = Some i -> is_prefix srcRoot q = true ->
            IsDir i = true \/ symlink q = false ->
            exists j, Stat (tree st') (destination srcRoot dstRoot q) = Some j
                      /\ moved (stdout st') (tree st') (Rel srcRoot q) q i j)
    as Hwalk.
  { intros s st' Hw -> Hq Hbelow Hlink. unfold WalkDir in Hw.
    rewrite Htree0, Hs1 in Hw.
    eapply (move_walk_covers srcRoot dstRoot Hsd Hds ltac:(eapply Hgood, Hi2)
              fuel srcRoot _ st0 st' i1);
      try eassumption; try (rewrite Htree0; assumption).
    - split; [apply is_prefix_refl|eapply Hgood, Hi1].
    - reflexivity. }
  destruct (WalkDir fuel (mirrorPass dirSize symlink true true srcRoot dstRoot) srcRoot st0)
    as [s2 st2] eqn:Hw2.
  specialize (Hwalk s2 st2 eq_refl).
  destruct s1; [| |discriminate]; destruct s2; try discriminate;
    intros _ Hq Hbelow Hlink; cbn [snd tree stdout to_stdout];
    destruct (Hwalk eq_refl Hq Hbelow Hlink) as (j & Hj & Hm);
    exists j; (split; [exact Hj|]); intros Hf;
    (destruct (Hm Hf) as [Hs|[Hs Hs']];
     [left; exact Hs|right; split; [apply List.in_or_app; left; exact Hs|exact Hs']]).
Qed.

(** A run that returns, taken apart. *)
Lemma runCopyMoveOperation_returned fuel fl fs :
  fst (runCopyMoveOperation dirSize symlink fuel fl fs) = Returned ->
  exists srcRoot dstRoot i1 i2 st0 st',
    sourceFlag fl = Some srcRoot /\ targetFlag fl = Some dstRoot
    /\ Stat fs srcRoot = Some i1 /\ Stat fs dstRoot = Some i2
    /\ tree st0 = fs /\ stdout st0 = []
    /\ walkDir fuel (mirrorPass dirSize symlink (moveFlag fl) (applyFlag fl)
                               srcRoot dstRoot)
               srcRoot (mkEntry (Base srcRoot) (IsDir i1)) st0 = (Ok, st')
    /\ tree (snd (runCopyMoveOperation dirSize symlink fuel fl fs)) = tree st'
    /\ List.incl (stdout st')
                 (stdout (snd (runCopyMoveOperation dirSize symlink fuel fl fs))).
Proof.
  unfold runCopyMoveOperation.
  destruct (negb (copyFlag fl) && negb (moveFlag fl)); [discriminate|].
  destruct (copyFlag fl && moveFlag fl); [discriminate|].
  destruct (sourceFlag fl) as [srcRoot|]; [|discriminate].
  destruct (targetFlag fl) as [dstRoot|]; [|discriminate].
  destruct (StatErr fs srcRoot) as [e|i1] eqn:Hs1; [discriminate|].
  destruct (StatErr fs dstRoot) as [e|i2] eqn:Hs2; [discriminate|].
  destruct (WalkDir_invariant (sizePass symlink) (fun _ => True) (fun _ => True)
              (fun a b => tree b = tree a /\ stdout b = stdout a)
              ltac:(split; reflexivity)
              ltac:(intros a b c [? ?] [? ?]; split; congruence)
              ltac:(intros p d err st _ _; split; [exact I|];
                    unfold sizePass; repeat case_match; split; reflexivity)
              ltac:(auto) fuel srcRoot (to_stderr MCalculating (init fs)) I I)
    as [_ [Htree Hout]].
  destruct (WalkDir fuel (sizePass symlink) srcRoot _) as [s1 st1].
  cbn [snd tree stdout to_stderr init] in Htree, Hout.
  set (st0 := to_stderr (MTotalSize (overallSize st1)) st1).
  destruct (WalkDir fuel (mirrorPass dirSize symlink _ _ srcRoot dstRoot) srcRoot st0)
    as [s2 st2] eqn:Hw2.
  assert (s1 <> OutOfFuel -> s2 = Ok ->
          exists srcRoot0 dstRoot0 i0 i3 st3 st',
            Some srcRoot = Some srcRoot0 /\ Some dstRoot = Some dstRoot0
            /\ Stat fs srcRoot0 = Some i0 /\ Stat fs dstRoot0 = Some i3
            /\ tree st3 = fs /\ stdout st3 = []
            /\ walkDir fuel (mirrorPass dirSize symlink (moveFlag fl) (applyFlag fl)
                                       srcRoot0 dstRoot0)
                       srcRoot0 (mkEntry (Base srcRoot0) (IsDir i0)) st3 = (Ok, st')
            /\ tree st2 = tree st'
            /\ List.incl (stdout st')
                 (stdout st2 ++ [if applyFlag fl
                                 then MComplete (copied st2) (moveFlag fl) (skipped st2)
                                 else MPreview (copied st2) (moveFlag fl)])) as Hok.
  { intros _ ->. exists srcRoot, dstRoot, i1, i2, st0, st2.
    unfold WalkDir in Hw2. replace (tree st0) with fs in Hw2 by (symmetry; exact Htree).
    rewrite Hs1 in Hw2.
    apply StatErr_Some in Hs1, Hs2.
    repeat (split; [first [reflexivity|assumption]|]).
    apply List.incl_appl, List.incl_refl. }
  destruct s1; [| |discriminate]; destruct s2; try discriminate;
    intros _; apply Hok; [discriminate|reflexivity|discriminate|reflexivity].
Qed.

(** Once every source entry has its destination, a walk does nothing. *)
Lemma settled_walk srcRoot dstRoot move apply fuel fs st :
  good fs -> NoDup (List.map fst fs) -> settled symlink srcRoot dstRoot fs ->
  (exists i, Stat fs srcRoot = Some i) ->
  tree st = fs /\ copied st = 0 ->
  tree (snd (WalkDir fuel (mirrorPass dirSize symlink move apply srcRoot dstRoot)
                     srcRoot st)) = fs
  /\ copied (snd (WalkDir fuel (mirrorPass dirSize symlink move apply srcRoot dstRoot)
                          srcRoot st)) = 0.
Proof.
  intros Hgood Hnd Hsettled [i0 Hi0] Hst.
  unfold WalkDir. rewrite (proj1 Hst), (closed_StatErr _ _ _ (proj1 Hgood) Hi0).
  apply (walkDir_entry_invariant
           (mirrorPass dirSize symlink move apply srcRoot dstRoot)
           (fun st => tree st = fs /\ copied st = 0)
           (fun p d => is_prefix srcRoot p = true
                       /\ exists i, Stat fs p = Some i /\ EntryIsDir d = IsDir i)).
  - intros p d err st' [Hp (i & Hi & Hd)] [Ht Hc].
    unfold mirrorPass. destruct err as [e|]; [auto|]. rewrite Ht.
    destruct (StatErr fs (JoinRel dstRoot (Rel srcRoot p))) as [e|j] eqn:Hdest;
      [|destruct (negb (EntryIsDir d)); auto].
    destruct (negb (IsNotExist e)); [auto|].
    assert (IsDir i = true \/ symlink p = false -> False) as Hno.
    { intros Hkind. destruct (Hsettled p i Hp Hi Hkind) as [j Hj].
      unfold destination in Hj.
      rewrite (closed_StatErr _ _ _ (proj1 Hgood) Hj) in Hdest. discriminate. }
    rewrite Hd. destruct (IsDir i); [exfalso; auto|].
    destruct (symlink p); [auto|exfalso; auto].
  - intros p d st' d1 [Hp (i & Hi & Hd)] [Ht Hc] Hd1. rewrite Ht in Hd1.
    destruct (below_child srcRoot p fs d1) as ([Hb _] & i' & Hin & Hkind & _);
      [split; [exact Hp|eapply Hgood, Hi]|apply Hgood|exact Hd1|].
    split; [exact Hb|]. exists i'. split; [apply In_Stat; assumption|exact Hkind].
  - split; [apply is_prefix_refl|]. exists i0. auto.
  - exact Hst.
Qed.

(** What holds of the state at the start, is kept by every line printed,
    by the first pass and by the second walk, holds at the end of a
    run. *)
Lemma runCopyMoveOperation_state (P : run -> Prop) fuel fl fs :
  P (init fs) ->
  (forall l st, P st -> P (to_stderr l st)) ->
  (forall l st, P st -> P (to_stdout l st)) ->
  (forall n st, P st -> P (add_size n st)) ->
  (forall srcRoot dstRoot st,
     sourceFlag fl = Some srcRoot -> targetFlag fl = Some dstRoot ->
     P st ->
     P (snd (WalkDir fuel (mirrorPass dirSize symlink (moveFlag fl) (applyFlag fl)
                                      srcRoot dstRoot) srcRoot st))) ->
  P (snd (runCopyMoveOperation dirSize symlink fuel fl fs)).
Proof.
  intros Hinit Herr Hout Hsize Hwalk. unfold runCopyMoveOperation.
  destruct (negb (copyFlag fl) && negb (moveFlag fl)); [cbn [snd]; auto|].
  destruct (copyFlag fl && moveFlag fl); [cbn [snd]; auto|].
  destruct (sourceFlag fl) as [srcRoot|]; [|cbn [snd]; auto].
  destruct (targetFlag fl) as [dstRoot|]; [|cbn [snd]; auto].
  destruct (StatErr fs srcRoot) as [e|i1]; [cbn [snd]; auto|].
  destruct (StatErr fs dstRoot) as [e|i2]; [cbn [snd]; auto|].
  destruct (WalkDir_invariant (sizePass symlink) P (fun _ => True) (fun _ _ => True)
              (fun _ => I) (fun _ _ _ _ _ => I)
              ltac:(intros p d err st _ Hst; split; [|exact I];
                    unfold sizePass; repeat case_match; cbn [snd]; auto)
              ltac:(auto) fuel srcRoot (to_stderr MCalculating (init fs)) I
              ltac:(auto)) as [Hfirst _].
  destruct (WalkDir fuel (sizePass symlink) srcRoot _) as [s1 st1]. cbn [snd] in Hfirst.
  specialize (Hwalk srcRoot dstRoot
                (to_stderr (MTotalSize (overallSize st1)) st1) eq_refl eq_refl
                ltac:(auto)).
  destruct s1; [| |exact Hfirst];
    destruct (WalkDir fuel (mirrorPass _ _ _ _ _ _) srcRoot _) as [[| |] st2];
    cbn [snd] in *; auto.
Qed.

(** X21.  A second run finds nothing to do: after a copy or a move that
    was applied and returned, on a well-formed tree with roots that do not
    contain each other, a further copy or move between the same roots,
    previewed or applied, leaves the tree as it is and counts no file. *)
Theorem second_run_changes_nothing (fuel fuel' : nat) (fl fl' : flags)
    (fs : fsys) (srcRoot dstRoot : path) :
  wf_fs fs = true ->
  applyFlag fl = true ->
  sourceFlag fl = Some srcRoot -> targetFlag fl = Some dstRoot ->
  sourceFlag fl' = Some srcRoot -> targetFlag fl' = Some dstRoot ->
  is_prefix srcRoot dstRoot = false -> is_prefix dstRoot srcRoot = false ->
  fst (runCopyMoveOperation dirSize symlink fuel fl fs) = Returned ->
  let fs1 := tree (snd (runCopyMoveOperation dirSize symlink fuel fl fs)) in
  tree (snd (runCopyMoveOperation dirSize symlink fuel' fl' fs1)) = fs1
  /\ copied (snd (runCopyMoveOperation dirSize symlink fuel' fl' fs1)) = 0.
Proof.
  intros Hwf Happly Hsrc Hdst Hsrc' Hdst' Hsd Hds Hret fs1.
  assert (good fs) as Hgood by (split; [apply wf_closed|apply wf_names_ok]; exact Hwf).
  destruct (runCopyMoveOperation_returned fuel fl fs Hret)
    as (s & t & i1 & i2 & st0 & st1 & Hs & Ht & Hi1 & Hi2 & Htree & _
        & Hwalk & Hfinal & _).
  assert (s = srcRoot) as -> by congruence.
  assert (t = dstRoot) as -> by congruence.
  assert (List.forallb valid_name dstRoot = true) as Hvd by (eapply Hgood, Hi2).
  assert (below srcRoot srcRoot) as Hroot
    by (split; [apply is_prefix_refl|eapply Hgood, Hi1]).
  assert (destination srcRoot dstRoot srcRoot = dstRoot) as Hdest.
  { unfold destination. rewrite <- (List.app_nil_r srcRoot) at 2.
    rewrite Rel_below. reflexivity. }
  rewrite Happly in Hwalk. rewrite <- Htree in Hgood, Hi1, Hi2.
  assert (NoDup (List.map fst (tree st0))) as Hnd0
    by (rewrite Htree; apply wf_NoDup, Hwf).
  assert (good fs1 /\ NoDup (List.map fst fs1)
          /\ settled symlink srcRoot dstRoot fs1
          /\ exists i, Stat fs1 srcRoot = Some i)
    as (Hgood1 & Hnd1 & Hsettled & Hroot1).
  { subst fs1. rewrite Hfinal. clear Hfinal.
    destruct (walk_moves_on srcRoot dstRoot Hsd Hds Hvd (moveFlag fl) true fuel srcRoot
                (mkEntry (Base srcRoot) (IsDir i1)) st0 Hroot Hgood)
      as [Hg (Hk & Hshrink & _ & Hprot)].
    destruct (walkDir_invariant
                (mirrorPass dirSize symlink (moveFlag fl) true srcRoot dstRoot)
                (fun st => good (tree st) /\ NoDup (List.map fst (tree st)))
                (below srcRoot) (fun _ _ => True) (fun _ => I)
                (fun _ _ _ _ _ => I)) with (fuel := fuel) (p := srcRoot)
                (d := mkEntry (Base srcRoot) (IsDir i1)) (st := st0)
      as [[_ Hnd] _]; auto.
    { intros p d err st Hp' [Hg' Hnd']. split; [|exact I]. split.
      - apply mirrorPass_good; assumption.
      - apply mirrorPass_NoDup; assumption. }
    { intros p st d1 Hp' [[_ Hn] _] Hd1.
      apply (below_child srcRoot p (tree st) d1 Hp' Hn Hd1). }
    rewrite Hwalk in Hg, Hk, Hshrink, Hprot, Hnd.
    cbn [snd] in Hg, Hk, Hshrink, Hprot, Hnd.
    split; [exact Hg|]. split; [exact Hnd|]. split.
    - intros q i Hq Hi Hlink. apply Hshrink in Hi; [|exact Hq].
      destruct (moveFlag fl).
      + destruct (move_walk_covers srcRoot dstRoot Hsd Hds Hvd fuel srcRoot
                    (mkEntry (Base srcRoot) (IsDir i1)) st0 st1 i1
                    Hroot Hgood Hi1 eq_refl Hwalk q i Hq Hi Hlink) as (j & Hj & _).
        eauto.
      + destruct (copy_walk_covers srcRoot dstRoot fuel srcRoot
                    (mkEntry (Base srcRoot) (IsDir i1)) st0 st1 i1
                    Hvd Hroot Hgood Hi1 eq_refl Hwalk q i Hq Hi Hlink) as (j & Hj & _).
        eauto.
    - exists i1. apply (Hprot srcRoot i1 i2 Hroot Hi1). rewrite Hdest. exact Hi2. }
  apply (runCopyMoveOperation_state
           (fun st => tree st = fs1 /\ copied st = 0)); auto.
  intros s t st Hs' Ht' Hst.
  assert (s = srcRoot) as -> by congruence.
  assert (t = dstRoot) as -> by congruence.
  apply settled_walk; assumption.
Qed.

End EngineRuns.

(** ** A preview against the run it previews *)

Section Frames.

Variable dirSize : Z.

Lemma resolve_snoc fs seen rest x :
  resolve fs seen (rest ++ [x])
  = match resolve fs seen rest with
    | inl e => inl e
    | inr j =>
        if IsDir j then
          match Stat fs (seen ++ rest ++ [x]) with
          | Some i => inr i
          | None => inl ENOENT
          end
        else inl ENOTDIR
    end.
Proof.
  revert seen. induction rest as [|n rest IH]; intros seen; cbn [resolve List.app].
  - destruct (Stat fs seen) as [info|]; [|reflexivity].
    destruct (IsDir info); reflexivity.
  - destruct (Stat fs seen) as [info|]; [|reflexivity].
    destruct (IsDir info); [|reflexivity].
    rewrite IH, <- List.app_assoc. reflexivity.
Qed.

Lemma StatErr_snoc fs P x :
  StatErr fs (P ++ [x])
  = match StatErr fs P with
    | inl e => inl e
    | inr j =>
        if IsDir j then
          match Stat fs (P ++ [x]) with
          | Some i => inr i
          | None => inl ENOENT
          end
        else inl ENOTDIR
    end.
Proof. apply (resolve_snoc fs [] P x). Qed.

(** [os.Stat] looks at the prefixes of the path only. *)
Lemma resolve_frame T T' seen rest :
  (forall q, is_prefix seen q = true -> is_prefix q (seen ++ rest) = true ->
             Stat T' q = Stat T q) ->
  resolve T' seen rest = resolve T seen rest.
Proof.
  revert seen. induction rest as [|n rest IH]; intros seen Hsame; cbn [resolve].
  - rewrite Hsame; [reflexivity|apply is_prefix_refl|].
    apply is_prefix_app. eauto.
  - rewrite Hsame; [|apply is_prefix_refl|apply is_prefix_app; eauto].
    destruct (Stat T seen) as [info|]; [|reflexivity].
    destruct (IsDir info); [|reflexivity].
    apply IH. intros q Hq1 Hq2. apply Hsame.
    + eapply is_prefix_trans; [|exact Hq1]. apply is_prefix_app. eauto.
    + rewrite <- List.app_assoc in Hq2. exact Hq2.
Qed.

Lemma StatErr_frame T T' D :
  (forall q, is_prefix q D = true -> Stat T' q = Stat T q) ->
  StatErr T' D = StatErr T D.
Proof. intros H. apply resolve_frame. intros q _ Hq. apply H, Hq. Qed.

Lemma untouched_Stat keep T T' q :
  untouched keep T T' -> keep q = true -> Stat T' q = Stat T q.
Proof.
  intros H Hq.
  rewrite <- (Stat_filter_kept keep T' q Hq), <- (Stat_filter_kept keep T q Hq).
  unfold untouched in H. rewrite H. reflexivity.
Qed.

Lemma untouched_refl keep T : untouched keep T T.
Proof. reflexivity. Qed.

Lemma untouched_trans keep T1 T2 T3 :
  untouched keep T1 T2 -> untouched keep T2 T3 -> untouched keep T1 T3.
Proof. unfold untouched. congruence. Qed.

(** A finer filter sees no more than a coarser one. *)
Lemma untouched_refine (keep keep' : path -> bool) T T' :
  (forall q, keep' q = true -> keep q = true) ->
  untouched keep T T' -> untouched keep' T T'.
Proof.
  intros Hsub H. unfold untouched in *.
  assert (forall l : fsys,
            List.filter (fun e => keep' (fst e)) l
            = List.filter (fun e => keep' (fst e))
                          (List.filter (fun e => keep (fst e)) l)) as Hfilter.
  { intros l. rewrite filter_filter_paths. apply List.filter_ext.
    intros e. destruct (keep' (fst e)) eqn:Hk; [|rewrite andb_false_r; reflexivity].
    rewrite (Hsub _ Hk). reflexivity. }
  rewrite (Hfilter T'), (Hfilter T), H. reflexivity.
Qed.

Lemma untouched_insert keep e T :
  keep (fst e) = false -> untouched keep T (insert_entry e T).
Proof.
  intros He. unfold untouched.
  induction T as [|a T IH]; cbn [insert_entry List.filter].
  - rewrite He. reflexivity.
  - destruct (path_ltb (fst e) (fst a)); cbn [List.filter]; [rewrite He; reflexivity|].
    destruct (path_eqb_spec (fst e) (fst a)) as [Heq|Hne]; cbn [List.filter].
    + rewrite He, <- Heq, He. reflexivity.
    + rewrite IH. reflexivity.
Qed.

Lemma untouched_remove keep p T :
  keep p = false ->
  untouched keep T (List.filter (fun e => negb (path_eqb (fst e) p)) T).
Proof.
  intros Hp. unfold untouched.
  induction T as [|a T IH]; cbn [List.filter]; [reflexivity|].
  destruct (path_eqb_spec (fst a) p) as [Heq|Hne]; cbn [negb List.filter].
  - rewrite Heq, Hp. exact IH.
  - rewrite IH. reflexivity.
Qed.

Lemma untouched_ReadDir p T T' :
  untouched (is_child p) T T' -> ReadDir T' p = ReadDir T p.
Proof. unfold untouched, ReadDir. intros ->. reflexivity. Qed.

Lemma is_child_prefix p q : is_child p q = true -> is_prefix p q = true.
Proof.
  unfold is_child. destruct q as [|a q]; [discriminate|].
  destruct (path_eqb_spec (removelast (a :: q)) p) as [<-|]; [|discriminate].
  intros _. apply Dir_prefix.
Qed.

(** The calls of an applied visit, when the directory of the destination
    exists. *)
Lemma MkdirAll_there T D j :
  StatErr T D = inr j -> IsDir j = true -> MkdirAll dirSize T D = (None, T).
Proof.
  intros Hs Hd. unfold MkdirAll.
  destruct (List.length D); cbn [MkdirAll_from]; rewrite Hs, Hd; reflexivity.
Qed.

Lemma ready_parent T D jp :
  closed T -> StatErr T D = inl ENOENT -> Stat T (Dir D) = Some jp ->
  D <> [] /\ StatErr T (Dir D) = inr jp /\ IsDir jp = true /\ Stat T D = None.
Proof.
  intros Hc He Hp.
  assert (D <> []) as Hne.
  { intros ->. cbn in Hp. unfold StatErr in He. cbn in He.
    rewrite Hp in He. discriminate. }
  pose proof (closed_StatErr _ _ _ Hc Hp) as Hparent.
  split; [exact Hne|]. split; [exact Hparent|].
  rewrite <- (Dir_Base D Hne), StatErr_snoc, Hparent in He.
  rewrite (Dir_Base D Hne) in He.
  destruct (IsDir jp); [|discriminate]. split; [reflexivity|].
  destruct (Stat T D); [discriminate|reflexivity].
Qed.

Lemma MkdirAll_one T D jp :
  closed T -> StatErr T D = inl ENOENT -> Stat T (Dir D) = Some jp ->
  MkdirAll dirSize T D = (None, insert_entry (D, mkInfo true dirSize) T).
Proof.
  intros Hc He Hp.
  destruct (ready_parent T D jp Hc He Hp) as (Hne & Hparent & Hdir & Hfree).
  assert (forall n, MkdirAll_from dirSize n T (Dir D) = (None, T)) as Hrec
    by (intros n; destruct n; cbn [MkdirAll_from]; rewrite Hparent, Hdir; reflexivity).
  assert (Mkdir dirSize T D = inr (insert_entry (D, mkInfo true dirSize) T)) as Hmk
    by (unfold Mkdir; rewrite Hparent, Hdir, Hfree; reflexivity).
  unfold MkdirAll.
  destruct (List.length D) as [|n]; cbn [MkdirAll_from]; rewrite He.
  - rewrite Hmk. reflexivity.
  - destruct (1 <? _)%nat; rewrite ?Hrec, Hmk; reflexivity.
Qed.

Lemma Create_one T D jp :
  StatErr T (Dir D) = inr jp -> IsDir jp = true -> Stat T D = None ->
  Create T D = inr (insert_entry (D, mkInfo false 0) T).
Proof. intros Hp Hd Hf. unfold Create. rewrite Hp, Hd, Hf. reflexivity. Qed.

Lemma Rename_one T p D info jp :
  Stat T p = Some info -> IsDir info = false ->
  Stat T (Dir D) = Some jp -> IsDir jp = true -> Stat T D = None ->
  Rename T p D
  = Some (insert_entry (D, info)
            (List.filter (fun e => negb (path_eqb (fst e) p)) T)).
Proof.
  intros Hp Hf Hparent Hd Hfree. unfold Rename.
  rewrite Hp, Hparent, Hfree, Hf, Hd. cbn [orb negb].
  rewrite path_eqb_neq; [reflexivity|]. intros ->. congruence.
Qed.

End Frames.

Section PreviewAgainstApply.

Variable dirSize : Z.
Variable symlink : path -> bool.
Variable fs0 : fsys.
Variables srcRoot dstRoot : path.
Variable move : bool.

Hypothesis Hgood0 : good fs0.
Hypothesis Hnodup : NoDup (List.map fst fs0).
Hypothesis Hsd : is_prefix srcRoot dstRoot = false.
Hypothesis Hds : is_prefix dstRoot srcRoot = false.
Hypothesis Hvd : List.forallb valid_name dstRoot = true.

Lemma overall_log st :
  stdout (overall st) = stdout st
  /\ starts (stderr (overall st)) = starts (stderr st)
  /\ copied (overall st) = copied st /\ skipped (overall st) = skipped st.
Proof.
  unfold overall. destruct (0 <? overallSize st); [|auto].
  cbn [stdout stderr copied skipped to_stderr]. unfold starts.
  rewrite List.flat_map_app. cbn. rewrite List.app_nil_r. auto.
Qed.

(** One visit, in the preview and in the applied run. *)
Lemma sim_visit r d sP sA ip :
  below srcRoot (srcRoot ++ r) ->
  tree sP = fs0 -> same_log sP sA ->
  ready fs0 (srcRoot ++ r) (dstRoot ++ r) (tree sA) ->
  Stat fs0 (srcRoot ++ r) = Some ip -> EntryIsDir d = IsDir ip ->
  fst (mirrorPass dirSize symlink move false srcRoot dstRoot (srcRoot ++ r) d None sP)
  = fst (mirrorPass dirSize symlink move true srcRoot dstRoot (srcRoot ++ r) d None sA)
  /\ tree (snd (mirrorPass dirSize symlink move false srcRoot dstRoot (srcRoot ++ r) d
                           None sP)) = fs0
  /\ same_log
       (snd (mirrorPass dirSize symlink move false srcRoot dstRoot (srcRoot ++ r) d None sP))
       (snd (mirrorPass dirSize symlink move true srcRoot dstRoot (srcRoot ++ r) d None sA))
  /\ (forall keep : path -> bool,
        keep (dstRoot ++ r) = false ->
        (IsDir ip = false -> keep (srcRoot ++ r) = false) ->
        untouched keep (tree sA)
          (tree (snd (mirrorPass dirSize symlink move true srcRoot dstRoot (srcRoot ++ r)
                                 d None sA))))
  /\ (fst (mirrorPass dirSize symlink move true srcRoot dstRoot (srcRoot ++ r) d None sA)
      = None -> IsDir ip = true ->
      exists j,
        Stat (tree (snd (mirrorPass dirSize symlink move true srcRoot dstRoot
                                    (srcRoot ++ r) d None sA)))
             (dstRoot ++ r) = Some j)
  /\ (IsDir ip = true -> StatErr fs0 (dstRoot ++ r) = inl ENOENT ->
      Stat (tree (snd (mirrorPass dirSize symlink move true srcRoot dstRoot
                                  (srcRoot ++ r) d None sA)))
           (dstRoot ++ r) = Some (mkInfo true dirSize))
  /\ (StatErr fs0 (dstRoot ++ r) <> inl ENOENT ->
      tree (snd (mirrorPass dirSize symlink move true srcRoot dstRoot (srcRoot ++ r)
                            d None sA)) = tree sA).
Proof.
  intros Hp HtreeP (Hskips & Hstarts & Hcopied & Hskipped)
         ((Hclosed & Hnames) & Hunder & Hstat & Hdest & [jp Hparent]) Hip Hd.
  destruct (destination_below srcRoot dstRoot _ Hp Hvd) as (r' & Hpr & Hjoin & Hvalid).
  apply List.app_inv_head in Hpr as <-.
  assert (Stat (tree sA) (srcRoot ++ r) = Some ip) as HipA.
  { rewrite <- Hip. apply (untouched_Stat (is_prefix (srcRoot ++ r)));
      [exact Hunder|apply is_prefix_refl]. }
  unfold mirrorPass. rewrite Hjoin, HtreeP, Hstat, Hd.
  destruct (StatErr fs0 (dstRoot ++ r)) as [e|j] eqn:HstatP.
  - destruct e; cbn [IsNotExist negb];
      try (split; [reflexivity|]; split; [exact HtreeP|];
           split; [repeat split; assumption|];
           split; [intros; apply untouched_refl|];
           split; [discriminate|]; split; [discriminate|reflexivity]).
    destruct (ready_parent _ _ _ Hclosed Hstat Hparent)
      as (Hne & HparentE & Hdir & Hfree).
    destruct (IsDir ip) eqn:Hkind.
    + rewrite (MkdirAll_one dirSize _ _ _ Hclosed Hstat Hparent).
      cbn [fst snd tree set_tree].
      split; [reflexivity|]. split; [exact HtreeP|].
      split; [repeat split; assumption|].
      split; [intros keep Hk _; apply untouched_insert; exact Hk|].
      split; [intros _ _; eexists; apply (Stat_insert_same (_, _))|].
      split; [intros _ _; apply (Stat_insert_same (_, _))|congruence].
    + destruct (symlink (srcRoot ++ r)) eqn:Hlink.
      { cbn [fst snd]. split; [reflexivity|]. split; [exact HtreeP|].
        split; [repeat split; assumption|].
        split; [intros; apply untouched_refl|].
        split; [intros _ H; discriminate H|].
        split; [discriminate|congruence]. }
      assert (same_log (to_stdout (MPlan move (Rel srcRoot (srcRoot ++ r)))
                                  (incr_copied sP))
                       (to_stderr (if move
                                   then MMoving (Rel srcRoot (srcRoot ++ r))
                                   else MCopying (Rel srcRoot (srcRoot ++ r)))
                                  (incr_copied sA))) as Hlog.
      { unfold same_log, skips, plans, starts in *.
        cbn [stdout stderr copied skipped to_stdout to_stderr incr_copied].
        rewrite !List.flat_map_app, Hskips, Hstarts, Hcopied, Hskipped.
        destruct move; cbn; rewrite ?List.app_nil_r; auto. }
      destruct move.
      * unfold moveFile. cbn [tree incr_copied].
        rewrite (MkdirAll_there dirSize _ _ _ HparentE Hdir). cbn [tree set_tree].
        rewrite (closed_StatErr _ _ _ Hclosed HipA).
        cbn [tree set_tree add_progress to_stderr].
        rewrite (Rename_one _ _ _ _ _ HipA Hkind Hparent Hdir Hfree).
        cbn [fst snd]. rewrite overall_tree. cbn [tree set_tree].
        split; [reflexivity|]. split; [exact HtreeP|]. split.
        { match goal with |- same_log _ (overall ?s) =>
            destruct (overall_log s) as (O1 & O2 & O3 & O4) end.
          unfold same_log in *. rewrite O1, O2, O3, O4.
          cbn [stdout stderr copied skipped to_stderr to_stdout set_tree
               add_progress incr_copied] in *.
          exact Hlog. }
        split.
        { intros keep Hk Hkp.
          eapply untouched_trans;
            [apply untouched_remove, Hkp; reflexivity
            |apply untouched_insert; exact Hk]. }
        split; [intros _ H; discriminate H|].
        split; [discriminate|congruence].
      * unfold copyFile. cbn [tree incr_copied].
        rewrite (closed_StatErr _ _ _ Hclosed HipA).
        rewrite (MkdirAll_there dirSize _ _ _ HparentE Hdir).
        rewrite (Create_one _ _ _ HparentE Hdir Hfree), Hkind.
        cbn [fst snd]. rewrite overall_tree.
        cbn [tree set_tree add_progress to_stderr].
        split; [reflexivity|]. split; [exact HtreeP|]. split.
        { match goal with |- same_log _ (overall ?s) =>
            destruct (overall_log s) as (O1 & O2 & O3 & O4) end.
          unfold same_log in *. rewrite O1, O2, O3, O4.
          cbn [stdout stderr copied skipped to_stderr to_stdout set_tree
               add_progress incr_copied] in *.
          unfold starts in *. rewrite List.flat_map_app. cbn.
          rewrite List.app_nil_r. exact Hlog. }
        split.
        { intros keep Hk _.
          eapply untouched_trans; apply untouched_insert; exact Hk. }
        split; [intros _ H; discriminate H|].
        split; [discriminate|congruence].
  - pose proof (StatErr_Some _ _ _ Hstat) as Hj.
    destruct (IsDir ip); cbn [negb fst snd].
    + split; [reflexivity|]. split; [exact HtreeP|].
      split; [repeat split; assumption|].
      split; [intros; apply untouched_refl|].
      split; [eauto|]. split; [discriminate|reflexivity].
    + split; [reflexivity|]. split; [exact HtreeP|]. split.
      { unfold same_log, skips, plans, starts in *.
        cbn [stdout stderr copied skipped to_stdout incr_skipped].
        rewrite !List.flat_map_app, Hskips, Hstarts, Hcopied, Hskipped.
        cbn. rewrite ?List.app_nil_r. auto. }
      split; [intros; apply untouched_refl|].
      split; [eauto|]. split; [discriminate|reflexivity].
Qed.

(** Nothing is below the source and below the target. *)
Lemma regions_apart a b q :
  is_prefix (srcRoot ++ a) q = true -> is_prefix (dstRoot ++ b) q = false.
Proof.
  intros Ha. destruct (is_prefix (dstRoot ++ b) q) eqn:Hb; [|reflexivity].
  exfalso. destruct (is_prefix_comparable _ _ _ Ha Hb) as [H|H].
  - pose proof (made_outside srcRoot dstRoot b (srcRoot ++ a) Hsd Hds H) as Hf.
    rewrite (proj2 (is_prefix_app srcRoot (srcRoot ++ a))) in Hf by eauto.
    discriminate.
  - pose proof (made_outside dstRoot srcRoot a (dstRoot ++ b) Hds Hsd H) as Hf.
    rewrite (proj2 (is_prefix_app dstRoot (dstRoot ++ b))) in Hf by eauto.
    discriminate.
Qed.

Lemma frame_Stat p D T T' q :
  frame p D T T' -> is_prefix p q = false -> is_prefix D q = false ->
  Stat T' q = Stat T q.
Proof.
  intros Hf Hp HD.
  apply (untouched_Stat (fun q' => path_eqb q' q)); [|apply path_eqb_refl].
  apply Hf. intros q' Hq'.
  destruct (path_eqb_spec q' q) as [E|]; [subst q'; auto|discriminate].
Qed.

Lemma frame_refl p D T : frame p D T T.
Proof. intros keep _. apply untouched_refl. Qed.

Lemma sibling_apart (p : path) x y q :
  x <> y -> is_prefix (p ++ [x]) q = true -> is_prefix (p ++ [y]) q = false.
Proof. intros Hxy. apply (apart_siblings p x y Hxy). Qed.

(** The entries of a directory of the tree of the preview. *)
Lemma ReadDir_entry p d1 :
  In d1 (ReadDir fs0 p) ->
  valid_name (Name d1) = true
  /\ exists i, Stat fs0 (p ++ [Name d1]) = Some i /\ EntryIsDir d1 = IsDir i.
Proof.
  intros (q & i & Hin & Hq & <- & -> & Hd)%ReadDir_child.
  pose proof (In_Stat fs0 q i Hnodup Hin) as Hstat.
  pose proof (proj2 Hgood0 _ _ Hstat) as Hv.
  split; [apply valid_Base; assumption|].
  exists i. rewrite (Dir_Base q Hq). auto.
Qed.

Lemma ReadDir_names_NoDup p : NoDup (List.map Name (ReadDir fs0 p)).
Proof.
  unfold ReadDir. clear Hgood0. revert Hnodup.
  induction fs0 as [|[q i] fs IH]; cbn [List.map List.filter fst snd];
    [constructor|].
  intros [Hq Hnd]%NoDup_cons.
  destruct (is_child p q) eqn:Hchild; [|apply IH, Hnd].
  cbn [List.map Name]. constructor; [|apply IH, Hnd].
  rewrite list_elem_of_In, List.in_map_iff. intros (d1 & Hname & Hd1).
  apply List.in_map_iff in Hd1 as ([q' i'] & <- & Hin').
  apply List.filter_In in Hin' as [Hin' Hchild']. cbn [fst snd Name] in *.
  apply Hq. rewrite list_elem_of_In. apply List.in_map_iff.
  exists (q', i'). split; [|exact Hin']. cbn [fst].
  assert (forall c, is_child p c = true -> c = p ++ [Base c]) as Hform.
  { intros c Hc. unfold is_child in Hc. destruct c as [|a c]; [discriminate|].
    destruct (path_eqb_spec (removelast (a :: c)) p) as [<-|]; [|discriminate].
    symmetry. apply Dir_Base. discriminate. }
  rewrite (Hform q Hchild), (Hform q' Hchild'), Hname. reflexivity.
Qed.

(** The walk below one entry of a directory leaves the tree ready for the
    visit of another. *)
Lemma ready_sibling p D x y T T' :
  paired srcRoot dstRoot p D -> x <> y -> good T' ->
  frame (p ++ [x]) (D ++ [x]) T T' ->
  ready fs0 (p ++ [y]) (D ++ [y]) T -> ready fs0 (p ++ [y]) (D ++ [y]) T'.
Proof.
  intros (r & -> & ->) Hxy Hgood' Hframe (_ & Hunder & Hstat & Hdest & [jp Hparent]).
  assert (forall q, is_prefix q ((dstRoot ++ r) ++ [y]) = true
                    \/ is_prefix ((dstRoot ++ r) ++ [y]) q = true ->
                    Stat T' q = Stat T q) as Hsame.
  { intros q Hq. apply (frame_Stat _ _ _ _ _ Hframe).
    - destruct (is_prefix ((srcRoot ++ r) ++ [x]) q) eqn:Hs; [|reflexivity].
      exfalso. rewrite <- List.app_assoc in Hs. destruct Hq as [Hq|Hq].
      + pose proof (is_prefix_trans _ _ _ Hs Hq) as H.
        pose proof (regions_apart (r ++ [x]) (r ++ [y]) _ H) as Hf.
        rewrite (List.app_assoc dstRoot r [y]), is_prefix_refl in Hf.
        discriminate.
      + rewrite <- List.app_assoc in Hq.
        rewrite (regions_apart _ _ _ Hs) in Hq. discriminate.
    - destruct (is_prefix ((dstRoot ++ r) ++ [x]) q) eqn:Hs; [|reflexivity].
      exfalso. destruct Hq as [Hq|Hq].
      + pose proof (is_prefix_trans _ _ _ Hs Hq) as H.
        pose proof (sibling_apart (dstRoot ++ r) x y _ Hxy H) as Hf.
        rewrite is_prefix_refl in Hf. discriminate.
      + rewrite (sibling_apart (dstRoot ++ r) x y _ Hxy Hs) in Hq. discriminate. }
  split; [exact Hgood'|]. split; [|split; [|split]].
  - eapply untouched_trans; [exact Hunder|]. apply Hframe. intros q Hq. split.
    + apply (sibling_apart (srcRoot ++ r) y x); [congruence|exact Hq].
    + rewrite <- List.app_assoc in *. apply (regions_apart _ _ _ Hq).
  - rewrite <- Hstat. apply StatErr_frame. intros q Hq. apply Hsame. auto.
  - intros q Hq. rewrite <- (Hdest q Hq). apply Hsame. auto.
  - exists jp. rewrite <- Hparent. apply Hsame. left.
    unfold Dir. rewrite List.removelast_last. apply is_prefix_app. eauto.
Qed.

Lemma source_not_above a b : is_prefix (srcRoot ++ a) (dstRoot ++ b) = false.
Proof.
  destruct (is_prefix (srcRoot ++ a) (dstRoot ++ b)) eqn:E; [|reflexivity].
  pose proof (regions_apart a b _ E) as Hf. rewrite is_prefix_refl in Hf.
  discriminate.
Qed.

Lemma frame_weaken p D x T T' :
  frame (p ++ [x]) (D ++ [x]) T T' -> frame p D T T'.
Proof.
  intros H keep Hk. apply H. intros q Hq. destruct (Hk q Hq) as [H1 H2]. split.
  - destruct (is_prefix (p ++ [x]) q) eqn:E; [|reflexivity].
    rewrite <- H1. symmetry. eapply is_prefix_trans; [|exact E].
    apply is_prefix_app. eauto.
  - destruct (is_prefix (D ++ [x]) q) eqn:E; [|reflexivity].
    rewrite <- H2. symmetry. eapply is_prefix_trans; [|exact E].
    apply is_prefix_app. eauto.
Qed.

Lemma frame_trans p D T1 T2 T3 :
  frame p D T1 T2 -> frame p D T2 T3 -> frame p D T1 T3.
Proof.
  intros H1 H2 keep Hk. eapply untouched_trans; [apply H1|apply H2]; exact Hk.
Qed.

(** After the visit of a directory the tree is ready for its entries. *)
Lemma ready_child r x T T1 :
  ready fs0 (srcRoot ++ r) (dstRoot ++ r) T -> good T1 ->
  (forall keep : path -> bool, keep (dstRoot ++ r) = false -> untouched keep T T1) ->
  (exists j, Stat T1 (dstRoot ++ r) = Some j) ->
  (StatErr fs0 (dstRoot ++ r) = inl ENOENT ->
   Stat T1 (dstRoot ++ r) = Some (mkInfo true dirSize)) ->
  (StatErr fs0 (dstRoot ++ r) <> inl ENOENT -> T1 = T) ->
  ready fs0 ((srcRoot ++ r) ++ [x]) ((dstRoot ++ r) ++ [x]) T1.
Proof.
  intros (Hgood & Hunder & Hstat & Hdest & _) Hgood1 Hkeep Hthere Hmade Hsame.
  assert (forall q, is_prefix ((dstRoot ++ r) ++ [x]) q = true ->
                    Stat T1 q = Stat fs0 q) as Hdest1.
  { intros q Hq. rewrite <- (Hdest q).
    - apply (untouched_Stat (fun q' => path_eqb q' q)); [|apply path_eqb_refl].
      apply Hkeep. destruct (path_eqb_spec (dstRoot ++ r) q) as [E|]; [|reflexivity].
      exfalso. rewrite <- E in Hq. apply is_prefix_length in Hq.
      rewrite List.length_app in Hq. simpl in Hq. lia.
    - eapply is_prefix_trans; [|exact Hq]. apply is_prefix_app. eauto. }
  split; [exact Hgood1|]. split; [|split; [|split]].
  - eapply untouched_trans.
    + eapply untouched_refine; [|exact Hunder]. intros q Hq.
      eapply is_prefix_trans; [|exact Hq]. apply is_prefix_app. eauto.
    + apply Hkeep. rewrite <- List.app_assoc. apply source_not_above.
  - rewrite !StatErr_snoc. rewrite (Hdest1 _ (is_prefix_refl _)).
    destruct (StatErr fs0 (dstRoot ++ r)) as [e|j] eqn:E.
    + destruct e; try (rewrite Hsame by discriminate; rewrite Hstat; reflexivity).
      rewrite (closed_StatErr _ _ _ (proj1 Hgood1) (Hmade eq_refl)).
      cbn [IsDir].
      destruct (Stat fs0 ((dstRoot ++ r) ++ [x])) as [i|] eqn:Hi; [|reflexivity].
      destruct (closed_ancestor _ _ _ _ (proj1 Hgood0) Hi) as (j & Hj & _).
      rewrite (closed_StatErr _ _ _ (proj1 Hgood0) Hj) in E. discriminate.
    + rewrite Hsame by discriminate. rewrite Hstat. reflexivity.
  - exact Hdest1.
  - unfold Dir. rewrite List.removelast_last. exact Hthere.
Qed.

Lemma agree_intro p D T s sP sA :
  tree sP = fs0 -> same_log sP sA -> good (tree sA) -> frame p D T (tree sA) ->
  agree fs0 p D T (s, sP) (s, sA).
Proof.
  intros H1 H2 H3 H4. unfold agree. cbn [fst snd].
  split; [reflexivity|]. split; [exact H1|]. split; [exact H2|].
  split; [exact H3|exact H4].
Qed.

Lemma walkEntries_cons fuel fn p d1 l st :
  walkEntries fuel fn p (d1 :: l) (Ok, st)
  = walkEntries fuel fn p l (walkDir fuel fn (Join p (Name d1)) d1 st).
Proof. reflexivity. Qed.

(** The entries of a directory, walked by the preview and by the applied
    run. *)
Lemma sim_entries fuel p D l :
  (forall p' D' d' sP sA ip,
     paired srcRoot dstRoot p' D' -> below srcRoot p' ->
     tree sP = fs0 -> same_log sP sA -> ready fs0 p' D' (tree sA) ->
     Stat fs0 p' = Some ip -> EntryIsDir d' = IsDir ip ->
     agree fs0 p' D' (tree sA)
       (walkDir fuel (mirrorPass dirSize symlink move false srcRoot dstRoot) p' d' sP)
       (walkDir fuel (mirrorPass dirSize symlink move true srcRoot dstRoot) p' d' sA)) ->
  paired srcRoot dstRoot p D -> below srcRoot p ->
  NoDup (List.map Name l) ->
  (forall d1, In d1 l ->
     valid_name (Name d1) = true
     /\ exists i, Stat fs0 (p ++ [Name d1]) = Some i /\ EntryIsDir d1 = IsDir i) ->
  forall sP sA,
    tree sP = fs0 -> same_log sP sA -> good (tree sA) ->
    (forall d1, In d1 l -> ready fs0 (p ++ [Name d1]) (D ++ [Name d1]) (tree sA)) ->
    agree fs0 p D (tree sA)
      (walkEntries fuel (mirrorPass dirSize symlink move false srcRoot dstRoot) p l (Ok, sP))
      (walkEntries fuel (mirrorPass dirSize symlink move true srcRoot dstRoot) p l (Ok, sA)).
Proof.
  intros Hwalk Hpair Hp.
  induction l as [|d1 l IH]; intros Hnd Hl sP sA HtP Hlog Hgood Hready.
  - apply agree_intro; try assumption. apply frame_refl.
  - cbn [List.map] in Hnd. apply NoDup_cons in Hnd as [Hfresh Hnd].
    destruct (Hl d1 (or_introl eq_refl)) as (Hv & i & Hi & Hkind).
    rewrite !walkEntries_cons, (Join_valid _ _ Hv).
    assert (paired srcRoot dstRoot (p ++ [Name d1]) (D ++ [Name d1])) as Hpair1.
    { destruct Hpair as (r & -> & ->). exists (r ++ [Name d1]).
      rewrite !List.app_assoc. auto. }
    assert (below srcRoot (p ++ [Name d1])) as Hp1.
    { destruct Hp as [Hp Hvp]. split.
      - eapply is_prefix_trans; [exact Hp|]. apply is_prefix_app. eauto.
      - rewrite List.forallb_app, Hvp. cbn. rewrite Hv. reflexivity. }
    pose proof (Hwalk _ _ d1 sP sA i Hpair1 Hp1 HtP Hlog
                  (Hready d1 (or_introl eq_refl)) Hi Hkind)
      as (Hfst & HtP1 & Hlog1 & Hgood1 & Hframe1).
    destruct (walkDir fuel (mirrorPass dirSize symlink move false srcRoot dstRoot) _ d1 sP)
      as [s1 sP1].
    destruct (walkDir fuel (mirrorPass dirSize symlink move true srcRoot dstRoot) _ d1 sA)
      as [s2 sA1].
    cbn [fst snd] in *. subst s2.
    destruct s1 as [|e|].
    + destruct (IH Hnd (fun d2 H2 => Hl d2 (or_intror H2)) sP1 sA1 HtP1 Hlog1 Hgood1)
        as (A1 & A2 & A3 & A4 & A5).
      { intros d2 H2. apply (ready_sibling p D (Name d1) (Name d2) (tree sA));
          [exact Hpair| |exact Hgood1|exact Hframe1|apply Hready; right; exact H2].
        intros E. apply Hfresh. rewrite list_elem_of_In, E.
        apply List.in_map, H2. }
      split; [exact A1|]. split; [exact A2|]. split; [exact A3|].
      split; [exact A4|].
      eapply frame_trans; [eapply frame_weaken; exact Hframe1|exact A5].
    + rewrite !walkEntries_stuck by discriminate.
      apply agree_intro; try assumption. eapply frame_weaken; exact Hframe1.
    + rewrite !walkEntries_stuck by discriminate.
      apply agree_intro; try assumption. eapply frame_weaken; exact Hframe1.
Qed.

(** A walk of the preview and the walk of the applied run from the same
    entry. *)
Lemma sim_walk fuel p D d sP sA ip :
  paired srcRoot dstRoot p D -> below srcRoot p ->
  tree sP = fs0 -> same_log sP sA -> ready fs0 p D (tree sA) ->
  Stat fs0 p = Some ip -> EntryIsDir d = IsDir ip ->
  agree fs0 p D (tree sA)
    (walkDir fuel (mirrorPass dirSize symlink move false srcRoot dstRoot) p d sP)
    (walkDir fuel (mirrorPass dirSize symlink move true srcRoot dstRoot) p d sA).
Proof.
  revert p D d sP sA ip.
  induction fuel as [|fuel IH]; intros p D d sP sA ip Hpair Hp HtP Hlog Hready Hip Hd.
  - cbn [walkDir]. apply agree_intro; try assumption;
      [apply Hready|apply frame_refl].
  - pose proof Hpair as (r & Ep & ED). subst p D.
    pose proof (sim_visit r d sP sA ip Hp HtP Hlog Hready Hip Hd)
      as (V1 & V2 & V3 & V4 & V5 & V6 & V7).
    destruct (mirrorPass_good dirSize symlink move true srcRoot dstRoot (srcRoot ++ r) d None
                sA Hvd Hp (proj1 Hready)) as [Hgood1 _].
    destruct (mirrorPass dirSize symlink move false srcRoot dstRoot (srcRoot ++ r) d None sP)
      as [eP sP1] eqn:HP.
    destruct (mirrorPass dirSize symlink move true srcRoot dstRoot (srcRoot ++ r) d None sA)
      as [eA sA1] eqn:HA.
    cbn [fst snd] in *. subst eA.
    assert (frame (srcRoot ++ r) (dstRoot ++ r) (tree sA) (tree sA1)) as Hframe1.
    { intros keep Hk. apply V4.
      - destruct (keep (dstRoot ++ r)) eqn:E; [|reflexivity].
        destruct (Hk _ E) as [_ H]. rewrite is_prefix_refl in H. discriminate.
      - intros _. destruct (keep (srcRoot ++ r)) eqn:E; [|reflexivity].
        destruct (Hk _ E) as [H _]. rewrite is_prefix_refl in H. discriminate. }
    destruct eP as [e|].
    + cbn [walkDir]. rewrite HP, HA. apply agree_intro; assumption.
    + destruct (IsDir ip) eqn:Hkind.
      * assert (forall keep : path -> bool, keep (dstRoot ++ r) = false ->
                  untouched keep (tree sA) (tree sA1)) as Hkeep
          by (intros keep Hk; apply V4; [exact Hk|discriminate]).
        assert (Stat (tree sA1) (srcRoot ++ r) = Some ip) as HipA.
        { rewrite <- Hip. transitivity (Stat (tree sA) (srcRoot ++ r)).
          - apply (untouched_Stat (fun q => path_eqb q (srcRoot ++ r)));
              [|apply path_eqb_refl].
            apply Hkeep.
            destruct (path_eqb_spec (dstRoot ++ r) (srcRoot ++ r)) as [E|];
              [|reflexivity].
            pose proof (source_not_above r r) as Hf.
            rewrite E, is_prefix_refl in Hf. discriminate.
          - apply (untouched_Stat (is_prefix (srcRoot ++ r)));
              [apply Hready|apply is_prefix_refl]. }
        rewrite (walkDir_entries _ fuel _ d sP sP1 ip HP Hd);
          [|rewrite V2; apply closed_StatErr; [apply Hgood0|exact Hip]|exact Hkind].
        rewrite (walkDir_entries _ fuel _ d sA sA1 ip HA Hd);
          [|apply closed_StatErr; [apply Hgood1|exact HipA]|exact Hkind].
        assert (ReadDir (tree sA1) (srcRoot ++ r) = ReadDir fs0 (srcRoot ++ r)) as ->.
        { apply untouched_ReadDir. eapply untouched_trans.
          - eapply untouched_refine; [|apply Hready]. apply is_child_prefix.
          - apply Hkeep.
            destruct (is_child (srcRoot ++ r) (dstRoot ++ r)) eqn:E; [|reflexivity].
            apply is_child_prefix in E. rewrite source_not_above in E.
            discriminate. }
        rewrite V2.
        destruct (sim_entries fuel (srcRoot ++ r) (dstRoot ++ r)
                    (ReadDir fs0 (srcRoot ++ r)) IH Hpair Hp
                    (ReadDir_names_NoDup _) (ReadDir_entry _) sP1 sA1 V2 V3 Hgood1)
          as (A1 & A2 & A3 & A4 & A5).
        { intros d1 _.
          apply (ready_child r (Name d1) (tree sA) (tree sA1) Hready Hgood1 Hkeep
                   (V5 eq_refl eq_refl) (V6 eq_refl) V7). }
        split; [exact A1|]. split; [exact A2|]. split; [exact A3|].
        split; [exact A4|].
        eapply frame_trans; [exact Hframe1|exact A5].
      * cbn [walkDir]. rewrite HP, HA, Hd. cbn [negb].
        apply agree_intro; assumption.
Qed.

End PreviewAgainstApply.

Section PreviewRuns.

Variable dirSize : Z.
Variable symlink : path -> bool.

(** The first pass prints nothing and leaves the tree. *)
Lemma first_pass_quiet fuel srcRoot st :
  tree (snd (WalkDir fuel (sizePass symlink) srcRoot st)) = tree st
  /\ stdout (snd (WalkDir fuel (sizePass symlink) srcRoot st)) = stdout st
  /\ stderr (snd (WalkDir fuel (sizePass symlink) srcRoot st)) = stderr st
  /\ copied (snd (WalkDir fuel (sizePass symlink) srcRoot st)) = copied st
  /\ skipped (snd (WalkDir fuel (sizePass symlink) srcRoot st)) = skipped st.
Proof.
  apply (WalkDir_invariant (sizePass symlink) (fun _ => True) (fun _ => True)
           (fun a b => tree b = tree a /\ stdout b = stdout a
                       /\ stderr b = stderr a /\ copied b = copied a
                       /\ skipped b = skipped a)); auto.
  - intros a b c (? & ? & ? & ? & ?) (? & ? & ? & ? & ?).
    split; [|split; [|split; [|split]]]; congruence.
  - intros p d err st' _ _. split; [exact I|].
    unfold sizePass. repeat case_match; cbn; auto.
Qed.

(** The second walk of a preview and of the applied run, from the state
    the first pass leaves. *)
Lemma mirror_walks_agree (fuel : nat) (move : bool) (fs : fsys)
    (srcRoot dstRoot : path) (i1 i2 : FileInfo) (st0 : run) :
  wf_fs fs = true ->
  is_prefix srcRoot dstRoot = false -> is_prefix dstRoot srcRoot = false ->
  StatErr fs srcRoot = inr i1 -> StatErr fs dstRoot = inr i2 ->
  tree st0 = fs -> same_log st0 st0 ->
  agree fs srcRoot dstRoot fs
    (WalkDir fuel (mirrorPass dirSize symlink move false srcRoot dstRoot) srcRoot st0)
    (WalkDir fuel (mirrorPass dirSize symlink move true srcRoot dstRoot) srcRoot st0).
Proof.
  intros Hwf Hsd Hds Hs1 Hs2 Htree0 Hlog0.
  assert (good fs) as Hgood by (split; [apply wf_closed|apply wf_names_ok]; exact Hwf).
  pose proof (StatErr_Some _ _ _ Hs1) as Hi1.
  pose proof (StatErr_Some _ _ _ Hs2) as Hi2.
  assert (ready fs srcRoot dstRoot fs) as Hready.
  { split; [exact Hgood|]. split; [apply untouched_refl|].
    split; [reflexivity|]. split; [reflexivity|].
    destruct dstRoot as [|x t]; [cbn; eauto|].
    destruct (proj1 Hgood _ _ Hi2) as (j & Hj & _); [discriminate|eauto]. }
  pose proof (sim_walk dirSize symlink fs srcRoot dstRoot move Hgood
                (wf_NoDup fs Hwf) Hsd Hds ltac:(eapply Hgood, Hi2) fuel
                srcRoot dstRoot (mkEntry (Base srcRoot) (IsDir i1)) st0 st0 i1) as H.
  unfold WalkDir. rewrite Htree0, Hs1. rewrite Htree0 in H.
  apply H; try assumption; try reflexivity.
  - exists []. rewrite !List.app_nil_r. auto.
  - split; [apply is_prefix_refl|eapply Hgood, Hi1].
Qed.

(** X22.  The preview lists what an applied run that returns does: on a
    well-formed tree with roots that do not contain each other, when the
    command with [-apply] returns, the same command without it returns
    too, reports the same files as skipped, and has listed the files, in
    the order, that the applied run started a copy or a move on; the two
    runs count the same files. *)
Theorem preview_lists_what_apply_does (fuel : nat) (fl : flags) (fs : fsys)
    (srcRoot dstRoot : path) :
  wf_fs fs = true ->
  sourceFlag fl = Some srcRoot -> targetFlag fl = Some dstRoot ->
  is_prefix srcRoot dstRoot = false -> is_prefix dstRoot srcRoot = false ->
  let preview := runCopyMoveOperation dirSize symlink fuel (with_apply false fl) fs in
  let applied := runCopyMoveOperation dirSize symlink fuel (with_apply true fl) fs in
  fst applied = Returned ->
  fst preview = Returned
  /\ plans (stdout (snd preview)) = starts (stderr (snd applied))
  /\ skips (stdout (snd preview)) = skips (stdout (snd applied))
  /\ copied (snd preview) = copied (snd applied)
  /\ skipped (snd preview) = skipped (snd applied).
Proof.
  intros Hwf Hsrc Hdst Hsd Hds. unfold runCopyMoveOperation.
  cbn [with_apply copyFlag moveFlag applyFlag sourceFlag targetFlag].
  rewrite Hsrc, Hdst.
  destruct (negb (copyFlag fl) && negb (moveFlag fl)); [discriminate|].
  destruct (copyFlag fl && moveFlag fl); [discriminate|].
  destruct (StatErr fs srcRoot) as [e|i1] eqn:Hs1; [discriminate|].
  destruct (StatErr fs dstRoot) as [e|i2] eqn:Hs2; [discriminate|].
  destruct (first_pass_quiet fuel srcRoot (to_stderr MCalculating (init fs)))
    as (Htree & Hout & Herr & Hcopied & Hskipped).
  destruct (WalkDir fuel (sizePass symlink) srcRoot _) as [s1 st1].
  cbn [snd tree stdout stderr copied skipped to_stderr init List.app] in *.
  set (st0 := to_stderr (MTotalSize (overallSize st1)) st1).
  assert (same_log st0 st0) as Hlog0.
  { unfold same_log. subst st0. cbn [stdout stderr to_stderr].
    rewrite Hout, Herr. cbn. auto. }
  pose proof (mirror_walks_agree fuel (moveFlag fl) fs srcRoot dstRoot i1 i2 st0
                Hwf Hsd Hds Hs1 Hs2 Htree Hlog0)
    as (A1 & _ & (L1 & L2 & L3 & L4) & _).
  destruct (WalkDir fuel (mirrorPass dirSize symlink (moveFlag fl) false srcRoot dstRoot)
                    srcRoot st0) as [sP stP].
  destruct (WalkDir fuel (mirrorPass dirSize symlink (moveFlag fl) true srcRoot dstRoot)
                    srcRoot st0) as [sA stA].
  cbn [fst snd] in *. subst sA.
  destruct s1; [| |discriminate]; destruct sP; try discriminate; intros _;
    cbn [fst snd stdout stderr copied skipped to_stdout to_stderr];
    unfold skips, plans, starts in *; rewrite ?List.flat_map_app;
    cbn [List.flat_map List.app]; rewrite ?List.app_nil_r; auto.
Qed.

End PreviewRuns.

Section EarlierProgram.

Variable dirSize : Z.

(** The bar of the earlier program cannot be drawn at 100 percent. *)
Lemma bar_earlier_full pct now :
  0 <= pct <= 100 -> 0 <= now < 2 ^ 63 ->
  Progress.bar_earlier pct now = None <-> pct = 100.
Proof.
  intros Hrange Hnow.
  destruct (filled_width pct Hrange) as (Hfw & Hk & Hk40).
  unfold Progress.bar_earlier. rewrite Hfw.
  set (k := pct * 40 / 100) in *.
  assert (exists frame, Progress.animFrame now = Some frame) as (frame & ->)
    by (destruct (animFrame_two now Hnow) as [H|H]; eauto).
  rewrite (wrap64_small (40 - k)), (wrap64_small (40 - k - 1))
    by (change (2 ^ 63) with 9223372036854775808; lia).
  rewrite (Repeat_small "█" k Hk) by (simpl; lia).
  destruct (Z.eq_dec k 40) as [Hk'|Hk'].
  - rewrite Repeat_negative by lia. split; [|reflexivity].
    intros _. apply Hk40, Hk'.
  - rewrite (Repeat_small " " (40 - k - 1)) by (simpl; lia).
    split; [discriminate|]. intros Hfull. exfalso. apply Hk', Hk40, Hfull.
Qed.

(** X23.  The earlier program panics when a move completes the overall
    progress: when [moveFile] of [main.go] moves a file to a free place in
    an existing directory, the total size is positive and the clock is
    past 1970, the file is renamed first; then the call panics if the
    bytes moved so far have reached the total size (the blank part of the
    bar is asked for -1 times), and otherwise it returns without error,
    having printed the hundredfold of the bytes over the total. *)
Theorem earlier_move_panics_at_full_progress (now : Z) (src dst rel : path)
    (st : run) (info parent : FileInfo) :
  closed (tree st) ->
  Stat (tree st) src = Some info -> IsDir info = false ->
  Stat (tree st) (Dir dst) = Some parent -> IsDir parent = true ->
  Stat (tree st) dst = None ->
  0 < overallSize st ->
  0 <= overallProgress st + Size info ->
  (overallProgress st + Size info) * 100 < 2 ^ 63 ->
  0 <= now < 2 ^ 63 ->
  exists st',
    Stat (tree st') src = None /\ Stat (tree st') dst = Some info
    /\ stderr st' = stderr st ++ [MMoving rel]
    /\ if overallSize st <=? overallProgress st + Size info
       then Earlier.moveFile dirSize now src dst rel st = Earlier.Panics st'
       else exists b,
           Earlier.moveFile dirSize now src dst rel st
           = Earlier.Returns None st'
               (Some ((overallProgress st + Size info) * 100 / overallSize st, b)).
Proof.
  intros Hclosed Hsrc Hfile Hparent Hdir Hfree Hsize Hpos Hbig Hnow.
  unfold Earlier.moveFile.
  rewrite (MkdirAll_there dirSize _ _ _ (closed_StatErr _ _ _ Hclosed Hparent) Hdir).
  cbn [tree set_tree]. rewrite (closed_StatErr _ _ _ Hclosed Hsrc).
  cbn [tree set_tree add_progress to_stderr].
  rewrite (Rename_one _ _ _ _ _ Hsrc Hfile Hparent Hdir Hfree).
  exists (set_tree (insert_entry (dst, info)
                      (List.filter (fun e => negb (path_eqb (fst e) src)) (tree st)))
                   (add_progress (Size info) (to_stderr (MMoving rel) st))).
  cbn [tree stdout stderr overallProgress overallSize skipped copied
       set_tree add_progress to_stderr].
  destruct (Z.ltb_spec 0 (overallSize st)) as [_|]; [|lia].
  rewrite (wrap64_small (overallProgress st + Size info))
    by (change (2 ^ 63) with 9223372036854775808 in *; lia).
  destruct (shown_percentage (overallProgress st + Size info) (overallSize st)
              Hsize Hpos Hbig) as (Hdiv & Hq & H100).
  unfold Progress.div64 in Hdiv.
  destruct (Z.eqb_spec (overallSize st) 0) as [|_]; [lia|].
  injection Hdiv as ->.
  set (q := (overallProgress st + Size info) * 100 / overallSize st) in *.
  set (pct := if 100 <? q then 100 else q).
  assert (0 <= pct <= 100 /\ (pct = 100 <-> 100 <= q) /\ (q < 100 -> pct = q))
    as (Hrange & Hfull & Hsame)
    by (subst pct; destruct (Z.ltb_spec 100 q); lia).
  pose proof (bar_earlier_full pct now Hrange Hnow) as Hbar.
  assert (src <> dst) as Hne by (intros ->; congruence).
  split.
  { rewrite Stat_insert_other by (cbn [fst]; exact Hne).
    apply (Stat_filter_dropped (fun p => negb (path_eqb p src))).
    rewrite path_eqb_refl. reflexivity. }
  split; [apply (Stat_insert_same (dst, info))|].
  split; [reflexivity|].
  destruct (Z.leb_spec (overallSize st) (overallProgress st + Size info)) as [Hle|Hlt].
  - rewrite (proj2 Hbar) by (apply Hfull, H100, Hle). reflexivity.
  - assert (q < 100) as Hq100 by lia.
    destruct (Progress.bar_earlier pct now) as [b|] eqn:Hb;
      [|exfalso; pose proof (proj1 Hbar eq_refl); lia].
    exists b. rewrite (Hsame Hq100). reflexivity.
Qed.

End EarlierProgram.

Lemma without_apply_nothing_changes_witness :
  tree_of (main EqualFoldASCII 4096 no_links 10 (moving false) album) = album.
Proof.
  apply (without_apply_nothing_changes EqualFoldASCII 4096 no_links 10 (moving false) album).
  reflexivity.
Defined.



Lemma mirror_run_ends_witness :
  fst (runCopyMoveOperation 4096 no_links 4 (copying true) album) <> Unfinished.
Proof.
  apply (mirror_run_ends 4096 no_links 4 (copying true) album);
    [reflexivity| |vm_compute; lia].
  right. intros srcRoot dstRoot [= <-] [= <-]. reflexivity.
Defined.

Lemma no_file_is_lost_witness :
  Stat (tree (snd (runCopyMoveOperation 4096 no_links 10 (moving true) album)))
       ["src"; "sub"; "b.jpg"] = Some (mkInfo false 9)
  \/ Stat (tree (snd (runCopyMoveOperation 4096 no_links 10 (moving true) album)))
          (destination ["src"] ["dst"] ["src"; "sub"; "b.jpg"])
     = Some (mkInfo false 9).
Proof.
  apply (no_file_is_lost 4096 no_links 10 (moving true) album ["src"] ["dst"]);
    reflexivity.
Defined.

Lemma copy_mirrors_the_source_witness :
  exists j,
    Stat (tree (snd (runCopyMoveOperation 4096 no_links 10 (copying true) album)))
         (destination ["src"] ["dst"] ["src"; "sub"; "b.jpg"]) = Some j
    /\ (IsDir (mkInfo false 9) = false ->
        In (MSkip (Rel ["src"] ["src"; "sub"; "b.jpg"]))
           (stdout (snd (runCopyMoveOperation 4096 no_links 10 (copying true) album)))
        \/ j = mkInfo false (Size (mkInfo false 9))).
Proof.
  apply (copy_mirrors_the_source 4096 no_links 10 (copying true) album ["src"] ["dst"]);
    try reflexivity.
  right. reflexivity.
Defined.

Lemma mirror_summary_counts_witness :
  exists body,
    stdout (snd (runCopyMoveOperation 4096 no_links 10 (copying true) album))
    = body ++ [MComplete 1 false 1]
    /\ count is_skip body = 1
    /\ count (is_start false)
             (stderr (snd (runCopyMoveOperation 4096 no_links 10 (copying true) album))) = 1.
Proof.
  destruct (mirror_summary_counts 4096 no_links 10 (copying true) album eq_refl)
    as (body & Hout & _ & Hs & Hc).
  exists body. split; [exact Hout|]. split; [symmetry; exact Hs|symmetry; exact Hc].
Defined.

Lemma move_mirrors_the_source_witness :
  exists j,
    Stat (tree (snd (runCopyMoveOperation 4096 no_links 10 (moving true) album)))
         (destination ["src"] ["dst"] ["src"; "a.jpg"]) = Some j
    /\ (IsDir (mkInfo false 5) = false ->
        (Stat (tree (snd (runCopyMoveOperation 4096 no_links 10 (moving true) album)))
              ["src"; "a.jpg"] = None /\ j = mkInfo false 5)
        \/ (In (MSkip (Rel ["src"] ["src"; "a.jpg"]))
                (stdout (snd (runCopyMoveOperation 4096 no_links 10 (moving true) album)))
            /\ Stat (tree (snd (runCopyMoveOperation 4096 no_links 10 (moving true) album)))
                    ["src"; "a.jpg"] = Some (mkInfo false 5))).
Proof.
  apply (move_mirrors_the_source 4096 no_links 10 (moving true) album ["src"] ["dst"]);
    try reflexivity.
  right. reflexivity.
Defined.

Lemma second_run_changes_nothing_witness :
  tree (snd (runCopyMoveOperation 4096 no_links 7 (moving false)
               (tree (snd (runCopyMoveOperation 4096 no_links 10 (copying true) album)))))
  = tree (snd (runCopyMoveOperation 4096 no_links 10 (copying true) album))
  /\ copied (snd (runCopyMoveOperation 4096 no_links 7 (moving false)
                    (tree (snd (runCopyMoveOperation 4096 no_links 10 (copying true) album)))))
     = 0.
Proof.
  apply (second_run_changes_nothing 4096 no_links 10 7 (copying true) (moving false) album
           ["src"] ["dst"]); reflexivity.
Defined.

Lemma preview_lists_what_apply_does_witness :
  plans (stdout (snd (runCopyMoveOperation 4096 a_link 10
                        (with_apply false (moving false)) album)))
  = [["sub"; "b.jpg"]]
  /\ starts (stderr (snd (runCopyMoveOperation 4096 a_link 10
                           (with_apply true (moving false)) album)))
     = [["sub"; "b.jpg"]]
  /\ skips (stdout (snd (runCopyMoveOperation 4096 a_link 10
                          (with_apply false (moving false)) album)))
     = skips (stdout (snd (runCopyMoveOperation 4096 a_link 10
                             (with_apply true (moving false)) album))).
Proof.
  destruct (preview_lists_what_apply_does 4096 a_link 10 (moving false) album
              ["src"] ["dst"]) as (_ & H1 & H2 & _); try reflexivity.
  split; [reflexivity|]. split; [rewrite <- H1; reflexivity|exact H2].
Defined.

Lemma earlier_move_panics_at_full_progress_witness :
  exists st',
    Stat (tree st') ["src"; "a.jpg"] = None
    /\ Stat (tree st') ["dst"; "b.jpg"] = Some (mkInfo false 5)
    /\ Earlier.moveFile 4096 1700000000000000000 ["src"; "a.jpg"] ["dst"; "b.jpg"]
         ["b.jpg"] (add_size 5 (init album))
       = Earlier.Panics st'.
Proof.
  destruct (earlier_move_panics_at_full_progress 4096 1700000000000000000
              ["src"; "a.jpg"] ["dst"; "b.jpg"] ["b.jpg"] (add_size 5 (init album))
              (mkInfo false 5) (mkInfo true 4096))
    as (st' & H1 & H2 & _ & H3);
    try reflexivity; try (cbn; lia).
  - apply wf_closed. reflexivity.
  - exists st'. auto.
Defined.
